(* ===== verification/_CoqProject ===== *)
-Q . S2P
Prelude.v
CppString.v
VizConstants.v
QueryTypes.v
SetOps.v
SortedLists.v
Xml.v
Json.v
AnalyticsQuery.v
StatsQuery.v
DbQuery.v
PostProcessing.v
StatsSelect.v
WhereQuery.v
QueryPipeline.v
PipelineResults.v
QueryResponse.v
SelectQuery.v
StatWalker.v
DomStats.v
DbHandler.v
SessionTable.v
RuleEngine.v
UserDefinedCounters.v
SyslogNetworks.v
SyslogConfig.v
SyslogFields.v
SyslogUve.v
SyslogMessage.v
SyslogStream.v
RuleList.v
QueryEngine.v
Generators.v
RedisUve.v
RedisConnection.v
OpServer.v
