(* ===== verification/Prelude.v ===== *)
(** * Contrail analytics: a verification library for tf-analytics

    The repository holds the analytics services of Tungsten Fabric.  Two of
    them are C++ programs: the collector ([src/contrail-collector]), which
    stores messages, statistics and flow sessions in Cassandra, and the query
    engine ([src/contrail-query-engine]), which answers queries over them.
    This library models the query engine, and of the collector what it makes of
    a message: the objects, statistics and sessions it stores in the tables the
    engine reads, the UVEs it publishes and keeps in Redis, its rules and its
    counters, and the generators it keeps for its clients.

    ** How the engine answers a query

    A query names a table, a time range, a SELECT list, a WHERE clause (an OR
    of ANDs of terms) and post-processing (filters, sort columns, a limit).
    The engine parses it ([AnalyticsQuery]), cuts the time range into chunks
    that are processed in parallel, translates every OR term into database
    sub-queries ([WhereQuery], [DbQueryUnit]), fetches their rows in pipelines,
    combines the fetched units with intersections and unions
    ([SetOperationUnit]), reads the selected columns or aggregates the samples
    ([StatsSelect]), filters, sorts and cuts the rows of a chunk
    ([PostProcessingQuery]) and finally merges the chunks.  [QueryEngine] is the
    face of this to the dispatcher: [QueryPrepare], [QueryExecWhere] and
    [QueryExec] each parse the query anew.

    ** How the collector handles a message

    A message is an XML document.  The rule engine ([Ruleeng::rule_execute])
    publishes a UVE, records the objects the message names, stores the message
    itself, walks the annotated structures of UVEs and object logs into
    statistics samples ([DomTopStatWalker], [StatWalker]), stores the samples of
    flow sessions ([DbHandler::SessionTableInsert]) and runs the rules.  The
    engine reads all of these tables; the round trips between the two programs
    are stated where the rows are written ([DbHandler], [SessionTable]).
    Messages come on the session of a generator ([Collector], [SandeshGenerator]),
    whose state machine the collector holds when the database pushes back.

    A syslog message comes by UDP or TCP.  A plain one is parsed, escaped and
    handed to the generator of its address ([SyslogParser]).  A structured one
    is cut out of the stream ([ProcessStructuredSyslog]), its fields are read and
    what the configuration knows of the host, the tenant and the service level is
    added to them ([StructuredSyslogDecorate]); then it is summarised in UVEs,
    forwarded, and stored as a statistics sample ([StatWalker] again), as the
    configuration of its tag says.

    ** Files

    - [Prelude]: tactics, the hint database [viz], machine integers as [Z] with
      their wrap-around written out ([u8] .. [u64]), strict weak orders, the
      C++ algorithms [std::set_intersection], [std::set_union] and [std::merge]
      on lists, multiplicities.
    - [CppString]: [std::string] ([find], [substr], [npos]), number parsing.
    - [VizConstants]: the constants of [viz.sandesh] the engine reads.
    - [QueryTypes]: enumerations, database values, result units and rows
      ([query.h], [json_parse.h], [QEOpServerProxy.h]).  The order of database
      values is the class [DbValueOrder].
    - [SetOps]: [set_operation.cc].
    - [SortedLists]: sorting and merging with comparators that may fail an
      assertion, and the first [k] of a sorted arrangement.
    - [Xml]: documents of pugixml, its handles and their accessors.
    - [Json]: rapidjson values and accessors, and the monad [outcome] of the
      constructors: [Done], [Status] for [status_details] with an error number,
      [Stopped] for an assertion, an exception or a dereferenced null.
    - [AnalyticsQuery]: [utils.cc] (times) and, of [query.cc], table
      classification, the time range, the parallel slices and chunk sizes.
    - [StatsQuery]: [stats_query.cc], the schemas of StatTables, and the column
      checks of [query.cc].
    - [DbQuery]: [db_query.cc]; the pipeline that fetches the rows is a step
      relation over its instances (Module [Pipeline]).
    - [PostProcessing]: the constructor in [query.cc] and [post_processing.cc].
    - [StatsSelect]: [stats_select.cc].
    - [WhereQuery]: [where_query.cc].
    - [QueryPipeline]: the pipeline of a query in [QEOpServerProxy.cc]: instances
      that draw chunks and collect their rows, as a step relation, and the merge
      of their results.  The two stages of the sources that are called
      [QueryExec] and [QueryMerge] are told apart by a prefix.
    - [PipelineResults]: the pipeline for statistics queries, and examples.
    - [QueryResponse]: of [QEOpServerProxy.cc], the JSON of the rows, the batches
      sent to Redis, and the table of running pipelines.
    - [SelectQuery]: [select.cc].
    - [StatWalker]: the collector's [stat_walker.cc], and the values of a sample
      ([db_handler.h]).
    - [DbHandler]: of the collector's [db_handler.cc], what is inserted for
      messages, objects, statistics and field names, and how the engine reads it
      back.
    - [DomStats]: of [ruleeng.cc], the walkers that turn an annotated structure
      into samples.
    - [SessionTable]: of [db_handler.cc], the samples of flow sessions, with the
      fields of [vizd_table_desc.cc], and how the engine reads them back.
    - [RuleEngine]: the rest of [ruleeng.cc], the handling of a message.
    - [RuleList]: the rules of [ruleparser/t_ruleparser.h] and the fields and
      counters of messages of [viz_message.cc].
    - [UserDefinedCounters]: [usrdef_counters.cc] and the search of a pattern
      ([parser_util.cc]).
    - [SyslogNetworks]: of [structured_syslog_config.cc], the networks of the
      sites and the search of the one an address belongs to.
    - [SyslogConfig]: the rest of it, the records and the documents that add and
      delete them, and the counters of sessions.
    - [SyslogFields]: [syslog_collector.cc], the fields of a message, its time,
      severity and text.
    - [SyslogUve]: of [structured_syslog_server.cc], the summaries in UVEs and the
      score of a link.
    - [SyslogMessage]: of the same file, the handling of one message.
    - [SyslogStream]: of the same file, the stream cut into messages.
    - [QueryEngine]: the rest of [query.cc]: [AnalyticsQuery::Init], the entry
      points of [QueryEngine], and the lifetimes of the data.
    - [Generators]: the collector's [collector.cc] and [generator.cc]: one store
      for the generators, their sessions and state machines; the calls the other
      components make are events, those made to them a list.
    - [RedisUve]: the collector's [redis_processor_vizd.cc] and the Lua scripts it
      sends: the UVEs in Redis, their indices, and the generators that may write.
    - [RedisConnection]: [redis_connection.cc] and, of [OpServerProxy.cc], the
      handlers of the two connections, as steps: what hiredis, the timers and the
      event manager may do are events, what the handlers call is a list.
    - [OpServer]: the rest of [OpServerProxy.cc], the partitions of
      [viz_collector.h], and [kafka_processor.cc].

    Functions keep their C++ names; a constructor is [X_ctor], a piece of a
    long function has a name of its own and a comment that says which piece.
    A [std::map] is a [gmap], a [multimap] the list of its entries in key
    order, a [vector] a list, a nullable pointer an [option].

    ** What is shown

    - Set operations: AND and OR of sorted results are sorted and hold exactly
      the common or all units, with the right multiplicities, in whatever order
      the inputs come.
    - Fetching: in every interleaving of the pipeline each row is fetched once
      and nothing is lost; the row keys cover the time range; a row contributes
      the columns in the window; every run of the pipeline comes to an answer,
      whatever the database responds; timestamps survive the split into T2 and T1.
    - Slicing: the chunks tile the time range, the loop that computes them
      terminates, and their number is bounded.
    - Execution: a query that is prepared is executed on exactly the windows of
      the prepared chunk sizes, as long as the clock gives every object the same
      range: absolute times have it until they expire ([settled_effective]),
      relative ones move with the clock; the OR terms of flow queries are covered
      when the WHERE clause filters no column; what a failed filter answers; the
      lifetimes are those of the database, or the defaults.
    - WHERE: the sub-queries give one answer whatever their order of
      completion; preparing a query and executing its OR terms agree; spread
      tag conditions are equivalent to their conjunction.
    - Aggregation: loading rows groups and aggregates them, and aggregating in
      parallel and merging is the same as aggregating at once.
    - Post-processing: filters, sort and limit return the right rows, and the
      limit may be applied to every chunk first, after its filter.
    - Pipeline: whatever the interleaving of its instances, a result reported
      as successful holds the rows of every chunk once, or for statistics what
      one pass over all samples gives, filtered and cut: for integer sums, counts,
      maxima and minima without COUNT_DISTINCT, over groups the hash separates,
      sorted by an aggregate only without a limit (the other cases have examples);
      the stage makes a bounded number of steps and is never stuck.
    - Response: the rows reach the client once and in order, and the status
      counts the batches; the table of pipelines keeps its bound and the load
      of the connections.
    - SELECT: messages, object logs and object queries give the rows the
      selected columns ask for; unrolled and plain sessions agree on the columns
      they share; choosing the columns never reads out of bounds.
    - Collector: walking nested statistics makes one sample for every node, with
      its attributes and the tags of its ancestors; field names are recorded
      once per cache period; samples and messages are read back by the engine
      as they were written, through its row callback and with the time split and
      joined, and a tag is stored where a condition on it looks.
    - Messages: walking an annotated document inserts exactly the samples of the
      structure its annotations describe; the objects of a message are recorded
      each once, its statistics and sessions inserted, the message stored
      exactly once if its type and the options allow it and not otherwise, and a
      UVE published with its key and attributes; sessions are read back by the
      engine, every attribute once and no other; the rules that apply
      are run and the counters are those of the messages; a configuration of
      counters replaces the one before.
    - Syslog: however a stream is cut into reads, every message is handled once
      with exactly its text, and cutting ends unless a message claims a negative
      length; a message of the documented form is read as its tag and fields,
      decorated with what the configuration says, stored as one sample with its
      fields as attributes; the bytes of a session are reported once, whatever
      updates are late or refused; the site of an address is that of the longest
      prefix, a network of all addresses apart, which is never found; the counters
      of sessions keep their limit.
    - Generators: whatever the events of clients, Redis, the database and the
      operator, sessions and generators point at each other, a step fails only in
      three cases that are named, every state machine has the collector's water
      marks; the delays of back pressure; whom a request reaches.
    - Redis: a run of the scripts keeps the database what the updates and
      deletions mean, under every index and in the lists of types; a generator that
      was deleted leaves nothing and cannot write until it registers again; with
      the connection up and a producer its UVEs are announced as deleted, once
      each, where their updates were, and what happens without them is stated; a
      connection is never given up
      nor made twice, and the two ways in which a handler fails an assertion are
      named; the partitions are shared out among the types of nodes.
    - Theorems about behaviour that is not what the code means to do are listed
      as findings with their theorem: they are stated as what the code does.

    ** Bounds

    Loops over machine integers take fuel: [t2_loop] and [chunk_loop].  Their
    theorems are about every fuel above the number of iterations, which the
    hypotheses bound by the time range.  [send_batches] takes one unit of fuel
    more than there are rows, and every batch takes a row.  The walk of a
    document takes its depth ([walk_fuel]), and the search of a pattern the length
    of the text, which is enough when the matches advance.  The fields of a
    structured part are read with one unit more than it has characters, and every
    field takes more than one of them; cutting a buffer into messages takes any fuel, and as
    many units as it has characters are enough ([stream_ends]).  The lifetimes
    are asked for twelve times, as in the sources.  Everything else is
    structural.

    ** Code outside the repository

    hiredis and librdkafka are events and lists of calls.  For the rest classes
    stand, with the documented behaviour the theorems use as fields: the order of database values, [std::sort], rapidjson's parser,
    boost's regular expressions and number formatting, contrail-common's
    [stringToInteger], TDigest, pugixml's printer, the text escapes and constants
    of the sandesh library, the tables generated from [viz.sandesh], the grammar
    of syslog messages that Boost.Spirit compiles, boost's dates and addresses, the
    severity levels and state machines of the sandesh library, the commands of
    Redis and the JSON decoder of its scripts, and what memory holds that the
    program does not initialise.
    Every property with such a parameter has a witness at a concrete instance.

    ** Not modelled

    The Redis connections and the statistics about queries in
    [QEOpServerProxy.cc]; the programs' options and mains, logging and tracing;
    of the collector the texts of its introspection, the set-up of the database
    and its water marks, the grammar of rule files and their Python actions, the
    Kafka forwarder of syslog, the sFlow records and the line parser, and the
    sockets of the syslog listeners and forwarders.  The manifest lists each part
    with its reason. *)
From stdpp Require Import base tactics list strings gmap.
From Stdlib Require Import ZArith Lia Sorted Permutation.

(** ** Automation *)

Create HintDb viz discriminated.
#[export] Hint Constructors StronglySorted Forall Permutation : viz.

(** Split every boolean connective and comparison of the context. *)
Ltac reflect_bools :=
  repeat match goal with
  | H : (_ && _) = true |- _ => apply andb_true_iff in H; destruct H
  | H : (_ || _) = false |- _ => apply orb_false_iff in H; destruct H
  | H : negb _ = true |- _ => apply negb_true_iff in H
  | H : negb _ = false |- _ => apply negb_false_iff in H
  | H : (_ <? _)%Z = true |- _ => apply Z.ltb_lt in H
  | H : (_ <? _)%Z = false |- _ => apply Z.ltb_ge in H
  | H : (_ <=? _)%Z = true |- _ => apply Z.leb_le in H
  | H : (_ <=? _)%Z = false |- _ => apply Z.leb_gt in H
  | H : (_ =? _)%Z = true |- _ => apply Z.eqb_eq in H
  | H : (_ =? _)%Z = false |- _ => apply Z.eqb_neq in H
  | H : (_ =? _)%string = true |- _ => apply String.eqb_eq in H
  | H : (_ =? _)%string = false |- _ => apply String.eqb_neq in H
  | H : bool_decide _ = true |- _ => apply bool_decide_eq_true in H
  | H : bool_decide _ = false |- _ => apply bool_decide_eq_false in H
  end.

(** Case analysis on the discriminee of a [match] or [if] of the goal, or of a hypothesis. *)
Ltac case_goal :=
  match goal with
  | |- context [match ?x with _ => _ end] =>
      lazymatch x with
      | context [match _ with _ => _ end] => fail
      | _ => destruct x eqn:?
      end
  end.
Ltac case_hyp H :=
  match type of H with
  | context [match ?x with _ => _ end] =>
      lazymatch x with
      | context [match _ with _ => _ end] => fail
      | _ => destruct x eqn:?
      end
  end.

(** ** Machine integers

    A w-bit unsigned C++ integer is the [Z] in [0, 2^w); arithmetic wraps. *)

Definition u8 (z : Z) : Z := (z mod 2 ^ 8)%Z.
Definition u16 (z : Z) : Z := (z mod 2 ^ 16)%Z.
Definition u32 (z : Z) : Z := (z mod 2 ^ 32)%Z.
Definition u64 (z : Z) : Z := (z mod 2 ^ 64)%Z.

Definition is_u64 (z : Z) : Prop := (0 <= z < 2 ^ 64)%Z.
Definition is_u32 (z : Z) : Prop := (0 <= z < 2 ^ 32)%Z.

(** Conversion to a 32-bit signed [int] (two's complement). *)
Definition i32 (z : Z) : Z := ((z + 2 ^ 31) mod 2 ^ 32 - 2 ^ 31)%Z.

Declare Scope cpp_scope.
Delimit Scope cpp_scope with cpp.
Notation "a +64 b" := (u64 (a + b)) (at level 50, left associativity) : cpp_scope.
Notation "a -64 b" := (u64 (a - b)) (at level 50, left associativity) : cpp_scope.
Notation "a *64 b" := (u64 (a * b)) (at level 40, left associativity) : cpp_scope.

Lemma u64_bound z : is_u64 (u64 z).
Proof. apply Z.mod_pos_bound. lia. Qed.
Lemma u64_small z : is_u64 z → u64 z = z.
Proof. apply Z.mod_small. Qed.
Lemma u32_small z : is_u32 z → u32 z = z.
Proof. apply Z.mod_small. Qed.
#[export] Hint Resolve u64_bound u64_small u32_small : viz.

(** ** Strict weak orders

    The comparison functions handed to the C++ algorithms.  [P] is the part of
    the type on which the comparison obeys its laws. *)

Record strict_weak {A} (P : A → Prop) (ltb : A → A → bool) : Prop := {
  sw_asym x y : P x → P y → ltb x y = true → ltb y x = false;
  sw_neg_trans x y z : P x → P y → P z →
    ltb x y = false → ltb y z = false → ltb x z = false
}.

Record strict_total {A} (P : A → Prop) (ltb : A → A → bool) : Prop := {
  st_weak : strict_weak P ltb;
  st_total x y : P x → P y → ltb x y = false → ltb y x = false → x = y
}.

Arguments sw_asym {A P ltb}.
Arguments sw_neg_trans {A P ltb}.
Arguments st_weak {A P ltb}.
Arguments st_total {A P ltb}.

Section orders.
Context {A : Type} (P : A → Prop) (ltb : A → A → bool).

Lemma sw_irrefl : strict_weak P ltb → ∀ x, P x → ltb x x = false.
Proof.
  intros H x Hx. destruct (ltb x x) eqn:E; [|done].
  by rewrite (sw_asym H x x Hx Hx E) in E.
Qed.

Lemma sw_trans : strict_weak P ltb → ∀ x y z, P x → P y → P z →
  ltb x y = true → ltb y z = true → ltb x z = true.
Proof.
  intros H x y z Hx Hy Hz Hxy Hyz. destruct (ltb x z) eqn:E; [done|].
  pose proof (sw_asym H y z Hy Hz Hyz).
  by rewrite (sw_neg_trans H x z y) in Hxy.
Qed.

Lemma sw_lt_le : strict_weak P ltb → ∀ x y z, P x → P y → P z →
  ltb x y = true → ltb z y = false → ltb x z = true.
Proof.
  intros H x y z Hx Hy Hz Hxy Hzy. destruct (ltb x z) eqn:E; [done|].
  by rewrite (sw_neg_trans H x z y) in Hxy.
Qed.
End orders.

(** A sequence the C++ library calls sorted by [ltb]: no element is smaller
    than an element before it. *)
Definition cpp_sorted {A} (ltb : A → A → bool) : list A → Prop :=
  StronglySorted (λ a b, ltb b a = false).

(** ** The C++ algorithms the query engine uses *)

Section algorithms.
Context {A : Type} (ltb : A → A → bool).

(** [std::merge], and the effect of [std::inplace_merge]. *)
Fixpoint std_merge (l1 : list A) : list A → list A :=
  fix go l2 :=
    match l1, l2 with
    | [], _ => l2
    | _, [] => l1
    | a :: l1', b :: l2' =>
        if ltb b a then b :: go l2' else a :: std_merge l1' l2
    end.

(** [std::set_union]. *)
Fixpoint std_set_union (l1 : list A) : list A → list A :=
  fix go l2 :=
    match l1, l2 with
    | [], _ => l2
    | _, [] => l1
    | a :: l1', b :: l2' =>
        if ltb a b then a :: std_set_union l1' l2
        else if ltb b a then b :: go l2'
        else a :: std_set_union l1' l2'
    end.

(** [std::set_intersection]. *)
Fixpoint std_set_intersection (l1 : list A) : list A → list A :=
  fix go l2 :=
    match l1, l2 with
    | [], _ => []
    | _, [] => []
    | a :: l1', b :: l2' =>
        if ltb a b then std_set_intersection l1' l2
        else if ltb b a then go l2'
        else a :: std_set_intersection l1' l2'
    end.

Fixpoint insert_sorted (x : A) (l : list A) : list A :=
  match l with
  | [] => [x]
  | y :: l' => if ltb y x then y :: insert_sorted x l' else x :: l
  end.

Definition insertion_sort (l : list A) : list A := foldr insert_sorted [] l.
End algorithms.

(** [std::sort]: not stable, so the development is stated for every function
    with the behaviour the standard gives it. *)
Class StdSort := {
  std_sort : ∀ {A : Type}, (A → A → bool) → list A → list A;
  std_sort_perm {A} (ltb : A → A → bool) l : Permutation l (std_sort ltb l);
  std_sort_sorted {A} (P : A → Prop) (ltb : A → A → bool) l :
    strict_weak P ltb → Forall P l → cpp_sorted ltb (std_sort ltb l)
}.

(** ** Facts about the algorithms *)

Lemma elem_of_std_merge {A} (ltb : A → A → bool) l1 l2 x :
  x ∈ std_merge ltb l1 l2 ↔ x ∈ l1 ∨ x ∈ l2.
Proof.
  revert l2. induction l1 as [|a l1 IH]; intros l2; [destruct l2; set_solver|].
  induction l2 as [|b l2 IH2]; [set_solver|]. simpl. case_match.
  - rewrite elem_of_cons. simpl in IH2. rewrite IH2. set_solver.
  - rewrite elem_of_cons, IH. set_solver.
Qed.

Lemma std_merge_perm {A} (ltb : A → A → bool) l1 l2 :
  Permutation (l1 ++ l2) (std_merge ltb l1 l2).
Proof.
  revert l2. induction l1 as [|a l1 IH]; intros l2; [by destruct l2|].
  induction l2 as [|b l2 IH2]; [by rewrite app_nil_r|]. cbn [std_merge]. case_match.
  - rewrite <- Permutation_middle. by apply perm_skip.
  - simpl. apply perm_skip, IH.
Qed.

Lemma Forall_perm {A} (P : A → Prop) l l' :
  Permutation l l' → Forall P l → Forall P l'.
Proof. by intros <-. Qed.

Lemma std_merge_sorted {A} (P : A → Prop) (ltb : A → A → bool) l1 l2 :
  strict_weak P ltb → Forall P l1 → Forall P l2 →
  cpp_sorted ltb l1 → cpp_sorted ltb l2 → cpp_sorted ltb (std_merge ltb l1 l2).
Proof.
  intros Hsw. revert l2. induction l1 as [|a l1 IH]; intros l2 HP1 HP2 HS1 HS2.
  { by destruct l2. }
  induction l2 as [|b l2 IH2]; [done|].
  apply Forall_cons in HP1 as [Ha HP1]. apply Forall_cons in HP2 as [Hb HP2].
  apply StronglySorted_inv in HS1 as [HS1 Ha1]. apply StronglySorted_inv in HS2 as [HS2 Hb2].
  cbn [std_merge]. case_match eqn:E.
  - constructor; [by apply IH2|].
    rewrite Forall_forall. intros x Hx. apply (elem_of_std_merge ltb (a :: l1)) in Hx.
    rewrite Forall_forall in Ha1, Hb2, HP1, HP2.
    destruct Hx as [Hx|Hx]; [|by apply Hb2].
    apply elem_of_cons in Hx as [->|Hx]; [by apply (sw_asym Hsw)|].
    apply (sw_neg_trans Hsw x a b); auto. by apply (sw_asym Hsw).
  - constructor; [apply IH; auto; by constructor|].
    rewrite Forall_forall. intros x Hx. apply elem_of_std_merge in Hx.
    rewrite Forall_forall in Ha1, Hb2, HP1, HP2.
    destruct Hx as [Hx|Hx]; [by apply Ha1|].
    apply elem_of_cons in Hx as [->|Hx]; [done|].
    apply (sw_neg_trans Hsw x b a); auto.
Qed.

Lemma insert_sorted_perm {A} (ltb : A → A → bool) x l :
  Permutation (x :: l) (insert_sorted ltb x l).
Proof.
  induction l as [|y l IH]; [done|]. simpl. case_match; [|done].
  rewrite <- IH. apply perm_swap.
Qed.

Lemma insertion_sort_perm {A} (ltb : A → A → bool) l :
  Permutation l (insertion_sort ltb l).
Proof.
  induction l as [|x l IH]; [done|]. simpl. rewrite <- insert_sorted_perm. by apply perm_skip.
Qed.

Lemma insert_sorted_sorted {A} (P : A → Prop) (ltb : A → A → bool) x l :
  strict_weak P ltb → P x → Forall P l → cpp_sorted ltb l → cpp_sorted ltb (insert_sorted ltb x l).
Proof.
  intros Hsw Hx. induction l as [|y l IH]; intros HP HS; [by repeat constructor|].
  apply Forall_cons in HP as [Hy HP]. apply StronglySorted_inv in HS as [HS Hyl].
  simpl. case_match eqn:E.
  - constructor; [by apply IH|]. eapply Forall_perm; [apply insert_sorted_perm|].
    constructor; [by apply (sw_asym Hsw)|done].
  - constructor; [by constructor|]. constructor; [done|].
    rewrite Forall_forall in *. intros z Hz. apply (sw_neg_trans Hsw z y x); auto.
Qed.

Lemma insertion_sort_sorted {A} (P : A → Prop) (ltb : A → A → bool) l :
  strict_weak P ltb → Forall P l → cpp_sorted ltb (insertion_sort ltb l).
Proof.
  intros Hsw. induction 1 as [|x l Hx HP IH]; [constructor|]. simpl.
  eapply insert_sorted_sorted; eauto. by eapply Forall_perm; [apply insertion_sort_perm|].
Qed.

(** A conforming [std::sort]. *)
#[export] Instance insertion_StdSort : StdSort := {|
  std_sort A ltb l := insertion_sort ltb l;
  std_sort_perm A ltb l := insertion_sort_perm ltb l;
  std_sort_sorted A P ltb l := insertion_sort_sorted P ltb l
|}.

Lemma std_sort_Forall `{StdSort} {A} (P : A → Prop) (ltb : A → A → bool) l :
  Forall P l → Forall P (std_sort ltb l).
Proof. apply Forall_perm, std_sort_perm. Qed.
#[export] Hint Resolve std_sort_perm std_sort_Forall : viz.

Section set_algorithms.
Context {A : Type} (ltb : A → A → bool).
Implicit Types (x y : A) (l : list A).

Lemma elem_of_std_set_intersection l1 l2 x :
  x ∈ std_set_intersection ltb l1 l2 → x ∈ l1.
Proof.
  revert l2. induction l1 as [|a l1 IH]; intros l2; [by destruct l2|].
  induction l2 as [|b l2 IH2]; [set_solver|]. cbn [std_set_intersection].
  repeat case_match; [set_solver|done|]. rewrite !elem_of_cons. set_solver.
Qed.

Lemma elem_of_std_set_union l1 l2 x :
  x ∈ std_set_union ltb l1 l2 → x ∈ l1 ∨ x ∈ l2.
Proof.
  revert l2. induction l1 as [|a l1 IH]; intros l2; [destruct l2; set_solver|].
  induction l2 as [|b l2 IH2]; [set_solver|]. cbn [std_set_union] in *.
  repeat case_match; rewrite !elem_of_cons; [intros [?|?%IH]|intros [?|?%IH2]|intros [?|?%IH]];
    set_solver.
Qed.

Lemma std_set_intersection_sorted l1 l2 :
  cpp_sorted ltb l1 → cpp_sorted ltb (std_set_intersection ltb l1 l2).
Proof.
  revert l2. induction l1 as [|a l1 IH]; intros l2 HS1.
  { destruct l2; constructor. }
  induction l2 as [|b l2 IH2]; [constructor|].
  pose proof HS1 as [HS1' HF]%StronglySorted_inv.
  cbn [std_set_intersection]. repeat case_match; [by apply IH|done|].
  constructor; [by apply IH|]. rewrite Forall_forall in *.
  intros x Hx%elem_of_std_set_intersection. by apply HF.
Qed.
End set_algorithms.

Lemma elem_of_insert_inv {A} (l : list A) i x y : y ∈ <[i := x]> l → y = x ∨ y ∈ l.
Proof.
  intros [j Hj]%list_elem_of_lookup. destruct (decide (i = j)) as [<-|Hne].
  - destruct (decide (i < length l)).
    + rewrite list_lookup_insert_eq in Hj by done. left. congruence.
    + rewrite list_insert_ge in Hj by lia. right. by eapply list_elem_of_lookup_2.
  - rewrite list_lookup_insert_ne in Hj by done. right. by eapply list_elem_of_lookup_2.
Qed.

(** ** Multiplicities: set operations as operations on multisets *)

Definition mult {A} `{EqDecision A} (x : A) (l : list A) : nat :=
  length (filter (x =.) l).

Section mult.
Context {A : Type} `{EqDecision A}.
Implicit Types (x y : A) (l : list A).

Lemma mult_cons x y l : mult x (y :: l) = (if decide (x = y) then 1 else 0) + mult x l.
Proof. unfold mult. rewrite filter_cons. by repeat case_decide. Qed.

Lemma mult_elem_of x l : x ∈ l ↔ 0 < mult x l.
Proof.
  unfold mult. split.
  - intros Hx. assert (x ∈ filter (x =.) l) as Hf by (apply list_elem_of_filter; auto).
    destruct (filter (x =.) l); [by apply not_elem_of_nil in Hf | simpl; lia].
  - destruct (filter (x =.) l) as [|y l'] eqn:E; simpl; [lia|]. intros _.
    assert (y ∈ filter (x =.) l) as Hf by (rewrite E; left).
    apply list_elem_of_filter in Hf as [-> ?]. done.
Qed.

Lemma mult_perm x l1 l2 : Permutation l1 l2 → mult x l1 = mult x l2.
Proof. unfold mult. by intros ->. Qed.

Lemma mult_app x l1 l2 : mult x (l1 ++ l2) = mult x l1 + mult x l2.
Proof. unfold mult. by rewrite filter_app, length_app. Qed.

Lemma mult_two x i j l : (i < j)%nat → l !! i = Some x → l !! j = Some x → 2 <= mult x l.
Proof.
  intros Hij Hi Hj. rewrite <- (take_drop j l), mult_app.
  assert (x ∈ take j l) as H1%mult_elem_of.
  { apply list_elem_of_lookup. exists i. by rewrite lookup_take_lt. }
  assert (x ∈ drop j l) as H2%mult_elem_of.
  { apply list_elem_of_lookup. exists 0. by rewrite lookup_drop, Nat.add_0_r. }
  lia.
Qed.

Context (P : A → Prop) (ltb : A → A → bool) (Htot : strict_total P ltb).

(** An element below the head of a sorted sequence does not occur in it. *)
Lemma mult_below x y l :
  P x → P y → Forall P l → cpp_sorted ltb (y :: l) → ltb x y = true → mult x (y :: l) = 0.
Proof using Htot.
  intros Hx Hy HP HS Hlt. pose proof (st_weak Htot) as Hsw.
  destruct (mult x (y :: l)) eqn:E; [done|].
  assert (x ∈ y :: l) as Hin by (apply mult_elem_of; lia).
  apply StronglySorted_inv in HS as [_ HF]. rewrite Forall_forall in HF, HP.
  apply elem_of_cons in Hin as [->|Hin].
  - by rewrite (sw_irrefl P ltb) in Hlt.
  - by rewrite (HF _ Hin) in Hlt.
Qed.

Lemma std_set_intersection_mult l1 l2 x :
  P x → Forall P l1 → Forall P l2 → cpp_sorted ltb l1 → cpp_sorted ltb l2 →
  mult x (std_set_intersection ltb l1 l2) = mult x l1 `min` mult x l2.
Proof using Htot.
  intros Hx. revert l2. induction l1 as [|a l1 IH]; intros l2 HP1 HP2 HS1 HS2.
  { by destruct l2. }
  induction l2 as [|b l2 IH2]; [unfold mult at 1; simpl; unfold mult; simpl; lia|].
  pose proof HP1 as [Ha HP1']%Forall_cons. pose proof HP2 as [Hb HP2']%Forall_cons.
  pose proof HS1 as [HS1' _]%StronglySorted_inv. pose proof HS2 as [HS2' _]%StronglySorted_inv.
  cbn [std_set_intersection]. destruct (ltb a b) eqn:Eab; [|destruct (ltb b a) eqn:Eba].
  - rewrite IH by done. rewrite (mult_cons x a). case_decide; [subst|lia].
    rewrite (mult_below a b) by done. lia.
  - cbn [std_set_intersection] in IH2. rewrite IH2 by done.
    rewrite (mult_cons x b). case_decide; [subst|lia].
    rewrite (mult_below b a) by done. lia.
  - rewrite (st_total Htot a b) by done. rewrite !mult_cons, IH by done. lia.
Qed.

Lemma std_set_union_mult l1 l2 x :
  P x → Forall P l1 → Forall P l2 → cpp_sorted ltb l1 → cpp_sorted ltb l2 →
  mult x (std_set_union ltb l1 l2) = mult x l1 `max` mult x l2.
Proof using Htot.
  intros Hx. revert l2. induction l1 as [|a l1 IH]; intros l2 HP1 HP2 HS1 HS2.
  { by destruct l2. }
  induction l2 as [|b l2 IH2]; [unfold mult at 3; simpl; lia|].
  pose proof HP1 as [Ha HP1']%Forall_cons. pose proof HP2 as [Hb HP2']%Forall_cons.
  pose proof HS1 as [HS1' _]%StronglySorted_inv. pose proof HS2 as [HS2' _]%StronglySorted_inv.
  cbn [std_set_union]. destruct (ltb a b) eqn:Eab; [|destruct (ltb b a) eqn:Eba].
  - rewrite (mult_cons x a), IH by done. rewrite (mult_cons x a). case_decide; [subst|lia].
    rewrite (mult_below a b) by done. lia.
  - cbn [std_set_union] in IH2. rewrite (mult_cons x b), IH2 by done.
    rewrite (mult_cons x b). case_decide; [subst|lia].
    rewrite (mult_below b a) by done. lia.
  - rewrite (st_total Htot a b) by done. rewrite !mult_cons, IH by done. lia.
Qed.

Lemma std_set_union_sorted l1 l2 :
  Forall P l1 → Forall P l2 → cpp_sorted ltb l1 → cpp_sorted ltb l2 →
  cpp_sorted ltb (std_set_union ltb l1 l2).
Proof using Htot.
  pose proof (st_weak Htot) as Hsw.
  revert l2. induction l1 as [|a l1 IH]; intros l2 HP1 HP2 HS1 HS2.
  { by destruct l2. }
  induction l2 as [|b l2 IH2]; [done|].
  pose proof HP1 as [Ha HP1']%Forall_cons. pose proof HP2 as [Hb HP2']%Forall_cons.
  pose proof HS1 as [HS1' HF1]%StronglySorted_inv. pose proof HS2 as [HS2' HF2]%StronglySorted_inv.
  rewrite Forall_forall in HP1', HP2', HF1, HF2.
  cbn [std_set_union]. destruct (ltb a b) eqn:Eab; [|destruct (ltb b a) eqn:Eba].
  - constructor; [apply IH; auto; by apply Forall_forall|].
    apply Forall_forall. intros x [Hx|[->|Hx]%elem_of_cons]%elem_of_std_set_union; auto.
    { by apply (sw_asym Hsw). }
    apply (sw_neg_trans Hsw x b a); auto. by apply (sw_asym Hsw).
  - constructor; [apply IH2; auto; by apply Forall_forall|].
    apply Forall_forall. intros x Hx. apply (elem_of_std_set_union ltb (a :: l1)) in Hx.
    destruct Hx as [[->|Hx]%elem_of_cons|Hx]; [by apply (sw_asym Hsw)| |by auto].
    apply (sw_neg_trans Hsw x a b); auto.
  - constructor; [apply IH; auto; by apply Forall_forall|].
    apply Forall_forall. intros x [Hx|Hx]%elem_of_std_set_union; auto.
    apply (sw_neg_trans Hsw x b a); auto.
Qed.

(** A sorted sequence is determined by the multiplicities of its elements. *)
Lemma sorted_mult_eq l1 l2 :
  Forall P l1 → Forall P l2 → cpp_sorted ltb l1 → cpp_sorted ltb l2 →
  (∀ x, P x → mult x l1 = mult x l2) → l1 = l2.
Proof using Htot.
  revert l2. induction l1 as [|a l1 IH]; intros [|b l2] HP1 HP2 HS1 HS2 Hm; [done|..].
  - apply Forall_cons in HP2 as [Hb _]. specialize (Hm b Hb). rewrite mult_cons, decide_True in Hm by done.
    unfold mult in Hm. simpl in Hm. lia.
  - apply Forall_cons in HP1 as [Ha _]. specialize (Hm a Ha). rewrite mult_cons, decide_True in Hm by done.
    unfold mult in Hm. simpl in Hm. lia.
  - pose proof HP1 as [Ha HP1']%Forall_cons. pose proof HP2 as [Hb HP2']%Forall_cons.
    pose proof HS1 as [HS1' _]%StronglySorted_inv. pose proof HS2 as [HS2' _]%StronglySorted_inv.
    assert (a = b) as ->.
    { apply (st_total Htot); [done|done|..].
      - destruct (ltb a b) eqn:E; [|done]. specialize (Hm a Ha).
        rewrite (mult_below a b l2), mult_cons, decide_True in Hm by done. lia.
      - destruct (ltb b a) eqn:E; [|done]. specialize (Hm b Hb).
        rewrite (mult_below b a l1), mult_cons, decide_True in Hm by done. lia. }
    f_equal. apply IH; try done. intros x Hx. specialize (Hm x Hx). rewrite !mult_cons in Hm. lia.
Qed.
End mult.

(** ** What every run comes to *)

(** Every run of [R] from the state, however it goes on, comes to a state of
    [P] without getting stuck before. *)
Inductive inevitably {A} (R : A → A → Prop) (P : A → Prop) : A → Prop :=
  | inevitably_now a : P a → inevitably R P a
  | inevitably_step a : (∃ b, R a b) → (∀ b, R a b → inevitably R P b) → inevitably R P a.

(** An invariant, a measure every step decreases and a step wherever [P] is not
    reached. *)
Lemma inevitably_measure {A} (R : A → A → Prop) (I : A → Prop) (m : A → nat) (P : A → Prop) :
  (∀ a b, I a → R a b → I b) → (∀ a b, I a → R a b → (m b < m a)%nat) →
  (∀ a, I a → P a ∨ ∃ b, R a b) → ∀ a, I a → inevitably R P a.
Proof.
  intros HI Hm Hp a. induction a as [a IH] using (well_founded_induction (well_founded_ltof _ m)).
  intros Ha. destruct (Hp a Ha) as [HP|Hs]; [by apply inevitably_now|]. apply inevitably_step; [done|].
  intros b Hb. apply IH; [by apply Hm|by eapply HI].
Qed.
