(* ===== verification/CppString.v ===== *)
(** * [std::string] and the C conversions

    The operations of the C++ and C standard libraries on strings the sources
    call, with [size_t] positions as 64-bit [Z] and [std::out_of_range] as
    [None].  A character is an [ascii]: strings compare by unsigned bytes. *)
From stdpp Require Import base tactics list strings pretty.
From Stdlib Require Import ZArith Lia Ascii.
From S2P Require Import Prelude.
Local Open Scope Z_scope.

Definition npos : Z := 2 ^ 64 - 1.
Definition size (s : string) : Z := Z.of_nat (String.length s).

(** [s.substr(pos, n)]. *)
Definition substr (s : string) (pos n : Z) : option string :=
  if size s <? pos then None
  else Some (String.substring (Z.to_nat pos) (Z.to_nat (Z.min n (size s - pos))) s).

(** [s.find(c, pos)], [npos] when there is none. *)
Fixpoint find_at (c : ascii) (s : string) (i : Z) (pos : Z) : Z :=
  match s with
  | EmptyString => npos
  | String a s' =>
      if (pos <=? i) && (a =? c)%char then i else find_at c s' (i + 1) pos
  end.
Definition find (s : string) (c : ascii) (pos : Z) : Z := find_at c s 0 pos.

(** [s.find_last_of(c)] for a one-character set. *)
Fixpoint find_last_at (c : ascii) (s : string) (i : Z) (found : Z) : Z :=
  match s with
  | EmptyString => found
  | String a s' => find_last_at c s' (i + 1) (if (a =? c)%char then i else found)
  end.
Definition find_last_of (s : string) (c : ascii) : Z := find_last_at c s 0 npos.

(** [s.compare(0, p.length(), p) == 0] and [boost::starts_with]. *)
Definition starts_with (s p : string) : bool := String.prefix p s.

(** [boost::algorithm::ends_with]. *)
Definition ends_with (s p : string) : bool :=
  (String.length p <=? String.length s)%nat &&
  (String.substring (String.length s - String.length p) (String.length p) s =? p)%string.

(** [std::replace] over the characters of a string. *)
Fixpoint replace_char (a b : ascii) (s : string) : string :=
  match s with
  | EmptyString => EmptyString
  | String c s' => String (if (c =? a)%char then b else c) (replace_char a b s')
  end.

(** [c_str()] read up to the first zero character. *)
Fixpoint c_str (s : string) : string :=
  match s with
  | EmptyString => EmptyString
  | String c s' => if (nat_of_ascii c =? 0)%nat then EmptyString else String c (c_str s')
  end.

(** [boost::split] at a character, adjacent ones counting as one. *)
Fixpoint tokens (d : ascii) (after : bool) (s : string) : string * list string :=
  match s with
  | EmptyString => (EmptyString, [])
  | String a s' =>
      if (a =? d)%char then
        if after then tokens d true s'
        else let '(p, l) := tokens d true s' in (EmptyString, p :: l)
      else let '(p, l) := tokens d false s' in (String a p, l)
  end.
Definition split_compressed (d : ascii) (s : string) : list string := let '(p, l) := tokens d false s in p :: l.

(** ** Numbers in strings *)

Definition is_digit (c : ascii) : bool :=
  (48 <=? Z.of_nat (nat_of_ascii c)) && (Z.of_nat (nat_of_ascii c) <=? 57).
Definition digit_val (c : ascii) : Z := Z.of_nat (nat_of_ascii c) - 48.
Definition is_space (c : ascii) : bool :=
  let n := Z.of_nat (nat_of_ascii c) in (n =? 32) || ((9 <=? n) && (n <=? 13)).

Fixpoint skip_spaces (s : string) : string :=
  match s with
  | String c s' => if is_space c then skip_spaces s' else s
  | EmptyString => EmptyString
  end.

(** The value of the longest run of digits, and whether there is one. *)
Fixpoint digits_val (s : string) (acc : Z) : Z :=
  match s with
  | String c s' => if is_digit c then digits_val s' (acc * 10 + digit_val c) else acc
  | EmptyString => acc
  end.

Definition signed_prefix (s : string) : Z :=
  match skip_spaces s with
  | String "-"%char s' => - digits_val s' 0
  | String "+"%char s' => digits_val s' 0
  | s' => digits_val s' 0
  end.

(** [atoi]: the C library's conversion through [strtol], narrowed to [int]. *)
Definition atoi (s : string) : Z :=
  i32 (Z.max (- 2 ^ 63) (Z.min (2 ^ 63 - 1) (signed_prefix s))).

(** [strtoul(s, NULL, 10)]: out of range gives [ULONG_MAX], a minus sign negates. *)
Definition strtoul (s : string) : Z :=
  let z := signed_prefix s in
  if Z.abs z <=? 2 ^ 64 - 1 then u64 z else 2 ^ 64 - 1.

(** [istringstream(s) >> n] for an [int]: saturating. *)
Definition istream_int (s : string) : Z :=
  Z.max (- 2 ^ 31) (Z.min (2 ^ 31 - 1) (signed_prefix s)).

(** [istringstream(s) >> n] for a [uint16_t]: out of range gives the maximum. *)
Definition istream_u16 (s : string) : Z :=
  let z := signed_prefix s in
  if Z.abs z <=? 2 ^ 16 - 1 then u16 z else 2 ^ 16 - 1.

(** [ostringstream << n]. *)
Definition to_decimal (n : Z) : string := pretty n.

(** ** The order of strings *)

Section order.
Local Lemma ascii_compare_refl a : Ascii.compare a a = Eq.
Proof. unfold Ascii.compare. apply N.compare_refl. Qed.

Lemma string_ltb_cons a b s t :
  String.ltb (String a s) (String b t)
  = match (N_of_ascii a ?= N_of_ascii b)%N with
    | Lt => true | Gt => false | Eq => String.ltb s t
    end.
Proof. unfold String.ltb. simpl. unfold Ascii.compare. by destruct (_ ?= _)%N. Qed.

Lemma string_ltb_total : strict_total (λ _, True) String.ltb.
Proof.
  split; [split|].
  - intros s. induction s as [|a s IH]; intros [|b t] _ _; try done.
    rewrite !string_ltb_cons, (N.compare_antisym (N_of_ascii a)).
    destruct (_ ?= _)%N; simpl; auto.
  - intros s. induction s as [|a s IH]; intros [|b t] [|c u] _ _ _; try done.
    rewrite !string_ltb_cons.
    destruct (N.compare_spec (N_of_ascii a) (N_of_ascii b)) as [Hab|Hab|Hab]; try done;
    destruct (N.compare_spec (N_of_ascii b) (N_of_ascii c)) as [Hbc|Hbc|Hbc]; try done;
    destruct (N.compare_spec (N_of_ascii a) (N_of_ascii c)) as [Hac|Hac|Hac];
    try done; try lia; eauto.
  - intros s. induction s as [|a s IH]; intros [|b t] _ _; try done.
    rewrite !string_ltb_cons.
    destruct (N.compare_spec (N_of_ascii a) (N_of_ascii b)) as [Hab|Hab|Hab];
    destruct (N.compare_spec (N_of_ascii b) (N_of_ascii a)) as [Hba|Hba|Hba];
    try done; try lia.
    intros. f_equal; [|by apply IH].
    rewrite <- (ascii_N_embedding a), Hab. apply ascii_N_embedding.
Qed.
End order.

(** ** Facts about positions *)

Lemma size_nonneg s : 0 <= size s.
Proof. unfold size. lia. Qed.

Lemma substr_in_range s pos n : pos <= size s → is_Some (substr s pos n).
Proof. unfold substr. intros H. case_match eqn:E; [apply Z.ltb_lt in E; lia | eauto]. Qed.

Lemma starts_with_app s p : starts_with (p +:+ s) p = true.
Proof.
  unfold starts_with. induction p as [|a p IH]; [by destruct s|]. simpl.
  destruct (ascii_dec a a); congruence.
Qed.

Lemma starts_with_refl s : starts_with s s = true.
Proof.
  unfold starts_with. induction s as [|a p IH]; [done|]. simpl. destruct (ascii_dec a a); congruence.
Qed.

(** ** Decimal numerals *)

Fixpoint all_digits (s : string) : bool :=
  match s with
  | EmptyString => true
  | String c s' => is_digit c && all_digits s'
  end.

Lemma is_digit_pretty_char x : (x < 10)%N → is_digit (pretty_N_char x) = true ∧ digit_val (pretty_N_char x) = Z.of_N x.
Proof.
  intros Hx. assert (x ∈ [0; 1; 2; 3; 4; 5; 6; 7; 8; 9]%N) as Hin.
  { rewrite !elem_of_cons. lia. }
  rewrite !elem_of_cons in Hin. destruct_or?; subst; try done. by apply not_elem_of_nil in Hin.
Qed.

Lemma pretty_go_digits x s :
  digits_val (pretty_N_go x s) 0 = digits_val s (Z.of_N x) ∧
  all_digits (pretty_N_go x s) = all_digits s.
Proof.
  revert s. induction x as [x IH] using (well_founded_induction N.lt_wf_0); intros s.
  destruct (decide (0 < x)%N) as [Hx|Hx].
  - rewrite pretty_N_go_step by done.
    destruct (IH (x `div` 10)%N ltac:(apply N.div_lt; lia) (String (pretty_N_char (x `mod` 10)) s)) as [-> ->].
    destruct (is_digit_pretty_char (x `mod` 10)) as [Hd Hv]; [apply N.mod_lt; lia|].
    simpl. rewrite Hd, Hv. split; [|done]. f_equal.
    pose proof (N.div_mod x 10 ltac:(lia)) as Hdm. lia.
  - assert (x = 0%N) as -> by lia. by rewrite pretty_N_go_0.
Qed.

Lemma pretty_go_length x s k :
  (x < 10 ^ N.of_nat k)%N → (String.length (pretty_N_go x s) <= String.length s + k)%nat.
Proof.
  revert x s. induction k as [|k IH]; intros x s Hx.
  - assert (x = 0%N) as -> by (simpl in Hx; lia). rewrite pretty_N_go_0. lia.
  - destruct (decide (0 < x)%N) as [Hp|Hp].
    + rewrite pretty_N_go_step by done.
      rewrite Nat2N.inj_succ, N.pow_succ_r' in Hx.
      etransitivity; [apply IH|simpl; lia]. apply N.Div0.div_lt_upper_bound. lia.
    + assert (x = 0%N) as -> by lia. rewrite pretty_N_go_0. lia.
Qed.

Lemma pretty_nonneg n : 0 <= n →
  pretty n = (if decide (n = 0) then "0" else pretty_N_go (Z.to_N n) "").
Proof. destruct n as [|p|p]; [done| |lia]. intros _. by case_decide. Qed.

Lemma digits_val_pretty n : 0 <= n → digits_val (pretty n) 0 = n.
Proof.
  intros Hn. rewrite pretty_nonneg by done. case_decide; [by subst|].
  destruct (pretty_go_digits (Z.to_N n) "") as [-> _]. simpl. lia.
Qed.

Lemma all_digits_pretty n : 0 <= n → all_digits (pretty n) = true.
Proof.
  intros Hn. rewrite pretty_nonneg by done. case_decide; [by subst|].
  by destruct (pretty_go_digits (Z.to_N n) "") as [_ ->].
Qed.

Lemma pretty_length n : is_u64 n → size (pretty n) <= 20.
Proof.
  intros [Hn Hu]. rewrite pretty_nonneg by done. unfold size. case_decide; [by subst|].
  pose proof (pretty_go_length (Z.to_N n) "" 20) as Hl. simpl in Hl.
  assert (Z.to_N n < 100000000000000000000)%N by lia. specialize (Hl ltac:(done)). lia.
Qed.

Lemma digit_not_space_sign c : is_digit c = true →
  is_space c = false ∧ c ≠ "-"%char ∧ c ≠ "+"%char.
Proof.
  intros H. split_and!; [|by intros ->..].
  destruct c as [[] [] [] [] [] [] [] []]; vm_compute in H |- *; congruence.
Qed.

Lemma signed_prefix_digits s : all_digits s = true → signed_prefix s = digits_val s 0.
Proof.
  destruct s as [|c s]; [done|]. cbn [all_digits]. intros [Hc _]%andb_true_iff.
  destruct (digit_not_space_sign c Hc) as (Hs & Hm & Hp).
  unfold signed_prefix. cbn [skip_spaces]. rewrite Hs.
  destruct c as [[] [] [] [] [] [] [] []]; try done; congruence.
Qed.

Lemma strtoul_pretty n : is_u64 n → strtoul (pretty n) = n.
Proof.
  intros [Hn Hu]. unfold strtoul.
  rewrite signed_prefix_digits, digits_val_pretty by (try apply all_digits_pretty; done).
  rewrite Z.abs_eq by done. case_match; reflect_bools; [by apply u64_small|lia].
Qed.

(** ** Searching and cutting concatenations *)

Lemma length_app s t : String.length (s +:+ t) = (String.length s + String.length t)%nat.
Proof. induction s; simpl; auto. Qed.

Lemma size_app s t : size (s +:+ t) = size s + size t.
Proof. unfold size. rewrite length_app. lia. Qed.
Lemma size_cons a s : size (String a s) = 1 + size s.
Proof. unfold size. simpl. lia. Qed.
Lemma append_empty_r s : s +:+ EmptyString = s.
Proof. induction s as [|a s IH]; [done|]. exact (f_equal (String a) IH). Qed.

Lemma find_last_at_app c s t i f :
  find_last_at c (s +:+ t) i f = find_last_at c t (i + size s) (find_last_at c s i f).
Proof.
  revert i f. induction s as [|a s IH]; intros i f.
  - simpl. f_equal. unfold size. simpl. lia.
  - simpl. rewrite IH. f_equal. unfold size. simpl. lia.
Qed.

Lemma find_last_at_digits c s i f :
  is_digit c = false → all_digits s = true → find_last_at c s i f = f.
Proof.
  intros Hc. revert i f. induction s as [|a s IH]; intros i f; [done|]. simpl.
  intros [Ha Hs]%andb_true_iff. rewrite IH by done.
  destruct (Ascii.eqb_spec a c); [congruence|done].
Qed.

Lemma substring_app_0 s t : String.substring 0 (String.length s) (s +:+ t) = s.
Proof. induction s as [|a s IH]; simpl; [by destruct t|]. by rewrite IH. Qed.

Lemma string_eqb_false s t : s ≠ t → (s =? t)%string = false.
Proof. apply String.eqb_neq. Qed.

Lemma substring_drop p s n : String.substring (String.length p) n (p +:+ s) = String.substring 0 n s.
Proof. induction p as [|a p IH]; simpl; [done|apply IH]. Qed.

Lemma substring_all s : String.substring 0 (String.length s) s = s.
Proof. induction s as [|a s IH]; simpl; [done|]. by rewrite IH. Qed.

Lemma substr_drop p s : size s <= npos → substr (p +:+ s) (size p) npos = Some s.
Proof.
  intros Hs. unfold substr. pose proof (size_nonneg s). rewrite size_app.
  destruct (Z.ltb_spec (size p + size s) (size p)); [lia|].
  rewrite Z.add_simpl_l, Z.min_r by done. unfold size. rewrite !Nat2Z.id, substring_drop.
  by rewrite substring_all.
Qed.

Lemma substr_take s t : substr (s +:+ t) 0 (size s) = Some s.
Proof.
  unfold substr. rewrite size_app. pose proof (size_nonneg s). pose proof (size_nonneg t).
  destruct (Z.ltb_spec (size s + size t) 0); [lia|].
  rewrite Z.min_l by lia. unfold size. rewrite Nat2Z.id. simpl. by rewrite substring_app_0.
Qed.

Lemma append_assoc_string (s t u : string) : (s +:+ t) +:+ u = s +:+ (t +:+ u).
Proof. induction s as [|a s IH]; [done|]. exact (f_equal (String a) IH). Qed.

(** A string without a character, and what [find] returns after it. *)
Fixpoint has_char (c : ascii) (s : string) : bool :=
  match s with EmptyString => false | String a s' => (a =? c)%char || has_char c s' end.

Lemma has_char_app c s t : has_char c (s +:+ t) = has_char c s || has_char c t.
Proof.
  induction s as [|a s IH]; [done|].
  change ((a =? c)%char || has_char c (s +:+ t) = (a =? c)%char || has_char c s || has_char c t).
  by rewrite IH, orb_assoc.
Qed.

Lemma c_str_id s : has_char "000"%char s = false → c_str s = s.
Proof.
  induction s as [|a s IH]; [done|]. simpl. intros [Ha Hs]%orb_false_iff.
  destruct (nat_of_ascii a =? 0)%nat eqn:E; [|by rewrite IH].
  apply Nat.eqb_eq in E. rewrite <- (ascii_nat_embedding a), E in Ha. done.
Qed.

Lemma find_at_first c s t i pos : has_char c s = false → pos <= i + size s →
  find_at c (s +:+ String c t) i pos = i + size s.
Proof.
  revert i. induction s as [|a s IH]; intros i Hs Hp.
  - unfold size in *. simpl in *. destruct (Z.leb_spec pos i); [|lia].
    rewrite Ascii.eqb_refl. simpl. lia.
  - simpl in *. apply orb_false_iff in Hs as [Ha Hs]. rewrite Ha, andb_false_r, IH; unfold size in *; simpl in *; [lia|done|lia].
Qed.

Lemma find_at_before c s t i pos : i + size s <= pos →
  find_at c (s +:+ t) i pos = find_at c t (i + size s) pos.
Proof.
  revert i. induction s as [|a s IH]; intros i Hp; unfold size in *; simpl in *.
  - f_equal. lia.
  - destruct (Z.leb_spec pos i); [lia|]. simpl. rewrite IH by lia. f_equal. lia.
Qed.
