(* ===== verification/VizConstants.v ===== *)
(** * The constants of [contrail-collector/viz.sandesh] the query engine uses *)
From stdpp Require Import base list strings gmap.
From Stdlib Require Import ZArith.
Local Open Scope Z_scope.

Definition MESSAGE_TABLE : string := "MessageTable".
Definition COLLECTOR_GLOBAL_TABLE : string := "MessageTablev2".
Definition UUID_KEY : string := "UuidKey".
Definition FORWARD_FLOW_UUID : string := "forward_flow_uuid".
Definition REVERSE_FLOW_UUID : string := "reverse_flow_uuid".
Definition SOURCE : string := "Source".
Definition MODULE : string := "ModuleId".
Definition MESSAGE_TYPE : string := "Messagetype".
Definition OBJECT_ID : string := "ObjectId".
Definition OBJECT_TYPE_NAME_PFX : string := "ObjectTypeName".
Definition OBJECT_TYPE_NAME1 : string := "ObjectTypeName1".
Definition OBJECT_VALUE_TABLE : string := "ObjectValueTable".
Definition OBJECT_TABLE : string := "ObjectTable".
Definition FLOW_TABLE : string := "FlowRecordTable".
Definition FLOW_SERIES_TABLE : string := "FlowSeriesTable".
Definition SESSION_TABLE : string := "SessionTable".
Definition SESSION_SERIES_TABLE : string := "SessionSeriesTable".
Definition SESSION_RECORD_TABLE : string := "SessionRecordTable".
Definition SESSION_FWD_TEARDOWN_BYTES : string := "forward_teardown_bytes".
Definition SESSION_FWD_TEARDOWN_PKTS : string := "forward_teardown_pkts".
Definition SESSION_REV_TEARDOWN_BYTES : string := "reverse_teardown_bytes".
Definition SESSION_REV_TEARDOWN_PKTS : string := "reverse_teardown_pkts".
Definition STATS_TABLE_BY_STR_STR_TAG : string := "StatsTableByStrStrTagV3".
Definition STATS_TABLE_BY_STR_U64_TAG : string := "StatsTableByStrU64TagV3".
Definition STATS_TABLE_BY_U64_STR_TAG : string := "StatsTableByU64StrTagV3".
Definition STATS_TABLE_BY_U64_U64_TAG : string := "StatsTableByU64U64TagV3".
Definition STATS_TABLE_BY_DBL_TAG : string := "StatsTableByDblTagV3".
Definition STATS_TABLE_BY_STR_TAG : string := "StatsTableByStrTagV3".
Definition STATS_TABLE_BY_U64_TAG : string := "StatsTableByU64TagV3".
Definition STATS_TABLE : string := "StatsTableV4".
Definition STATS_NAME_FIELD : string := "name".
Definition STATS_SOURCE_FIELD : string := "Source".
Definition STATS_KEY_FIELD : string := "__key".
Definition STATS_PROXY_FIELD : string := "proxy".
Definition STATS_TAGS_FIELD : string := "tags".
Definition NUM_STATS_TAGS_FIELD : Z := 4.
Definition PARTITION_MIN : Z := 0.
Definition PARTITION_MAX : Z := 8.
Definition FLOW_TABLE_AGG_PKTS : string := "agg-packets".
Definition FLOW_TABLE_AGG_BYTES : string := "agg-bytes".
Definition RowTimeInBits : Z := 23.
Definition RowTimeInMask : Z := 0x7fffff.
Definition CacheTimeInAdditionalBits : Z := 5.
Definition STAT_OBJECTID_FIELD : string := "name".
Definition STAT_SOURCE_FIELD : string := SOURCE.
Definition STAT_TIME_FIELD : string := "T".
Definition STAT_TIMEBIN_FIELD : string := "T=".
Definition STAT_UUID_FIELD : string := "UUID".
Definition STAT_VT_PREFIX : string := "StatTable".
Definition STAT_VT_FIELDNAMES_PREFIX : string := "StatTable.FieldNames.".
Definition MSG_TABLE_MAX_OBJECTS_PER_MSG : Z := 6.

(** [enum TtlType] and [TtlValuesDefault]. *)
Inductive TtlType := FLOWDATA_TTL | STATSDATA_TTL | CONFIGAUDIT_TTL | GLOBAL_TTL.
Definition TtlValuesDefault (t : TtlType) : Z :=
  match t with
  | FLOWDATA_TTL => 2 | STATSDATA_TTL => 168 | CONFIGAUDIT_TTL => 2160 | GLOBAL_TTL => 48
  end.

(** [enum SessionType]. *)
Definition SERVER_SESSION : Z := 0.
Definition CLIENT_SESSION : Z := 1.

(** [index_column_to_column] of the schema of [COLLECTOR_GLOBAL_TABLE]. *)
Definition msg_index_columns : gmap string string := list_to_map [
  (SOURCE, "column3"); (MESSAGE_TYPE, "column4"); (MODULE, "column5");
  ("ObjectTypeName1", "column6"); ("ObjectTypeName2", "column7");
  ("ObjectTypeName3", "column8"); ("ObjectTypeName4", "column9");
  ("ObjectTypeName5", "column10"); ("ObjectTypeName6", "column11")].

(** [index_column_to_column] of the schema of [SESSION_TABLE]. *)
Definition session_index_columns : gmap string string := list_to_map [
  ("deployment", "column5"); ("tier", "column6"); ("application", "column7");
  ("site", "column8"); ("labels", "column9"); ("custom_tags", "column10");
  ("remote_deployment", "column11"); ("remote_tier", "column12");
  ("remote_application", "column13"); ("remote_site", "column14");
  ("remote_labels", "column15"); ("remote_custom_tags", "column16");
  ("remote_prefix", "column17"); ("security_policy_rule", "column18");
  ("vmi", "column19"); ("local_ip", "column20"); ("vn", "column21");
  ("remote_vn", "column22")].

(** [index_column_to_column] and [query_column_to_column] of [STATS_TABLE]. *)
Definition stats_index_columns : gmap string string := list_to_map [
  (STATS_NAME_FIELD, "column3"); (STATS_SOURCE_FIELD, "column4");
  (STATS_KEY_FIELD, "column5"); (STATS_PROXY_FIELD, "column5");
  ("tags0", "column7"); ("tags1", "column8"); ("tags2", "column9"); ("tags3", "column10")].

Definition stats_query_columns : gmap string string := list_to_map [
  ("T2", "key"); ("partition_no", "key2"); ("StatName", "key3"); ("AttrName", "key4");
  ("T1", "column1"); ("UUID", "column2");
  (STATS_NAME_FIELD, "column3"); (STATS_SOURCE_FIELD, "column4");
  (STATS_KEY_FIELD, "column5"); (STATS_PROXY_FIELD, "column6");
  ("tags0", "column7"); ("tags1", "column8"); ("tags2", "column9"); ("tags3", "column10");
  ("value", "value")].

(** ** Reading rows back *)

Definition TIMESTAMP : string := "MessageTS".
Definition DATA : string := "Xmlmessage".
Definition SANDESH_TYPE : string := "Type".
Definition SYSTEM_LOG : string := "SystemLog".
Definition OBJECT_LOG : string := "ObjectLog".
Definition FLOW_TABLE_UUID : string := "UuidKey".

(** The [columns] of the schema of [COLLECTOR_GLOBAL_TABLE] in order: the name
    of the column, the query column [column_to_query_column] gives it, and
    whether it has an index. *)
Definition msg_columns : list (string * string * bool) := [
  ("key", TIMESTAMP, false); ("key2", "Partition", false); ("column1", "T1", false);
  ("column2", UUID_KEY, false); ("column3", SOURCE, true); ("column4", MESSAGE_TYPE, true);
  ("column5", MODULE, true); ("column6", OBJECT_TYPE_NAME1, true);
  ("column7", "ObjectTypeName2", true); ("column8", "ObjectTypeName3", true);
  ("column9", "ObjectTypeName4", true); ("column10", "ObjectTypeName5", true);
  ("column11", "ObjectTypeName6", true); ("column12", "IPAddress", false);
  ("column13", "Pid", false); ("column14", "Category", false); ("column15", "Level", false);
  ("column16", "NodeType", false); ("column17", "InstanceId", false);
  ("column18", "SequenceNum", false); ("column19", SANDESH_TYPE, false); ("value", DATA, false)
]%string.

(** [enum SessionRecordFields], by its numbers, and [SessionCassTableColumns]. *)
Definition SESSION_T1 : nat := 6.
Definition SESSION_UUID : nat := 7.
Definition SESSION_SAMPLED_FORWARD_BYTES : nat := 28.
Definition SESSION_MAP : nat := 36.
Definition NUM_SESSION_STATS_FIELDS : nat := 8.
Definition SessionCassTableColumns : list nat :=
  (seq 0 8 ++ seq 13 23 ++ seq 8 5 ++ [SESSION_MAP])%nat.

(** [column_to_query_column] of the schema of [SESSION_TABLE]: the names of
    [column0] to [column35]; and the positions of its indexed [columns]. *)
Definition session_query_columns : list string := [
  "T2"; "partition_number"; "is_service_instance"; "session_type"; "protocol"; "server_port";
  "T1"; "uuid"; "deployment"; "tier"; "application"; "site"; "labels"; "custom_tags";
  "remote_deployment"; "remote_tier"; "remote_application"; "remote_site"; "remote_labels";
  "remote_custom_tags"; "remote_prefix"; "security_policy_rule"; "vmi"; "local_ip"; "vn";
  "remote_vn"; "vrouter"; "vrouter_ip"; "forward_sampled_bytes"; "forward_sampled_pkts";
  "reverse_sampled_bytes"; "reverse_sampled_pkts"; "forward_logged_bytes"; "forward_logged_pkts";
  "reverse_logged_bytes"; "reverse_logged_pkts"
]%string.
Definition session_column_indexed (field : nat) : bool := ((8 <=? field) && (field <=? 25))%nat.

(** [session2flow_maps]. *)
Definition flow_names (dir : string) : list (string * string) := [
  (dir +:+ "_flow_uuid", FLOW_TABLE_UUID); (dir +:+ "_setup_time", "setup_time");
  (dir +:+ "_teardown_time", "teardown_time"); (dir +:+ "_teardown_bytes", FLOW_TABLE_AGG_BYTES);
  (dir +:+ "_teardown_pkts", FLOW_TABLE_AGG_PKTS); (dir +:+ "_action", "action");
  (dir +:+ "_sg_rule_uuid", "sg_rule_uuid"); (dir +:+ "_nw_ace_uuid", "nw_ace_uuid");
  (dir +:+ "_underlay_source_port", "underlay_source_port"); (dir +:+ "_drop_reason", "drop_reason");
  (dir +:+ "_sampled_bytes", "bytes"); (dir +:+ "_sampled_pkts", "packets")
]%string.
Definition session2flow_maps : list (gmap string string) := [
  list_to_map ([("local_ip", "sourceip"); ("remote_ip", "destip"); ("server_port", "dport");
    ("client_port", "sport"); ("vn", "sourcevn"); ("remote_vn", "destvn")] ++ flow_names "forward");
  list_to_map ([("local_ip", "destip"); ("remote_ip", "soureceip"); ("server_port", "sport");
    ("client_port", "dport"); ("vn", "destvn"); ("remote_vn", "sourcevn")] ++ flow_names "reverse");
  list_to_map ([("local_ip", "sourceip"); ("remote_ip", "destip"); ("server_port", "sport");
    ("client_port", "dport"); ("vn", "sourcevn"); ("remote_vn", "destvn")] ++ flow_names "reverse");
  list_to_map ([("local_ip", "destip"); ("remote_ip", "sourceip"); ("server_port", "dport");
    ("client_port", "sport"); ("vn", "destvn"); ("remote_vn", "sourcevn")] ++ flow_names "forward")
]%string.

(** The names of the flow tuple in [FlowRecordNames]. *)
Definition flow_tuple_names : list string := [
  "vrouter"; "sourcevn"; "sourceip"; "destvn"; "destip"; "protocol"; "sport"; "dport";
  "direction_ing"]%string.
