(* ===== verification/QueryTypes.v ===== *)
(** * Data of the query engine

    The structures of [contrail-query-engine/query.h], [json_parse.h] and
    [QEOpServerProxy.h]: result units, result rows, the variants the engine
    computes with and the enumerations of the query language.  Values of the
    database library (GenDb, outside this repository) are the inductive type
    [DbDataValue] of the alternatives the engine reads and writes; their order
    is the class [DbValueOrder]. *)
From stdpp Require Import base tactics list strings gmap.
From Stdlib Require Import ZArith Lia Sorted.
From Stdlib Require Import SpecFloat.
From S2P Require Import Prelude.
From S2P Require Import CppString.
Local Open Scope Z_scope.

(** ** Enumerations *)

(** [enum match_op]; the JSON carries the number. *)
Inductive match_op :=
  | EQUAL | NOT_EQUAL | IN_RANGE | NOT_IN_RANGE | LEQ | GEQ | PREFIX | REGEX_MATCH | CONTAINS
  | OTHER_OP (n : Z).

(** The cast [(match_op)n]. *)
Definition match_op_of_int (n : Z) : match_op :=
  match n with
  | 1 => EQUAL | 2 => NOT_EQUAL | 3 => IN_RANGE | 4 => NOT_IN_RANGE | 5 => LEQ
  | 6 => GEQ | 7 => PREFIX | 8 => REGEX_MATCH | 9 => CONTAINS | _ => OTHER_OP n
  end.

#[export] Instance match_op_eq_dec : EqDecision match_op.
Proof. solve_decision. Defined.

(** [enum sort_op]. *)
Inductive sort_op := ASCENDING | DESCENDING | OTHER_SORT (n : Z).
Definition sort_op_of_int (n : Z) : sort_op :=
  match n with 1 => ASCENDING | 2 => DESCENDING | _ => OTHER_SORT n end.
#[export] Instance sort_op_eq_dec : EqDecision sort_op.
Proof. solve_decision. Defined.

(** [enum query_status_t]. *)
Inductive query_status_t :=
  | QUERY_PROCESSING_NOT_STARTED | QUERY_IN_PROGRESS | QUERY_SUCCESS | QUERY_FAILURE.
#[export] Instance query_status_eq_dec : EqDecision query_status_t.
Proof. solve_decision. Defined.

(** The [errno] values the engine stores in [status_details]. *)
Definition EIO : Z := 5.
Definition EINVAL : Z := 22.
Definition EBADMSG : Z := 74.

(** [QEOpServerProxy::VarType] and [QEOpServerProxy::AggOper]. *)
Inductive VarType :=
  | BLANK | STRING | UINT64 | DOUBLE | UUID | TDIGEST | CENTROID | MAP_ELEM | LIST.
#[export] Instance VarType_eq_dec : EqDecision VarType.
Proof. solve_decision. Defined.

Inductive AggOper :=
  | INVALID | SUM | COUNT | CLASS | MAX | MIN | PERCENTILES | AVG | COUNT_DISTINCT.
#[export] Instance AggOper_eq_dec : EqDecision AggOper.
Proof. solve_decision. Defined.

(** ** Values of the database *)

(** The alternatives of [GenDb::DbDataValue] the engine uses.  A [double] is
    the IEEE binary64 number of [spec_float]; a UUID its 128-bit number. *)
Inductive DbDataValue :=
  | DbBlank
  | DbString (s : string)
  | DbU64 (n : Z)
  | DbU32 (n : Z)
  | DbUuid (u : Z)
  | DbU8 (n : Z)
  | DbU16 (n : Z)
  | DbDouble (d : spec_float)
  | DbIpAddress (v6 : bool) (a : Z)
  | DbBlob (s : string).

#[export] Instance spec_float_eq_dec : EqDecision spec_float.
Proof. solve_decision. Defined.
#[export] Instance DbDataValue_eq_dec : EqDecision DbDataValue.
Proof. solve_decision. Defined.

Definition is_db_double (v : DbDataValue) : bool :=
  match v with DbDouble _ => true | _ => false end.

(** [operator<] of the variant: a strict total order on the values that are
    not floating point (a NaN is comparable with nothing). *)
Class DbValueOrder := {
  db_ltb : DbDataValue → DbDataValue → bool;
  db_ltb_total : strict_total (λ v, is_db_double v = false) db_ltb
}.

(** [struct query_result_unit_t]. *)
Record query_result_unit_t := {
  timestamp : Z;
  info : list DbDataValue
}.
#[export] Instance query_result_unit_eq_dec : EqDecision query_result_unit_t.
Proof. solve_decision. Defined.

Abbreviation WhereResultT := (list query_result_unit_t).

(** ** Accessors of a result unit; [None] is a failed [QE_ASSERT] *)

Definition get_uuid (r : query_result_unit_t) : option Z :=
  match info r !! 0%nat with Some (DbUuid u) => Some u | _ => None end.

Definition get_objectid (r : query_result_unit_t) : option string :=
  match info r !! 1%nat with Some (DbString s) => Some s | _ => None end.

Definition set_stattable_info (r : query_result_unit_t) (attribstr : string) (uuid : Z)
  : query_result_unit_t :=
  {| timestamp := timestamp r; info := info r ++ [DbString attribstr; DbUuid uuid] |}.

Definition get_stattable_info (r : query_result_unit_t) : option (string * Z) :=
  match info r !! 0%nat with
  | Some (DbString attribstr) =>
      match info r !! 1%nat with
      | Some (DbUuid uuid) => Some (attribstr, uuid)
      | _ => None
      end
  | _ => None
  end.

(** ** Result rows *)

(** [OutRowT] and [ResultRowT]; the metadata is an opaque handle. *)
Abbreviation OutRowT := (gmap string string).
Abbreviation ResultRowT := (gmap string string * Z)%type.
Abbreviation BufferT := (list (gmap string string * Z)).

(** [SubVal], the variant of a stats column.  The centroid and the t-digest
    are objects of the tdigest library: only their handles are stored. *)
Inductive SubVal :=
  | SvBlank
  | SvString (s : string)
  | SvU64 (n : Z)
  | SvDouble (d : spec_float)
  | SvUuid (u : Z)
  | SvTDigest (h : Z)
  | SvCentroid (h : Z).
#[export] Instance SubVal_eq_dec : EqDecision SubVal.
Proof. solve_decision. Defined.

(** [boost::variant::which] of a [SubVal]. *)
Definition which (v : SubVal) : VarType :=
  match v with
  | SvBlank => BLANK | SvString _ => STRING | SvU64 _ => UINT64 | SvDouble _ => DOUBLE
  | SvUuid _ => UUID | SvTDigest _ => TDIGEST | SvCentroid _ => CENTROID
  end.

(** ** A concrete order of database values, used by the examples *)

Module ConcreteOrder.
Definition rank (v : DbDataValue) : Z :=
  match v with
  | DbBlank => 0 | DbString _ => 1 | DbU64 _ => 2 | DbU32 _ => 3 | DbUuid _ => 4
  | DbU8 _ => 5 | DbU16 _ => 6 | DbDouble _ => 7 | DbIpAddress _ _ => 8 | DbBlob _ => 9
  end.

Definition addr_ltb (v6 v6' : bool) (a a' : Z) : bool :=
  match v6, v6' with
  | false, true => true
  | true, false => false
  | _, _ => a <? a'
  end.

Definition ltb (x y : DbDataValue) : bool :=
  match x, y with
  | DbString a, DbString b | DbBlob a, DbBlob b => String.ltb a b
  | DbU64 a, DbU64 b | DbU32 a, DbU32 b | DbUuid a, DbUuid b
  | DbU8 a, DbU8 b | DbU16 a, DbU16 b => a <? b
  | DbIpAddress v a, DbIpAddress v' a' => addr_ltb v v' a a'
  | DbDouble a, DbDouble b => SFltb a b
  | _, _ => rank x <? rank y
  end.

Lemma ltb_total : strict_total (λ v, is_db_double v = false) ltb.
Proof.
  pose proof (st_weak string_ltb_total) as Hs.
  split; [split|].
  - intros x y. destruct x, y; simpl; intros ?? H; try done; reflect_bools; try lia;
      try (by apply (sw_asym Hs)).
    unfold addr_ltb in *. repeat case_match; try done; reflect_bools; lia.
  - intros x y z; destruct x, y, z; simpl; intros ??? H1 H2; try done; reflect_bools; try lia;
      try (by eapply (sw_neg_trans Hs); [..|exact H1|exact H2]).
    unfold addr_ltb in *. repeat case_match; try done; reflect_bools; lia.
  - intros x y; destruct x, y; simpl; intros ?? H1 H2; try done; reflect_bools; try lia;
      try (f_equal; lia); try (f_equal; by apply (st_total string_ltb_total)).
    unfold addr_ltb in *. repeat case_match; try done; reflect_bools; f_equal; lia.
Qed.

Definition order : DbValueOrder := {| db_ltb := ltb; db_ltb_total := ltb_total |}.
End ConcreteOrder.
