(* ===== verification/SetOps.v ===== *)
(** * Set operations on WHERE results

    [contrail-query-engine/set_operation.cc]: the order of result units and
    the intersection and union of the results of the database sub-queries. *)
From stdpp Require Import base tactics list strings gmap.
From Stdlib Require Import ZArith Lia Sorted.
From S2P Require Import Prelude.
From S2P Require Import CppString.
From S2P Require Import QueryTypes.
Local Open Scope Z_scope.

Section SetOperationUnit.
Context `{DbValueOrder}.

(** The loop of [query_result_unit_t::operator<] over both info vectors: it
    stops at the end of the shorter one. *)
Fixpoint info_ltb (it jt : list DbDataValue) : bool :=
  match it, jt with
  | x :: it', y :: jt' =>
      if db_ltb x y then true else if db_ltb y x then false else info_ltb it' jt'
  | _, _ => false
  end.

(** [query_result_unit_t::operator<]. *)
Definition unit_ltb (lhs rhs : query_result_unit_t) : bool :=
  if timestamp lhs =? timestamp rhs then info_ltb (info lhs) (info rhs)
  else timestamp lhs <? timestamp rhs.

(** [SetOperationUnit::op_and]; [None]: [inp[0]] of an empty vector. *)
Definition op_and (inp : list WhereResultT) : option WhereResultT :=
  match inp with
  | [] => None
  | r :: rest => Some (foldl (std_set_intersection unit_ltb) r rest)
  end.

(** [SetOperationUnit::op_or]. *)
Definition op_or (inp : list WhereResultT) : option WhereResultT :=
  match inp with
  | [] => None
  | r :: rest => Some (foldl (std_set_union unit_ltb) r rest)
  end.

(** Units of one table: [n] info values, none of them floating point. *)
Definition unit_wf (n : nat) (r : query_result_unit_t) : Prop :=
  length (info r) = n ∧ Forall (λ v, is_db_double v = false) (info r).

#[export] Instance unit_wf_dec n r : Decision (unit_wf n r).
Proof. unfold unit_wf. apply _. Defined.

(** ** The order *)

Lemma info_ltb_asym l1 l2 :
  Forall (λ v, is_db_double v = false) l1 → Forall (λ v, is_db_double v = false) l2 →
  info_ltb l1 l2 = true → info_ltb l2 l1 = false.
Proof.
  pose proof (st_weak db_ltb_total) as Hsw. intros HP1. revert l2.
  induction HP1 as [|x l1 Hx HP1 IH]; intros l2 [|y l2' Hy HP2]; try done. simpl.
  destruct (db_ltb x y) eqn:Exy.
  - by rewrite (sw_asym Hsw x y).
  - destruct (db_ltb y x) eqn:Eyx; [done|]. by apply IH.
Qed.

Lemma info_ltb_neg_trans l1 l2 l3 :
  length l1 = length l2 → length l2 = length l3 →
  Forall (λ v, is_db_double v = false) l1 → Forall (λ v, is_db_double v = false) l2 →
  Forall (λ v, is_db_double v = false) l3 →
  info_ltb l1 l2 = false → info_ltb l2 l3 = false → info_ltb l1 l3 = false.
Proof.
  pose proof (st_weak db_ltb_total) as Hsw. intros Hl1 Hl2 HP1. revert l2 l3 Hl1 Hl2.
  induction HP1 as [|x l1 Hx HP1 IH]; intros [|y l2] [|z l3] ?? HP2 HP3; try done.
  apply Forall_cons in HP2 as [Hy HP2]. apply Forall_cons in HP3 as [Hz HP3]. simpl in *.
  destruct (db_ltb x y) eqn:Exy; [done|]. destruct (db_ltb y z) eqn:Eyz; [done|].
  rewrite (sw_neg_trans Hsw x y z) by done.
  destruct (db_ltb z x) eqn:Ezx; [done|].
  pose proof (sw_neg_trans Hsw y z x Hy Hz Hx Eyz Ezx) as Eyx.
  pose proof (sw_neg_trans Hsw z x y Hz Hx Hy Ezx Exy) as Ezy.
  rewrite Eyx, Ezy. by apply IH; lia || auto.
Qed.

Lemma info_ltb_eq l1 l2 :
  length l1 = length l2 →
  Forall (λ v, is_db_double v = false) l1 → Forall (λ v, is_db_double v = false) l2 →
  info_ltb l1 l2 = false → info_ltb l2 l1 = false → l1 = l2.
Proof.
  intros Hl HP1. revert l2 Hl.
  induction HP1 as [|x l1 Hx HP1 IH]; intros [|y l2] ? HP2; try done.
  apply Forall_cons in HP2 as [Hy HP2]. simpl in *.
  destruct (db_ltb x y) eqn:Exy; [done|]. destruct (db_ltb y x) eqn:Eyx; [done|].
  intros. f_equal; [by apply (st_total db_ltb_total)|]. apply IH; auto.
Qed.

Lemma unit_ltb_total n : strict_total (unit_wf n) unit_ltb.
Proof.
  split; [split|].
  - intros [t1 i1] [t2 i2] [? ?] [? ?]. unfold unit_ltb; simpl in *.
    rewrite (Z.eqb_sym t2). case_match; [by apply info_ltb_asym|].
    intros. reflect_bools. apply Z.ltb_ge. lia.
  - intros [t1 i1] [t2 i2] [t3 i3] [? ?] [? ?] [? ?]. unfold unit_ltb; simpl in *.
    destruct (Z.eqb_spec t1 t2), (Z.eqb_spec t2 t3), (Z.eqb_spec t1 t3); subst; try done;
      intros; reflect_bools; try (apply Z.ltb_ge); try lia.
    eapply (info_ltb_neg_trans i1 i2 i3); eauto; congruence.
  - intros [t1 i1] [t2 i2] [? ?] [? ?]. unfold unit_ltb; simpl in *.
    rewrite (Z.eqb_sym t2). destruct (Z.eqb_spec t1 t2); [|intros; reflect_bools; lia].
    intros. f_equal; [done|]. apply info_ltb_eq; auto; congruence.
Qed.

(** ** The operations as operations on multisets *)

Definition results_ok (n : nat) (r : WhereResultT) : Prop :=
  Forall (unit_wf n) r ∧ cpp_sorted unit_ltb r.

Lemma op_and_step n r1 r2 :
  results_ok n r1 → results_ok n r2 →
  results_ok n (std_set_intersection unit_ltb r1 r2).
Proof.
  intros [HP1 HS1] [HP2 HS2]. split; [|by apply std_set_intersection_sorted].
  rewrite Forall_forall in *. intros x Hx%elem_of_std_set_intersection. auto.
Qed.

Lemma op_or_step n r1 r2 :
  results_ok n r1 → results_ok n r2 → results_ok n (std_set_union unit_ltb r1 r2).
Proof.
  intros [HP1 HS1] [HP2 HS2].
  split; [|by eapply std_set_union_sorted; [apply unit_ltb_total|..]].
  rewrite Forall_forall in *. intros x [?|?]%elem_of_std_set_union; auto.
Qed.

Lemma op_and_foldl n rest r :
  results_ok n r → Forall (results_ok n) rest →
  results_ok n (foldl (std_set_intersection unit_ltb) r rest) ∧
  ∀ x, unit_wf n x →
    mult x (foldl (std_set_intersection unit_ltb) r rest)
    = foldl Nat.min (mult x r) (mult x <$> rest).
Proof.
  intros Hr Hrest. revert r Hr. induction Hrest as [|r2 rest Hr2 Hrest IH]; intros r Hr; [done|].
  simpl. pose proof (op_and_step n r r2 Hr Hr2) as H2.
  destruct (IH _ H2) as [Hok Hm]. split; [done|]. intros x Hx. rewrite Hm by done.
  destruct Hr, Hr2. by erewrite (std_set_intersection_mult _ _ (unit_ltb_total n)).
Qed.

Lemma op_or_foldl n rest r :
  results_ok n r → Forall (results_ok n) rest →
  results_ok n (foldl (std_set_union unit_ltb) r rest) ∧
  ∀ x, unit_wf n x →
    mult x (foldl (std_set_union unit_ltb) r rest)
    = foldl Nat.max (mult x r) (mult x <$> rest).
Proof.
  intros Hr Hrest. revert r Hr. induction Hrest as [|r2 rest Hr2 Hrest IH]; intros r Hr; [done|].
  simpl. pose proof (op_or_step n r r2 Hr Hr2) as H2.
  destruct (IH _ H2) as [Hok Hm]. split; [done|]. intros x Hx. rewrite Hm by done.
  destruct Hr, Hr2. by erewrite (std_set_union_mult _ _ (unit_ltb_total n)).
Qed.

(** The smallest and the largest element of a sequence. *)
Definition list_min (l : list nat) : option nat :=
  match l with [] => None | m :: ms => Some (foldl Nat.min m ms) end.
Definition list_max (l : list nat) : option nat :=
  match l with [] => None | m :: ms => Some (foldl Nat.max m ms) end.

Lemma foldl_min_glb j m ms : (j <= foldl Nat.min m ms)%nat ↔ Forall (λ k, (j <= k)%nat) (m :: ms).
Proof.
  revert m. induction ms as [|k ms IH]; intros m; simpl; [by rewrite Forall_singleton|].
  rewrite IH, !Forall_cons. split; intros [??]; repeat split; try tauto; lia.
Qed.

Lemma foldl_max_lub j m ms : (foldl Nat.max m ms <= j)%nat ↔ Forall (λ k, (k <= j)%nat) (m :: ms).
Proof.
  revert m. induction ms as [|k ms IH]; intros m; simpl; [by rewrite Forall_singleton|].
  rewrite IH, !Forall_cons. split; intros [??]; repeat split; try tauto; lia.
Qed.

Lemma foldl_min_perm m ms k ks : Permutation (m :: ms) (k :: ks) →
  foldl Nat.min m ms = foldl Nat.min k ks.
Proof.
  intros Hp. apply Nat.le_antisymm; apply foldl_min_glb;
    [rewrite <- Hp|rewrite Hp]; by apply foldl_min_glb.
Qed.

Lemma foldl_max_perm m ms k ks : Permutation (m :: ms) (k :: ks) →
  foldl Nat.max m ms = foldl Nat.max k ks.
Proof.
  intros Hp. apply Nat.le_antisymm; apply foldl_max_lub;
    [rewrite Hp|rewrite <- Hp]; by apply foldl_max_lub.
Qed.

Lemma foldl_min_pos m ms : (0 < foldl Nat.min m ms)%nat ↔ Forall (λ k, (0 < k)%nat) (m :: ms).
Proof.
  revert m. induction ms as [|k ms IH]; intros m; simpl; [by rewrite Forall_singleton|].
  rewrite IH, !Forall_cons. split; intros [??]; repeat split; try tauto; lia.
Qed.

Lemma foldl_max_pos m ms : (0 < foldl Nat.max m ms)%nat ↔ Exists (λ k, (0 < k)%nat) (m :: ms).
Proof.
  revert m. induction ms as [|k ms IH]; intros m; simpl.
  { rewrite Exists_cons, Exists_nil. tauto. }
  rewrite IH, !Exists_cons.
  split; [intros [?|?]; [destruct (decide (0 < m)%nat); [auto|right; left; lia]|auto]|].
  intros [?|[?|?]]; auto; left; lia.
Qed.

(** The results of the set operations do not depend on the order of the inputs. *)
Lemma op_and_perm n inp inp' : Forall (results_ok n) inp → Permutation inp inp' →
  op_and inp = op_and inp'.
Proof.
  intros Hok Hp. assert (Forall (results_ok n) inp') as Hok' by (by rewrite <- Hp).
  destruct inp as [|r rest].
  { by apply Permutation_nil in Hp as ->. }
  destruct inp' as [|r' rest']; [by symmetry in Hp; apply Permutation_nil in Hp|]. simpl. f_equal.
  apply Forall_cons in Hok as [Hr Hrest], Hok' as [Hr' Hrest'].
  destruct (op_and_foldl n rest r Hr Hrest) as [Ho Hm].
  destruct (op_and_foldl n rest' r' Hr' Hrest') as [Ho' Hm'].
  apply (sorted_mult_eq (unit_wf n) unit_ltb (unit_ltb_total n)); [apply Ho..|apply Ho'|apply Ho|apply Ho'|].
  intros x Hx. rewrite Hm, Hm' by done. apply foldl_min_perm. rewrite <- !fmap_cons. by rewrite Hp.
Qed.

Lemma op_or_perm n inp inp' : Forall (results_ok n) inp → Permutation inp inp' →
  op_or inp = op_or inp'.
Proof.
  intros Hok Hp. assert (Forall (results_ok n) inp') as Hok' by (by rewrite <- Hp).
  destruct inp as [|r rest].
  { by apply Permutation_nil in Hp as ->. }
  destruct inp' as [|r' rest']; [by symmetry in Hp; apply Permutation_nil in Hp|]. simpl. f_equal.
  apply Forall_cons in Hok as [Hr Hrest], Hok' as [Hr' Hrest'].
  destruct (op_or_foldl n rest r Hr Hrest) as [Ho Hm].
  destruct (op_or_foldl n rest' r' Hr' Hrest') as [Ho' Hm'].
  apply (sorted_mult_eq (unit_wf n) unit_ltb (unit_ltb_total n)); [apply Ho..|apply Ho'|apply Ho|apply Ho'|].
  intros x Hx. rewrite Hm, Hm' by done. apply foldl_max_perm. rewrite <- !fmap_cons. by rewrite Hp.
Qed.

(** The units of an intersection and of a union. *)
Lemma op_and_units n inp : inp ≠ [] → Forall (results_ok n) inp →
  ∃ res, op_and inp = Some res ∧ results_ok n res ∧
    (∀ x, unit_wf n x → x ∈ res ↔ ∀ r, r ∈ inp → x ∈ r).
Proof.
  destruct inp as [|r rest]; [done|]. intros _ [Hr Hrest]%Forall_cons.
  destruct (op_and_foldl n rest r Hr Hrest) as [Hok Hm].
  eexists; split_and!; [done|done|]; intros x Hx.
  rewrite mult_elem_of, Hm, foldl_min_pos, <- fmap_cons, Forall_fmap, Forall_forall by done.
  split; intros HH r' Hr'; apply mult_elem_of, HH, Hr'.
Qed.

Lemma op_or_units n inp : inp ≠ [] → Forall (results_ok n) inp →
  ∃ res, op_or inp = Some res ∧ results_ok n res ∧
    (∀ x, unit_wf n x → x ∈ res ↔ ∃ r, r ∈ inp ∧ x ∈ r).
Proof.
  destruct inp as [|r rest]; [done|]. intros _ [Hr Hrest]%Forall_cons.
  destruct (op_or_foldl n rest r Hr Hrest) as [Hok Hm].
  eexists; split_and!; [done|done|]; intros x Hx.
  rewrite mult_elem_of, Hm, foldl_max_pos, <- fmap_cons, Exists_fmap, Exists_exists by done.
  split; intros (r' & Hr' & HH); exists r'; (split; [done|by apply mult_elem_of]).
Qed.

(** C1.  The AND of sub-query results that are sorted and of one table is
    defined and again sorted; it holds every unit as often as the input that
    holds it least, and so contains exactly the units every input has. *)
Theorem op_and_correct n inp :
  inp ≠ [] → Forall (results_ok n) inp →
  ∃ res, op_and inp = Some res ∧ results_ok n res ∧
    (∀ x, unit_wf n x → Some (mult x res) = list_min (mult x <$> inp)) ∧
    (∀ x, unit_wf n x → x ∈ res ↔ ∀ r, r ∈ inp → x ∈ r).
Proof.
  intros Hne Hok. destruct (op_and_units n inp Hne Hok) as (res & E & Hres & Hin).
  exists res. split_and!; [done|done| |done]. intros x Hx.
  destruct inp as [|r rest]; [done|]. injection E as <-. apply Forall_cons in Hok as [Hr Hrest].
  destruct (op_and_foldl n rest r Hr Hrest) as [_ Hm]. by rewrite Hm.
Qed.

(** C2.  The OR of sub-query results that are sorted and of one table is
    defined and again sorted; it holds every unit as often as the input that
    holds it most, and so contains exactly the units some input has. *)
Theorem op_or_correct n inp :
  inp ≠ [] → Forall (results_ok n) inp →
  ∃ res, op_or inp = Some res ∧ results_ok n res ∧
    (∀ x, unit_wf n x → Some (mult x res) = list_max (mult x <$> inp)) ∧
    (∀ x, unit_wf n x → x ∈ res ↔ ∃ r, r ∈ inp ∧ x ∈ r).
Proof.
  intros Hne Hok. destruct (op_or_units n inp Hne Hok) as (res & E & Hres & Hin).
  exists res. split_and!; [done|done| |done]. intros x Hx.
  destruct inp as [|r rest]; [done|]. injection E as <-. apply Forall_cons in Hok as [Hr Hrest].
  destruct (op_or_foldl n rest r Hr Hrest) as [_ Hm]. by rewrite Hm.
Qed.
End SetOperationUnit.

(** ** Examples *)

Module SetOpsExamples.
#[local] Existing Instance ConcreteOrder.order.

Definition u (t : Z) (s : string) (id : Z) : query_result_unit_t :=
  {| timestamp := t; info := [DbString s; DbUuid id] |}.
Definition r1 : WhereResultT := [u 1 "a" 1; u 2 "a" 2; u 2 "b" 3; u 5 "c" 4].
Definition r2 : WhereResultT := [u 2 "a" 2; u 2 "b" 3; u 4 "d" 5].
Definition r3 : WhereResultT := [u 2 "b" 3; u 4 "d" 5; u 5 "c" 4].

Example op_and_r : op_and [r1; r2; r3] = Some [u 2 "b" 3].
Proof. reflexivity. Qed.
Example op_or_r :
  op_or [r1; r2; r3] = Some [u 1 "a" 1; u 2 "a" 2; u 2 "b" 3; u 4 "d" 5; u 5 "c" 4].
Proof. reflexivity. Qed.

Lemma inputs_ok : Forall (results_ok 2) [r1; r2; r3].
Proof.
  repeat apply Forall_cons_2; try apply Forall_nil_2;
    (split; [by repeat constructor | repeat constructor]).
Qed.

Lemma op_and_correct_witness :
  ∃ res, op_and [r1; r2; r3] = Some res ∧ results_ok 2 res ∧
    (∀ x, unit_wf 2 x → Some (mult x res) = list_min (mult x <$> [r1; r2; r3])) ∧
    (∀ x, unit_wf 2 x → x ∈ res ↔ ∀ r, r ∈ [r1; r2; r3] → x ∈ r).
Proof. apply op_and_correct; [done | exact inputs_ok]. Defined.

Lemma op_or_correct_witness :
  ∃ res, op_or [r1; r2; r3] = Some res ∧ results_ok 2 res ∧
    (∀ x, unit_wf 2 x → Some (mult x res) = list_max (mult x <$> [r1; r2; r3])) ∧
    (∀ x, unit_wf 2 x → x ∈ res ↔ ∃ r, r ∈ [r1; r2; r3] ∧ x ∈ r).
Proof. apply op_or_correct; [done | exact inputs_ok]. Defined.

(** Without one length of the info vectors, incomparability is not transitive:
    a shorter vector is incomparable with every extension of it. *)
Example unequal_lengths :
  let a := {| timestamp := 1; info := [] |} in
  let b := {| timestamp := 1; info := [DbU64 1] |} in
  let c := {| timestamp := 1; info := [DbU64 2] |} in
  unit_ltb b a = false ∧ unit_ltb a c = false ∧ unit_ltb b c = true ∧
  unit_ltb c a = false ∧ unit_ltb a b = false.
Proof. by vm_compute. Qed.
End SetOpsExamples.
