(* ===== verification/SortedLists.v ===== *)
(** * Sorting with asserting comparators, directions and limits

    [PostProcessingQuery::sort_field_comparator] asserts that both rows have
    the sort columns, so sorting and merging may stop the process; results are
    sorted forwards or, through reverse iterators, backwards; and every parallel
    chunk may cut its result to the query's limit before the chunks are merged.
    The generic facts behind these are here. *)
From stdpp Require Import base tactics list sets.
From Stdlib Require Import ZArith Lia Sorted Permutation.
From S2P Require Import Prelude.

(** ** Comparators that may stop *)

(** The boolean of a comparison that returned. *)
Definition returned {A} (cmp : A → A → option bool) (x y : A) : bool := default false (cmp x y).

(** Every comparison between elements of the two lists returns. *)
Definition comparable {A} (cmp : A → A → option bool) (l1 l2 : list A) : Prop :=
  ∀ x y, x ∈ l1 → y ∈ l2 → is_Some (cmp x y).

(** [std::sort] with such a comparator: when no comparison stops, a sort. *)
Class StdSortPartial `{StdSort} := {
  std_sort_partial : ∀ {A : Type}, (A → A → option bool) → list A → option (list A);
  std_sort_partial_done {A} (cmp : A → A → option bool) l :
    comparable cmp l l → std_sort_partial cmp l = Some (std_sort (returned cmp) l);
  std_sort_partial_perm {A} (cmp : A → A → option bool) l l' :
    std_sort_partial cmp l = Some l' → Permutation l l'
}.

(** [std::merge] with such a comparator. *)
Fixpoint std_merge_partial {A} (cmp : A → A → option bool) (l1 : list A)
  : list A → option (list A) :=
  fix go l2 :=
    match l1, l2 with
    | [], _ => Some l2
    | _, [] => Some l1
    | a :: l1', b :: l2' =>
        match cmp b a with
        | None => None
        | Some true => cons b <$> go l2'
        | Some false => cons a <$> std_merge_partial cmp l1' l2
        end
    end.

Lemma std_merge_partial_done {A} (cmp : A → A → option bool) l1 l2 :
  comparable cmp l2 l1 → std_merge_partial cmp l1 l2 = Some (std_merge (returned cmp) l1 l2).
Proof.
  revert l2. induction l1 as [|a l1 IH]; intros l2; [by destruct l2|].
  induction l2 as [|b l2 IH2]; intros Hc; [done|]. simpl.
  destruct (Hc b a) as [r Hr]; [set_solver..|]. unfold returned at 1. rewrite Hr. simpl.
  destruct r.
  - change ((cons b <$> std_merge_partial cmp (a :: l1) l2) =
            Some (b :: std_merge (returned cmp) (a :: l1) l2)).
    rewrite IH2; [done|]. intros x y Hx Hy. apply Hc; set_solver.
  - rewrite IH; [done|]. intros x y Hx Hy. apply Hc; set_solver.
Qed.

(** Insertion sort as such a sort: it stops unless all pairs compare. *)
Definition all_pairs {A} (cmp : A → A → option bool) (l : list A) : bool :=
  forallb (λ x, forallb (λ y, bool_decide (is_Some (cmp x y))) l) l.

Lemma all_pairs_spec {A} (cmp : A → A → option bool) l : all_pairs cmp l = true ↔ comparable cmp l l.
Proof.
  unfold all_pairs, comparable. rewrite forallb_forall. split.
  - intros H x y Hx Hy. apply list_elem_of_In in Hx, Hy. specialize (H x Hx).
    rewrite forallb_forall in H. by apply (bool_decide_eq_true _), (H y).
  - intros H x Hx. apply forallb_forall. intros y Hy. apply bool_decide_eq_true.
    apply H; by apply list_elem_of_In.
Qed.

Definition insertion_sort_partial {A} (cmp : A → A → option bool) (l : list A) : option (list A) :=
  if all_pairs cmp l then Some (insertion_sort (returned cmp) l) else None.

Lemma insertion_sort_partial_done {A} (cmp : A → A → option bool) l :
  comparable cmp l l → insertion_sort_partial cmp l = Some (std_sort (returned cmp) l).
Proof. intros Hc%all_pairs_spec. unfold insertion_sort_partial. by rewrite Hc. Qed.

Lemma insertion_sort_partial_perm {A} (cmp : A → A → option bool) l l' :
  insertion_sort_partial cmp l = Some l' → Permutation l l'.
Proof.
  unfold insertion_sort_partial. destruct (all_pairs cmp l); [|done].
  intros [= <-]. apply insertion_sort_perm.
Qed.

#[export] Instance insertion_StdSortPartial : StdSortPartial := {|
  std_sort_partial A cmp l := insertion_sort_partial cmp l;
  std_sort_partial_done A cmp l := insertion_sort_partial_done cmp l;
  std_sort_partial_perm A cmp l l' := insertion_sort_partial_perm cmp l l'
|}.

(** ** Directions *)

(** Sorted forwards, or sorted when read backwards. *)
Definition sorted_dir {A} (fwd : bool) (ltb : A → A → bool) (l : list A) : Prop :=
  cpp_sorted ltb (if fwd then l else reverse l).

Definition dir {A} (fwd : bool) (l : list A) : list A := if fwd then l else reverse l.

Lemma dir_perm {A} fwd (l : list A) : Permutation l (dir fwd l).
Proof. destruct fwd; [done|]. symmetry. apply reverse_Permutation. Qed.

Lemma dir_dir {A} fwd (l : list A) : dir fwd (dir fwd l) = l.
Proof. destruct fwd; [done|apply reverse_involutive]. Qed.

(** ** Positions in sorted lists *)

(** The order read in a direction. *)
Definition ltb_dir {A} (fwd : bool) (ltb : A → A → bool) (x y : A) : bool :=
  if fwd then ltb x y else ltb y x.

Lemma ltb_dir_weak {A} (P : A → Prop) ltb fwd : strict_weak P ltb → strict_weak P (ltb_dir fwd ltb).
Proof.
  intros [Ha Hn]. destruct fwd; split; simpl; [exact Ha|exact Hn|..].
  - intros x y Hx Hy. by apply Ha.
  - intros x y z Hx Hy Hz H1 H2. by apply (Hn z y x).
Qed.

Lemma StronglySorted_snoc {A} (R : A → A → Prop) l x :
  StronglySorted R l → Forall (λ y, R y x) l → StronglySorted R (l ++ [x]).
Proof.
  induction 1 as [|y l HS IH Hy]; intros HF; simpl; [by repeat constructor|].
  inversion HF; subst. constructor; [auto|]. apply Forall_app. auto.
Qed.

Lemma StronglySorted_reverse {A} (R : A → A → Prop) l :
  StronglySorted R l → StronglySorted (flip R) (reverse l).
Proof.
  induction 1 as [|x l HS IH Hx]; [constructor|]. rewrite reverse_cons.
  apply StronglySorted_snoc; [done|]. by apply Forall_reverse.
Qed.

Lemma sorted_dir_ltb {A} fwd (ltb : A → A → bool) l :
  sorted_dir fwd ltb l ↔ cpp_sorted (ltb_dir fwd ltb) l.
Proof.
  destruct fwd; [done|]. unfold sorted_dir, cpp_sorted, ltb_dir. split; intros H.
  - apply StronglySorted_reverse in H. rewrite reverse_involutive in H. exact H.
  - apply StronglySorted_reverse in H. exact H.
Qed.

(** ** Limits applied before a merge *)

Section top_k.
Context {A : Type} (P : A → Prop) (ltb : A → A → bool) (Hsw : strict_weak P ltb).

(** How many elements are smaller than [x]. *)
Definition below (x : A) (l : list A) : nat := length (List.filter (λ y, ltb y x) l).

Lemma below_app x l1 l2 : below x (l1 ++ l2) = below x l1 + below x l2.
Proof using. unfold below. by rewrite List.filter_app, length_app. Qed.

Lemma below_perm x l1 l2 : Permutation l1 l2 → below x l1 = below x l2.
Proof using.
  unfold below. induction 1 as [|y l1 l2 _ IH|y z l|l1 l2 l3 _ IH1 _ IH2]; simpl; try done.
  - case_match; simpl; lia.
  - repeat case_match; simpl; lia.
  - lia.
Qed.

Lemma below_zero x l : P x → Forall P l → Forall (λ y, ltb y x = false) l → below x l = 0.
Proof using.
  unfold below. intros Hx HP. induction 1 as [|y l Hy _ IH]; simpl; [done|].
  inversion HP; subst. rewrite Hy. auto.
Qed.

(** In a sorted list the elements below [x] come first. *)
Lemma below_head x y l : P x → P y → Forall P l → cpp_sorted ltb (y :: l) →
  ltb y x = false → below x (y :: l) = 0.
Proof using Hsw.
  intros Hx Hy HP HS Hyx. inversion HS as [|? ? _ HF]; subst.
  apply below_zero; [done|by constructor|]. constructor; [done|].
  apply Forall_forall. intros z Hz. rewrite Forall_forall in HF, HP.
  eapply (sw_neg_trans Hsw z y x); auto.
Qed.

Lemma below_take x k l : P x → Forall P l → cpp_sorted ltb l →
  below x (take k l) = below x l `min` k.
Proof using Hsw.
  intros Hx. revert k. induction l as [|y l IH]; intros k HP HS.
  { rewrite take_nil. unfold below; simpl; lia. }
  destruct k as [|k]; [unfold below; simpl; lia|].
  inversion HP; subst. inversion HS; subst.
  destruct (ltb y x) eqn:E.
  - simpl. specialize (IH k). unfold below in *. simpl. rewrite E. simpl. rewrite IH; [lia|done..].
  - rewrite (below_head x y l) by done. simpl.
    assert (cpp_sorted ltb (y :: take k l)) as HS'.
    { constructor; [|by apply Forall_take].
      clear -H3. revert k. induction H3 as [|z l _ IH Hz]; intros [|k]; simpl; try constructor; auto.
      by apply Forall_take. }
    rewrite below_head; [lia|done..|by apply Forall_take|done|done].
Qed.

(** The position of an element bounds how many are below it. *)
Lemma below_at_most l j y : Forall P l → cpp_sorted ltb l → l !! j = Some y → below y l <= j.
Proof using Hsw.
  intros HP HS Hj. pose proof (Forall_lookup_1 _ _ _ _ HP Hj) as Hy.
  rewrite <- (take_drop_middle l j y Hj), below_app.
  assert (below y (y :: drop (S j) l) = 0) as ->.
  { assert (Forall P (y :: drop (S j) l) ∧ cpp_sorted ltb (y :: drop (S j) l)) as [HP' HS'].
    { rewrite <- (drop_S _ _ _ Hj). split; [by apply Forall_drop|].
      clear -HS. revert j. induction HS as [|z l HS IH Hz]; intros [|j]; simpl; try by constructor. auto. }
    inversion HP'; subst. apply below_head; auto. by apply (sw_irrefl P ltb Hsw). }
  unfold below. pose proof (filter_length (λ z, ltb z y) (take j l)) as H.
  pose proof (length_take_le l j). rewrite length_take in H. lia.
Qed.

Lemma below_at_least l j x y : Forall P l → P y → cpp_sorted ltb l → l !! j = Some x →
  ltb x y = true → S j <= below y l.
Proof using Hsw.
  intros HP Hy HS Hj Hxy. revert j Hj. induction l as [|z l IH]; intros [|j] Hj; [done..| |].
  - injection Hj as ->. unfold below; simpl. rewrite Hxy. simpl. lia.
  - inversion HP; subst. inversion HS as [|? ? HS' HF]; subst.
    assert (ltb z y = true) as Hzy.
    { destruct (ltb z y) eqn:E; [done|]. simpl in Hj.
      pose proof (Forall_lookup_1 _ _ _ _ HF Hj) as Hxz. simpl in Hxz.
      pose proof (Forall_lookup_1 _ _ _ _ H2 Hj) as Hx.
      by rewrite (sw_neg_trans Hsw x z y) in Hxy. }
    specialize (IH H2 HS' j Hj). unfold below in *. simpl. rewrite Hzy. simpl. lia.
Qed.

(** Neither is smaller: equal for the order. *)
Definition equiv_by (x y : A) : Prop := ltb x y = false ∧ ltb y x = false.

Lemma below_concat_take k x ls :
  P x → Forall (Forall P) ls → Forall (cpp_sorted ltb) ls →
  below x (concat (take k <$> ls)) `min` k = below x (concat ls) `min` k.
Proof using Hsw.
  intros Hx HP HS. induction ls as [|l ls IH]; [done|]. inversion HP; subst. inversion HS; subst.
  rewrite fmap_cons, !concat_cons, !below_app, below_take by done. specialize (IH H2 H4). lia.
Qed.

Lemma length_concat_take k (ls : list (list A)) :
  length (concat (take k <$> ls)) `min` k = length (concat ls) `min` k.
Proof using.
  induction ls as [|l ls IH]; [done|].
  rewrite fmap_cons, !concat_cons, !length_app, length_take. lia.
Qed.

Lemma take_equiv k s1 s2 :
  Forall P s1 → Forall P s2 → cpp_sorted ltb s1 → cpp_sorted ltb s2 →
  length s1 `min` k = length s2 `min` k →
  (∀ x, P x → below x s1 `min` k = below x s2 `min` k) →
  Forall2 equiv_by (take k s1) (take k s2).
Proof using Hsw.
  intros HP1 HP2 HS1 HS2 Hlen Hb. apply Forall2_same_length_lookup_2.
  { rewrite !length_take. lia. }
  intros j x y Hx Hy.
  apply lookup_take_Some in Hx as [Hx Hj]. apply lookup_take_Some in Hy as [Hy _].
  pose proof (Forall_lookup_1 _ _ _ _ HP1 Hx) as Px.
  pose proof (Forall_lookup_1 _ _ _ _ HP2 Hy) as Py.
  split.
  - destruct (ltb x y) eqn:E; [|done].
    pose proof (below_at_least s1 j x y HP1 Py HS1 Hx E).
    pose proof (below_at_most s2 j y HP2 HS2 Hy). specialize (Hb y Py). lia.
  - destruct (ltb y x) eqn:E; [|done].
    pose proof (below_at_least s2 j y x HP2 Px HS2 Hy E).
    pose proof (below_at_most s1 j x HP1 HS1 Hx). specialize (Hb x Px). lia.
Qed.

(** Sorting the pieces and keeping [k] of each loses nothing of the first [k]
    of the whole, up to elements the order does not distinguish. *)
Lemma limit_pieces k ls s1 s2 :
  Forall (Forall P) ls → Forall (cpp_sorted ltb) ls →
  Permutation (concat (take k <$> ls)) s1 → Permutation (concat ls) s2 →
  cpp_sorted ltb s1 → cpp_sorted ltb s2 →
  Forall2 equiv_by (take k s1) (take k s2).
Proof using Hsw.
  intros HP HS Hp1 Hp2 HS1 HS2.
  assert (Forall P (concat ls)) as HPc by (by apply Forall_concat).
  assert (Forall P (concat (take k <$> ls))) as HPt.
  { apply Forall_concat, Forall_fmap. eapply Forall_impl; [exact HP|]. intros l. apply Forall_take. }
  apply take_equiv; try done.
  - by eapply Forall_perm.
  - by eapply Forall_perm.
  - rewrite <- (Permutation_length Hp1), <- (Permutation_length Hp2). apply length_concat_take.
  - intros x Hx. rewrite <- (below_perm x _ _ Hp1), <- (below_perm x _ _ Hp2).
    by apply below_concat_take.
Qed.
End top_k.

(** ** Orders built from keys *)

Lemma strict_weak_lex {A} (P : A → Prop) (ltb1 ltb2 : A → A → bool) :
  strict_weak P ltb1 → strict_weak P ltb2 →
  strict_weak P (λ x y, if ltb1 x y then true else if ltb1 y x then false else ltb2 x y).
Proof.
  intros H1 H2. split.
  - intros x y Hx Hy. destruct (ltb1 x y) eqn:E1.
    + by rewrite (sw_asym H1 x y).
    + destruct (ltb1 y x) eqn:E2; [done|]. by apply (sw_asym H2).
  - intros x y z Hx Hy Hz.
    destruct (ltb1 x y) eqn:Exy; [done|]. destruct (ltb1 y z) eqn:Eyz; [done|].
    rewrite (sw_neg_trans H1 x y z) by done.
    destruct (ltb1 y x) eqn:Eyx; intros Ha; [|destruct (ltb1 z y) eqn:Ezy; intros Hb].
    + intros _. destruct (ltb1 z x) eqn:Ezx; [done|].
      by rewrite (sw_neg_trans H1 y z x) in Eyx.
    + destruct (ltb1 z x) eqn:Ezx; [done|]. by rewrite (sw_neg_trans H1 z x y) in Ezy.
    + rewrite (sw_neg_trans H1 z y x) by done. by apply (sw_neg_trans H2 x y z).
Qed.

Lemma strict_weak_key {A B} (P : A → Prop) (Q : B → Prop) (key : A → B) (ltb : B → B → bool) :
  strict_weak Q ltb → (∀ x, P x → Q (key x)) → strict_weak P (λ x y, ltb (key x) (key y)).
Proof.
  intros [Ha Hn] HQ. split.
  - intros x y Hx Hy. apply Ha; auto.
  - intros x y z Hx Hy Hz. apply Hn; auto.
Qed.

Lemma strict_weak_ext {A} (P : A → Prop) (ltb ltb' : A → A → bool) :
  (∀ x y, P x → P y → ltb x y = ltb' x y) → strict_weak P ltb' → strict_weak P ltb.
Proof.
  intros E [Ha Hn]. split.
  - intros x y Hx Hy. rewrite !E by done. auto.
  - intros x y z Hx Hy Hz. rewrite !E by done. by apply Hn.
Qed.

Lemma strict_weak_sub {A} (P Q : A → Prop) (ltb : A → A → bool) :
  (∀ x, P x → Q x) → strict_weak Q ltb → strict_weak P ltb.
Proof. intros HPQ H. by apply (strict_weak_key P Q id ltb). Qed.

Lemma Zltb_weak : strict_weak (λ _, True) Z.ltb.
Proof. split; intros; reflect_bools; apply Z.ltb_ge; lia. Qed.
