(* ===== verification/Xml.v ===== *)
(** * XML documents

    The collector receives sandesh messages as XML and reads them with
    pugixml.  A document is a tree of elements and texts; a handle of the
    library is an [option] of a node, and its accessors are defined on handles
    as the library documents them: a handle that is empty has no name, no
    attributes and no children.  The printed form of a node and the removal of
    the escapes the sandesh library puts into texts are a class. *)
From Stdlib Require Import Ascii.
From stdpp Require Import base tactics list strings.
From Stdlib Require Import ZArith Lia.
From S2P Require Import Prelude.
From S2P Require Import CppString.
#[local] Set Warnings "-register-all".

(** ** Nodes *)

Inductive xml_node :=
  | XmlText (value : string)
  | XmlElement (name : string) (attributes : list (string * string)) (children : list xml_node).

Section xml_node_ind.
Variable (P : xml_node → Prop).
Hypothesis (HT : ∀ value, P (XmlText value)).
Hypothesis (HE : ∀ name attributes children, Forall P children → P (XmlElement name attributes children)).
Fixpoint xml_node_ind' (n : xml_node) : P n :=
  match n with
  | XmlText value => HT value
  | XmlElement name attributes children =>
      HE name attributes children
        ((fix go (l : list xml_node) : Forall P l :=
            match l with
            | [] => Forall_nil_2 P
            | n' :: l' => Forall_cons_2 P n' l' (xml_node_ind' n') (go l')
            end) children)
  end.
End xml_node_ind.

(** [pugi::xml_node]. *)
Abbreviation handle := (option xml_node).

Definition node_name (n : xml_node) : string :=
  match n with XmlElement name _ _ => name | XmlText _ => EmptyString end.
Definition node_attributes (n : xml_node) : list (string * string) :=
  match n with XmlElement _ l _ => l | XmlText _ => [] end.
Definition node_children (n : xml_node) : list xml_node :=
  match n with XmlElement _ _ l => l | XmlText _ => [] end.
Definition node_text (n : xml_node) : option string :=
  match n with XmlText s => Some s | XmlElement _ _ _ => None end.

(** ** Accessors *)

(** [name], and the nodes the loop over [first_child] and [next_sibling]
    visits. *)
Definition name (h : handle) : string := default EmptyString (node_name <$> h).
Definition children (h : handle) : list xml_node := default [] (node_children <$> h).
Definition first_child (h : handle) : handle := head (children h).

(** [attribute(k)] when it is not empty, and its [value()]. *)
Definition attribute (h : handle) (k : string) : option string :=
  n ← h; snd <$> List.find (λ a, (a.1 =? k)%string) (node_attributes n).
Definition attribute_value (h : handle) (k : string) : string := default EmptyString (attribute h k).

(** [child(k)]: the first element of that name. *)
Definition is_element (k : string) (n : xml_node) : bool :=
  match n with XmlElement s _ _ => (s =? k)%string | XmlText _ => false end.
Definition child (h : handle) (k : string) : handle := List.find (is_element k) (children h).

(** [child_value()]: the first text below the node. *)
Definition child_value (h : handle) : string := default EmptyString (head (omap node_text (children h))).

(** [remove_attribute(k)]: the first one of that name. *)
Fixpoint remove_first (k : string) (l : list (string * string)) : list (string * string) :=
  match l with
  | [] => []
  | a :: l' => if (a.1 =? k)%string then l' else a :: remove_first k l'
  end.
Definition remove_attribute (k : string) (n : xml_node) : xml_node :=
  match n with
  | XmlElement s l c => XmlElement s (remove_first k l) c
  | XmlText _ => n
  end.

(** [print] without indentation and escapes, and sandesh's
    [TXMLProtocol::unescapeXMLControlChars]. *)
Class XmlForms := {
  xml_print : xml_node → string;
  unescapeXMLControlChars : string → string
}.

(** ** Depth *)

(** The number of nodes on the longest path. *)
Fixpoint depth (n : xml_node) : nat :=
  match n with
  | XmlText _ => 1
  | XmlElement _ _ l => S (foldr (λ c m, Nat.max (depth c) m) 0%nat l)
  end.
Definition depth_of (h : handle) : nat := default 0%nat (depth <$> h).

Lemma child_depth n c : c ∈ node_children n → (depth c < depth n)%nat.
Proof.
  destruct n as [s|s a l]; simpl; [by rewrite elem_of_nil|].
  intros Hc. induction Hc as [c l|c c' l Hc IH]; simpl; lia.
Qed.
Lemma children_depth h c : c ∈ children h → (depth c < depth_of h)%nat.
Proof. destruct h as [n|]; [apply child_depth|by intros ?%elem_of_nil]. Qed.

Lemma child_Some h k c : child h k = Some c → c ∈ children h ∧ is_element k c = true.
Proof. intros Hc. unfold child in Hc. apply List.find_some in Hc as [Hi He]. split; [by apply list_elem_of_In|done]. Qed.
Lemma is_element_name k n : is_element k n = true → node_name n = k.
Proof. destruct n as [s|s a l]; [done|]. simpl. apply String.eqb_eq. Qed.
Lemma head_elem {A} (l : list A) x : head l = Some x → x ∈ l.
Proof. destruct l; simpl; [done|]. intros [= ->]. by left. Qed.

(** ** Names *)

(** Every element below a node has a name without dots, as the identifiers of
    sandesh do. *)
Fixpoint dotless (n : xml_node) : bool :=
  match n with
  | XmlText _ => true
  | XmlElement s _ l => negb (has_char "."%char s) && forallb dotless l
  end.
Definition dotless_of (h : handle) : bool := match h with Some n => dotless n | None => true end.

Lemma dotless_children h c : dotless_of h = true → c ∈ children h → dotless c = true.
Proof.
  destruct h as [[s|s a l]|]; simpl; [by intros _ ?%elem_of_nil| |by intros _ ?%elem_of_nil].
  intros [_ Hl]%andb_true_iff Hc. rewrite forallb_forall in Hl. by apply Hl, list_elem_of_In.
Qed.
Lemma dotless_name n : dotless n = true → has_char "."%char (node_name n) = false.
Proof. destruct n as [s|s a l]; [done|]. simpl. by intros [Hs%negb_true_iff _]%andb_true_iff. Qed.
