(* ===== verification/Json.v ===== *)
(** * JSON values and the errors of the query constructors

    The constructors of the query units read rapidjson values (rapidjson is not
    part of this repository: its parser is the class [JsonParser]).  Here are
    the values with the tests and accessors the sources call, and the small
    monad of the constructors: a constructor finishes, stores an error number
    in [status_details] and returns ([QE_PARSE_ERROR], [QE_INVALIDARG_ERROR]),
    or is stopped by a failed assertion or an exception. *)
From stdpp Require Import base tactics list strings pretty.
From Stdlib Require Import ZArith Lia SpecFloat.
From S2P Require Import Prelude.
From S2P Require Import CppString.
From S2P Require Import QueryTypes.
Local Open Scope Z_scope.
#[local] Set Warnings "-register-all".

(** ** The constructors' monad *)

Inductive outcome (A : Type) :=
  | Done (a : A)
  | Status (errno : Z)
  | Stopped.
Arguments Done {A} _.
Arguments Status {A} _.
Arguments Stopped {A}.

#[export] Instance outcome_ret : MRet outcome := λ A a, Done a.
#[export] Instance outcome_bind : MBind outcome := λ A B f m,
  match m with Done a => f a | Status e => Status e | Stopped => Stopped end.
#[export] Instance outcome_fmap : FMap outcome := λ A B f m, m ≫= λ a, Done (f a).

(** [QE_PARSE_ERROR] and [QE_INVALIDARG_ERROR]. *)
Definition QE_PARSE_ERROR (cond : bool) : outcome () :=
  if cond then Done () else Status EBADMSG.
Definition QE_INVALIDARG_ERROR (cond : bool) : outcome () :=
  if cond then Done () else Status EINVAL.

(** A partial operation: an assertion of rapidjson, an exception of the
    standard library. *)
Definition stop_unless {A} (o : option A) : outcome A :=
  match o with Some a => Done a | None => Stopped end.

(** A loop whose body may leave the constructor. *)
Fixpoint for_each {A B} (f : A → outcome B) (l : list A) : outcome (list B) :=
  match l with
  | [] => Done []
  | x :: l' => y ← f x; ys ← for_each f l'; Done (y :: ys)
  end.

Fixpoint fold_outcome {A S} (f : S → A → outcome S) (s : S) (l : list A) : outcome S :=
  match l with
  | [] => Done s
  | x :: l' => s' ← f s x; fold_outcome f s' l'
  end.

Lemma bind_done {A B} (m : outcome A) (f : A → outcome B) b :
  m ≫= f = Done b ↔ ∃ a, m = Done a ∧ f a = Done b.
Proof. destruct m; simpl; naive_solver. Qed.

Lemma QE_PARSE_ERROR_done c u : QE_PARSE_ERROR c = Done u ↔ c = true.
Proof. destruct c, u; simpl; naive_solver. Qed.
Lemma QE_INVALIDARG_ERROR_done c u : QE_INVALIDARG_ERROR c = Done u ↔ c = true.
Proof. destruct c, u; simpl; naive_solver. Qed.
Lemma stop_unless_done {A} (o : option A) a : stop_unless o = Done a ↔ o = Some a.
Proof. destruct o; simpl; naive_solver. Qed.

(** Take apart the [Done] of a sequence of binds. *)
Ltac outcome_inv H :=
  repeat match type of H with
  | (_ ≫= _) = Done _ =>
      let a := fresh "a" in let Ha := fresh "Ha" in
      apply bind_done in H as (a & Ha & H)
  end.

Lemma for_each_Forall2 {A B} (f : A → outcome B) l k :
  for_each f l = Done k ↔ Forall2 (λ x y, f x = Done y) l k.
Proof.
  revert k. induction l as [|x l IH]; intros k; simpl.
  - split; [intros [= <-]; constructor|by intros ->%Forall2_nil_inv_l].
  - rewrite bind_done. split.
    + intros (y & Hy & H). apply bind_done in H as (ys & Hys & [= <-]).
      constructor; [done|by apply IH].
    + intros (y & ys & Hy & Hys & ->)%Forall2_cons_inv_l. exists y. split; [done|].
      apply bind_done. exists ys. split; [by apply IH|done].
Qed.

(** ** Values *)

(** A number is an integer of at most 64 bits or a double; a string is what
    [GetString] points to, up to its terminating zero. *)
Inductive json :=
  | JNull
  | JBool (b : bool)
  | JInt (n : Z)
  | JDouble (d : spec_float)
  | JString (s : string)
  | JArray (l : list json)
  | JObject (m : list (string * json)).

Definition IsArray (v : json) : bool := match v with JArray _ => true | _ => false end.
Definition IsObject (v : json) : bool := match v with JObject _ => true | _ => false end.
Definition IsString (v : json) : bool := match v with JString _ => true | _ => false end.
Definition IsNumber (v : json) : bool :=
  match v with JInt _ | JDouble _ => true | _ => false end.
Definition IsInt (v : json) : bool :=
  match v with JInt n => (- 2 ^ 31 <=? n) && (n <? 2 ^ 31) | _ => false end.
Definition IsUint (v : json) : bool :=
  match v with JInt n => (0 <=? n) && (n <? 2 ^ 32) | _ => false end.
Definition IsDouble (v : json) : bool := match v with JDouble _ => true | _ => false end.

(** The accessors assert their type. *)
Definition GetString (v : json) : outcome string :=
  match v with JString s => Done s | _ => Stopped end.
Definition GetInt (v : json) : outcome Z :=
  match v with JInt n => if IsInt v then Done n else Stopped | _ => Stopped end.
Definition GetUint (v : json) : outcome Z :=
  match v with JInt n => if IsUint v then Done n else Stopped | _ => Stopped end.
Definition elements (v : json) : outcome (list json) :=
  match v with JArray l => Done l | _ => Stopped end.

Definition find_member (m : list (string * json)) (k : string) : option json :=
  snd <$> List.find (λ p, (p.1 =? k)%string) m.

(** [HasMember] and [operator[]] on an object; both assert [IsObject], the
    latter that the member exists. *)
Definition HasMember (v : json) (k : string) : outcome bool :=
  match v with
  | JObject m => Done (bool_decide (is_Some (find_member m k)))
  | _ => Stopped
  end.
Definition member (v : json) (k : string) : outcome json :=
  match v with JObject m => stop_unless (find_member m k) | _ => Stopped end.

(** [Document::Parse]; [None]: a parse error leaves a null document. *)
Class JsonParser := { Document_Parse : string → option json }.

Definition Parse `{JsonParser} (text : string) : json := default JNull (Document_Parse text).

(** [ostream << double], the six significant digits of the C++ library. *)
Class DoubleFormat := { show_double : spec_float → string }.

(** rapidjson's [Writer]. *)
Class JsonWriter := { write : json → string }.
