(* ===== verification/AnalyticsQuery.v ===== *)
(** * Query parsing: tables, times and parallel slices

    [contrail-query-engine/utils.cc] ([parse_time]) and the parts of
    [AnalyticsQuery] in [contrail-query-engine/query.cc] that classify the
    table, clip the time range by the TTL of the table and cut it into the
    slices the parallel batches work on. *)
From stdpp Require Import base tactics list strings pretty gmap.
From Stdlib Require Import ZArith Lia Ascii.
From S2P Require Import Prelude.
From S2P Require Import CppString.
From S2P Require Import VizConstants.
From S2P Require Import QueryTypes.
Local Open Scope Z_scope.
Local Open Scope cpp_scope.

(** [stringToInteger] of contrail-common's [base/string_util.h], for a
    [uint64_t]: the number left in the output argument, and the return value. *)
Class StringToInteger := {
  stringToInteger : string → Z * bool;
  stringToInteger_range s : is_u64 (stringToInteger s).1;
  stringToInteger_decimal n : is_u64 n → stringToInteger (pretty n) = (n, true)
}.

(** ** Table classification *)

Module Tables.

Definition is_stat_table_query (tname : string) : bool := starts_with tname STAT_VT_PREFIX.

Definition is_session_query (tname : string) : bool :=
  (tname =? SESSION_SERIES_TABLE)%string || (tname =? SESSION_RECORD_TABLE)%string.

Definition is_stat_fieldnames_table_query (tname : string) : bool :=
  starts_with tname STAT_VT_FIELDNAMES_PREFIX.

Definition is_flow_query (tname : string) : bool :=
  (tname =? FLOW_SERIES_TABLE)%string || (tname =? FLOW_TABLE)%string.

Definition is_message_table_query (tname : string) : bool := (tname =? MESSAGE_TABLE)%string.

Definition is_object_table_query (tname : string) : bool :=
  negb (tname =? MESSAGE_TABLE)%string &&
  negb (tname =? FLOW_TABLE)%string &&
  negb (tname =? FLOW_SERIES_TABLE)%string &&
  negb (tname =? OBJECT_VALUE_TABLE)%string &&
  negb (is_stat_table_query tname) &&
  negb (is_session_query tname).

(** [AnalyticsQuery::can_parallelize_query]. *)
Definition can_parallelize_query (tname : string) : bool :=
  negb (tname =? OBJECT_VALUE_TABLE)%string.

(** [AnalyticsQuery::ParseStatName]; [None]: [substr] throws. *)
Definition ParseStatName (stat_table_name : string) : option string :=
  replace_char "." ":" <$> substr stat_table_name (size "StatTable.") npos.

End Tables.
Import Tables.

(** ** [parse_time] *)

(** A JSON string with its quotes. *)
Definition quoted (s : string) : string := String "034" (s +:+ String "034" EmptyString).

(** What a call returns: [Throws] is an escaping [std::out_of_range]. *)
Inductive parse_result := Parsed (usec : Z) | ParseFailed | Throws.
#[export] Instance parse_result_eq_dec : EqDecision parse_result.
Proof. solve_decision. Defined.

Section parse_time.
Context `{StringToInteger}.

(** The number between the sign and the unit, times the unit. *)
Definition time_offset (relative_time : string) (unit_usec : Z) : option Z :=
  match substr relative_time 5 (size relative_time -64 7) with
  | Some digits =>
      let '(n, ok) := stringToInteger digits in
      if ok then Some (n *64 unit_usec) else None
  | None => None
  end.

(** The chain of [find_last_of] tests; the result is an [int], so [npos] is -1. *)
Definition time_unit (relative_time : string) : option Z :=
  if 0 <? i32 (find_last_of relative_time "h") then Some (3600 * 1000000)
  else if 0 <? i32 (find_last_of relative_time "m") then Some (60 * 1000000)
  else if 0 <? i32 (find_last_of relative_time "s") then Some 1000000
  else if 0 <? i32 (find_last_of relative_time "d") then Some (24 * 3600 * 1000000)
  else None.

(** [now] is what [UTCTimestampUsec] returns. *)
Definition parse_time (now : Z) (relative_time : string) : parse_result :=
  if (relative_time =? quoted "now")%string then Parsed now
  else match substr relative_time 1 3 with
  | None => Throws
  | Some p =>
      if (p =? "now")%string then
        match time_unit relative_time with
        | None => ParseFailed
        | Some unit_usec =>
            if size relative_time <? 5 then Throws
            else match time_offset relative_time unit_usec with
            | None => ParseFailed
            | Some offset_usec =>
                match substr relative_time 1 4 with
                | None => Throws
                | Some q =>
                    if (q =? "now+")%string then Parsed (now +64 offset_usec)
                    else if (q =? "now-")%string then Parsed (now -64 offset_usec)
                    else ParseFailed
                end
            end
        end
      else
        let '(n, ok) := stringToInteger relative_time in
        if ok then Parsed n else ParseFailed
  end.
End parse_time.

(** ** The time range of a query *)

Section times.
Context `{StringToInteger}.

(** The TTL (in hours) that applies to a table. *)
Definition ttl_of_table (ttlmap : TtlType → Z) (tname : string) : Z :=
  if is_stat_table_query tname then ttlmap STATSDATA_TTL
  else if is_flow_query tname || is_session_query tname then ttlmap FLOWDATA_TTL
  else if is_object_table_query tname then ttlmap CONFIGAUDIT_TTL
  else ttlmap GLOBAL_TTL.

Definition min_start_time (now ttl : Z) : Z := now -64 (ttl *64 (60 * 60 * 1000000)).

(** The times of a parsed query. *)
Record query_times := {
  req_from_time : Z; req_end_time : Z; from_time : Z; end_time : Z
}.

Inductive times_result := TimesOk (t : query_times) | TimesError (status : Z) | TimesThrow.

(** The start of the range: not before the oldest data of the table. *)
Definition clip_from (min_start req_from : Z) : Z :=
  if req_from <? min_start then min_start else req_from.

(** The end of the range: not after now. *)
Definition clip_end (max_end req_end : Z) : Z :=
  if max_end <? req_end then max_end else req_end.

(** FieldNames tables look back at least the cache time. *)
Definition clip_fieldnames (tname : string) (min_start from_time end_time : Z) : Z :=
  if is_stat_fieldnames_table_query tname then
    let time_period := end_time -64 from_time in
    let cache_time := Z.shiftl 1 (RowTimeInBits + CacheTimeInAdditionalBits) in
    if time_period <? cache_time then
      let diff_time_usec := cache_time -64 time_period in
      let from := from_time -64 diff_time_usec in
      if from <? min_start then min_start else from
    else from_time
  else from_time.

(** [now], [now1] and [now2] are the successive readings of the clock. *)
Definition Init_times (ttlmap : TtlType → Z) (tname : string) (now now1 now2 : Z)
    (start_str end_str : option string) : times_result :=
  let min_start := min_start_time now (ttl_of_table ttlmap tname) in
  match start_str with
  | None => TimesError EBADMSG
  | Some ss =>
      match parse_time now1 ss with
      | Throws => TimesThrow
      | ParseFailed => TimesError EBADMSG
      | Parsed req_from =>
          match end_str with
          | None => TimesError EBADMSG
          | Some es =>
              match parse_time now2 es with
              | Throws => TimesThrow
              | ParseFailed => TimesError EBADMSG
              | Parsed req_end =>
                  let et := clip_end now req_end in
                  TimesOk {| req_from_time := req_from; req_end_time := req_end;
                             from_time := clip_fieldnames tname min_start
                                            (clip_from min_start req_from) et;
                             end_time := et |}
              end
          end
      end
  end.
End times.

(** A [stringToInteger] as contrail-common documents it, used by the examples. *)
Module ConcreteStringToInteger.
Definition string_to_u64 (s : string) : Z * bool := (strtoul s, all_digits s).

Lemma string_to_u64_range s : is_u64 (string_to_u64 s).1.
Proof.
  simpl. unfold strtoul. case_match; [apply u64_bound|unfold is_u64; lia].
Qed.

Lemma string_to_u64_decimal n : is_u64 n → string_to_u64 (pretty n) = (n, true).
Proof.
  intros Hn. unfold string_to_u64. rewrite strtoul_pretty by done.
  by rewrite all_digits_pretty by (destruct Hn; done).
Qed.

Definition instance : StringToInteger := {|
  stringToInteger := string_to_u64;
  stringToInteger_range := string_to_u64_range;
  stringToInteger_decimal := string_to_u64_decimal
|}.
End ConcreteStringToInteger.

Section parse_time_facts.
Context `{StringToInteger}.

(** The units [parse_time] knows, in microseconds. *)
Inductive unit_of : ascii → Z → Prop :=
  | unit_h : unit_of "h" (3600 * 1000000)
  | unit_m : unit_of "m" (60 * 1000000)
  | unit_s : unit_of "s" 1000000
  | unit_d : unit_of "d" (24 * 3600 * 1000000).

(** The text of a relative time: [now], a sign, a number and a unit, quoted. *)
Definition relative_time_text (sign : ascii) (n : Z) (c : ascii) : string :=
  String "034" (String "n" (String "o" (String "w" (String sign
    (pretty n +:+ String c (String "034" EmptyString)))))).

Lemma find_last_of_text sign n c x :
  0 <= n → is_digit x = false →
  forallb (λ y, negb (y =? x)%char) ["034"; "n"; "o"; "w"; sign]%char = true →
  find_last_of (relative_time_text sign n c) x = if (c =? x)%char then 5 + size (pretty n) else npos.
Proof.
  intros Hn Hx Hnot. cbn [forallb] in Hnot. rewrite !andb_true_iff, !negb_true_iff in Hnot.
  destruct Hnot as (E1 & E2 & E3 & E4 & E5 & _).
  unfold find_last_of, relative_time_text. cbn [find_last_at]. rewrite E1, E2, E3, E4, E5.
  rewrite find_last_at_app, (find_last_at_digits x (pretty n)) by (done || by apply all_digits_pretty).
  cbn [find_last_at]. rewrite E1. destruct (c =? x)%char; [lia|done].
Qed.

Lemma time_unit_text sign n c unit_usec :
  is_u64 n → sign = "+"%char ∨ sign = "-"%char → unit_of c unit_usec →
  time_unit (relative_time_text sign n c) = Some unit_usec.
Proof.
  intros Hn Hs Hu. pose proof (pretty_length n Hn) as Hl. pose proof (size_nonneg (pretty n)).
  assert (0 <= n) by apply Hn.
  assert ((0 <? i32 (5 + size (pretty n))) = true) as Hpos.
  { unfold i32. rewrite Z.mod_small by lia. apply Z.ltb_lt. lia. }
  assert ((0 <? i32 npos) = false) as Hneg by (vm_compute; reflexivity).
  unfold time_unit.
  destruct Hs as [-> | ->], Hu; rewrite !find_last_of_text by (done || reflexivity); cbn [Ascii.eqb Bool.eqb];
    rewrite ?Hneg, ?Hpos; reflexivity.
Qed.

Lemma time_offset_text sign n c unit_usec :
  is_u64 n → time_offset (relative_time_text sign n c) unit_usec = Some (n *64 unit_usec).
Proof.
  intros Hn. unfold time_offset. set (t := relative_time_text sign n c).
  assert (size t = size (pretty n) + 7) as Hsz.
  { unfold t, relative_time_text, size. cbn [String.length]. rewrite length_app. simpl. lia. }
  pose proof (pretty_length n Hn). pose proof (size_nonneg (pretty n)).
  rewrite Hsz. replace (size (pretty n) + 7 - 7) with (size (pretty n)) by lia.
  rewrite u64_small by (unfold is_u64; lia). unfold substr. rewrite Hsz.
  destruct (Z.ltb_spec (size (pretty n) + 7) 5); [lia|].
  rewrite Z.min_l by lia. unfold size. rewrite Nat2Z.id.
  unfold t, relative_time_text. change (Z.to_nat 5) with 5%nat. cbn [String.substring].
  rewrite substring_app_0, stringToInteger_decimal by done. done.
Qed.

(** [now+<n><unit>] and [now-<n><unit>], for the units h, m, s and d, give
    the current time plus or minus n units, in microseconds modulo 2^64. *)
Theorem parse_time_relative now n sign c unit_usec :
  is_u64 n → sign = "+"%char ∨ sign = "-"%char → unit_of c unit_usec →
  parse_time now (relative_time_text sign n c)
  = Parsed (if (sign =? "+")%char then now +64 (n *64 unit_usec) else now -64 (n *64 unit_usec)).
Proof.
  intros Hn Hs Hu. unfold parse_time.
  pose proof (size_nonneg (pretty n)).
  assert (size (relative_time_text sign n c) = size (pretty n) + 7) as Hsz.
  { unfold relative_time_text, size. cbn [String.length]. rewrite length_app. simpl. lia. }
  rewrite string_eqb_false by (unfold relative_time_text, quoted; destruct Hs as [-> | ->]; discriminate).
  rewrite (time_unit_text sign n c unit_usec), time_offset_text by done.
  unfold substr. rewrite Hsz.
  destruct (Z.ltb_spec (size (pretty n) + 7) 1), (Z.ltb_spec (size (pretty n) + 7) 5); try lia.
  rewrite !Z.min_l by lia. unfold relative_time_text.
  generalize (pretty n +:+ String c (String "034" EmptyString)) as r.
  by destruct Hs as [-> | ->]; intros [].
Qed.

(** A request never reaches past the data the table keeps, nor past now:
    the start is the requested one or the oldest time the TTL of the table
    leaves, whichever is later, and the end is the requested one or now,
    whichever is earlier. *)
Theorem Init_times_clipped ttlmap tname now now1 now2 ss es req_from req_end :
  is_stat_fieldnames_table_query tname = false →
  parse_time now1 ss = Parsed req_from → parse_time now2 es = Parsed req_end →
  ∃ t, Init_times ttlmap tname now now1 now2 (Some ss) (Some es) = TimesOk t ∧
    req_from_time t = req_from ∧ req_end_time t = req_end ∧
    from_time t = Z.max req_from (min_start_time now (ttl_of_table ttlmap tname)) ∧
    end_time t = Z.min req_end now.
Proof.
  intros Hf Hs He. unfold Init_times. rewrite Hs, He. eexists. split; [reflexivity|].
  unfold clip_fieldnames, clip_from, clip_end. rewrite Hf. simpl.
  split_and!; try done; case_match; reflect_bools; lia.
Qed.
End parse_time_facts.

(** ** Parallel slices *)

(** The slicing fields of [AnalyticsQuery]. *)
Record slice_state := {
  original_from_time : Z; original_end_time : Z; time_slice : Z;
  slice_from : Z; slice_end : Z;
  parallelize_query : bool; merge_needed_after : bool; processing_needed : bool
}.

(** [pow(2, RowTimeInBits)]. *)
Definition row_time : Z := 2 ^ RowTimeInBits.

(** The slice width of a query that is run in parallel. *)
Definition parallel_time_slice (from_time end_time total_batches max_slice : Z) : Z :=
  let smax := row_time * max_slice in
  let ts := ((end_time -64 from_time) / u64 total_batches) +64 1 in
  let ts := if ts <? row_time then row_time else ts in
  if smax <? ts then smax else ts.

(** The end of [AnalyticsQuery::Init]: the window of one batch. *)
Definition Init_slice (tname : string) (merge_needed : bool) (from_time end_time : Z)
    (batch total_batches max_slice : Z) : slice_state :=
  let from_time := if end_time <? from_time then end_time -64 1 else from_time in
  let par := can_parallelize_query tname in
  let ts := if par then parallel_time_slice from_time end_time total_batches max_slice
            else end_time -64 from_time in
  let f := from_time +64 (ts *64 batch) in
  let e := f +64 ts in
  {| original_from_time := from_time; original_end_time := end_time; time_slice := ts;
     slice_from := f;
     slice_end := if f <? end_time then (if end_time <? e then end_time else e) else e;
     parallelize_query := par; merge_needed_after := par && merge_needed;
     processing_needed := f <? end_time |}.

(** The loop of [AnalyticsQuery::get_query_details]; [None]: out of fuel. *)
Fixpoint chunk_loop (fuel : nat) (chunk_start original_end time_slice : Z) : option (list Z) :=
  match fuel with
  | O => None
  | S fuel =>
      if chunk_start <? original_end then
        let size := if chunk_start +64 time_slice <=? original_end then time_slice
                    else original_end -64 chunk_start in
        cons size <$> chunk_loop fuel (chunk_start +64 time_slice) original_end time_slice
      else Some []
  end.

(** The chunk sizes of [AnalyticsQuery::get_query_details]; an error gives one dummy chunk. *)
Definition chunk_sizes (fuel : nat) (status_details : Z) (s : slice_state) : option (list Z) :=
  if status_details =? 0
  then chunk_loop fuel (original_from_time s) (original_end_time s) (time_slice s)
  else Some [0].

(** ** The slices tile the time range *)

Definition sum_list (l : list Z) : Z := foldr Z.add 0 l.

Lemma chunk_loop_spec fuel from end_ ts :
  0 < ts → 0 <= from → end_ + ts < 2 ^ 64 → from < end_ + ts →
  end_ - from <= ts * Z.of_nat fuel - ts →
  ∃ l, chunk_loop fuel from end_ ts = Some l ∧ sum_list l = Z.max 0 (end_ - from) ∧
    ∀ i c, l !! i = Some c ↔
      from + Z.of_nat i * ts < end_ ∧ c = Z.min ts (end_ - (from + Z.of_nat i * ts)).
Proof.
  intros Hts. revert from. induction fuel as [|fuel IH]; intros from Hf He Hle Hfuel; [lia|].
  rewrite Nat2Z.inj_succ, Z.mul_succ_r in Hfuel.
  simpl. case_match eqn:E; reflect_bools; cycle 1.
  { exists []. split_and!; [done|simpl; lia|]. intros i c. rewrite lookup_nil. split; [done|nia]. }
  rewrite (u64_small (from + ts)) by (unfold is_u64; lia).
  destruct (IH (from + ts)) as (l & -> & Hsum & Hl); [lia..|].
  rewrite u64_small by (unfold is_u64; lia).
  eexists; split_and!; [reflexivity|simpl; rewrite Hsum; case_match; reflect_bools; lia|].
  intros [|i] c; simpl.
  - split; [intros [= <-]; case_match; reflect_bools; lia|].
    intros [_ ->]. f_equal. case_match; reflect_bools; lia.
  - rewrite Hl. replace (from + ts + Z.of_nat i * ts) with (from + Z.of_nat (S i) * ts) by lia.
    done.
Qed.

Lemma fuel_enough d fuel ts :
  0 <= d → row_time <= ts → d / row_time + 1 < Z.of_nat fuel → d <= ts * Z.of_nat fuel - ts.
Proof.
  intros Hd Hts Hf. pose proof (eq_refl : row_time = 8388608).
  pose proof (Z.mul_succ_div_gt d row_time ltac:(lia)). nia.
Qed.

Lemma parallel_time_slice_bounds from end_ total max_slice :
  1 <= max_slice → row_time <= parallel_time_slice from end_ total max_slice <= row_time * max_slice.
Proof.
  intros. unfold parallel_time_slice. pose proof (eq_refl : row_time = 8388608).
  repeat case_match; reflect_bools; nia.
Qed.

(** What the slicing relies on: a range of 64-bit times that leaves room for
    one more slice, and a configuration with at least one batch and one row. *)
Record slicing_ok (from end_ total max_slice : Z) : Prop := {
  so_from : 0 <= from;
  so_end : end_ + row_time * max_slice < 2 ^ 64;
  so_range : from <= end_;
  so_total : 0 < total < 2 ^ 31;
  so_max : 1 <= max_slice
}.

Lemma slice_values tname merge from end_ total max_slice i :
  slicing_ok from end_ total max_slice → can_parallelize_query tname = true →
  let ts := parallel_time_slice from end_ total max_slice in
  from + Z.of_nat i * ts <= end_ + ts →
  let s := Init_slice tname merge from end_ (Z.of_nat i) total max_slice in
  original_from_time s = from ∧ original_end_time s = end_ ∧ time_slice s = ts ∧
  slice_from s = from + Z.of_nat i * ts ∧
  processing_needed s = (from + Z.of_nat i * ts <? end_) ∧
  (from + Z.of_nat i * ts < end_ → slice_end s = Z.min end_ (from + Z.of_nat i * ts + ts)).
Proof.
  intros [] Hpar ts Hi. pose proof (parallel_time_slice_bounds from end_ total max_slice so_max0) as Hb.
  fold ts in Hb. pose proof (eq_refl : row_time = 8388608) as Hrow.
  assert ((end_ <? from) = false) as Hlt by (apply Z.ltb_ge; lia).
  unfold Init_slice. rewrite Hlt, Hpar. fold ts. simpl.
  rewrite (u64_small (ts * Z.of_nat i)) by (unfold is_u64; nia).
  rewrite (Z.mul_comm ts).
  rewrite (u64_small (from + Z.of_nat i * ts)) by (unfold is_u64; nia).
  split_and!; try done. intros Hin.
  rewrite (u64_small (_ + _ + ts)) by (unfold is_u64; nia).
  destruct (Z.ltb_spec (from + Z.of_nat i * ts) end_); [|lia].
  case_match; reflect_bools; lia.
Qed.

(** The chunks [get_query_details] hands out are exactly the windows the
    batches of [Init] work on: the first window starts at the beginning of the
    range, each ends where the next starts, the last ends at the end of the
    range, their sizes add up to it, and the batch past the last chunk has
    nothing to do.  The loop terminates. *)
Theorem chunks_tile_range tname merge from end_ total max_slice fuel :
  slicing_ok from end_ total max_slice → can_parallelize_query tname = true →
  (end_ - from) / row_time + 1 < Z.of_nat fuel →
  let slice i := Init_slice tname merge from end_ (Z.of_nat i) total max_slice in
  ∃ l, chunk_sizes fuel 0 (slice 0%nat) = Some l ∧ sum_list l = end_ - from ∧
    slice_from (slice 0%nat) = from ∧
    (∀ i c, (i <= length l)%nat → l !! i = Some c ↔
       processing_needed (slice i) = true ∧ c = slice_end (slice i) - slice_from (slice i)) ∧
    (∀ i, (S i < length l)%nat → slice_end (slice i) = slice_from (slice (S i))) ∧
    (∀ i, S i = length l → slice_end (slice i) = end_).
Proof.
  intros Hok Hpar Hfuel slice. pose proof Hok as [].
  pose proof (parallel_time_slice_bounds from end_ total max_slice so_max0) as Hb.
  pose proof (eq_refl : row_time = 8388608) as Hrow.
  pose proof (λ i, slice_values tname merge from end_ total max_slice i Hok Hpar) as Hs.
  set (ts := parallel_time_slice from end_ total max_slice) in *.
  destruct (Hs 0%nat) as (E1 & E2 & E3 & E4 & _); [lia|].
  destruct (chunk_loop_spec fuel from end_ ts) as (l & Hl & Hsum & Hlk); [lia|lia|lia|lia|by apply fuel_enough; lia|].
  assert (∀ i, (i < length l)%nat ↔ from + Z.of_nat i * ts < end_) as Hlen.
  { intros i. rewrite <- lookup_lt_is_Some. split.
    - intros [c Hc]. by apply Hlk in Hc as [].
    - intros Hi. eexists. apply Hlk. eauto. }
  assert (∀ i, (i <= length l)%nat → from + Z.of_nat i * ts <= end_ + ts) as Hle.
  { intros [|i] Hi; [lia|]. assert (i < length l)%nat as Hi'%Hlen by lia. lia. }
  exists l. split_and!.
  - unfold chunk_sizes, slice. simpl (0 =? 0). cbn match. by rewrite E1, E2, E3.
  - lia.
  - unfold slice. rewrite E4. lia.
  - intros i c Hi. destruct (Hs i) as (_ & _ & _ & F4 & F5 & F6); [by apply Hle|].
    unfold slice. rewrite Hlk, F4, F5, Z.ltb_lt. split; intros [Hi' ->]; (split; [done|]);
      rewrite F6 in * by done; lia.
  - intros i Hi. assert (S i < length l)%nat as HSi%Hlen by done.
    destruct (Hs i) as (_ & _ & _ & _ & _ & F6); [apply Hle; lia|].
    destruct (Hs (S i)) as (_ & _ & _ & G4 & _); [apply Hle; lia|].
    unfold slice. rewrite G4, F6; lia.
  - intros i Hi. assert (i < length l)%nat as Hi'%Hlen by lia.
    assert (~ from + Z.of_nat (S i) * ts < end_) by (rewrite <- Hlen; lia).
    destruct (Hs i) as (_ & _ & _ & _ & _ & F6); [lia|]. unfold slice. rewrite F6; lia.
Qed.

Lemma chunks_tile_range_witness :
  let slice i := Init_slice "MessageTable" true 1000 30000000 (Z.of_nat i) 16 100 in
  slicing_ok 1000 30000000 16 100 ∧
  ∃ l, chunk_sizes 6 0 (slice 0%nat) = Some l ∧ sum_list l = 30000000 - 1000 ∧
    slice_from (slice 0%nat) = 1000 ∧
    (∀ i c, (i <= length l)%nat → l !! i = Some c ↔
       processing_needed (slice i) = true ∧ c = slice_end (slice i) - slice_from (slice i)) ∧
    (∀ i, (S i < length l)%nat → slice_end (slice i) = slice_from (slice (S i))) ∧
    (∀ i, S i = length l → slice_end (slice i) = 30000000).
Proof.
  assert (slicing_ok 1000 30000000 16 100) as Hok by (split; vm_compute; intuition congruence).
  split; [exact Hok|]. apply chunks_tile_range; [exact Hok|reflexivity|vm_compute; reflexivity].
Defined.

(** A query gets at most as many chunks as it asked for, unless the slice
    would be wider than [max_slice] rows. *)
Theorem chunk_count_bounded tname merge from end_ total max_slice fuel l :
  slicing_ok from end_ total max_slice → can_parallelize_query tname = true →
  (end_ - from) / row_time + 1 < Z.of_nat fuel →
  (end_ - from) / total + 1 <= row_time * max_slice →
  chunk_sizes fuel 0 (Init_slice tname merge from end_ 0 total max_slice) = Some l →
  Z.of_nat (length l) <= total.
Proof.
  intros Hok Hpar Hfuel Hsm Hl. pose proof Hok as [].
  pose proof (parallel_time_slice_bounds from end_ total max_slice so_max0) as Hb.
  pose proof (eq_refl : row_time = 8388608) as Hrow.
  destruct (slice_values tname merge from end_ total max_slice 0 Hok Hpar) as (E1 & E2 & E3 & _); [lia|].
  set (ts := parallel_time_slice from end_ total max_slice) in *.
  assert (end_ - from < total * ts) as Hts.
  { subst ts. unfold parallel_time_slice in *.
    rewrite (u64_small (end_ - from)), (u64_small total) in * by (unfold is_u64; lia).
    pose proof (Z.mul_succ_div_gt (end_ - from) total (proj1 so_total0)).
    rewrite (u64_small (_ / _ + 1)) in * by (unfold is_u64; nia).
    repeat case_match; reflect_bools; nia. }
  destruct (chunk_loop_spec fuel from end_ ts) as (l' & Hl' & _ & Hlk); [lia|lia|lia|lia|by apply fuel_enough; lia|].
  unfold chunk_sizes in Hl. simpl (0 =? 0) in Hl. cbn match in Hl.
  change 0 with (Z.of_nat 0) in Hl. rewrite E1, E2, E3, Hl' in Hl. injection Hl as <-.
  destruct (decide (Z.of_nat (length l') <= total)) as [?|Hgt]; [done|].
  destruct (lookup_lt_is_Some_2 l' (Z.to_nat total)) as [c Hc]; [lia|].
  apply Hlk in Hc as [Hc _]. nia.
Qed.

Lemma chunk_count_bounded_witness :
  chunk_sizes 6 0 (Init_slice "MessageTable" true 1000 30000000 0 2 100)
    = Some [14999501; 14999499] ∧ Z.of_nat (length [14999501; 14999499]) <= 2.
Proof.
  assert (chunk_sizes 6 0 (Init_slice "MessageTable" true 1000 30000000 0 2 100)
    = Some [14999501; 14999499]) as Hc by (vm_compute; reflexivity).
  split; [exact Hc|].
  apply (chunk_count_bounded "MessageTable" true 1000 30000000 2 100 6);
    [split; vm_compute; intuition congruence|reflexivity|vm_compute; reflexivity|vm_compute; congruence|exact Hc].
Defined.

Section parse_time_examples.
#[local] Existing Instance ConcreteStringToInteger.instance.

Lemma parse_time_relative_witness :
  parse_time 1000000000000 (relative_time_text "-" 10 "h")
    = Parsed (1000000000000 -64 (10 *64 (3600 * 1000000))).
Proof.
  apply (parse_time_relative 1000000000000 10 "-" "h" (3600 * 1000000));
    [split; vm_compute; congruence | by right | constructor].
Defined.

Lemma Init_times_clipped_witness :
  ∃ t, Init_times TtlValuesDefault "MessageTable" 1000000000000000 1000000000000000 1000000000000000
         (Some (relative_time_text "-" 90 "d")) (Some (quoted "now")) = TimesOk t ∧
    req_from_time t = 992224000000000 ∧ req_end_time t = 1000000000000000 ∧
    from_time t = Z.max 992224000000000 (min_start_time 1000000000000000 (ttl_of_table TtlValuesDefault "MessageTable")) ∧
    end_time t = Z.min 1000000000000000 1000000000000000.
Proof. apply Init_times_clipped; vm_compute; reflexivity. Defined.
End parse_time_examples.
