(* ===== verification/StatsQuery.v ===== *)
(** * Schema of a StatTable query

    [contrail-query-engine/stats_query.cc] and [stats_query.h]: the schema a
    [StatsQuery] builds from the table definitions of [viz.sandesh] (generated
    constants, a parameter here), the lookup of a column and [ParseAgg], which
    splits an aggregated SELECT field. *)
From stdpp Require Import base tactics list strings pretty gmap.
From Stdlib Require Import ZArith Lia Ascii.
From S2P Require Import Prelude.
From S2P Require Import CppString.
From S2P Require Import VizConstants.
From S2P Require Import QueryTypes.
From S2P Require Import Json.
From S2P Require Import AnalyticsQuery.
Import Tables.
Local Open Scope Z_scope.

(** ** Generated constants: [g_viz_constants] *)

(** One attribute of a [stat_table] and the table. *)
Record stat_attribute := {
  sa_name : string; sa_datatype : string; sa_index : bool; sa_suffixes : list string
}.
Record stat_table := { stat_type : string; stat_attr : string; attributes : list stat_attribute }.

(** One column of a fixed table ([_TABLES]) and the table. *)
Record column_schema := { col_name : string; col_datatype : string; col_index : bool }.
Record table_schema := { tbl_name : string; columns : list column_schema }.

(** [_STAT_TABLES] followed by [_STAT_TEST_TABLES], and [_TABLES]. *)
Class VizSchema := { STAT_TABLES : list stat_table; TABLES : list table_schema }.

(** ** [StatsQuery] *)

Record column_t := { datatype : VarType; index : bool; output : bool; suffixes : gset string }.

Record StatsQuery := {
  type_ : string; attr_ : string; is_static_ : bool; schema_ : gmap string column_t
}.

(** The column of one attribute of a static table. *)
Definition attribute_column (a : stat_attribute) : column_t := {|
  datatype := if (sa_datatype a =? "string")%string then STRING
              else if (sa_datatype a =? "double")%string then DOUBLE else UINT64;
  index := sa_index a;
  output := true;
  suffixes := list_to_set (sa_suffixes a)
|}.

Definition add_attributes (l : list stat_attribute) (s : gmap string column_t) : gmap string column_t :=
  foldl (λ s a, <[sa_name a := attribute_column a]> s) s l.

(** One iteration over the static tables. *)
Definition scan_table (ty at_ : string) (acc : bool * gmap string column_t) (st : stat_table)
  : bool * gmap string column_t :=
  if negb (stat_type st =? ty)%string || negb (stat_attr st =? at_)%string then acc
  else (true, add_attributes (attributes st) acc.2).

Definition plain_column (t : VarType) (idx out : bool) : column_t :=
  {| datatype := t; index := idx; output := out; suffixes := ∅ |}.

(** The columns every StatTable has. *)
Definition common_columns (s : gmap string column_t) : gmap string column_t :=
  let s := match s !! STAT_OBJECTID_FIELD with
           | None => <[STAT_OBJECTID_FIELD := plain_column STRING true true]> s
           | Some _ => s
           end in
  let s := <[STAT_SOURCE_FIELD := plain_column STRING true false]> s in
  <[STAT_UUID_FIELD := plain_column UUID false true]> s.

(** The constructor; [None] is the failed assertion on the table name (or a
    [substr] that throws). *)
Definition StatsQuery_ctor `{VizSchema} (tname : string) : option StatsQuery :=
  if is_stat_table_query tname then
    let tpos := find tname "." 0 in
    let apos := find tname "." (u64 (tpos + 1)) in
    match substr tname (u64 (tpos + 1)) (u64 (apos - tpos - 1)) with
    | None => None
    | Some ty =>
        match substr tname (u64 (apos + 1)) npos with
        | None => None
        | Some at_ =>
            let '(is_static, s) := foldl (scan_table ty at_) (false, ∅) STAT_TABLES in
            Some {| type_ := ty; attr_ := at_; is_static_ := is_static;
                    schema_ := common_columns s |}
        end
    end
  else None.

Definition get_column_desc (sq : StatsQuery) (colname : string) : column_t :=
  default (plain_column BLANK false false) (schema_ sq !! colname).

(** ** [ParseAgg] *)

(** The field between the parentheses: [substr(n)] and [erase(size - 1)]. *)
Definition agg_field (vname : string) (n : Z) : outcome string :=
  sfield ← stop_unless (substr vname n npos);
  if size sfield =? 0 then Stopped else stop_unless (substr sfield 0 (size sfield - 1)).

(** The prefixes in the order the code tries them. *)
Definition agg_prefixes : list (string * AggOper) :=
  [("COUNT_DISTINCT", COUNT_DISTINCT); ("COUNT", COUNT); ("SUM", SUM); ("CLASS", CLASS);
   ("MAX", MAX); ("MIN", MIN); ("AVG", AVG); ("PERCENTILES", PERCENTILES)]%string.

Fixpoint parse_agg_prefixes (l : list (string * AggOper)) (vname sfield : string)
  : outcome (AggOper * string) :=
  match l with
  | [] => Done (INVALID, sfield)
  | (p, op) :: l' =>
      if starts_with vname p then f ← agg_field vname (size p + 1); Done (op, f)
      else parse_agg_prefixes l' vname sfield
  end.

(** The operation and the new value of the [sfield] argument. *)
Definition ParseAgg (vname sfield : string) : outcome (AggOper * string) :=
  parse_agg_prefixes agg_prefixes vname sfield.

(** ** Columns of the table a query names

    [AnalyticsQuery::is_valid_where_field] and [get_column_field_datatype]
    ([contrail-query-engine/query.cc]); [stats] is the [stats_] member, set for
    the StatTable queries. *)
Section columns.
Context `{VizSchema}.

Definition find_table (table_ : string) : option table_schema :=
  List.find (λ t, (tbl_name t =? table_)%string) TABLES.

(** [None]: [stats_] is dereferenced without being set. *)
Definition is_valid_where_field (table_ : string) (stats : option StatsQuery) (where_field : string)
  : option bool :=
  match find_table table_ with
  | Some t =>
      Some (existsb (λ c, (col_name c =? where_field)%string && col_index c) (columns t))
  | None =>
      if is_stat_table_query table_ then
        match stats with
        | None => None
        | Some sq =>
            if is_static_ sq then
              if index (get_column_desc sq where_field) then Some true else Some true
            else Some true
        end
      else Some true
  end.

Definition get_column_field_datatype (table_ : string) (stats : option StatsQuery)
    (column_field : string) : string :=
  match find_table table_ with
  | Some t =>
      match List.find (λ c, (col_name c =? column_field)%string) (columns t) with
      | Some c => col_datatype c
      | None => EmptyString
      end
  | None =>
      match stats with
      | Some sq =>
          match datatype (get_column_desc sq column_field) with
          | STRING => "string"
          | UINT64 => "int"
          | DOUBLE => "double"
          | _ => EmptyString
          end
      | None => EmptyString
      end
  end.
End columns.

(** ** Properties of [ParseAgg] *)

(** An aggregated field: the operation around a field name. *)
Definition agg_name (p f : string) : string := p +:+ "(" +:+ f +:+ ")".

Lemma agg_field_name p f : size (agg_name p f) <= npos →
  agg_field (agg_name p f) (size p + 1) = Done f.
Proof.
  intros Hs. unfold agg_field, agg_name.
  assert (p +:+ "(" +:+ f +:+ ")" = (p +:+ "(") +:+ (f +:+ ")")) as E
    by (by rewrite append_assoc_string).
  assert (size (p +:+ "(") = size p + 1) as <- by (by rewrite size_app).
  rewrite E, substr_drop; [simpl|unfold agg_name in Hs; rewrite E, size_app in Hs;
    pose proof (size_nonneg (p +:+ "(")); lia].
  rewrite size_app. change (size ")") with 1. pose proof (size_nonneg f).
  destruct (Z.eqb_spec (size f + 1) 0); [lia|].
  by rewrite Z.add_simpl_r, substr_take.
Qed.

Lemma parse_agg_none l vname sfield :
  (∀ p op, (p, op) ∈ l → starts_with vname p = false) →
  parse_agg_prefixes l vname sfield = Done (INVALID, sfield).
Proof.
  induction l as [|[p op] l IH]; intros Hno; simpl; [done|].
  rewrite (Hno p op) by set_solver. apply IH. set_solver.
Qed.

Lemma parse_agg_name p op f sfield : (p, op) ∈ agg_prefixes → size (agg_name p f) <= npos →
  ParseAgg (agg_name p f) sfield = Done (op, f).
Proof.
  intros Hin Hs. pose proof (agg_field_name p f Hs) as Hf. unfold ParseAgg.
  transitivity (g ← agg_field (agg_name p f) (size p + 1); Done (op, g)); [|by rewrite Hf].
  clear Hf Hs. unfold agg_prefixes in Hin.
  repeat (apply elem_of_cons in Hin as [[= -> ->]|Hin]; [reflexivity|]).
  by apply not_elem_of_nil in Hin.
Qed.

(** An aggregated field parses back to its operation and its field, for
    each of the eight operations; a name that starts with none of them is
    [INVALID] and leaves the field argument as it was. *)
Theorem ParseAgg_roundtrip sfield :
  (∀ p op f, (p, op) ∈ agg_prefixes → size (agg_name p f) <= npos →
     ParseAgg (agg_name p f) sfield = Done (op, f)) ∧
  (∀ vname, (∀ p op, (p, op) ∈ agg_prefixes → starts_with vname p = false) →
     ParseAgg vname sfield = Done (INVALID, sfield)).
Proof.
  split.
  - intros p op f Hin Hs. by apply parse_agg_name.
  - intros vname Hno. by apply parse_agg_none.
Qed.

(** A column whose name is an operation without parentheses makes
    [ParseAgg] throw, and a plain name that merely starts with one is taken for
    an aggregate of what is left of it. *)
Lemma ParseAgg_plain_names :
  (∀ p op, (p, op) ∈ agg_prefixes → ParseAgg p EmptyString = Stopped) ∧
  ParseAgg "SUMMARY" EmptyString = Done (SUM, "AR"%string).
Proof.
  split; [|by vm_compute]. intros p op Hin.
  repeat (apply elem_of_cons in Hin as [[= -> ->]|Hin]; [by vm_compute|]).
  by apply not_elem_of_nil in Hin.
Qed.

(** ** Properties of the columns *)

(** The WHERE check refuses a column of a fixed table that is not indexed,
    but accepts every column of a StatTable, also one its static schema does
    not index or does not have: the test of the index has no [else]. *)
Theorem where_field_check `{VizSchema} table_ sq where_field :
  (∀ t, find_table table_ = Some t →
     is_valid_where_field table_ (Some sq) where_field = Some true ↔
     ∃ c, c ∈ columns t ∧ col_name c = where_field ∧ col_index c = true) ∧
  (find_table table_ = None → is_valid_where_field table_ (Some sq) where_field = Some true).
Proof.
  unfold is_valid_where_field. split.
  - intros t ->. split.
    + intros [= (c & Hc & Hb)%existsb_exists]. reflect_bools.
      exists c. split_and!; [by apply list_elem_of_In|done|done].
    + intros (c & Hc%list_elem_of_In & Hn & Hi). f_equal. apply existsb_exists. exists c.
      split; [done|]. by rewrite Hn, Hi, String.eqb_refl.
  - intros ->. by repeat case_match.
Qed.

Lemma scan_tables_static ty at_ l acc :
  (foldl (scan_table ty at_) acc l).1 =
  acc.1 || existsb (λ st, (stat_type st =? ty)%string && (stat_attr st =? at_)%string) l.
Proof.
  revert acc. induction l as [|st l IH]; intros acc; simpl; [by rewrite orb_false_r|].
  rewrite IH. unfold scan_table.
  destruct (stat_type st =? ty)%string, (stat_attr st =? at_)%string; simpl; try done.
  by rewrite orb_true_r.
Qed.

(** The table [StatTable.<type>.<attribute>] is split at its dots, is
    static exactly when the constants define a table of that type and
    attribute, and always has the columns Source and UUID. *)
Theorem StatsQuery_ctor_spec `{VizSchema} ty at_ :
  let tname := "StatTable." +:+ ty +:+ "." +:+ at_ in
  has_char "." ty = false → size tname < npos →
  ∃ sq, StatsQuery_ctor tname = Some sq ∧ type_ sq = ty ∧ attr_ sq = at_ ∧
    (is_static_ sq = true ↔ ∃ st, st ∈ STAT_TABLES ∧ stat_type st = ty ∧ stat_attr st = at_) ∧
    get_column_desc sq STAT_SOURCE_FIELD = plain_column STRING true false ∧
    get_column_desc sq STAT_UUID_FIELD = plain_column UUID false true.
Proof.
  intros tname Hty Hsz.
  assert (size tname = 11 + size ty + size at_) as Hs.
  { unfold tname. rewrite !size_app. unfold size. simpl. lia. }
  pose proof (size_nonneg ty). pose proof (size_nonneg at_). unfold npos in Hsz.
  unfold StatsQuery_ctor. change (is_stat_table_query tname) with true. cbv iota.
  change (find tname "." 0) with 9. change (u64 (9 + 1)) with 10.
  assert (find tname "." 10 = 10 + size ty) as ->.
  { unfold find, tname. rewrite find_at_before by done.
    apply (find_at_first "." ty at_); [done|change (size "StatTable.") with 10; lia]. }
  rewrite !u64_small by (unfold is_u64; lia).
  replace (10 + size ty - 9 - 1) with (size ty) by lia.
  assert (substr tname 10 (size ty) = Some ty) as ->.
  { unfold substr. destruct (Z.ltb_spec (size tname) 10); [lia|]. rewrite Z.min_l by lia.
    f_equal. unfold tname, size. rewrite Nat2Z.id.
    change (Z.to_nat 10) with (String.length "StatTable.").
    rewrite substring_drop. apply substring_app_0. }
  assert (substr tname (10 + size ty + 1) npos = Some at_) as ->.
  { replace tname with (("StatTable." +:+ ty +:+ ".") +:+ at_)
      by (unfold tname; by rewrite !append_assoc_string).
    replace (10 + size ty + 1) with (size ("StatTable." +:+ ty +:+ "."))
      by (rewrite !size_app; change (size "StatTable.") with 10; change (size ".") with 1; lia).
    apply substr_drop. unfold npos. lia. }
  pose proof (scan_tables_static ty at_ STAT_TABLES (false, ∅)) as Hst.
  destruct (foldl _ _ _) as [is_static s]. simpl in Hst. eexists. split; [done|]. simpl.
  split_and!; [done|done| |..].
  - rewrite Hst, existsb_exists. split; intros (st & Hin & Hb); exists st.
    + reflect_bools. split; [by apply list_elem_of_In|done].
    + destruct Hb as [-> ->]. by rewrite !String.eqb_refl, <- list_elem_of_In.
  - unfold get_column_desc, common_columns. simpl.
    rewrite lookup_insert_ne, lookup_insert_eq by done. done.
  - unfold get_column_desc, common_columns. simpl. by rewrite lookup_insert_eq.
Qed.

(** A schema with one static table, used by the examples. *)
Module SchemaExamples.
Definition schema : VizSchema := {|
  STAT_TABLES := [{| stat_type := "NodeStatus"; stat_attr := "disk";
    attributes := [{| sa_name := "disk.used"; sa_datatype := "int"; sa_index := false;
                      sa_suffixes := [] |}] |}];
  TABLES := [{| tbl_name := FLOW_SERIES_TABLE;
    columns := [{| col_name := "sourcevn"; col_datatype := "string"; col_index := true |};
                {| col_name := "packets"; col_datatype := "int"; col_index := false |}] |}]
|}.

Section examples.
#[local] Existing Instance schema.

Lemma StatsQuery_ctor_spec_witness :
  ∃ sq, StatsQuery_ctor "StatTable.NodeStatus.disk" = Some sq ∧
    type_ sq = "NodeStatus"%string ∧ attr_ sq = "disk"%string ∧
    (is_static_ sq = true ↔
       ∃ st, st ∈ STAT_TABLES ∧ stat_type st = "NodeStatus"%string ∧ stat_attr st = "disk"%string) ∧
    get_column_desc sq STAT_SOURCE_FIELD = plain_column STRING true false ∧
    get_column_desc sq STAT_UUID_FIELD = plain_column UUID false true.
Proof. by apply (StatsQuery_ctor_spec "NodeStatus" "disk"). Defined.
End examples.
End SchemaExamples.
