(* ===== verification/DbQuery.v ===== *)
(** * Database sub-queries

    [DbQueryUnit] of [contrail-query-engine/db_query.cc]: the row keys of a
    sub-query, the pipeline that fetches the rows, the translation of the
    columns of a row into result units and the completion callback. *)
From stdpp Require Import base tactics list list_numbers strings gmap.
From Stdlib Require Import ZArith Lia Sorted Permutation.
From S2P Require Import Prelude.
From S2P Require Import CppString.
From S2P Require Import VizConstants.
From S2P Require Import QueryTypes.
From S2P Require Import SetOps.
From S2P Require Import AnalyticsQuery.
Import Tables.
Local Open Scope Z_scope.

(** [GenDb::Op::type], the operators the engine asks for. *)
Inductive gendb_op := OpEQ | OpLE | OpGE | OpLIKE | OpINVALID.
#[export] Instance gendb_op_eq_dec : EqDecision gendb_op.
Proof. solve_decision. Defined.

(** [get_gendb_op_from_op]. *)
Definition get_gendb_op_from_op (op : match_op) : gendb_op :=
  match op with
  | EQUAL => OpEQ | LEQ => OpLE | GEQ => OpGE | PREFIX => OpLIKE | _ => OpINVALID
  end.

(** [GenDb::WhereIndexInfo]: column, operator, value. *)
Abbreviation WhereIndexInfo := (string * gendb_op * DbDataValue)%type.

(** [class DbQueryUnit]. *)
Record DbQueryUnit := {
  cfname : string;
  cr_start : list DbDataValue;
  cr_finish : list DbDataValue;
  where_vec : list WhereIndexInfo;
  row_key_suffix : list DbDataValue;
  t_only_col : bool;
  t_only_row : bool
}.
#[export] Instance DbQueryUnit_eq_dec : EqDecision DbQueryUnit.
Proof. solve_decision. Defined.

(** ** Row keys *)

Definition partitions : list Z := seqZ PARTITION_MIN (PARTITION_MAX + 1 - PARTITION_MIN).

(** The keys [populate_row_keys] adds for one value of T2. *)
Definition row_keys_of_t2 (tname : string) (q : DbQueryUnit) (t2 : Z)
  : list (list DbDataValue) :=
  let rowkey := DbU32 t2 :: (if is_stat_table_query tname then [DbU8 0] else []) in
  if is_flow_query tname || is_session_query tname then
    part_no ← partitions;
    let tmp_rowkey := rowkey ++ [DbU8 part_no] in
    if is_flow_query tname then
      is_si ← [0; 1];
      it ← row_key_suffix q;
      [tmp_rowkey ++ [DbU8 is_si; it]]
    else [tmp_rowkey ++ row_key_suffix q]
  else
    let rowkey := if t_only_row q then rowkey else rowkey ++ row_key_suffix q in
    if t_only_col q then
      part_no ← partitions; [rowkey ++ [DbU8 part_no]]
    else [rowkey].

(** The loop over [uint32_t t2]; [None]: out of fuel. *)
Fixpoint t2_loop (fuel : nat) (tname : string) (q : DbQueryUnit) (t2 t2_end : Z)
  : option (list (list DbDataValue)) :=
  match fuel with
  | O => None
  | S fuel =>
      if t2 <=? t2_end then
        app (row_keys_of_t2 tname q t2) <$> t2_loop fuel tname q (u32 (t2 + 1)) t2_end
      else Some []
  end.

(** [DbQueryUnit::populate_row_keys]: the clustering range is extended by the
    T1 bounds, and the keys are built. *)
Definition populate_row_keys (fuel : nat) (tname : string) (from_time end_time : Z)
    (q : DbQueryUnit) : DbQueryUnit * option (list (list DbDataValue)) :=
  let t2_start := u32 (Z.shiftr from_time RowTimeInBits) in
  let t2_end := u32 (Z.shiftr end_time RowTimeInBits) in
  let q' := {| cfname := cfname q;
               cr_start := if is_object_table_query tname
                           then cr_start q ++ [DbU32 (u32 (- 2 ^ 31))] else cr_start q;
               cr_finish := cr_finish q ++ [DbU32 (2 ^ 31 - 1)];
               where_vec := where_vec q; row_key_suffix := row_key_suffix q;
               t_only_col := t_only_col q; t_only_row := t_only_row q |} in
  (q', t2_loop fuel tname q' t2_start t2_end).

(** ** The request of one row *)

(** [GenDb::DbDataValueToString]. *)
Class DbToString := { DbDataValueToString : DbDataValue → string }.

(** [DbQueryUnit::PipelineCb]: values that are not a LIKE pattern starting
    with [%] get the T2 prefix. *)
Definition prefix_where_vec `{DbToString} (rowkey : list DbDataValue) (w : list WhereIndexInfo)
  : option (list WhereIndexInfo) :=
  match rowkey !! 0%nat with
  | None => None
  | Some t2 =>
      let T2_string := DbDataValueToString t2 in
      Some ((λ wi, let '(col, op, v) := wi in
                   let value := DbDataValueToString v in
                   if starts_with value "%" then wi
                   else (col, op, DbString (T2_string +:+ ":" +:+ value))) <$> w)
  end.

(** ** Columns of a row as result units *)

(** [TIMESTAMP_FROM_T2T1]. *)
Definition TIMESTAMP_FROM_T2T1 (t2 t1 : Z) : Z :=
  Z.lor (u64 (Z.shiftl t2 RowTimeInBits)) (Z.land t1 RowTimeInMask).

(** A column of a fetched row: its clustering key and its values. *)
Record NewCol := { name : list DbDataValue; value : list DbDataValue }.

Definition as_u32 (v : DbDataValue) : option Z := match v with DbU32 n => Some n | _ => None end.
Definition as_u8 (v : DbDataValue) : option Z := match v with DbU8 n => Some n | _ => None end.
Definition as_uuid (v : DbDataValue) : option Z := match v with DbUuid n => Some n | _ => None end.
Definition as_string (v : DbDataValue) : option string :=
  match v with DbString s => Some s | _ => None end.

(** [v.at(v.size() - k)]. *)
Definition at_end {A} (l : list A) (k : nat) : option A :=
  if (length l <? k)%nat then None else l !! (length l - k)%nat.

(** [DbQueryUnit::message_table_query_get_row]: the columns in schema order. *)
Definition message_table_query_get_row (rowkey : list DbDataValue) (col : NewCol)
  : option (list DbDataValue) :=
  k ← mapM (λ i, rowkey !! i) [0; 1]%nat;
  n ← mapM (λ i, name col !! i) [0; 1]%nat;
  v ← mapM (λ i, value col !! i)
        [10; 11; 12; 13; 14; 15; 16; 0; 1; 2; 3; 4; 5; 6; 7; 8; 9; 17]%nat;
  Some (k ++ n ++ v).

(** Where T1 sits in the clustering key of a column. *)
Definition column_t1 (tname : string) (t_only_col : bool) (col : NewCol) : option Z :=
  if is_stat_table_query tname then at_end (name col) 2 ≫= as_u32
  else if is_session_query tname || is_flow_query tname then name col !! 2%nat ≫= as_u32
  else at_end (name col) (if t_only_col then 2 else 1) ≫= as_u32.

(** The info values of a column. *)
Definition column_info (tname : string) (t_only_col unroll_needed : bool)
    (rowkey : list DbDataValue) (session_type is_si : Z) (col : NewCol)
  : option (list DbDataValue) :=
  if is_stat_table_query tname then
    uuid ← at_end (name col) 1 ≫= as_uuid;
    attribstr ← at_end (value col) 1 ≫= as_string;
    Some [DbString attribstr; DbUuid uuid]
  else if is_session_query tname || is_flow_query tname then
    n ← mapM (λ i, name col !! i) [0; 1; 2; 3]%nat;
    Some ([DbU8 is_si; DbU8 session_type] ++ n ++
          (if unroll_needed then value col else take (length (value col) - 1) (value col)))
  else if t_only_col then message_table_query_get_row rowkey col
  else Some (value col).

(** One iteration of the loop of [DbQueryUnit::cb]: a column outside the time
    range is dropped ([Some None]); [None] is a failed assertion. *)
Definition cb_column (tname : string) (t_only_col unroll_needed : bool) (from_time end_time : Z)
    (rowkey : list DbDataValue) (t2 session_type is_si : Z) (col : NewCol)
  : option (option query_result_unit_t) :=
  t1 ← column_t1 tname t_only_col col;
  let ts := TIMESTAMP_FROM_T2T1 t2 t1 in
  if (ts <? from_time) || (end_time <? ts) then Some None
  else
    i ← column_info tname t_only_col unroll_needed rowkey session_type is_si col;
    Some (Some {| timestamp := ts; info := i |}).

(** [GenDb::DbOpResult] with the columns of the row. *)
Inductive db_response := RowOk (columns : list NewCol) | RowError.

(** What [DbQueryUnit::cb] answers to the pipeline: the units, and whether it
    raised [query_fetch_error]. *)
Record cb_response := { cb_units : WhereResultT; cb_error : bool }.

Definition cb (tname : string) (t_only_col unroll_needed : bool) (from_time end_time : Z)
    (rowkey : list DbDataValue) (dresult : db_response) : option cb_response :=
  t2 ← rowkey !! 0%nat ≫= as_u32;
  si ← (if is_session_query tname || is_flow_query tname then
          st ← rowkey !! 3%nat ≫= as_u8;
          si ← rowkey !! 2%nat ≫= as_u8;
          Some (st, si)
        else Some (0, 0));
  match dresult with
  | RowError => Some {| cb_units := []; cb_error := true |}
  | RowOk columns =>
      us ← mapM (cb_column tname t_only_col unroll_needed from_time end_time
                   rowkey t2 si.1 si.2) columns;
      Some {| cb_units := omap id us; cb_error := false |}
  end.

(** [DbQueryUnit::WPCompleteCb]: the merged result is sorted; the status is a
    success unless a row failed. *)
Definition WPCompleteCb `{DbValueOrder, StdSort} (ret_code query_fetch_error : bool)
    (merged : WhereResultT) : WhereResultT * query_status_t :=
  (std_sort unit_ltb merged,
   if ret_code && negb query_fetch_error then QUERY_SUCCESS else QUERY_FAILURE).

(** ** The fetch pipeline

    One pipeline instance per row key runs [DbQueryUnit::QueryExec]: it takes
    the units of its last response, draws the next row number from the shared
    counter and requests that row, until the rows are exhausted or a fetch
    failed.  Steps of the instances interleave freely. *)

Module Pipeline.
Section pipeline.
Local Open Scope nat_scope.
(** [respond row]: what [cb] makes of the answer to the request of [row]. *)
Context (total : nat) (respond : nat → cb_response).

Inductive phase :=
  | Exec (ext : WhereResultT)   (* QueryExec is due, with the last response *)
  | Fetching (row : nat)        (* the request of [row] is outstanding *)
  | Finished.

Record instance := { ph : phase; out : WhereResultT }.
#[export] Instance finished_decision i : Decision (ph i = Finished).
Proof. destruct (ph i); (by left) || (by right). Defined.

Record state := {
  row_count : nat;
  query_fetch_error : bool;
  instances : list instance
}.

(** [DbQueryUnit::QueryExec] for one instance. *)
Definition QueryExec (s : state) (ext : WhereResultT) (res : WhereResultT) : nat * instance :=
  if query_fetch_error s then (row_count s, {| ph := Finished; out := res |})
  else
    let current_row := row_count s in
    (S current_row,
     {| ph := if (current_row <? total)%nat then Fetching current_row else Finished;
        out := res ++ ext |}).

(** [process_query]: as many instances as row keys, nothing fetched yet. *)
Definition init : state :=
  {| row_count := 0; query_fetch_error := false;
     instances := replicate total {| ph := Exec []; out := [] |} |}.

Inductive step : state → state → Prop :=
  | step_exec s i ext res :
      instances s !! i = Some {| ph := Exec ext; out := res |} →
      step s {| row_count := (QueryExec s ext res).1;
                query_fetch_error := query_fetch_error s;
                instances := <[i := (QueryExec s ext res).2]> (instances s) |}
  | step_respond s i row res :
      instances s !! i = Some {| ph := Fetching row; out := res |} →
      step s {| row_count := row_count s;
                query_fetch_error := query_fetch_error s || cb_error (respond row);
                instances := <[i := {| ph := Exec (cb_units (respond row)); out := res |}]>
                               (instances s) |}.

Definition reachable (s : state) : Prop := rtc step init s.

(** [DbQueryUnit::QueryMerge]. *)
Definition QueryMerge (s : state) : WhereResultT := concat (out <$> instances s).

(** Units an instance holds or will get from its outstanding request. *)
Definition held (i : instance) : WhereResultT :=
  out i ++ match ph i with
           | Exec ext => ext
           | Fetching row => cb_units (respond row)
           | Finished => []
           end.

Definition row_units (n : nat) : WhereResultT := concat (cb_units ∘ respond <$> seq 0 n).

Record inv (s : state) : Prop := {
  inv_held : query_fetch_error s = false →
    Permutation (concat (held <$> instances s)) (row_units (row_count s `min` total));
  inv_done : query_fetch_error s = false →
    ∀ i, i ∈ instances s → ph i = Finished → total < row_count s;
  inv_len : length (instances s) = total
}.

Lemma concat_held_insert l i x y :
  l !! i = Some x →
  Permutation (held x ++ concat (held <$> <[i := y]> l)) (held y ++ concat (held <$> l)).
Proof.
  revert i. induction l as [|z l IH]; intros [|i]; simpl; intros Hi; try done.
  - injection Hi as ->. rewrite !app_assoc. apply Permutation_app_tail, Permutation_app_comm.
  - specialize (IH i Hi). rewrite !(Permutation_app_swap_app _ (held z)), IH. done.
Qed.

Lemma row_units_S n : row_units (S n) = row_units n ++ cb_units (respond n).
Proof.
  unfold row_units. rewrite seq_S, fmap_app, concat_app. simpl. by rewrite app_nil_r.
Qed.

Lemma inv_init : inv init.
Proof.
  split; simpl; try intros _.
  - assert (concat (held <$> replicate total {| ph := Exec []; out := [] |}) = []) as ->; [|done].
    induction total; simpl; auto.
  - intros i Hi. apply elem_of_replicate in Hi as [-> _]. done.
  - apply length_replicate.
Qed.

Lemma held_swap l i x y r :
  l !! i = Some x → Permutation (concat (held <$> l)) r →
  ∀ d, Permutation (held y) (held x ++ d) →
  Permutation (concat (held <$> <[i := y]> l)) (r ++ d).
Proof.
  intros Hi Hr d Hd. apply (Permutation_app_inv_l (held x)).
  rewrite (concat_held_insert l i x y Hi), Hd, Hr.
  rewrite <- app_assoc. apply Permutation_app_head, Permutation_app_comm.
Qed.

Lemma inv_step s s' : inv s → step s s' → inv s'.
Proof.
  intros [Hh Hd Hl] Hstep. destruct Hstep as [s i ext res Hi|s i row res Hi].
  - unfold QueryExec. destruct (query_fetch_error s) eqn:E.
    { split; simpl; rewrite ?E, ?length_insert; done. }
    specialize (Hh eq_refl). specialize (Hd eq_refl).
    split; cbn -[Nat.min Nat.ltb]; rewrite ?length_insert; auto; intros _.
    + destruct (Nat.ltb_spec (row_count s) total) as [Hlt|Hge].
      * rewrite Nat.min_l by lia. rewrite row_units_S. eapply held_swap; [done| |].
        { by rewrite Nat.min_l in Hh by lia. }
        unfold held; simpl. done.
      * rewrite Nat.min_r in * by lia. rewrite <- (app_nil_r (row_units total)).
        eapply held_swap; [done..|]. unfold held; simpl. by rewrite !app_nil_r.
    + intros j Hj Hf. apply elem_of_insert_inv in Hj as [->|Hj].
      * simpl in Hf. destruct (Nat.ltb_spec (row_count s) total); [done|lia].
      * specialize (Hd j Hj Hf). lia.
  - split; simpl; rewrite ?length_insert; auto; intros [E E2]%orb_false_iff.
    + rewrite <- (app_nil_r (row_units _)). eapply held_swap; [done|by apply Hh|].
      unfold held; simpl. by rewrite app_nil_r.
    + intros j Hj Hf. apply elem_of_insert_inv in Hj as [->|Hj]; [done|]. by apply (Hd E j).
Qed.

Lemma reachable_inv s : reachable s → inv s.
Proof.
  unfold reachable. generalize inv_init. generalize init as s0.
  intros s0 H0 Hr. induction Hr as [|x y z Hxy _ IH]; [done|]. by eapply IH, inv_step.
Qed.

Lemma finished_merge s : inv s → query_fetch_error s = false →
  (∀ i, i ∈ instances s → ph i = Finished) →
  Permutation (QueryMerge s) (row_units total).
Proof.
  intros [Hh Hd Hl] He Hfin.
  specialize (Hh He). specialize (Hd He).
  assert (row_count s `min` total = total) as Hmin.
  { destruct (instances s) as [|i l] eqn:E; [simpl in Hl; lia|].
    specialize (Hd i ltac:(left) (Hfin i ltac:(left))). lia. }
  rewrite Hmin in Hh. rewrite <- Hh. unfold QueryMerge.
  assert (out <$> instances s = held <$> instances s) as ->; [|done].
  clear -Hfin. induction (instances s) as [|i l IH]; [done|]. simpl. f_equal.
  - unfold held. rewrite Hfin by left. by rewrite app_nil_r.
  - apply IH. intros j Hj. apply Hfin. by right.
Qed.

(** C9.  However the instances interleave, when they have all finished and no
    fetch failed, the merged result holds the units of every row exactly once
    and nothing else. *)
Theorem pipeline_fetches_every_row_once s :
  reachable s → query_fetch_error s = false →
  (∀ i, i ∈ instances s → ph i = Finished) →
  Permutation (QueryMerge s) (row_units total).
Proof. intros Hr. apply finished_merge. by apply reachable_inv. Qed.

(** Every instance that has not finished can make a step. *)
Lemma progress s i x :
  instances s !! i = Some x → ph x ≠ Finished → ∃ s', step s s'.
Proof.
  destruct x as [[ext|row|] res]; simpl; intros Hi Hf; [| |done].
  - eexists. by eapply step_exec.
  - eexists. by eapply step_respond.
Qed.

(** What is left to do: a step for an instance that is due, two for one that
    waits for a response, and two more for every row nobody has asked for. *)
Definition phase_cost (i : instance) : nat :=
  match ph i with Exec _ => 1 | Fetching _ => 2 | Finished => 0 end.
Definition cost (s : state) : nat := sum_list_with phase_cost (instances s) + 2 * (total - row_count s).

Lemma cost_insert l i x y : l !! i = Some x →
  sum_list_with phase_cost (<[i := y]> l) + phase_cost x = sum_list_with phase_cost l + phase_cost y.
Proof.
  revert i. induction l as [|z l IH]; intros [|i]; simpl; [done..| |].
  - intros [= ->]. lia.
  - intros Hi. specialize (IH _ Hi). lia.
Qed.

Lemma fetch_step_cost s s' : step s s' → cost s' < cost s.
Proof.
  destruct 1 as [s i ext res Hi|s i row res Hi]; unfold cost; cbn -[Nat.ltb Nat.sub Nat.mul].
  - pose proof (cost_insert _ _ _ (QueryExec s ext res).2 Hi) as Hc. revert Hc.
    unfold QueryExec. destruct (query_fetch_error s); cbn -[Nat.ltb Nat.sub Nat.mul]; [lia|].
    destruct (Nat.ltb_spec (row_count s) total); cbn -[Nat.sub Nat.mul]; lia.
  - pose proof (cost_insert _ _ _ {| ph := Exec (cb_units (respond row)); out := res |} Hi) as Hc.
    revert Hc. cbn -[Nat.sub Nat.mul]. lia.
Qed.

(** C10.  A sub-query always answers: however its instances are scheduled and
    whatever the database responds, every run comes, without getting stuck, to
    a state in which all instances have finished, and there a fetch has failed
    or the merged result is that of all rows. *)
Theorem answer_inevitable : inevitably step (λ s,
  (∀ i, i ∈ instances s → ph i = Finished) ∧
  (query_fetch_error s = true ∨ Permutation (QueryMerge s) (row_units total))) init.
Proof.
  apply (inevitably_measure step inv cost); [exact inv_step|by intros; apply fetch_step_cost| |exact inv_init].
  intros s Hi. destruct (decide (Forall (λ i, ph i = Finished) (instances s))) as [Hf|Hn].
  - left. rewrite Forall_forall in Hf. split; [done|]. destruct (query_fetch_error s) eqn:E; [by left|right].
    by apply finished_merge.
  - right. apply not_Forall_Exists in Hn; [|apply _]. apply Exists_exists in Hn as (x & Hx & Hp).
    apply list_elem_of_lookup in Hx as [i Hx]. by eapply progress.
Qed.
End pipeline.

(** A run of two instances in which the first fetches both rows. *)
Definition example_respond (row : nat) : cb_response :=
  {| cb_units := [{| timestamp := Z.of_nat row; info := [] |}]; cb_error := false |}.

Lemma pipeline_fetches_every_row_once_witness :
  ∃ s, reachable 2 example_respond s ∧
    Permutation (QueryMerge s) (row_units example_respond 2).
Proof.
  assert (reachable 2 example_respond
    {| row_count := 4; query_fetch_error := false;
       instances := [ {| ph := Finished; out := row_units example_respond 2 |};
                      {| ph := Finished; out := [] |} ] |}) as Hr.
  { eapply rtc_l; [apply step_exec with (i := 0%nat); reflexivity|].
    eapply rtc_l; [apply step_respond with (i := 0%nat); reflexivity|].
    eapply rtc_l; [apply step_exec with (i := 0%nat); reflexivity|].
    eapply rtc_l; [apply step_respond with (i := 0%nat); reflexivity|].
    eapply rtc_l; [apply step_exec with (i := 0%nat); reflexivity|].
    eapply rtc_l; [apply step_exec with (i := 1%nat); reflexivity|].
    apply rtc_refl. }
  eexists. split; [exact Hr|].
  apply (pipeline_fetches_every_row_once 2 example_respond); [exact Hr|reflexivity|].
  intros i Hi. repeat (apply elem_of_cons in Hi as [->|Hi]; [reflexivity|]).
  by apply not_elem_of_nil in Hi.
Defined.
End Pipeline.

(** ** Row keys and timestamps *)

Definition t2_of (ts : Z) : Z := Z.shiftr ts RowTimeInBits.
Definition t1_of (ts : Z) : Z := Z.land ts RowTimeInMask.

Lemma timestamp_joined ts :
  0 <= ts < 2 ^ 55 → TIMESTAMP_FROM_T2T1 (t2_of ts) (t1_of ts) = ts ∧ is_u32 (t2_of ts).
Proof.
  intros Hts. unfold TIMESTAMP_FROM_T2T1, t2_of, t1_of, RowTimeInBits, is_u32.
  change RowTimeInMask with (Z.ones 23).
  assert (0 <= Z.shiftr ts 23 < 2 ^ 32) as Hq.
  { rewrite Z.shiftr_div_pow2 by lia.
    split; [apply Z.div_pos; lia|]. apply Z.div_lt_upper_bound; lia. }
  split; [|done].
  rewrite u64_small by (unfold is_u64; rewrite Z.shiftl_mul_pow2 by lia; lia).
  apply Z.bits_inj'. intros n Hn.
  rewrite Z.lor_spec, !Z.land_spec, Z.shiftl_spec, Z.testbit_ones_nonneg by lia.
  destruct (Z.ltb_spec n 23).
  - rewrite Z.testbit_neg_r by lia. by rewrite !andb_true_r.
  - rewrite Z.shiftr_spec by lia. rewrite !andb_false_r, orb_false_r. f_equal. lia.
Qed.

(** A timestamp is recovered from the row time it is stored under and the
    offset in its row, for the times whose row number fits in 32 bits. *)
Theorem timestamp_roundtrip ts :
  0 <= ts < 2 ^ 55 → TIMESTAMP_FROM_T2T1 (t2_of ts) (t1_of ts) = ts ∧ is_u32 (t2_of ts).
Proof. apply timestamp_joined. Qed.

Lemma timestamp_roundtrip_witness :
  TIMESTAMP_FROM_T2T1 (t2_of 1600000000123456) (t1_of 1600000000123456) = 1600000000123456 ∧
  is_u32 (t2_of 1600000000123456).
Proof. apply timestamp_roundtrip. split; vm_compute; congruence. Defined.

Lemma t2_loop_spec fuel tname q t2 t2_end :
  0 <= t2 → t2_end < 2 ^ 32 - 1 → t2 <= t2_end + 1 → t2_end - t2 + 1 < Z.of_nat fuel →
  t2_loop fuel tname q t2 t2_end
  = Some (seqZ t2 (t2_end - t2 + 1) ≫= row_keys_of_t2 tname q).
Proof.
  revert t2. induction fuel as [|fuel IH]; intros t2 H0 He Hle Hf; [lia|]. simpl.
  destruct (Z.leb_spec t2 t2_end) as [Hlt|Hge].
  - rewrite u32_small by (unfold is_u32; lia). rewrite IH by lia.
    rewrite (seqZ_cons t2) by lia. simpl. do 5 f_equal; lia.
  - assert (t2_end - t2 + 1 = 0) as -> by lia. done.
Qed.

Lemma row_keys_head tname q t2 key :
  key ∈ row_keys_of_t2 tname q t2 → key !! 0%nat = Some (DbU32 t2).
Proof.
  unfold row_keys_of_t2. intros Hk. repeat case_match; set_unfold in Hk;
    repeat match goal with
    | H : ∃ _, _ |- _ => destruct H
    | H : _ ∧ _ |- _ => destruct H
    | H : _ ∨ _ |- _ => destruct H
    end; subst; done.
Qed.

(** A sub-query that asks for rows: a flow query names a session type. *)
Definition has_keys (tname : string) (q : DbQueryUnit) : Prop :=
  is_flow_query tname = true → row_key_suffix q ≠ [].

Lemma row_keys_exist tname q t2 : has_keys tname q → ∃ key, key ∈ row_keys_of_t2 tname q t2.
Proof.
  unfold has_keys, row_keys_of_t2. intros Hk.
  destruct (is_flow_query tname) eqn:Ef; simpl.
  - destruct (row_key_suffix q) as [|it l]; [by destruct (Hk eq_refl)|]. eexists. left.
  - destruct (is_session_query tname); simpl; [eexists; left|].
    destruct (t_only_col q); eexists; left.
Qed.

(** The row keys of a sub-query are those of the rows its time range
    touches: every key is for a T2 of the range, and for every instant of the
    range there is a key of its row; the loop over T2 terminates. *)
Theorem row_keys_cover_range fuel tname from_time end_time q :
  0 <= from_time <= end_time → end_time < 2 ^ 55 - 2 ^ 23 → has_keys tname q →
  t2_of end_time - t2_of from_time + 1 < Z.of_nat fuel →
  ∃ keys, (populate_row_keys fuel tname from_time end_time q).2 = Some keys ∧
    (∀ key, key ∈ keys → ∃ t2, key !! 0%nat = Some (DbU32 t2) ∧
       t2_of from_time <= t2 <= t2_of end_time) ∧
    (∀ ts, from_time <= ts <= end_time →
       ∃ key, key ∈ keys ∧ key !! 0%nat = Some (DbU32 (t2_of ts))).
Proof.
  intros Hf He Hk Hfuel.
  assert (∀ a b, a <= b → t2_of a <= t2_of b) as Hmono.
  { intros. unfold t2_of. rewrite !Z.shiftr_div_pow2 by (vm_compute; congruence).
    apply Z.div_le_mono; [vm_compute; reflexivity|done]. }
  assert (0 <= t2_of from_time) as H0 by (apply Z.shiftr_nonneg; lia).
  assert (t2_of end_time < 2 ^ 32 - 1) as H1.
  { unfold t2_of, RowTimeInBits. rewrite Z.shiftr_div_pow2 by lia.
    apply Z.div_lt_upper_bound; lia. }
  pose proof (Hmono from_time end_time ltac:(lia)) as Hle.
  unfold populate_row_keys. cbn [snd].
  change (Z.shiftr from_time RowTimeInBits) with (t2_of from_time).
  change (Z.shiftr end_time RowTimeInBits) with (t2_of end_time).
  rewrite (u32_small (t2_of from_time)), (u32_small (t2_of end_time)) by (unfold is_u32; lia).
  rewrite t2_loop_spec by lia. eexists. split; [reflexivity|]. split.
  - intros key (t2 & Hkey & Ht2)%list_elem_of_bind. apply elem_of_seqZ in Ht2.
    exists t2. split; [by eapply row_keys_head|lia].
  - intros ts Hts.
    match goal with
    | |- context [row_keys_of_t2 tname ?q'] =>
        destruct (row_keys_exist tname q' (t2_of ts) Hk) as [key Hkey]
    end.
    exists key. split; [|by eapply row_keys_head].
    apply list_elem_of_bind. eexists. split; [exact Hkey|]. apply elem_of_seqZ.
    pose proof (Hmono from_time ts ltac:(lia)). pose proof (Hmono ts end_time ltac:(lia)). lia.
Qed.

Definition message_unit : DbQueryUnit := {|
  cfname := COLLECTOR_GLOBAL_TABLE; cr_start := []; cr_finish := []; where_vec := [];
  row_key_suffix := []; t_only_col := true; t_only_row := true |}.

Lemma row_keys_cover_range_witness :
  ∃ keys, (populate_row_keys 5 "MessageTable" 1600000000000000 1600000010000000 message_unit).2 = Some keys ∧
    (∀ key, key ∈ keys → ∃ t2, key !! 0%nat = Some (DbU32 t2) ∧
       t2_of 1600000000000000 <= t2 <= t2_of 1600000010000000) ∧
    (∀ ts, 1600000000000000 <= ts <= 1600000010000000 →
       ∃ key, key ∈ keys ∧ key !! 0%nat = Some (DbU32 (t2_of ts))).
Proof.
  apply row_keys_cover_range; [lia|lia|intros Hc; discriminate Hc|vm_compute; reflexivity].
Defined.

(** The unit [WhereQuery] builds for the server sessions of a flow query
    without a WHERE clause. *)
Definition flow_where_star_unit (is_si : Z) : DbQueryUnit := {|
  cfname := SESSION_TABLE; cr_start := [DbU16 0]; cr_finish := [DbU16 0xffff; DbU16 0xffff];
  where_vec := []; row_key_suffix := [DbU8 is_si; DbU8 SERVER_SESSION];
  t_only_col := false; t_only_row := false |}.

(** The sub-query of a flow query without a WHERE clause asks for every
    row of the server sessions twice: [populate_row_keys] takes each element of
    the row key suffix as a session type, and the suffix is the pair of the
    service-instance flag (0 by default) and the session type (0). *)
Theorem flow_where_star_duplicate_keys t2 part_no is_si :
  0 <= part_no <= 8 → is_si = 0 ∨ is_si = 1 →
  (2 <= mult [DbU32 t2; DbU8 part_no; DbU8 is_si; DbU8 SERVER_SESSION]
             (row_keys_of_t2 FLOW_SERIES_TABLE (flow_where_star_unit 0) t2))%nat.
Proof.
  intros Hp Hs. 
  assert (part_no ∈ [0; 1; 2; 3; 4; 5; 6; 7; 8]) as Hin.
  { rewrite !elem_of_cons. lia. }
  rewrite !elem_of_cons, elem_of_nil in Hin.
  apply (mult_two _ (Z.to_nat (part_no * 4 + is_si * 2)) (S (Z.to_nat (part_no * 4 + is_si * 2))));
    [lia|destruct_or?; subst; done..].
Qed.

Lemma flow_where_star_duplicate_keys_witness :
  (2 <= mult [DbU32 190734; DbU8 3; DbU8 1; DbU8 SERVER_SESSION]
             (row_keys_of_t2 FLOW_SERIES_TABLE (flow_where_star_unit 0) 190734))%nat.
Proof. apply flow_where_star_duplicate_keys; [lia|by right]. Defined.

(** ** Columns and the time window *)

Section columns.
Context (tname : string) (toc unroll : bool) (rowkey : list DbDataValue).

Lemma cb_column_in_window from_time end_time t2 st si col u :
  cb_column tname toc unroll from_time end_time rowkey t2 st si col = Some (Some u) →
  from_time <= timestamp u <= end_time.
Proof.
  unfold cb_column. intros H. destruct (column_t1 tname toc col) as [t1|]; simpl in H; [|done].
  destruct (_ || _) eqn:E; [done|].
  destruct (column_info tname toc unroll rowkey st si col) as [i|]; simpl in H; [|done].
  injection H as <-. simpl. reflect_bools. lia.
Qed.

Lemma cb_column_at from_time end_time t2 t1 st si col inf :
  column_t1 tname toc col = Some t1 →
  column_info tname toc unroll rowkey st si col = Some inf →
  from_time <= TIMESTAMP_FROM_T2T1 t2 t1 <= end_time →
  cb_column tname toc unroll from_time end_time rowkey t2 st si col
  = Some (Some {| timestamp := TIMESTAMP_FROM_T2T1 t2 t1; info := inf |}).
Proof.
  intros Ht1 Hinf Hwin. unfold cb_column. rewrite Ht1. simpl.
  destruct (Z.ltb_spec (TIMESTAMP_FROM_T2T1 t2 t1) from_time); [lia|].
  destruct (Z.ltb_spec end_time (TIMESTAMP_FROM_T2T1 t2 t1)); [lia|]. simpl.
  by rewrite Hinf.
Qed.

(** A fetched row contributes exactly its columns whose time lies in the
    window of the batch, both ends included: every unit [cb] returns lies in
    the window and stems from a column, and every column in the window has its
    unit. *)
Theorem cb_window from_time end_time columns r :
  cb tname toc unroll from_time end_time rowkey (RowOk columns) = Some r →
  cb_error r = false ∧
  (∀ u, u ∈ cb_units r → from_time <= timestamp u <= end_time) ∧
  (∀ col t2 t1, col ∈ columns → rowkey !! 0%nat = Some (DbU32 t2) →
     column_t1 tname toc col = Some t1 →
     from_time <= TIMESTAMP_FROM_T2T1 t2 t1 <= end_time →
     ∃ u, u ∈ cb_units r ∧ timestamp u = TIMESTAMP_FROM_T2T1 t2 t1).
Proof.
  unfold cb. destruct (rowkey !! 0%nat ≫= as_u32) as [t2|] eqn:Et2; simpl; [|done].
  destruct (if _ || _ then _ else _) as [[st si]|]; simpl; [|done].
  destruct (mapM _ columns) as [us|] eqn:Eus; simpl; [|done].
  intros [= <-]. simpl. apply mapM_Some in Eus. split_and!; [done|..].
  - intros u (ou & Hou & Hu)%list_elem_of_omap. simpl in Hu. subst ou.
    apply list_elem_of_lookup in Hou as [k Hk].
    destruct (Forall2_lookup_r _ _ _ _ _ Eus Hk) as (col & _ & Hcol).
    by eapply cb_column_in_window.
  - intros col t2' t1 Hcol Hr Ht1 Hwin. rewrite Hr in Et2. simpl in Et2. injection Et2 as <-.
    apply list_elem_of_lookup in Hcol as [k Hk].
    destruct (Forall2_lookup_l _ _ _ _ _ Eus Hk) as (ou & Hou & Hc).
    unfold cb_column in Hc. rewrite Ht1 in Hc. simpl in Hc.
    destruct (Z.ltb_spec (TIMESTAMP_FROM_T2T1 t2' t1) from_time); [lia|].
    destruct (Z.ltb_spec end_time (TIMESTAMP_FROM_T2T1 t2' t1)); [lia|]. simpl in Hc.
    destruct (column_info _ _ _ _ _ _ _) as [i|]; simpl in Hc; [|done]. injection Hc as <-.
    eexists. split; [apply list_elem_of_omap; eexists; split; [by eapply list_elem_of_lookup_2|done]|done].
Qed.

(** The windows of adjacent batches share their boundary: a column stored
    at the instant where one batch ends and the next starts is returned by
    both, so its unit reaches the result twice. *)
Theorem boundary_unit_in_two_batches merge from end_ total max_slice i t2 t1 st si col inf :
  slicing_ok from end_ total max_slice → can_parallelize_query tname = true →
  let slice k := Init_slice tname merge from end_ (Z.of_nat k) total max_slice in
  from + Z.of_nat (S i) * parallel_time_slice from end_ total max_slice < end_ →
  column_t1 tname toc col = Some t1 → TIMESTAMP_FROM_T2T1 t2 t1 = slice_from (slice (S i)) →
  column_info tname toc unroll rowkey st si col = Some inf →
  ∀ k, k = i ∨ k = S i →
    cb_column tname toc unroll (slice_from (slice k)) (slice_end (slice k)) rowkey t2 st si col
    = Some (Some {| timestamp := slice_from (slice (S i)); info := inf |}).
Proof.
  intros Hok Hpar slice Hin Ht1 Hts Hinf. pose proof Hok as [Hf0 He0 Hr0 Ht0 Hm0].
  pose proof (parallel_time_slice_bounds from end_ total max_slice Hm0) as Hb.
  pose proof (eq_refl : row_time = 8388608) as Hrow.
  destruct (slice_values tname merge from end_ total max_slice (S i) Hok Hpar)
    as (_ & _ & _ & F1 & _ & F2); [lia|].
  destruct (slice_values tname merge from end_ total max_slice i Hok Hpar)
    as (_ & _ & _ & G1 & _ & G2); [lia|].
  set (ts := parallel_time_slice from end_ total max_slice) in *.
  specialize (F2 Hin). specialize (G2 ltac:(lia)).
  intros k Hk. rewrite <- Hts. apply cb_column_at; [done|done|]. rewrite Hts.
  destruct Hk as [-> | ->]; unfold slice; rewrite ?F1, ?G1, ?F2, ?G2; lia.
Qed.
End columns.

(** A message row at the boundary of the first two of two batches. *)
Module WindowExamples.
Definition boundary : Z := slice_from (Init_slice MESSAGE_TABLE true 1600000000000000 1600000100000000 1 2 100).
Definition msg_col : NewCol := {|
  name := [DbU32 (t1_of boundary); DbUuid 7];
  value := replicate 17 (DbString "x") ++ [DbString "<xml/>"] |}.
Definition key : list DbDataValue := [DbU32 (t2_of boundary); DbU8 0].

Lemma cb_window_witness :
  ∃ r, cb MESSAGE_TABLE true false 1600000000000000 boundary key (RowOk [msg_col]) = Some r ∧
    cb_error r = false ∧
    (∀ u, u ∈ cb_units r → 1600000000000000 <= timestamp u <= boundary) ∧
    (∀ col t2 t1, col ∈ [msg_col] → key !! 0%nat = Some (DbU32 t2) →
       column_t1 MESSAGE_TABLE true col = Some t1 →
       1600000000000000 <= TIMESTAMP_FROM_T2T1 t2 t1 <= boundary →
       ∃ u, u ∈ cb_units r ∧ timestamp u = TIMESTAMP_FROM_T2T1 t2 t1).
Proof.
  eexists. split; [vm_compute; reflexivity|].
  apply (cb_window MESSAGE_TABLE true false key 1600000000000000 boundary [msg_col]).
  vm_compute. reflexivity.
Defined.

Definition msg_info : list DbDataValue :=
  default [] (column_info MESSAGE_TABLE true false key 0 0 msg_col).

Lemma boundary_unit_in_two_batches_witness :
  let slice k := Init_slice MESSAGE_TABLE true 1600000000000000 1600000100000000 (Z.of_nat k) 2 100 in
  let unit_of k := cb_column MESSAGE_TABLE true false (slice_from (slice k)) (slice_end (slice k)) key
                     (t2_of boundary) 0 0 msg_col in
  unit_of 0%nat = Some (Some {| timestamp := slice_from (slice 1%nat); info := msg_info |}) ∧
  unit_of 1%nat = Some (Some {| timestamp := slice_from (slice 1%nat); info := msg_info |}).
Proof.
  split; apply (boundary_unit_in_two_batches MESSAGE_TABLE true false key true
           1600000000000000 1600000100000000 2 100 0 (t2_of boundary) (t1_of boundary) 0 0 msg_col
           msg_info);
    try (split; vm_compute; intuition congruence); try (vm_compute; reflexivity); auto.
Defined.
End WindowExamples.

(** What a sub-query hands to its WHERE query is sorted, so the set
    operations apply to it, and holds exactly the merged units; it succeeds
    only when no row failed. *)
Theorem WPCompleteCb_sorted `{DbValueOrder, StdSort} n ret err merged :
  Forall (unit_wf n) merged →
  let '(res, status) := WPCompleteCb ret err merged in
  results_ok n res ∧ Permutation merged res ∧
  (status = QUERY_SUCCESS ↔ ret = true ∧ err = false).
Proof.
  intros Hwf. unfold WPCompleteCb, results_ok. split_and!.
  - by apply std_sort_Forall.
  - eapply std_sort_sorted; [apply (st_weak (unit_ltb_total n))|done].
  - apply std_sort_perm.
  - destruct ret, err; simpl; naive_solver.
Qed.

Section complete_example.
#[local] Existing Instance ConcreteOrder.order.

Lemma WPCompleteCb_sorted_witness :
  let merged := [SetOpsExamples.u 5 "c" 4; SetOpsExamples.u 1 "a" 1; SetOpsExamples.u 2 "b" 3] in
  let '(res, status) := WPCompleteCb true false merged in
  results_ok 2 res ∧ Permutation merged res ∧ (status = QUERY_SUCCESS ↔ true = true ∧ false = false).
Proof. apply (WPCompleteCb_sorted 2). by repeat constructor. Defined.
End complete_example.
