(* ===== verification/PostProcessing.v ===== *)
(** * Post-processing: filters, sorting, limits and the merge of results

    [PostProcessingQuery] of [contrail-query-engine/query.cc] (constructor) and
    [contrail-query-engine/post_processing.cc]: the sort, limit and filter
    clauses of a query and their effect on the rows a SELECT produced, and the
    merge of the results of the parallel chunks. *)
From stdpp Require Import base tactics list strings pretty gmap sets.
From Stdlib Require Import ZArith Lia Sorted Permutation SpecFloat.
From S2P Require Import Prelude.
From S2P Require Import CppString.
From S2P Require Import VizConstants.
From S2P Require Import QueryTypes.
From S2P Require Import SortedLists.
From S2P Require Import Json.
From S2P Require Import AnalyticsQuery.
From S2P Require Import StatsQuery.
Import Tables.
Local Open Scope Z_scope.

(** ** Data *)

(** [query_string_to_column_name] holds no pair. *)
Definition query_string_to_column_name : list (string * string) := [].
Definition get_column_name (query_string : string) : string :=
  default query_string
    (snd <$> List.find (λ p, (p.1 =? query_string)%string) query_string_to_column_name).

Record sort_field_t := { sf_name : string; sf_type : string }.

(** [struct filter_match_t]; the compiled [match_e] is the pattern it was
    compiled from, empty for the default one. *)
Record filter_match_t := {
  fm_name : string; fm_value : string; fm_op : match_op;
  ignore_col_absence : bool; match_e : string
}.

(** [contrail::regex] (contrail-common): whether a pattern compiles, and
    [regex_match] with a compiled pattern. *)
Class Regex := { regex_compiles : string → bool; regex_match : string → string → bool }.

(** [ostream << SubVal] and [stringToInteger] for a [double]. *)
Class StatFormat := {
  show_subval : SubVal → string;
  show_subval_string s : show_subval (SvString s) = s;
  show_subval_u64 n : is_u64 n → show_subval (SvU64 n) = pretty n;
  stringToDouble : string → spec_float
}.

#[export] Instance AggOper_countable : Countable AggOper.
Proof.
  refine (inj_countable'
    (λ o, match o with INVALID => 0 | SUM => 1 | COUNT => 2 | CLASS => 3 | MAX => 4
                     | MIN => 5 | PERCENTILES => 6 | AVG => 7 | COUNT_DISTINCT => 8 end)%nat
    (λ n, match n with 0 => INVALID | 1 => SUM | 2 => COUNT | 3 => CLASS | 4 => MAX
                     | 5 => MIN | 6 => PERCENTILES | 7 => AVG | _ => COUNT_DISTINCT end)%nat _).
  by intros [].
Defined.

(** [AggRowT] and [OutRowMultimapT]: a [multimap] is the list of its entries in
    key order. *)
Abbreviation StatMap := (gmap string SubVal).
Abbreviation AggRowT := (gmap (AggOper * string) SubVal).
Abbreviation MapBufT := (list (list SubVal * (gmap string SubVal * gmap (AggOper * string) SubVal))).

Record PostProcessingQuery := {
  filter_list : list (list filter_match_t);
  sorted : bool;
  sorting_type : sort_op;
  sort_fields : list sort_field_t;
  limit : Z
}.

(** ** The constructor *)

(** What the constructor reads of the main query. *)
Record pp_main := {
  pm_table : string;
  pm_stats : option StatsQuery;
  is_present_in_select_column_fields : string → bool;
  where_filter_list : list (list filter_match_t);
  filter_qe_logs : bool;
  sandesh_moduleid : string
}.

(** [AnalyticsQuery::is_valid_sort_field]. *)
Definition is_valid_sort_field (m : pp_main) (sort_field : string) : bool :=
  (sort_field =? "packets")%string || (sort_field =? "bytes")%string ||
  (sort_field =? "SUM(packets)")%string || (sort_field =? "SUM(bytes)")%string ||
  is_present_in_select_column_fields m sort_field.

Section ctor.
Context `{JsonParser, DoubleFormat, Regex, VizSchema}.

Definition wrap (key text : string) : string :=
  "{ " +:+ quoted key +:+ " : " +:+ text +:+ " }".

(** One element of the [sort_fields] array. *)
Definition parse_sort_field (m : pp_main) (v : json) : outcome sort_field_t :=
  QE_PARSE_ERROR (IsString v);;
  sort_str ← GetString v;
  let datatype := get_column_field_datatype (pm_table m) (pm_stats m) sort_str in
  (if is_stat_table_query (pm_table m) then
     sq ← stop_unless (pm_stats m);
     if is_static_ sq then
       '(agg, sfield) ← ParseAgg sort_str EmptyString;
       if decide (agg = INVALID) then QE_INVALIDARG_ERROR (negb (datatype =? EmptyString)%string)
       else
         let dtype2 := get_column_field_datatype (pm_table m) (pm_stats m) sfield in
         QE_INVALIDARG_ERROR (negb (dtype2 =? EmptyString)%string)
     else Done ()
   else Done ());;
  QE_INVALIDARG_ERROR (is_valid_sort_field m sort_str);;
  Done {| sf_name := get_column_name sort_str; sf_type := datatype |}.

(** The value of a filter as text; only the old format reads doubles. *)
Definition filter_value (old_format : bool) (v : json) : string :=
  match v with
  | JString s => s
  | JInt n => if IsInt v || IsUint v then pretty n else EmptyString
  | JDouble d => if old_format then show_double d else EmptyString
  | _ => EmptyString
  end.

(** One term of a filter. *)
Definition parse_filter (old_format : bool) (f : json) : outcome filter_match_t :=
  has_name ← HasMember f "name";
  has_value ← HasMember f "value";
  has_op ← HasMember f "op";
  QE_PARSE_ERROR (has_name && has_value && has_op);;
  name_value ← member f "name";
  value_value ← member f "value";
  op_value ← member f "op";
  QE_INVALIDARG_ERROR (IsString name_value);;
  QE_INVALIDARG_ERROR (IsString value_value || IsNumber value_value);;
  QE_INVALIDARG_ERROR (IsNumber op_value);;
  name ← GetString name_value;
  op ← GetInt op_value;
  let value := filter_value old_format value_value in
  let op := match_op_of_int op in
  (if decide (op = REGEX_MATCH)
   then stop_unless (if regex_compiles value then Some () else None) else Done ());;
  Done {| fm_name := name; fm_value := value; fm_op := op; ignore_col_absence := false;
          match_e := if decide (op = REGEX_MATCH) then value else EmptyString |}.

(** The [filter] clause: an old style list of terms, or an OR of ANDs. *)
Definition parse_filters (json_filters : json) : outcome (list (list filter_match_t)) :=
  QE_PARSE_ERROR (IsArray json_filters);;
  l ← elements json_filters;
  let single_list := match l with [] => false | f0 :: _ => negb (IsArray f0) end in
  if single_list then
    filter_and ← for_each (parse_filter true) l;
    Done [filter_and]
  else
    for_each (λ json_filter_and,
      QE_PARSE_ERROR (IsArray json_filter_and);;
      l ← elements json_filter_and;
      for_each (parse_filter false) l) l.

(** The effect of one entry of [json_api_data] on the unit and on the main
    query's [merge_needed]. *)
Definition ctor_entry (m : pp_main) (st : PostProcessingQuery * bool) (entry : string * string)
  : outcome (PostProcessingQuery * bool) :=
  let '(pp, merge_needed) := st in
  let '(key, text) := entry in
  if (key =? "sort")%string then
    Done ({| filter_list := filter_list pp; sorted := true;
             sorting_type := sort_op_of_int (istream_int text);
             sort_fields := sort_fields pp; limit := limit pp |}, true)
  else if (key =? "limit")%string then
    Done ({| filter_list := filter_list pp; sorted := sorted pp; sorting_type := sorting_type pp;
             sort_fields := sort_fields pp; limit := istream_int text |}, true)
  else if (key =? "sort_fields")%string then
    json_sort_fields ← member (Parse (wrap "sort_fields" text)) "sort_fields";
    QE_PARSE_ERROR (IsArray json_sort_fields);;
    l ← elements json_sort_fields;
    fs ← for_each (parse_sort_field m) l;
    Done ({| filter_list := filter_list pp; sorted := sorted pp; sorting_type := sorting_type pp;
             sort_fields := sort_fields pp ++ fs; limit := limit pp |}, merge_needed)
  else if (key =? "filter")%string then
    json_filters ← member (Parse (wrap "filter" text)) "filter";
    fl ← parse_filters json_filters;
    Done ({| filter_list := filter_list pp ++ fl; sorted := sorted pp;
             sorting_type := sorting_type pp; sort_fields := sort_fields pp;
             limit := limit pp |}, merge_needed)
  else Done st.

(** Filters derived from the WHERE clause. *)
Definition add_where_filters (where_list fl : list (list filter_match_t))
  : list (list filter_match_t) :=
  match where_list with
  | [] => fl
  | _ => match fl with
         | [] => where_list
         | _ => (λ filter_and, filter_and ++ concat where_list) <$> fl
         end
  end.

(** The filter that drops the query engine's own messages. *)
Definition qe_log_filter (m : pp_main) : filter_match_t := {|
  fm_name := MODULE; fm_value := sandesh_moduleid m; fm_op := NOT_EQUAL;
  ignore_col_absence := true; match_e := EmptyString
|}.

Definition add_qe_log_filter (m : pp_main) (fl : list (list filter_match_t))
  : list (list filter_match_t) :=
  if filter_qe_logs m && is_message_table_query (pm_table m) then
    match fl with
    | [] => [[qe_log_filter m]]
    | _ => (λ filter_and, filter_and ++ [qe_log_filter m]) <$> fl
    end
  else fl.

(** The unit before the loop over [json_api_data]; [sorting_type] has no value
    yet and is read only when [sorted] is set. *)
Definition ctor_init : PostProcessingQuery := {|
  filter_list := []; sorted := false; sorting_type := ASCENDING; sort_fields := []; limit := 0
|}.

(** The whole constructor; [json_api_data] is the map in key order. *)
Definition PostProcessingQuery_ctor (m : pp_main) (merge_needed : bool)
    (json_api_data : list (string * string)) : outcome (PostProcessingQuery * bool) :=
  '(pp, merge_needed) ← fold_outcome (ctor_entry m) (ctor_init, merge_needed) json_api_data;
  let fl := add_qe_log_filter m (add_where_filters (where_filter_list m) (filter_list pp)) in
  let default_sort := negb (bool_decide (sort_fields pp = [])) && negb (sorted pp) in
  Done ({| filter_list := fl;
           sorted := sorted pp || default_sort;
           sorting_type := if default_sort then ASCENDING else sorting_type pp;
           sort_fields := sort_fields pp; limit := limit pp |}, merge_needed).
End ctor.

(** ** Sorting *)

(** [sort_field_comparator], one field after the other; [None]: a row without
    the column fails the [QE_ASSERT]. *)
Fixpoint sort_field_comparator `{StringToInteger} (fields : list sort_field_t)
    (lhs rhs : ResultRowT) : option bool :=
  match fields with
  | [] => Some false
  | f :: fields' =>
      match lhs.1 !! sf_name f with
      | None => None
      | Some l =>
          match rhs.1 !! sf_name f with
          | None => None
          | Some r =>
              if (sf_type f =? "int")%string || (sf_type f =? "long")%string ||
                 (sf_type f =? "ipv4")%string then
                let lhs_val := (stringToInteger l).1 in
                let rhs_val := (stringToInteger r).1 in
                if lhs_val <? rhs_val then Some true
                else if rhs_val <? lhs_val then Some false
                else sort_field_comparator fields' lhs rhs
              else if String.ltb l r then Some true
              else if String.ltb r l then Some false
              else sort_field_comparator fields' lhs rhs
          end
      end
  end.

(** [sorting_type == ASCENDING]. *)
Definition ascending (pp : PostProcessingQuery) : bool := bool_decide (sorting_type pp = ASCENDING).

Section processing.
Context `{StringToInteger, StdSortPartial, Regex, StatFormat}.

(** [std::sort] over the forward or the reverse iterators. *)
Definition sort_rows (pp : PostProcessingQuery) (rows : BufferT) : option BufferT :=
  if sorted pp then
    dir (ascending pp) <$>
      std_sort_partial (sort_field_comparator (sort_fields pp)) (dir (ascending pp) rows)
  else Some rows.

(** [resize(limit)] when there are more rows; [(size_t)limit] of a negative
    limit is larger than any size. *)
Definition apply_limit {A} (limit : Z) (rows : list A) : list A :=
  if negb (limit =? 0) && (u64 limit <? Z.of_nat (length rows))
  then take (Z.to_nat limit) rows else rows.

(** ** Merging *)

(** [merge_processing]: the new [output]; [result_] is the unit's own result,
    [NULL] unless the unit processed a chunk itself.  [None]: the assertion of
    the comparator. *)
Definition merge_processing (pp : PostProcessingQuery) (result_ : option BufferT)
    (input output : BufferT) : option BufferT :=
  let cmp := sort_field_comparator (sort_fields pp) in
  if sorted pp then
    match result_ with
    | None =>
        if bool_decide (output = []) then Some (output ++ input)
        else if ascending pp then std_merge_partial cmp output input
        else reverse <$> std_merge_partial cmp (reverse input) (reverse output)
    | Some raw_result2 =>
        if ascending pp then app output <$> std_merge_partial cmp input raw_result2
        else app output <$> std_merge_partial cmp (reverse input) (reverse raw_result2)
    end
  else
    match result_ with
    | None => Some (output ++ input)
    | Some raw_result2 => Some (output ++ input ++ raw_result2)
    end.

(** [final_merge_processing]. *)
Definition final_merge_processing (pp : PostProcessingQuery) (inputs : list BufferT)
    (output : BufferT) : option BufferT :=
  apply_limit (limit pp) <$> sort_rows pp (output ++ concat inputs).

(** Both return [false] and leave [output] alone after an earlier error. *)
Definition with_status {A} (status_details : Z) (output : A) (run : option A) : option (bool * A) :=
  if negb (status_details =? 0) then Some (false, output) else pair true <$> run.

(** ** Filters *)

(** One term on a value of a stats row. *)
Definition stats_match (f : filter_match_t) (v : SubVal) : bool :=
  match fm_op f with
  | EQUAL => (fm_value f =? show_subval v)%string
  | NOT_EQUAL => negb (fm_value f =? show_subval v)%string
  | LEQ =>
      match v with
      | SvU64 col_val => negb ((stringToInteger (fm_value f)).1 <? col_val)
      | SvDouble col_val => negb (SFltb (stringToDouble (fm_value f)) col_val)
      | _ => true
      end
  | GEQ =>
      match v with
      | SvU64 col_val => negb (col_val <? (stringToInteger (fm_value f)).1)
      | SvDouble col_val => negb (SFltb col_val (stringToDouble (fm_value f)))
      | _ => true
      end
  | REGEX_MATCH => regex_match (show_subval v) (match_e f)
  | _ => true
  end.

(** One AND of terms on a stats row: an attribute the row does not have ends
    the loop with [and_check] still set. *)
Fixpoint stats_and_check (attrs : StatMap) (filter_and : list filter_match_t) : bool :=
  match filter_and with
  | [] => true
  | f :: filter_and' =>
      match attrs !! fm_name f with
      | None => true
      | Some v => if stats_match f v then stats_and_check attrs filter_and' else false
      end
  end.

Definition stats_keep (fl : list (list filter_match_t)) (attrs : StatMap) : bool :=
  existsb (stats_and_check attrs) fl.

(** The loop over the multimap: an entry to delete is remembered in [kt] and
    erased at the next iteration or after the loop.  [before] are the entries
    passed and kept; the container is [before ++ kt ++ after]. *)
Fixpoint stats_filter_loop (fl : list (list filter_match_t)) (before : MapBufT)
    (kt : option (list SubVal * (StatMap * AggRowT))) (after : MapBufT) : MapBufT :=
  match after with
  | [] => before
  | it :: after' =>
      if stats_keep fl it.2.1 then stats_filter_loop fl (before ++ [it]) None after'
      else stats_filter_loop fl before (Some it) after'
  end.

(** One term on a column of a plain row; [None]: an operation the filter does
    not support. *)
Definition row_match (f : filter_match_t) (v : string) : option bool :=
  match fm_op f with
  | EQUAL => Some (fm_value f =? v)%string
  | NOT_EQUAL => Some (negb (fm_value f =? v)%string)
  | LEQ => Some (negb (atoi (fm_value f) <? atoi v))
  | GEQ => Some (negb (atoi v <? atoi (fm_value f)))
  | REGEX_MATCH => Some (regex_match v (match_e f))
  | _ => None
  end.

Fixpoint row_and_check (row : OutRowT) (filter_and : list filter_match_t) : option bool :=
  match filter_and with
  | [] => Some true
  | f :: filter_and' =>
      match row !! fm_name f with
      | None => if ignore_col_absence f then row_and_check row filter_and' else Some false
      | Some v =>
          match row_match f v with
          | None => None
          | Some true => row_and_check row filter_and'
          | Some false => Some false
          end
      end
  end.

(** [delete_row] is false after the loop over the ORs. *)
Fixpoint row_keep (fl : list (list filter_match_t)) (row : OutRowT) : option bool :=
  match fl with
  | [] => Some false
  | filter_and :: fl' =>
      match row_and_check row filter_and with
      | None => None
      | Some true => Some true
      | Some false => row_keep fl' row
      end
  end.

(** The loop that builds [filtered_table]; [None]: [return QUERY_FAILURE]. *)
Fixpoint row_filter_loop (fl : list (list filter_match_t)) (raw_result : BufferT) : option BufferT :=
  match raw_result with
  | [] => Some []
  | row :: raw_result' =>
      match row_keep fl row.1 with
      | None => None
      | Some keep =>
          match row_filter_loop fl raw_result' with
          | None => None
          | Some table => Some (if keep then row :: table else table)
          end
      end
  end.

(** ** [process_query] *)

(** How the call ends: [PPStopped] is the assertion of the comparator. *)
Inductive pp_result := PPDone (status : query_status_t) (rows : BufferT) (mrows : MapBufT) | PPStopped.

Definition limit_here (table_ : string) (parallelized : bool) : bool :=
  negb (table_ =? FLOW_SERIES_TABLE)%string ||
  ((table_ =? FLOW_SERIES_TABLE)%string && negb parallelized).

Definition process_query (pp : PostProcessingQuery) (table_ : string) (parallelized : bool)
    (status_details : Z) (result_ : BufferT) (mresult_ : MapBufT) : pp_result :=
  if negb (status_details =? 0) then PPDone QUERY_FAILURE result_ mresult_
  else
    let fl := filter_list pp in
    let mrows := if bool_decide (fl = []) then mresult_ else stats_filter_loop fl [] None mresult_ in
    match (if bool_decide (fl = []) then Some result_ else row_filter_loop fl result_) with
    | None => PPDone QUERY_FAILURE result_ mrows
    | Some rows =>
        match sort_rows pp rows with
        | None => PPStopped
        | Some rows =>
            if limit_here table_ parallelized
            then PPDone QUERY_SUCCESS (apply_limit (limit pp) rows) (apply_limit (limit pp) mrows)
            else PPDone QUERY_SUCCESS rows mrows
        end
    end.
End processing.

(** ** The order of rows *)

(** The row has every sort column. *)
Definition has_fields (fields : list sort_field_t) (row : ResultRowT) : Prop :=
  ∀ f, f ∈ fields → is_Some (row.1 !! sf_name f).

Section order.
Context `{StringToInteger}.

Definition field_value (f : sort_field_t) (row : ResultRowT) : string :=
  default EmptyString (row.1 !! sf_name f).

Definition is_numeric (f : sort_field_t) : bool :=
  (sf_type f =? "int")%string || (sf_type f =? "long")%string || (sf_type f =? "ipv4")%string.

(** The order of one column. *)
Definition field_ltb (f : sort_field_t) (lhs rhs : ResultRowT) : bool :=
  if is_numeric f
  then (stringToInteger (field_value f lhs)).1 <? (stringToInteger (field_value f rhs)).1
  else String.ltb (field_value f lhs) (field_value f rhs).

Lemma field_ltb_weak f : strict_weak (λ _, True) (field_ltb f).
Proof.
  unfold field_ltb. destruct (is_numeric f).
  - apply (strict_weak_key _ (λ _, True) (λ r, (stringToInteger (field_value f r)).1));
      [apply Zltb_weak|done].
  - apply (strict_weak_key _ (λ _, True) (field_value f)); [apply string_ltb_total|done].
Qed.

Lemma field_equiv f lhs rhs :
  field_ltb f lhs rhs = false ∧ field_ltb f rhs lhs = false ↔
  if is_numeric f
  then (stringToInteger (field_value f lhs)).1 = (stringToInteger (field_value f rhs)).1
  else field_value f lhs = field_value f rhs.
Proof.
  unfold field_ltb. destruct (is_numeric f).
  - rewrite !Z.ltb_ge. lia.
  - split; [intros []; by apply (st_total string_ltb_total)|intros ->].
    split; by apply (sw_irrefl _ _ (st_weak string_ltb_total)).
Qed.

(** The comparator returns on rows with the sort columns, and compares them
    lexicographically. *)
Lemma sort_field_comparator_lex f fields lhs rhs :
  has_fields (f :: fields) lhs → has_fields (f :: fields) rhs →
  sort_field_comparator (f :: fields) lhs rhs =
    if field_ltb f lhs rhs then Some true
    else if field_ltb f rhs lhs then Some false
    else sort_field_comparator fields lhs rhs.
Proof.
  intros Hl Hr. destruct (Hl f) as [l El]; [set_solver|]. destruct (Hr f) as [r Er]; [set_solver|].
  simpl. rewrite El, Er. unfold field_ltb, field_value. rewrite El, Er. simpl.
  fold (is_numeric f). destruct (is_numeric f); done.
Qed.

Lemma sort_field_comparator_returns fields lhs rhs :
  has_fields fields lhs → has_fields fields rhs →
  is_Some (sort_field_comparator fields lhs rhs).
Proof.
  induction fields as [|f fields IH]; intros Hl Hr; [by eexists|].
  rewrite sort_field_comparator_lex by done. repeat case_match; try by eexists.
  apply IH; intros g Hg; [apply Hl|apply Hr]; set_solver.
Qed.

Lemma comparator_strict_weak fields :
  strict_weak (has_fields fields) (returned (sort_field_comparator fields)).
Proof.
  induction fields as [|f fields IH]; [by split|].
  eapply strict_weak_ext; [|apply (strict_weak_lex _ (field_ltb f)
    (returned (sort_field_comparator fields)))].
  - intros x y Hx Hy. unfold returned. rewrite sort_field_comparator_lex by done.
    by repeat case_match.
  - eapply strict_weak_sub; [|apply field_ltb_weak]. done.
  - eapply strict_weak_sub; [|exact IH]. intros r Hr g Hg. apply Hr. set_solver.
Qed.

(** C26.  On rows that have the sort columns the comparator returns and is a
    strict weak order, which is what [std::sort] and [std::merge] require; rows
    it does not distinguish agree on every sort column, as numbers for the
    numeric columns and as strings for the others. *)
Theorem sort_field_comparator_order fields :
  (∀ lhs rhs, has_fields fields lhs → has_fields fields rhs →
     is_Some (sort_field_comparator fields lhs rhs)) ∧
  strict_weak (has_fields fields) (returned (sort_field_comparator fields)) ∧
  (∀ lhs rhs, has_fields fields lhs → has_fields fields rhs →
     equiv_by (returned (sort_field_comparator fields)) lhs rhs ↔
     Forall (λ f, if is_numeric f
                  then (stringToInteger (field_value f lhs)).1 = (stringToInteger (field_value f rhs)).1
                  else field_value f lhs = field_value f rhs) fields).
Proof.
  split_and!; [apply sort_field_comparator_returns|apply comparator_strict_weak|].
  intros lhs rhs. unfold equiv_by, returned.
  induction fields as [|f fields IH]; intros Hl Hr; [by split; [constructor|]|].
  rewrite !sort_field_comparator_lex by done. rewrite Forall_cons.
  assert (has_fields fields lhs ∧ has_fields fields rhs) as [Hl' Hr'].
  { split; intros g Hg; [apply Hl|apply Hr]; set_solver. }
  specialize (IH Hl' Hr'). rewrite <- IH, <- field_equiv.
  destruct (field_ltb f lhs rhs) eqn:E1, (field_ltb f rhs lhs) eqn:E2; simpl; naive_solver.
Qed.

Lemma has_fields_comparable fields l1 l2 :
  Forall (has_fields fields) l1 → Forall (has_fields fields) l2 →
  comparable (sort_field_comparator fields) l1 l2.
Proof.
  rewrite !Forall_forall. intros H1 H2 x y Hx Hy. apply sort_field_comparator_returns; auto.
Qed.
End order.

(** ** Sorting and merging *)

Section merging.
Context `{StringToInteger, StdSortPartial, Regex, StatFormat} (pp : PostProcessingQuery).

Abbreviation cmp := (sort_field_comparator (sort_fields pp)).
Abbreviation row_ltb := (returned (sort_field_comparator (sort_fields pp))).
Abbreviation rows_ok := (Forall (has_fields (sort_fields pp))).

Lemma sort_rows_spec rows : sorted pp = true → rows_ok rows →
  ∃ res, sort_rows pp rows = Some res ∧ Permutation rows res ∧
    sorted_dir (ascending pp) row_ltb res.
Proof.
  intros Hs Hok. unfold sort_rows. rewrite Hs.
  assert (rows_ok (dir (ascending pp) rows)) as Hd by (eapply Forall_perm; [apply dir_perm|done]).
  rewrite std_sort_partial_done by (by apply has_fields_comparable). simpl.
  eexists. split; [done|]. split.
  - rewrite <- dir_perm, <- std_sort_perm. apply dir_perm.
  - unfold sorted_dir. fold (dir (ascending pp) (dir (ascending pp)
      (std_sort row_ltb (dir (ascending pp) rows)))). rewrite dir_dir.
    eapply std_sort_sorted; [apply comparator_strict_weak|done].
Qed.

(** Merging a chunk into the output of a unit with no result of its own
    keeps the rows and the sort direction. *)
Theorem merge_processing_sorted input output :
  sorted pp = true → rows_ok input → rows_ok output →
  sorted_dir (ascending pp) row_ltb input → sorted_dir (ascending pp) row_ltb output →
  ∃ res, merge_processing pp None input output = Some res ∧
    Permutation (output ++ input) res ∧ sorted_dir (ascending pp) row_ltb res.
Proof.
  intros Hs Hi Ho Si So. unfold merge_processing. rewrite Hs.
  destruct (bool_decide_reflect (output = [])) as [->|_]; [by eexists|].
  unfold sorted_dir in *. destruct (ascending pp).
  - rewrite std_merge_partial_done by (by apply has_fields_comparable). eexists. split; [done|].
    split; [apply std_merge_perm|].
    eapply std_merge_sorted; [apply comparator_strict_weak|done..].
  - rewrite std_merge_partial_done by (apply has_fields_comparable; by apply Forall_reverse).
    eexists. split; [done|]. split.
    + rewrite reverse_Permutation, <- std_merge_perm, !reverse_Permutation.
      apply Permutation_app_comm.
    + rewrite reverse_involutive.
      eapply std_merge_sorted; [apply comparator_strict_weak|by apply Forall_reverse..|done|done].
Qed.

(** A unit that has a result of its own and sorts in descending order
    merges it with the input in ascending order: the merge runs over the
    reverse iterators but appends forwards. *)
Theorem merge_processing_descending_flips input raw_result2 :
  sorted pp = true → ascending pp = false → rows_ok input → rows_ok raw_result2 →
  sorted_dir false row_ltb input → sorted_dir false row_ltb raw_result2 →
  ∃ res, merge_processing pp (Some raw_result2) input [] = Some res ∧
    Permutation (input ++ raw_result2) res ∧ sorted_dir true row_ltb res.
Proof.
  intros Hs Ha Hi Ho Si So. unfold merge_processing. rewrite Hs, Ha.
  rewrite std_merge_partial_done by (apply has_fields_comparable; by apply Forall_reverse).
  eexists. split; [done|]. split; simpl.
  - by rewrite <- std_merge_perm, !reverse_Permutation.
  - eapply std_merge_sorted; [apply comparator_strict_weak|by apply Forall_reverse..|done|done].
Qed.

Lemma apply_limit_take {A} (k : Z) (l : list A) : 0 < k < 2 ^ 64 →
  apply_limit k l = take (Z.to_nat k) l.
Proof.
  intros Hk. unfold apply_limit. rewrite u64_small by (unfold is_u64; lia).
  destruct (Z.eqb_spec k 0); [lia|]. simpl.
  destruct (Z.ltb_spec k (Z.of_nat (length l))); [done|]. rewrite take_ge; [done|lia].
Qed.

(** The final merge of a sorted query is the first [limit] rows (all of
    them without a limit) of one sorted arrangement of all rows. *)
Theorem final_merge_correct inputs output :
  sorted pp = true → 0 <= limit pp < 2 ^ 31 → rows_ok (output ++ concat inputs) →
  ∃ all, Permutation (output ++ concat inputs) all ∧ sorted_dir (ascending pp) row_ltb all ∧
    final_merge_processing pp inputs output
    = Some (if decide (limit pp = 0) then all else take (Z.to_nat (limit pp)) all).
Proof.
  intros Hs Hlim Hok. destruct (sort_rows_spec _ Hs Hok) as (all & E & Hp & Hd).
  exists all. split_and!; [done|done|]. unfold final_merge_processing. rewrite E. simpl. f_equal.
  case_decide as Hz; [unfold apply_limit; by rewrite Hz|]. apply apply_limit_take. lia.
Qed.
End merging.

(** ** Filters *)

Section filters.
Context `{StringToInteger, StdSortPartial, Regex, StatFormat}.

(** What the clause means: some AND of terms holds, a term on an absent column
    only when it ignores the absence. *)
Definition term_holds (row : OutRowT) (f : filter_match_t) : Prop :=
  match row !! fm_name f with
  | None => ignore_col_absence f = true
  | Some v => row_match f v = Some true
  end.
Definition row_satisfies (fl : list (list filter_match_t)) (row : OutRowT) : Prop :=
  Exists (Forall (term_holds row)) fl.

(** Every operation of the clause is one the filter supports. *)
Definition supported_op (op : match_op) : bool :=
  match op with EQUAL | NOT_EQUAL | LEQ | GEQ | REGEX_MATCH => true | _ => false end.
Definition supported (fl : list (list filter_match_t)) : Prop :=
  Forall (Forall (λ f, supported_op (fm_op f) = true)) fl.

Lemma row_match_supported f v : supported_op (fm_op f) = true → is_Some (row_match f v).
Proof. unfold row_match. destruct (fm_op f); simpl; intros ?; try done; by eexists. Qed.

Lemma row_and_check_spec row g : Forall (λ f, supported_op (fm_op f) = true) g →
  ∃ b, row_and_check row g = Some b ∧ (b = true ↔ Forall (term_holds row) g).
Proof.
  induction 1 as [|f g Hf _ (b & IH & Hb)]; simpl; [exists true; by split|].
  setoid_rewrite Forall_cons. unfold term_holds at 1.
  destruct (row !! fm_name f) as [v|] eqn:E.
  - destruct (row_match_supported f v Hf) as [r Hr]. rewrite Hr.
    destruct r; [exists b; naive_solver|exists false; naive_solver].
  - destruct (ignore_col_absence f); [exists b; naive_solver|exists false; naive_solver].
Qed.

Lemma row_keep_spec fl row : supported fl →
  ∃ b, row_keep fl row = Some b ∧ (b = true ↔ row_satisfies fl row).
Proof.
  unfold row_satisfies. induction 1 as [|g fl Hg _ (b & IH & Hb)]; simpl.
  - exists false. split; [done|]. split; [done|inversion 1].
  - destruct (row_and_check_spec row g Hg) as (b' & -> & Hb'). setoid_rewrite Exists_cons.
    destruct b'; [exists true; naive_solver|exists b; naive_solver].
Qed.

Lemma row_filter_loop_spec fl rows : supported fl →
  ∃ kept, row_filter_loop fl rows = Some kept ∧ kept `sublist_of` rows ∧
    (∀ row, row ∈ kept ↔ row ∈ rows ∧ row_satisfies fl row.1).
Proof.
  intros Hs. induction rows as [|row rows (kept & IH & Hsub & Hin)]; simpl.
  - exists []. split_and!; [done|done|set_solver].
  - destruct (row_keep_spec fl row.1 Hs) as (b & -> & Hb). rewrite IH.
    eexists. split; [done|]. destruct b.
    + split; [by constructor|]. intros r. rewrite !elem_of_cons, Hin. naive_solver.
    + split; [by constructor|]. intros r. rewrite elem_of_cons, Hin. naive_solver.
Qed.

Lemma stats_filter_loop_app fl before kt after :
  stats_filter_loop fl before kt after =
  before ++ List.filter (λ it, stats_keep fl it.2.1) after.
Proof.
  revert before kt. induction after as [|it after IH]; intros before kt; simpl.
  - by rewrite app_nil_r.
  - destruct (stats_keep fl it.2.1); rewrite IH; [|done]. by rewrite <- app_assoc.
Qed.

(** The loop that erases one iteration late removes exactly the entries
    no AND of the filter accepts, keeping the order of the multimap; an AND
    whose first term names an attribute the row does not have accepts the row,
    while the filter of plain rows would drop it. *)
Theorem stats_filter_correct fl mrows :
  stats_filter_loop fl [] None mrows = List.filter (λ it, stats_keep fl it.2.1) mrows ∧
  (∀ attrs f g, attrs !! fm_name f = None → stats_keep ((f :: g) :: fl) attrs = true) ∧
  (∀ (row : OutRowT) f g, row !! fm_name f = None → ignore_col_absence f = false →
     row_keep [f :: g] row = Some false).
Proof.
  split_and!.
  - apply stats_filter_loop_app.
  - intros attrs f g Hf. unfold stats_keep. simpl. by rewrite Hf.
  - intros row f g Hf Hi. simpl. by rewrite Hf, Hi.
Qed.

(** A query without a filter keeps every row. *)
Definition filter_accepts (fl : list (list filter_match_t)) (row : OutRowT) : Prop :=
  fl = [] ∨ row_satisfies fl row.

Lemma filter_step fl (rows : BufferT) : supported fl →
  ∃ kept, (if bool_decide (fl = []) then Some rows else row_filter_loop fl rows) = Some kept ∧
    kept `sublist_of` rows ∧ (∀ row, row ∈ kept ↔ row ∈ rows ∧ filter_accepts fl row.1).
Proof.
  intros Hs. unfold filter_accepts. destruct (bool_decide_reflect (fl = [])) as [->|Hne].
  - exists rows. naive_solver.
  - destruct (row_filter_loop_spec fl rows Hs) as (kept & E & Hsub & Hin).
    exists kept. split_and!; [done|done|]. intros row. rewrite Hin. naive_solver.
Qed.

(** C14.  What [process_query] leaves of the plain rows: exactly those that
    satisfy the filter, in the asked order, cut to the limit unless the chunk
    belongs to a parallelised flow series query. *)
Theorem process_query_correct pp table_ parallelized rows mrows :
  sorted pp = true → supported (filter_list pp) →
  Forall (has_fields (sort_fields pp)) rows → 0 <= limit pp < 2 ^ 31 →
  ∃ kept all mres,
    kept `sublist_of` rows ∧
    (∀ row, row ∈ kept ↔ row ∈ rows ∧ filter_accepts (filter_list pp) row.1) ∧
    Permutation kept all ∧
    sorted_dir (ascending pp) (returned (sort_field_comparator (sort_fields pp))) all ∧
    process_query pp table_ parallelized 0 rows mrows
    = PPDone QUERY_SUCCESS
        (if decide (limit pp = 0 ∨ limit_here table_ parallelized = false) then all
         else take (Z.to_nat (limit pp)) all) mres.
Proof.
  intros Hsort Hsup Hok Hlim. unfold process_query. simpl.
  destruct (filter_step (filter_list pp) rows Hsup) as (kept & -> & Hsub & Hin).
  destruct (sort_rows_spec pp kept Hsort) as (all & -> & Hp & Hs).
  { apply Forall_forall. intros r [Hr _]%Hin. by eapply Forall_forall in Hok. }
  exists kept, all. destruct (limit_here table_ parallelized) eqn:El; eexists; split_and!; try done.
  - f_equal. case_decide as Hz; [|apply apply_limit_take; lia].
    destruct Hz as [Hz|]; [by rewrite Hz|done].
  - rewrite decide_True by auto. done.
Qed.

Lemma length_piece {A} (l : list A) ls : l ∈ ls → (length l <= length (concat ls))%nat.
Proof. intros (l1 & l2 & ->)%list_elem_of_split. rewrite concat_app, concat_cons, !List.length_app. lia. Qed.

(** *** The rows a filter keeps *)

#[export] Instance term_holds_dec row f : Decision (term_holds row f).
Proof. unfold term_holds. destruct (row !! fm_name f); apply _. Defined.
#[export] Instance filter_accepts_dec fl row : Decision (filter_accepts fl row).
Proof. unfold filter_accepts, row_satisfies. apply _. Defined.

(** The rows of a result the clause accepts, in their order. *)
Definition accepted (fl : list (list filter_match_t)) (rows : BufferT) : BufferT :=
  filter (λ row, filter_accepts fl row.1) rows.

Lemma accepted_app fl rows1 rows2 : accepted fl (rows1 ++ rows2) = accepted fl rows1 ++ accepted fl rows2.
Proof. apply filter_app. Qed.

Lemma filter_accepted fl rows : supported fl →
  (if bool_decide (fl = []) then Some rows else row_filter_loop fl rows) = Some (accepted fl rows).
Proof.
  intros Hs. unfold accepted. destruct (bool_decide_reflect (fl = [])) as [->|Hne].
  - f_equal. induction rows as [|row rows IH]; [done|]. rewrite filter_cons, decide_True by (left; done). by f_equal.
  - induction rows as [|row rows IH]; [done|]. simpl. rewrite IH, filter_cons.
    destruct (row_keep_spec fl row.1 Hs) as (b & -> & Hb). f_equal.
    assert (filter_accepts fl row.1 ↔ b = true) as Hf by (unfold filter_accepts; tauto).
    destruct b; [rewrite decide_True by tauto|rewrite decide_False by (by rewrite Hf)]; done.
Qed.

Abbreviation in_order pp := (sorted_dir (ascending pp) (returned (sort_field_comparator (sort_fields pp)))).

Lemma sort_step (pp : PostProcessingQuery) rows : (sorted pp = true → Forall (has_fields (sort_fields pp)) rows) →
  ∃ all, sort_rows pp rows = Some all ∧ Permutation rows all ∧ if sorted pp then in_order pp all else all = rows.
Proof.
  intros Hok. destruct (sorted pp) eqn:Es; [exact (sort_rows_spec pp rows Es (Hok eq_refl))|].
  exists rows. unfold sort_rows. by rewrite Es.
Qed.

(** What a chunk is cut to. *)
Definition cut_chunk (pp : PostProcessingQuery) (table_ : string) (parallelized : bool) (all : BufferT) : BufferT :=
  if limit_here table_ parallelized then apply_limit (limit pp) all else all.

(** Chunks are filtered, sorted and cut one by one. *)
Lemma chunks_processed (pp : PostProcessingQuery) (table_ : string) (parallelized : bool) (chunks : list (BufferT * MapBufT)) : supported (filter_list pp) →
  (sorted pp = true → Forall (has_fields (sort_fields pp)) (accepted (filter_list pp) (concat chunks.*1))) →
  ∃ full,
    Forall2 (λ (c : BufferT * MapBufT) res, ∃ mres, process_query pp table_ parallelized 0 c.1 c.2 = PPDone QUERY_SUCCESS res mres)
      chunks (cut_chunk pp table_ parallelized <$> full) ∧
    Permutation (accepted (filter_list pp) (concat chunks.*1)) (concat full) ∧
    (if sorted pp then Forall (in_order pp) full else concat full = accepted (filter_list pp) (concat chunks.*1)).
Proof.
  intros Hsup. induction chunks as [|[rows mrows] chunks IH]; simpl; intros Hok.
  { exists []. split_and!; [constructor|done|by destruct (sorted pp)]. }
  rewrite accepted_app in *. destruct IH as (full & Hf & Hp & Hs).
  { intros Es. specialize (Hok Es). by apply Forall_app in Hok as [_ ?]. }
  destruct (sort_step pp (accepted (filter_list pp) rows)) as (all & Ea & Hpa & Hsa).
  { intros Es. specialize (Hok Es). by apply Forall_app in Hok as [? _]. }
  exists (all :: full). split_and!; simpl.
  - constructor; [|done]. unfold process_query, cut_chunk. simpl. rewrite filter_accepted, Ea by done.
    destruct (limit_here table_ parallelized); by eexists.
  - by rewrite Hpa, Hp.
  - destruct (sorted pp); [by constructor|]. by rewrite Hsa, Hs.
Qed.

(** The limit as a number of rows, for results no longer than [n]. *)
Lemma apply_limit_count lim n : 0 <= lim < 2 ^ 31 →
  ∃ k, ∀ A (l : list A), (length l <= n)%nat → apply_limit lim l = take k l.
Proof.
  intros Hlim. destruct (decide (lim = 0)) as [->|].
  - exists n. intros A l Hl. by rewrite take_ge.
  - exists (Z.to_nat lim). intros A l _. apply apply_limit_take. lia.
Qed.

Lemma take_pieces {A} k (ls : list (list A)) : take k (concat (take k <$> ls)) = take k (concat ls).
Proof.
  assert (∀ j, (j <= k)%nat → take j (concat (take k <$> ls)) = take j (concat ls)) as Hj; [|by apply Hj].
  induction ls as [|l ls IH]; intros j Hj; [done|]. rewrite fmap_cons, !concat_cons, !take_app, take_take, length_take.
  rewrite Nat.min_l by done. f_equal. rewrite IH by lia. f_equal. lia.
Qed.
Lemma pieces_sublist {A} k (ls : list (list A)) : concat (take k <$> ls) `sublist_of` concat ls.
Proof. induction ls as [|l ls IH]; simpl; [done|]. apply sublist_app; [apply sublist_take|done]. Qed.

Lemma in_order_ltb (pp : PostProcessingQuery) l : in_order pp l → cpp_sorted (ltb_dir (ascending pp)
  (returned (sort_field_comparator (sort_fields pp)))) l.
Proof. apply sorted_dir_ltb. Qed.

(** Two arrangements of the rows, one of them from cut pieces. *)
Lemma pushdown_sorted (pp : PostProcessingQuery) k (full : list BufferT) s1 s2 : Forall (has_fields (sort_fields pp)) (concat full) →
  Forall (in_order pp) full → in_order pp s1 → in_order pp s2 →
  Permutation (concat (take k <$> full)) s1 → Permutation (concat full) s2 →
  Forall2 (equiv_by (returned (sort_field_comparator (sort_fields pp)))) (take k s1) (take k s2).
Proof.
  intros Hok Hfull S1 S2 P1 P2. eapply Forall2_impl.
  - apply (limit_pieces (has_fields (sort_fields pp)) (ltb_dir (ascending pp)
      (returned (sort_field_comparator (sort_fields pp))))) with (ls := full); try done.
    + apply ltb_dir_weak, comparator_strict_weak.
    + by apply Forall_concat.
    + eapply Forall_impl; [exact Hfull|]. intros l. apply in_order_ltb.
    + by apply in_order_ltb.
    + by apply in_order_ltb.
  - intros x y. unfold equiv_by, ltb_dir. destruct (ascending pp); naive_solver.
Qed.

(** C13.  Cutting every chunk to the limit before the final merge is safe, because
    it comes after the filter: whatever the filter, every chunk is processed, and
    the final merge returns rows of the chunks the filter accepts, no row twice;
    they are those the final merge returns when it is given all accepted rows,
    uncut: exactly without a sort clause, and up to rows that agree on every sort
    column with one. *)
Theorem limit_pushdown (pp : PostProcessingQuery) (table_ : string) (parallelized : bool) (chunks : list (BufferT * MapBufT)) :
  supported (filter_list pp) → 0 <= limit pp < 2 ^ 31 →
  let kept := accepted (filter_list pp) (concat chunks.*1) in
  (sorted pp = true → Forall (has_fields (sort_fields pp)) kept) →
  ∃ cut res whole,
    Forall2 (λ (c : BufferT * MapBufT) res, ∃ mres, process_query pp table_ parallelized 0 c.1 c.2 = PPDone QUERY_SUCCESS res mres)
      chunks cut ∧
    final_merge_processing pp cut [] = Some res ∧ final_merge_processing pp [kept] [] = Some whole ∧
    res ⊆+ kept ∧
    if sorted pp then Forall2 (equiv_by (returned (sort_field_comparator (sort_fields pp)))) res whole
    else res = whole.
Proof.
  intros Hsup Hlim kept Hok.
  destruct (chunks_processed pp table_ parallelized chunks Hsup Hok) as (full & Hf & Hp & Hs). fold kept in Hp, Hs.
  destruct (apply_limit_count (limit pp) (length kept) Hlim) as [k Hk].
  set (cut := cut_chunk pp table_ parallelized <$> full) in *.
  assert (∃ k', cut = take k' <$> full ∧ ((k' = k) ∨ (length kept <= k')%nat)) as (k' & Ecut & Hk').
  { unfold cut, cut_chunk. destruct (limit_here table_ parallelized); [exists k|exists (length kept)]; (split; [|by auto]).
    - apply list_fmap_ext. intros i l Hl. apply Hk. rewrite (Permutation_length Hp). by apply length_piece, list_elem_of_lookup; exists i.
    - apply list_fmap_ext. intros i l Hl. rewrite take_ge; [done|].
      rewrite (Permutation_length Hp). by apply length_piece, list_elem_of_lookup; exists i. }
  assert (concat cut `sublist_of` concat full) as Hsub by (rewrite Ecut; apply pieces_sublist).
  assert (concat cut ⊆+ kept) as Hin by (rewrite Hp; by apply sublist_submseteq).
  destruct (sort_step pp (concat cut)) as (s1 & E1 & P1 & S1).
  { intros Es. specialize (Hok Es). rewrite Forall_forall in Hok |- *. intros row Hrow. by eapply Hok, elem_of_submseteq. }
  destruct (sort_step pp kept Hok) as (s2 & E2 & P2 & S2).
  assert ((length s1 <= length kept)%nat) as L1 by (rewrite <- P1; by apply submseteq_length).
  assert ((length s2 <= length kept)%nat) as L2 by (by rewrite <- P2).
  exists cut, (take k s1), (take k s2). unfold final_merge_processing. rewrite app_nil_l, E1. simpl.
  rewrite app_nil_r, E2. simpl. rewrite !Hk by done. split_and!; [done..| |].
  - transitivity s1; [apply sublist_submseteq, sublist_take|by rewrite <- P1].
  - destruct (sorted pp).
    + assert (Forall (has_fields (sort_fields pp)) (concat full)) as Hok' by (by rewrite <- Hp; apply Hok).
      destruct Hk' as [->|Hk']; [eapply pushdown_sorted; try done; [by rewrite <- Ecut|by rewrite <- Hp]|].
      apply Forall2_take. rewrite <- (take_ge s1 k'), <- (take_ge s2 k') by lia.
      eapply pushdown_sorted; try done; [by rewrite <- Ecut|by rewrite <- Hp].
    + subst s1 s2. rewrite Ecut, <- Hs. destruct Hk' as [->|Hk']; [apply take_pieces|].
      f_equal. rewrite <- (take_ge (concat (take k' <$> full)) k') by (rewrite <- Ecut; lia).
      rewrite take_pieces. apply take_ge. by rewrite Hs.
Qed.
End filters.

(** ** The filters the constructor builds *)

Section ctor_properties.
Context `{StringToInteger, StdSortPartial, JsonParser, DoubleFormat, Regex, VizSchema, StatFormat}.

Lemma row_and_check_true row g : row_and_check row g = Some true → Forall (term_holds row) g.
Proof.
  induction g as [|f g IH]; intros Hg; [constructor|]. simpl in Hg. unfold term_holds.
  destruct (row !! fm_name f) as [v|] eqn:E.
  - destruct (row_match f v) as [[]|] eqn:Em; try done.
    constructor; [by rewrite E|by apply IH].
  - destruct (ignore_col_absence f) eqn:Ei; [|done]. constructor; [by rewrite E|by apply IH].
Qed.

Lemma row_keep_true fl row : row_keep fl row = Some true → row_satisfies fl row.
Proof.
  unfold row_satisfies. induction fl as [|g fl IH]; simpl; [done|].
  destruct (row_and_check row g) as [[]|] eqn:E; intros Hk; try done.
  - left. by apply row_and_check_true.
  - right. by apply IH.
Qed.

Lemma add_qe_log_filter_all m fl :
  filter_qe_logs m = true → is_message_table_query (pm_table m) = true →
  add_qe_log_filter m fl ≠ [] ∧ Forall (λ g, qe_log_filter m ∈ g) (add_qe_log_filter m fl).
Proof.
  intros Hq Ht. unfold add_qe_log_filter. rewrite Hq, Ht. simpl. destruct fl as [|g fl]; simpl.
  - split; [done|]. repeat constructor.
  - split; [done|]. constructor; [set_solver|]. apply Forall_fmap, Forall_true. intros g'. simpl.
    set_solver.
Qed.

(** When the messages of the query engine are to be left out of a query on
    the message table, no row of that module passes the filter the constructor
    built, whatever filters the user gave. *)
Theorem qe_logs_filtered m merge_needed data pp merge_needed' row :
  PostProcessingQuery_ctor m merge_needed data = Done (pp, merge_needed') →
  filter_qe_logs m = true → is_message_table_query (pm_table m) = true →
  filter_list pp ≠ [] ∧
  (row_keep (filter_list pp) row = Some true → row !! MODULE ≠ Some (sandesh_moduleid m)).
Proof.
  unfold PostProcessingQuery_ctor. intros Hc Hq Ht.
  apply bind_done in Hc as ([pp0 mn0] & _ & [= <- _]). simpl.
  destruct (add_qe_log_filter_all m (add_where_filters (where_filter_list m) (filter_list pp0)) Hq Ht)
    as [Hne Hall].
  split; [done|]. intros (g & Hg & Hsat)%row_keep_true%Exists_exists.
  rewrite Forall_forall in Hall. specialize (Hall g Hg).
  rewrite Forall_forall in Hsat. specialize (Hsat _ Hall). unfold term_holds in Hsat. simpl in Hsat.
  intros Hrow. rewrite Hrow in Hsat. unfold row_match in Hsat. simpl in Hsat.
  by rewrite String.eqb_refl in Hsat.
Qed.

(** Filters that stem from the WHERE clause narrow the user's filter: a
    row passes both together exactly when it satisfies the user's filter and
    every group of the WHERE filter; without a filter of the user one group of
    the WHERE filter is enough. *)
Theorem where_filters_narrow w fl row :
  row_satisfies (add_where_filters w []) row = row_satisfies w row ∧
  (w ≠ [] → fl ≠ [] →
   (row_satisfies (add_where_filters w fl) row ↔
    row_satisfies fl row ∧ Forall (Forall (term_holds row)) w)).
Proof.
  split; [by destruct w|]. intros Hw Hfl. unfold add_where_filters, row_satisfies.
  destruct w as [|w0 w]; [done|]. destruct fl as [|g0 fl]; [done|].
  rewrite Exists_exists. setoid_rewrite list_elem_of_fmap. rewrite Exists_exists.
  split.
  - intros (g & (g' & -> & Hin) & [HF1 HF2]%Forall_app). split; [by exists g'|].
    by apply Forall_concat in HF2.
  - intros [(g & Hin & Hg) Hw']. exists (g ++ concat (w0 :: w)).
    split; [by exists g|]. apply Forall_app. split; [done|by apply Forall_concat].
Qed.

(** The object of one filter term. *)
Definition filter_object (name : string) (value : json) (op : Z) : json :=
  JObject [("name", JString name); ("value", value); ("op", JInt op)].

(** A term of the OR-of-ANDs format whose value is a floating point number
    or an integer of more than 32 bits is accepted but compares with the empty
    string; the older format keeps the floating point value. *)
Theorem filter_number_lost name op d n :
  - 2 ^ 31 <= op < 2 ^ 31 → match_op_of_int op ≠ REGEX_MATCH → 2 ^ 32 <= n →
  let term value := {| fm_name := name; fm_value := value; fm_op := match_op_of_int op;
                       ignore_col_absence := false; match_e := EmptyString |} in
  parse_filter false (filter_object name (JDouble d) op) = Done (term EmptyString) ∧
  parse_filter true (filter_object name (JDouble d) op) = Done (term (show_double d)) ∧
  (∀ old_format, parse_filter old_format (filter_object name (JInt n) op) = Done (term EmptyString)).
Proof.
  intros Hop Hre Hn term.
  assert (GetInt (JInt op) = Done op) as Hg.
  { unfold GetInt, IsInt. destruct (Z.leb_spec (- 2 ^ 31) op), (Z.ltb_spec op (2 ^ 31)); done || lia. }
  assert (IsInt (JInt n) || IsUint (JInt n) = false) as Hi.
  { unfold IsInt, IsUint. destruct (Z.ltb_spec n (2 ^ 31)), (Z.ltb_spec n (2 ^ 32)); lia. }
  assert (∀ old v, IsString v || IsNumber v = true →
    parse_filter old (filter_object name v op) = Done (term (filter_value old v))) as Hp.
  { intros old v Hv. unfold parse_filter, filter_object. simpl. rewrite Hv. simpl.
    change (match GetInt (JInt op) with Done a => Done a | Status e => Status e | Stopped => Stopped end)
      with (GetInt (JInt op)).
    simpl in Hg. rewrite Hg. simpl. rewrite !decide_False by done. done. }
  split_and!; [by apply Hp|by apply Hp|].
  intros old. rewrite Hp by done. unfold filter_value. by rewrite Hi.
Qed.
End ctor_properties.

(** ** Examples *)

Module PostExamples.
#[local] Existing Instance ConcreteStringToInteger.instance.
#[local] Existing Instance SchemaExamples.schema.

Definition regex : Regex := {|
  regex_compiles _ := true; regex_match s p := (s =? p)%string
|}.
#[local] Existing Instance regex.

Definition show (v : SubVal) : string :=
  match v with SvString s => s | SvU64 n => pretty n | _ => EmptyString end.
Definition format : StatFormat := {|
  show_subval := show; show_subval_string _ := eq_refl; show_subval_u64 _ _ := eq_refl;
  stringToDouble _ := S754_zero false
|}.
#[local] Existing Instance format.

Definition json_parser : JsonParser := {|
  Document_Parse text :=
    if (text =? wrap "filter" "f")%string
    then Some (JObject [("filter", JArray [JArray [JObject
           [("name", JString "Messagetype"); ("value", JString "x"); ("op", JInt 2)]]])])
    else if (text =? wrap "sort_fields" "s")%string then Some (JObject [("sort_fields", JArray [JString "packets"])])
    else None
|}.
#[local] Existing Instance json_parser.
Definition double_format : DoubleFormat := {| show_double _ := "1.5" |}.
#[local] Existing Instance double_format.

(** Rows with a count, and a unit that sorts on it. *)
Definition row (n : Z) : ResultRowT := ({[ "packets" := pretty n ]}, 0).
Definition unit_of (d : sort_op) (lim : Z) : PostProcessingQuery := {|
  filter_list := []; sorted := true; sorting_type := d;
  sort_fields := [{| sf_name := "packets"; sf_type := "int" |}]; limit := lim
|}.
Abbreviation ltb := (returned (sort_field_comparator (sort_fields (unit_of ASCENDING 0)))).

Lemma rows_ok d lim l : Forall (has_fields (sort_fields (unit_of d lim))) (row <$> l).
Proof.
  apply Forall_fmap, Forall_true. intros n f Hf. apply list_elem_of_singleton in Hf as ->.
  simpl. rewrite lookup_singleton_eq. by eexists.
Defined.

Lemma merge_processing_sorted_witness :
  ∃ res, merge_processing (unit_of DESCENDING 0) None (row <$> [9; 3]) (row <$> [10; 2]) = Some res ∧
    Permutation ((row <$> [10; 2]) ++ (row <$> [9; 3])) res ∧ sorted_dir false ltb res.
Proof.
  apply (merge_processing_sorted (unit_of DESCENDING 0));
    [done|apply (rows_ok DESCENDING 0)|apply (rows_ok DESCENDING 0)|..];
    repeat constructor.
Defined.

Lemma merge_processing_descending_flips_witness :
  ∃ res, merge_processing (unit_of DESCENDING 0) (Some (row <$> [10; 2])) (row <$> [9; 3]) [] = Some res ∧
    Permutation ((row <$> [9; 3]) ++ (row <$> [10; 2])) res ∧ sorted_dir true ltb res.
Proof.
  apply (merge_processing_descending_flips (unit_of DESCENDING 0));
    [done|done|apply (rows_ok DESCENDING 0)|apply (rows_ok DESCENDING 0)|..];
    repeat constructor.
Defined.

Lemma final_merge_correct_witness :
  ∃ all, Permutation ([] ++ concat [row <$> [9; 3]; row <$> [10; 2]]) all ∧ sorted_dir true ltb all ∧
    final_merge_processing (unit_of ASCENDING 3) [row <$> [9; 3]; row <$> [10; 2]] []
    = Some (take 3 all).
Proof.
  apply (final_merge_correct (unit_of ASCENDING 3) [row <$> [9; 3]; row <$> [10; 2]] []);
    [done|done|apply (rows_ok ASCENDING 3 [9; 3; 10; 2])].
Defined.

Lemma process_query_correct_witness :
  ∃ kept all mres,
    kept `sublist_of` (row <$> [9; 3; 10]) ∧
    (∀ r, r ∈ kept ↔ r ∈ row <$> [9; 3; 10] ∧ filter_accepts [] r.1) ∧
    Permutation kept all ∧ sorted_dir true ltb all ∧
    process_query (unit_of ASCENDING 2) MESSAGE_TABLE true 0 (row <$> [9; 3; 10]) []
    = PPDone QUERY_SUCCESS (take 2 all) mres.
Proof.
  apply (process_query_correct (unit_of ASCENDING 2) MESSAGE_TABLE true);
    [done|constructor|apply (rows_ok ASCENDING 2)|done].
Defined.

Definition main : pp_main := {|
  pm_table := MESSAGE_TABLE; pm_stats := None;
  is_present_in_select_column_fields _ := true; where_filter_list := [];
  filter_qe_logs := true; sandesh_moduleid := "contrail-query-engine"
|}.

Definition main_unit : PostProcessingQuery :=
  match PostProcessingQuery_ctor main false [("filter", "f"); ("limit", "10")]%string with
  | Done (pp, _) => pp
  | _ => ctor_init
  end.

Lemma qe_logs_filtered_witness :
  let r : OutRowT := <["Messagetype" := "y"]> {[ MODULE := "contrail-query-engine" ]} in
  filter_list main_unit ≠ [] ∧
  (row_keep (filter_list main_unit) r = Some true →
   r !! MODULE ≠ Some (sandesh_moduleid main)).
Proof.
  intros r. apply (qe_logs_filtered main false [("filter", "f"); ("limit", "10")]%string main_unit true);
    [vm_compute; reflexivity|reflexivity|reflexivity].
Defined.

(** A sorted query on the messages with a limit: the filter is the one that leaves
    out the messages of the query engine, whose rows would come first. *)
Definition messages_unit : PostProcessingQuery :=
  match PostProcessingQuery_ctor main false [("limit", "2"); ("sort", "1"); ("sort_fields", "s")]%string with
  | Done (pp, _) => pp
  | _ => ctor_init
  end.
Definition message_row (module_ : string) (n : Z) : ResultRowT := ({[ "packets" := pretty n; MODULE := module_ ]}, 0).
Definition message_chunks : list (BufferT * MapBufT) :=
  [ ([message_row "agent" 9; message_row "contrail-query-engine" 1; message_row "contrail-query-engine" 2; message_row "agent" 3], []);
    ([message_row "agent" 8; message_row "contrail-query-engine" 0; message_row "agent" 7; message_row "agent" 4], []) ]%string.
Definition rows_of_query (o : option BufferT) : list (option string) :=
  (λ r : ResultRowT, r.1 !! "packets"%string) <$> default [] o.

Lemma limit_pushdown_witness :
  filter_list messages_unit = [[qe_log_filter main]] ∧ sorted messages_unit = true ∧
  ∃ cut res whole,
    Forall2 (λ (c : BufferT * MapBufT) res, ∃ mres,
      process_query messages_unit MESSAGE_TABLE true 0 c.1 c.2 = PPDone QUERY_SUCCESS res mres) message_chunks cut ∧
    final_merge_processing messages_unit cut [] = Some res ∧
    final_merge_processing messages_unit [accepted (filter_list messages_unit) (concat message_chunks.*1)] [] = Some whole ∧
    rows_of_query (Some whole) = [Some "3"; Some "4"]%string ∧
    Forall2 (equiv_by (returned (sort_field_comparator (sort_fields messages_unit)))) res whole.
Proof.
  split; [by vm_compute|]. split; [by vm_compute|].
  destruct (limit_pushdown messages_unit MESSAGE_TABLE true message_chunks) as (cut & res & whole & Hc & Hr & Hw & _ & He).
  - repeat constructor.
  - by vm_compute.
  - intros _. apply Forall_forall. intros r [_ Hr]%list_elem_of_filter f Hf.
    assert (sort_fields messages_unit = [{| sf_name := "packets"; sf_type := EmptyString |}]) as Es by by vm_compute.
    rewrite Es in Hf. apply list_elem_of_singleton in Hf as ->. simpl in Hr |- *.
    repeat (apply elem_of_cons in Hr as [->|Hr]; [by eexists|]). by apply elem_of_nil in Hr.
  - exists cut, res, whole. split; [exact Hc|]. split; [exact Hr|]. split; [exact Hw|]. split; [|exact He].
    assert (final_merge_processing messages_unit [accepted (filter_list messages_unit) (concat message_chunks.*1)] [] =
      Some [message_row "agent" 3; message_row "agent" 4]%string) as Hw' by by vm_compute.
    rewrite Hw in Hw'. injection Hw' as ->. by vm_compute.
Defined.

Lemma filter_number_lost_witness :
  let term value := {| fm_name := "packets"; fm_value := value; fm_op := match_op_of_int 5;
                       ignore_col_absence := false; match_e := EmptyString |} in
  parse_filter false (filter_object "packets" (JDouble (S754_zero false)) 5) = Done (term EmptyString) ∧
  parse_filter true (filter_object "packets" (JDouble (S754_zero false)) 5)
    = Done (term (show_double (S754_zero false))) ∧
  (∀ old_format, parse_filter old_format (filter_object "packets" (JInt 5000000000) 5)
                 = Done (term EmptyString)).
Proof.
  apply (filter_number_lost "packets" 5 (S754_zero false) 5000000000); [lia|discriminate|lia].
Defined.
End PostExamples.
