(* ===== verification/StatsSelect.v ===== *)
(** * Aggregation of StatTable, session and flow queries

    [contrail-query-engine/stats_select.cc]: the SELECT clause of an aggregated
    query ([StatsSelect], [SetSortOrder]), the rows fed into it ([LoadRow]), and
    the multimap the rows are grouped in ([MergeFullRow], [MergeAggRow]) and
    merged from chunk to chunk ([Merge], [MergeFinal]).

    The centroid and the t-digest are objects of the tdigest library: class
    [Digests] has what the code does with them, on the values they hold (the
    shared objects of the inputs of a merge are not read again after it). *)
From stdpp Require Import base tactics list strings pretty gmap sets.
From Stdlib Require Import ZArith Lia Sorted Permutation SpecFloat.
From S2P Require Import Prelude.
From S2P Require Import CppString.
From S2P Require Import VizConstants.
From S2P Require Import QueryTypes.
From S2P Require Import SortedLists.
From S2P Require Import Json.
From S2P Require Import AnalyticsQuery.
From S2P Require Import StatsQuery.
From S2P Require Import PostProcessing.
Import Tables.
Local Open Scope Z_scope.

(** ** What the code uses of its libraries *)

(** [operator<] of the variant; a total order apart from floating point. *)
Definition is_sv_double (v : SubVal) : bool := match v with SvDouble _ => true | _ => false end.
Class SubValOrder := {
  sv_ltb : SubVal → SubVal → bool;
  sv_ltb_total : strict_total (λ v, is_sv_double v = false) sv_ltb
}.

(** [Centroid_create]/[Centroid_add] with one value, [Centroid_add] of the mean
    and count of another centroid, and the same for a digest. *)
Class Digests := {
  Centroid_of : spec_float → Z;
  Centroid_merge : Z → Z → Z;
  TDigest_of : spec_float → Z;
  TDigest_merge : Z → Z → Z;
  Centroid_get_mean : Z → spec_float;
  TDigest_percentile : Z → string → spec_float
}.

(** [boost::uuids::to_string]. *)
Class UuidFormat := { uuid_to_string : Z → string }.

(** [boost::hash_range] over the entries of a map. *)
Class StatHash := {
  hash_range : StatMap → Z;
  hash_range_u64 m : is_u64 (hash_range m)
}.

(** Conversion of a [uint64_t] to a [double], and the addition of doubles. *)
Definition double_of_u64 (n : Z) : spec_float := binary_normalize 53 1024 n 0 false.
Definition double_add (a b : spec_float) : spec_float := SFadd 53 1024 a b.

(** ** The multimap *)

Abbreviation MapEntry := (list SubVal * (gmap string SubVal * gmap (AggOper * string) SubVal))%type.

Section multimap.
Context `{SubValOrder}.

(** [operator<] of [std::vector]. *)
Fixpoint vec_ltb (a b : list SubVal) : bool :=
  match a, b with
  | [], [] => false
  | [], _ => true
  | _, [] => false
  | x :: a', y :: b' => if sv_ltb x y then true else if sv_ltb y x then false else vec_ltb a' b'
  end.

Definition key_equiv (a b : list SubVal) : bool := negb (vec_ltb a b) && negb (vec_ltb b a).

(** [find]: the entries before, the first entry with the key, the rest. *)
Fixpoint mm_find (k : list SubVal) (m : MapBufT) : option (MapBufT * MapEntry * MapBufT) :=
  match m with
  | [] => None
  | e :: m' =>
      if key_equiv k e.1 then Some ([], e, m')
      else match mm_find k m' with
           | Some (before, e', after) => Some (e :: before, e', after)
           | None => None
           end
  end.

(** [insert]: after the entries whose key is not greater. *)
Fixpoint mm_insert (e : MapEntry) (m : MapBufT) : MapBufT :=
  match m with
  | [] => [e]
  | e' :: m' => if vec_ltb e.1 e'.1 then e :: m else e' :: mm_insert e m'
  end.
End multimap.

(** ** Aggregates *)

Section aggregates.
Context `{Digests}.

(** One aggregate with the value of a new row; [None]: [boost::bad_get] and the
    failed assertion. *)
Definition agg_combine (op : AggOper) (sv nv : SubVal) : option SubVal :=
  match op with
  | SUM =>
      match sv, nv with
      | SvU64 a, SvU64 b => Some (SvU64 (u64 (a + b)))
      | SvU64 _, _ => None
      | SvDouble a, SvDouble b => Some (SvDouble (double_add a b))
      | SvDouble _, _ => None
      | _, _ => Some sv
      end
  | COUNT | COUNT_DISTINCT =>
      match sv, nv with
      | SvU64 a, SvU64 b => Some (SvU64 (u64 (a + b)))
      | _, _ => None
      end
  | MAX =>
      match sv, nv with
      | SvU64 a, SvU64 b => Some (SvU64 (if b <? a then a else b))
      | SvU64 _, _ => None
      | SvDouble a, SvDouble b => Some (SvDouble (if SFltb b a then a else b))
      | SvDouble _, _ => None
      | _, _ => Some sv
      end
  | MIN =>
      match sv, nv with
      | SvU64 a, SvU64 b => Some (SvU64 (if a <? b then a else b))
      | SvU64 _, _ => None
      | SvDouble a, SvDouble b => Some (SvDouble (if SFltb a b then a else b))
      | SvDouble _, _ => None
      | _, _ => Some sv
      end
  | AVG =>
      match sv, nv with
      | SvCentroid a, SvCentroid b => Some (SvCentroid (Centroid_merge a b))
      | SvCentroid _, _ => None
      | _, _ => Some sv
      end
  | PERCENTILES =>
      match sv, nv with
      | SvTDigest a, SvTDigest b => Some (SvTDigest (TDigest_merge a b))
      | SvTDigest _, _ => None
      | _, _ => Some sv
      end
  | _ => Some sv
  end.

(** The aggregate of one key after the loop. *)
Definition merge_agg (narows : AggRowT) (k : AggOper * string) (sv : SubVal) : option SubVal :=
  match narows !! k with Some nv => agg_combine k.1 sv nv | None => Some sv end.

Definition MergeAggRow (arows narows : AggRowT) : option AggRowT :=
  if bool_decide (arows = ∅) then Some narows
  else if forallb (λ p, bool_decide (is_Some (merge_agg narows p.1 p.2))) (map_to_list arows)
       then Some (map_imap (merge_agg narows) arows)
       else None.

Context `{SubValOrder}.

Definition MergeFullRow (ukey : list SubVal) (uniks : StatMap) (narows : AggRowT) (output : MapBufT)
  : option MapBufT :=
  match mm_find ukey output with
  | Some (before, (k, (rm, arows)), after) =>
      if decide (rm = uniks) then
        (λ a, before ++ (k, (rm, a)) :: after) <$> MergeAggRow arows narows
      else Some (mm_insert (ukey, (uniks, narows)) output)
  | None => Some (mm_insert (ukey, (uniks, narows)) output)
  end.

Context `{StatHash}.

(** The row [Merge] feeds for one entry of the input: the COUNT_DISTINCT column
    is counted and taken out of the unique columns, and the key hashed anew. *)
Definition merge_entry (count_distinct_field : string) (e : MapEntry) : option MapEntry :=
  let '(ukey, (uniks, narows)) := e in
  match uniks !! count_distinct_field with
  | Some _ =>
      let aggkey := (COUNT_DISTINCT, count_distinct_field) in
      let narows := match narows !! aggkey with Some _ => narows | None => <[aggkey := SvU64 1]> narows end in
      let uniks := delete count_distinct_field uniks in
      if bool_decide (ukey = []) then None
      else Some (<[(length ukey - 1)%nat := SvU64 (hash_range uniks)]> ukey, (uniks, narows))
  | None => Some e
  end.

(** [StatsSelect::Merge]. *)
Fixpoint Merge (count_distinct_field : string) (input output : MapBufT) : option MapBufT :=
  match input with
  | [] => Some output
  | e :: input' =>
      match merge_entry count_distinct_field e with
      | None => None
      | Some (ukey, (uniks, narows)) =>
          match MergeFullRow ukey uniks narows output with
          | None => None
          | Some output' => Merge count_distinct_field input' output'
          end
      end
  end.

Fixpoint merge_all (count_distinct_field : string) (inputs : list MapBufT) (output : MapBufT)
  : option MapBufT :=
  match inputs with
  | [] => Some output
  | i :: inputs' => Merge count_distinct_field i output ≫= merge_all count_distinct_field inputs'
  end.

(** The key of an entry with the aggregates it is sorted by; [None]: the
    assertion that the aggregate exists, or a slot outside the key. *)
Definition set_slot (slot : nat) (v : SubVal) (ukey : list SubVal) : option (list SubVal) :=
  if (slot <? length ukey)%nat then Some (<[slot := v]> ukey) else None.

Fixpoint agg_sort_key (cols : list (AggOper * string * nat)) (narows : AggRowT) (ukey : list SubVal)
  : option (list SubVal) :=
  match cols with
  | [] => Some ukey
  | (aggkey, slot) :: cols' =>
      match narows !! aggkey with
      | None => None
      | Some v => set_slot slot v ukey ≫= agg_sort_key cols' narows
      end
  end.

Fixpoint resort (cols : list (AggOper * string * nat)) (temp output : MapBufT) : option MapBufT :=
  match temp with
  | [] => Some output
  | (ukey, (uniks, narows)) :: temp' =>
      match agg_sort_key cols narows ukey with
      | None => None
      | Some ukey => MergeFullRow ukey uniks narows output ≫= resort cols temp'
      end
  end.

(** [StatsSelect::MergeFinal]; [agg_sort_cols] in the order of the map. *)
Definition MergeFinal (count_distinct_field : string) (agg_sort_cols : list (AggOper * string * nat))
    (inputs : list MapBufT) (output : MapBufT) : option MapBufT :=
  match agg_sort_cols with
  | [] => merge_all count_distinct_field inputs output
  | _ =>
      match merge_all count_distinct_field inputs [] with
      | None => None
      | Some temp => resort agg_sort_cols temp output
      end
  end.
End aggregates.

(** ** The SELECT clause *)

Record StatsSelect := {
  status_ : bool;
  ts_period_ : Z;
  isT_ : bool;
  count_field_ : string;
  count_distinct_field_ : string;
  sort_cols_ : gmap string nat;
  agg_sort_cols_ : gmap (AggOper * string) nat;
  unik_cols_ : gset string;
  sum_cols_ : gset string;
  class_cols_ : gset string;
  max_field_ : gset string;
  min_field_ : gset string;
  avg_field_ : gset string;
  percentile_cols_ : gset string
}.

Definition StatsSelect_init : StatsSelect := {|
  status_ := false; ts_period_ := 0; isT_ := false; count_field_ := EmptyString;
  count_distinct_field_ := EmptyString; sort_cols_ := ∅; agg_sort_cols_ := ∅; unik_cols_ := ∅;
  sum_cols_ := ∅; class_cols_ := ∅; max_field_ := ∅; min_field_ := ∅; avg_field_ := ∅;
  percentile_cols_ := ∅
|}.

(** [map::insert]: an entry that exists is kept. *)
Definition map_insert_new {A} (k : string) (v : A) (m : gmap string A) : gmap string A :=
  match m !! k with Some _ => m | None => <[k := v]> m end.

Lemma lookup_map_insert_new {A} k (v : A) (m : gmap string A) k' :
  map_insert_new k v m !! k' = if decide (k = k') then Some (default v (m !! k)) else m !! k'.
Proof.
  unfold map_insert_new. destruct (decide (k = k')) as [<-|Hne]; destruct (m !! k) eqn:E; simpl; try done.
  - by rewrite lookup_insert_eq.
  - by rewrite lookup_insert_ne.
Qed.

(** The effect of an aggregated or plain field. *)
Definition add_field (s : StatsSelect) (agg : AggOper) (field sfield : string) : StatsSelect :=
  let set_with uk sm cl mx mn av pc cf cdf := {|
    status_ := status_ s; ts_period_ := ts_period_ s; isT_ := isT_ s; count_field_ := cf;
    count_distinct_field_ := cdf; sort_cols_ := sort_cols_ s; agg_sort_cols_ := agg_sort_cols_ s;
    unik_cols_ := uk ∪ unik_cols_ s; sum_cols_ := sm ∪ sum_cols_ s;
    class_cols_ := cl ∪ class_cols_ s; max_field_ := mx ∪ max_field_ s;
    min_field_ := mn ∪ min_field_ s; avg_field_ := av ∪ avg_field_ s;
    percentile_cols_ := pc ∪ percentile_cols_ s |} in
  match agg with
  | INVALID => set_with {[field]} ∅ ∅ ∅ ∅ ∅ ∅ (count_field_ s) (count_distinct_field_ s)
  | COUNT => set_with ∅ ∅ ∅ ∅ ∅ ∅ ∅ sfield (count_distinct_field_ s)
  | COUNT_DISTINCT => set_with {[sfield]} ∅ ∅ ∅ ∅ ∅ ∅ (count_field_ s) sfield
  | SUM => set_with ∅ {[sfield]} ∅ ∅ ∅ ∅ ∅ (count_field_ s) (count_distinct_field_ s)
  | CLASS => set_with ∅ ∅ {[sfield]} ∅ ∅ ∅ ∅ (count_field_ s) (count_distinct_field_ s)
  | MAX => set_with ∅ ∅ ∅ {[sfield]} ∅ ∅ ∅ (count_field_ s) (count_distinct_field_ s)
  | MIN => set_with ∅ ∅ ∅ ∅ {[sfield]} ∅ ∅ (count_field_ s) (count_distinct_field_ s)
  | PERCENTILES => set_with ∅ ∅ ∅ ∅ ∅ ∅ {[sfield]} (count_field_ s) (count_distinct_field_ s)
  | AVG => set_with ∅ ∅ ∅ ∅ ∅ {[sfield]} ∅ (count_field_ s) (count_distinct_field_ s)
  end.

Definition set_time (s : StatsSelect) (period : Z) (isT : bool) (sort_col : string) : StatsSelect := {|
  status_ := status_ s; ts_period_ := period; isT_ := isT; count_field_ := count_field_ s;
  count_distinct_field_ := count_distinct_field_ s;
  sort_cols_ := map_insert_new sort_col 0%nat (sort_cols_ s);
  agg_sort_cols_ := agg_sort_cols_ s; unik_cols_ := unik_cols_ s; sum_cols_ := sum_cols_ s;
  class_cols_ := class_cols_ s; max_field_ := max_field_ s; min_field_ := min_field_ s;
  avg_field_ := avg_field_ s; percentile_cols_ := percentile_cols_ s |}.

Definition set_status (s : StatsSelect) : StatsSelect := {|
  status_ := true; ts_period_ := ts_period_ s; isT_ := isT_ s; count_field_ := count_field_ s;
  count_distinct_field_ := count_distinct_field_ s; sort_cols_ := sort_cols_ s;
  agg_sort_cols_ := agg_sort_cols_ s; unik_cols_ := unik_cols_ s; sum_cols_ := sum_cols_ s;
  class_cols_ := class_cols_ s; max_field_ := max_field_ s; min_field_ := min_field_ s;
  avg_field_ := avg_field_ s; percentile_cols_ := percentile_cols_ s |}.

(** The constructor's loop; returning early leaves [status_] false.  [Stopped]
    is [ParseAgg] throwing. *)
Fixpoint StatsSelect_loop (s : StatsSelect) (select_fields : list string) : outcome StatsSelect :=
  match select_fields with
  | [] => Done (set_status s)
  | f :: fields' =>
      if (f =? STAT_TIME_FIELD)%string then
        if negb (ts_period_ s =? 0) then Done s
        else StatsSelect_loop (set_time s (ts_period_ s) true f) fields'
      else if starts_with f STAT_TIMEBIN_FIELD then
        if isT_ s then Done s
        else
          tsstr ← stop_unless (substr f (size STAT_TIMEBIN_FIELD) npos);
          let period := u64 (strtoul tsstr * 1000000) in
          if period =? 0 then Done s
          else StatsSelect_loop (set_time s period (isT_ s) STAT_TIMEBIN_FIELD) fields'
      else
        '(agg, sfield) ← ParseAgg f f;
        StatsSelect_loop (add_field s agg f sfield) fields'
  end.

Definition StatsSelect_ctor (select_fields : list string) : outcome StatsSelect :=
  StatsSelect_loop StatsSelect_init select_fields.

(** [IsMergeNeeded]. *)
Definition IsMergeNeeded (s : StatsSelect) : bool := negb (isT_ s).

(** ** [SetSortOrder] *)

Definition set_sorts (s : StatsSelect) (sc : gmap string nat) (asc : gmap (AggOper * string) nat)
  : StatsSelect := {|
  status_ := status_ s; ts_period_ := ts_period_ s; isT_ := isT_ s; count_field_ := count_field_ s;
  count_distinct_field_ := count_distinct_field_ s; sort_cols_ := sc; agg_sort_cols_ := asc;
  unik_cols_ := unik_cols_ s; sum_cols_ := sum_cols_ s; class_cols_ := class_cols_ s;
  max_field_ := max_field_ s; min_field_ := min_field_ s; avg_field_ := avg_field_ s;
  percentile_cols_ := percentile_cols_ s |}.

(** [static_blank f]: the table is a static StatTable without the column [f]. *)
Definition static_blank (table_ : string) (stats : option StatsQuery) (f : string) : option bool :=
  if is_stat_table_query table_ then
    match stats with
    | None => None
    | Some sq => Some (is_static_ sq && bool_decide (datatype (get_column_desc sq f) = BLANK))
    end
  else Some false.

Fixpoint sort_order_loop (table_ : string) (stats : option StatsQuery) (st : nat)
    (fields : list sort_field_t) (s : StatsSelect) : outcome StatsSelect :=
  match fields with
  | [] => Done s
  | f :: fields' =>
      let name := sf_name f in
      if starts_with name STAT_TIMEBIN_FIELD then
        sort_order_loop table_ stats (S st) fields'
          (set_sorts s (map_insert_new STAT_TIMEBIN_FIELD st (sort_cols_ s)) (agg_sort_cols_ s))
      else if (name =? STAT_TIME_FIELD)%string then
        sort_order_loop table_ stats (S st) fields'
          (set_sorts s (map_insert_new name st (sort_cols_ s)) (agg_sort_cols_ s))
      else
        '(agg, sfield) ← ParseAgg name name;
        blank ← stop_unless (static_blank table_ stats sfield);
        if (blank : bool) then Done s
        else if decide (agg = INVALID) then
          sort_order_loop table_ stats (S st) fields'
            (set_sorts s (map_insert_new name st (sort_cols_ s)) (agg_sort_cols_ s))
        else
          sort_order_loop table_ stats (S st) fields'
            (set_sorts s (sort_cols_ s)
               (match agg_sort_cols_ s !! (agg, sfield) with
                | Some _ => agg_sort_cols_ s
                | None => <[(agg, sfield) := st]> (agg_sort_cols_ s)
                end))
  end.

Definition SetSortOrder (table_ : string) (stats : option StatsQuery) (fields : list sort_field_t)
    (s : StatsSelect) : outcome StatsSelect :=
  sort_order_loop table_ stats 0 fields
    (match fields with [] => s | _ => set_sorts s ∅ (agg_sort_cols_ s) end).

(** ** [LoadRow] *)

Record StatEntry := { se_name : string; se_value : SubVal }.

Definition add_entries (cols : gset string) (row : list StatEntry) (m : StatMap) : StatMap :=
  foldl (λ m e, if bool_decide (se_name e ∈ cols) then map_insert_new (se_name e) (se_value e) m else m)
        m row.

(** The unique columns of a row. *)
Definition build_uniks (s : StatsSelect) (uuid timestamp : Z) (row : list StatEntry) : StatMap :=
  let m := if bool_decide (STAT_UUID_FIELD ∈ unik_cols_ s)
           then map_insert_new STAT_UUID_FIELD (SvUuid uuid) ∅ else ∅ in
  let m := if isT_ s then map_insert_new STAT_TIME_FIELD (SvU64 timestamp) m else m in
  let m := if negb (ts_period_ s =? 0)
           then map_insert_new STAT_TIMEBIN_FIELD
                  (SvU64 (u64 (timestamp - timestamp mod ts_period_ s))) m else m in
  add_entries (unik_cols_ s) row m.

Section load.
Context `{Digests, SubValOrder, StatHash}.

(** The sort key: the sort columns in their slots and the hash in the last. *)
Definition build_ukey (s : StatsSelect) (uniks : StatMap) : option (list SubVal) :=
  let slots := (base.size (sort_cols_ s) + base.size (agg_sort_cols_ s))%nat in
  map_fold (λ name slot key, key ≫= λ k, uniks !! name ≫= λ v, set_slot slot v k)
    (Some (replicate slots SvBlank ++ [SvU64 (hash_range uniks)])) (sort_cols_ s).

(** [map::insert] on the aggregates of the row. *)
Definition agg_insert_new (k : AggOper * string) (v : SubVal) (m : AggRowT) : AggRowT :=
  match m !! k with Some _ => m | None => <[k := v]> m end.

(** The value of an entry as a [double]; [None]: [boost::bad_get]. *)
Definition entry_double (v : SubVal) : option spec_float :=
  match v with SvU64 n => Some (double_of_u64 n) | SvDouble d => Some d | _ => None end.

(** The second loop over the row: MAX, MIN, AVG and PERCENTILES. *)
Definition agg_entry (s : StatsSelect) (acc : option AggRowT) (e : StatEntry) : option AggRowT :=
  m ← acc;
  let name := se_name e in
  let m := if bool_decide (name ∈ max_field_ s) then agg_insert_new (MAX, name) (se_value e) m else m in
  let m := if bool_decide (name ∈ min_field_ s) then agg_insert_new (MIN, name) (se_value e) m else m in
  m ← (if bool_decide (name ∈ avg_field_ s) then
         d ← entry_double (se_value e);
         Some (agg_insert_new (AVG, name) (SvCentroid (Centroid_of d)) m)
       else Some m);
  if bool_decide (name ∈ percentile_cols_ s) then
    d ← entry_double (se_value e);
    Some (agg_insert_new (PERCENTILES, name) (SvTDigest (TDigest_of d)) m)
  else Some m.

(** The columns hashed for CLASS: the unique columns of the row but the class
    attribute; a later entry of the row replaces an earlier one. *)
Definition class_uniks (uniks : StatMap) (ct : string) (row : list StatEntry) : StatMap :=
  foldl (λ m e, if negb (se_name e =? ct)%string && bool_decide (is_Some (uniks !! se_name e))
                then <[se_name e := se_value e]> m else m) ∅ row.

Definition build_aggs (s : StatsSelect) (uniks : StatMap) (row : list StatEntry) : option AggRowT :=
  let m := foldl (λ m e, if bool_decide (se_name e ∈ sum_cols_ s)
                         then agg_insert_new (SUM, se_name e) (se_value e) m else m) ∅ row in
  m ← foldl (agg_entry s) (Some m) row;
  let m := foldl (λ m ct, agg_insert_new (CLASS, ct) (SvU64 (hash_range (class_uniks uniks ct row))) m)
                 m (base.elements (class_cols_ s)) in
  Some (if (count_field_ s =? EmptyString)%string then m
        else agg_insert_new (COUNT, count_field_ s) (SvU64 1) m).

(** [LoadRow]: [None] is a failed assertion; the flag is the return value. *)
Definition LoadRow (s : StatsSelect) (uuid timestamp : Z) (row : list StatEntry) (output : MapBufT)
  : option (bool * MapBufT) :=
  if negb (status_ s) then Some (false, output)
  else
    let uniks := build_uniks s uuid timestamp row in
    ukey ← build_ukey s uniks;
    narows ← build_aggs s uniks row;
    output ← MergeFullRow ukey uniks narows output;
    Some (true, output).
End load.

(** ** [Jsonify] *)

(** The enumerators' values, which order the keys of [AggRowT]. *)
Definition agg_number (op : AggOper) : Z :=
  match op with
  | INVALID => 0 | SUM => 1 | COUNT => 2 | CLASS => 3 | MAX => 4 | MIN => 5
  | PERCENTILES => 6 | AVG => 7 | COUNT_DISTINCT => 8
  end.
Definition agg_key_ltb (a b : AggOper * string) : bool :=
  if agg_number a.1 <? agg_number b.1 then true
  else if agg_number b.1 <? agg_number a.1 then false else String.ltb a.2 b.2.

(** Sums that keep the name of their column. *)
Definition plain_sums : list string :=
  [SESSION_FWD_TEARDOWN_BYTES; SESSION_FWD_TEARDOWN_PKTS; SESSION_REV_TEARDOWN_BYTES;
   SESSION_REV_TEARDOWN_PKTS; FLOW_TABLE_AGG_PKTS; FLOW_TABLE_AGG_BYTES].

(** The name of an aggregate in the output; [None]: the assertion. *)
Definition agg_output_name (table : string) (k : AggOper * string) : option string :=
  let '(op, field) := k in
  match op with
  | SUM => Some (if bool_decide (field ∈ plain_sums) then field else agg_name "SUM" field)
  | COUNT => Some (if (table =? SESSION_SERIES_TABLE)%string then "sample_count"%string
                   else agg_name "COUNT" field)
  | CLASS => Some (if (table =? SESSION_SERIES_TABLE)%string then "session_class_id"%string
                   else if (table =? FLOW_SERIES_TABLE)%string then "flow_class_id"%string
                   else agg_name "CLASS" field)
  | MAX => Some (agg_name "MAX" field)
  | MIN => Some (agg_name "MIN" field)
  | PERCENTILES => Some (agg_name "PERCENTILES" field)
  | AVG => Some (agg_name "AVG" field)
  | COUNT_DISTINCT => Some (agg_name "COUNT_DISTINCT" field)
  | INVALID => None
  end.

Section jsonify.
Context `{Digests, UuidFormat}.

Definition json_unik (v : SubVal) : option json :=
  match v with
  | SvString s => Some (JString s)
  | SvUuid u => Some (JString (uuid_to_string u))
  | SvU64 n => Some (JInt n)
  | SvDouble d => Some (JDouble d)
  | _ => None
  end.

Definition stiles : list string := ["01"; "05"; "25"; "50"; "75"; "95"; "99"]%string.

Definition json_agg (v : SubVal) : option json :=
  match v with
  | SvU64 n => Some (JInt n)
  | SvDouble d => Some (JDouble d)
  | SvTDigest h => Some (JObject ((λ st, (st, JDouble (TDigest_percentile h st))) <$> stiles))
  | SvCentroid h => Some (JDouble (Centroid_get_mean h))
  | _ => None
  end.

(** The object of one row: the unique columns, then the aggregates, in the
    order of the maps; [None]: an assertion. *)
Definition Jsonify (table : string) (uniks : StatMap) (aggs : AggRowT) : option json :=
  us ← mapM (λ p, pair p.1 <$> json_unik p.2)
         (insertion_sort (λ a b, String.ltb a.1 b.1) (map_to_list uniks));
  ags ← mapM (λ p, n ← agg_output_name table p.1; v ← json_agg p.2; Some (n, v))
         (insertion_sort (λ a b, agg_key_ltb a.1 b.1) (map_to_list aggs));
  Some (JObject (us ++ ags)).
End jsonify.

(** The name an aggregate has in the output of a StatTable query is a
    SELECT field that parses back to the aggregate, but for the sums that keep
    the name of their column. *)
Theorem agg_output_name_parses table op field sfield :
  is_stat_table_query table = true → op ≠ INVALID →
  (op = SUM → field ∉ plain_sums) →
  ∃ name, agg_output_name table (op, field) = Some name ∧
    (size name <= npos → ParseAgg name sfield = Done (op, field)).
Proof.
  intros Ht Hop Hs.
  assert ((table =? SESSION_SERIES_TABLE)%string = false ∧ (table =? FLOW_SERIES_TABLE)%string = false)
    as [E1 E2].
  { split; apply String.eqb_neq; intros ->; discriminate Ht. }
  assert (∀ p, (p, op) ∈ agg_prefixes → size (agg_name p field) <= npos →
    ParseAgg (agg_name p field) sfield = Done (op, field)) as Hp
    by (intros p Hin; by apply parse_agg_name).
  destruct op; try done; unfold agg_output_name; rewrite ?E1, ?E2;
    rewrite ?bool_decide_eq_false_2 by auto; eexists; (split; [done|]); intros Hsz;
    (apply Hp; [unfold agg_prefixes; set_solver|done]).
Qed.

(** ** The order of keys *)

Definition key_wf (k : list SubVal) : Prop := Forall (λ v, is_sv_double v = false) k.

Section keys.
Context `{SubValOrder}.

Lemma sv_irrefl v : is_sv_double v = false → sv_ltb v v = false.
Proof. apply (sw_irrefl _ _ (st_weak sv_ltb_total)). Qed.

Lemma vec_ltb_total : strict_total key_wf vec_ltb.
Proof.
  pose proof (st_weak sv_ltb_total) as Hw. split; [split|].
  - intros x. induction x as [|a x IH]; intros [|b y] Hx Hy; simpl; try done.
    inversion Hx; inversion Hy; subst.
    destruct (sv_ltb a b) eqn:E; [by rewrite (sw_asym Hw a b)|].
    destruct (sv_ltb b a); [done|]. auto.
  - intros x. induction x as [|a x IH]; intros [|b y] [|c z] Hx Hy Hz; simpl; try done.
    inversion Hx; inversion Hy; inversion Hz; subst.
    destruct (sv_ltb a b) eqn:Eab; [done|]. destruct (sv_ltb b c) eqn:Ebc; [done|].
    rewrite (sw_neg_trans Hw a b c) by done.
    destruct (sv_ltb b a) eqn:Eba.
    + intros _ _. destruct (sv_ltb c a) eqn:Eca; [done|].
      by rewrite (sw_neg_trans Hw b c a) in Eba.
    + intros Hq1. destruct (sv_ltb c b) eqn:Ecb; intros Hq2.
      * destruct (sv_ltb c a) eqn:Eca; [done|]. by rewrite (sw_neg_trans Hw c a b) in Ecb.
      * rewrite (sw_neg_trans Hw c b a) by done. eauto.
  - intros x. induction x as [|a x IH]; intros [|b y] Hx Hy; simpl; try done.
    inversion Hx; inversion Hy; subst.
    destruct (sv_ltb a b) eqn:E1; [done|]. destruct (sv_ltb b a) eqn:E2; [done|].
    intros Hq1 Hq2. f_equal; [by apply (st_total sv_ltb_total)|auto].
Qed.

Lemma vec_irrefl k : key_wf k → vec_ltb k k = false.
Proof. apply (sw_irrefl _ _ (st_weak vec_ltb_total)). Qed.

Lemma key_equiv_eq a b : key_wf a → key_wf b → key_equiv a b = true ↔ a = b.
Proof.
  intros Ha Hb. unfold key_equiv. rewrite andb_true_iff, !negb_true_iff. split.
  - intros []. by apply (st_total vec_ltb_total).
  - intros ->. by rewrite vec_irrefl.
Qed.

(** Entries in strictly ascending key order. *)
Definition mm_sorted (m : MapBufT) : Prop := StronglySorted (λ a b, vec_ltb a.1 b.1 = true) m.
Definition mm_wf (m : MapBufT) : Prop := Forall (λ e, key_wf e.1) m.

Lemma mm_find_some k m before e after :
  mm_find k m = Some (before, e, after) → m = before ++ e :: after ∧ key_equiv k e.1 = true.
Proof.
  revert before. induction m as [|e' m IH]; intros before; simpl; [done|].
  destruct (key_equiv k e'.1) eqn:E; [by intros [= <- <- <-]|].
  destruct (mm_find k m) as [[[b e''] a]|]; [|done]. intros [= <- <- <-].
  destruct (IH b eq_refl) as [-> ?]. done.
Qed.

Lemma mm_find_none k m e : mm_find k m = None → e ∈ m → key_equiv k e.1 = false.
Proof.
  induction m as [|e' m IH]; simpl; [by intros _ ?%not_elem_of_nil|].
  destruct (key_equiv k e'.1) eqn:E; [done|].
  destruct (mm_find k m) as [[[b e''] a]|]; [done|]. intros _ [->|Hin]%elem_of_cons; auto.
Qed.

Lemma mm_insert_perm e m : Permutation (e :: m) (mm_insert e m).
Proof.
  induction m as [|e' m IH]; simpl; [done|]. case_match; [done|]. by rewrite perm_swap, IH.
Qed.

Lemma mm_insert_sorted e m : key_wf e.1 → mm_wf m → mm_sorted m →
  Forall (λ e', e'.1 ≠ e.1) m → mm_sorted (mm_insert e m).
Proof.
  intros He Hm Hs Hne. unfold mm_sorted in *.
  induction m as [|e' m IH]; simpl; [by repeat constructor|].
  inversion Hm; inversion Hs; inversion Hne; subst. destruct (vec_ltb e.1 e'.1) eqn:E.
  - constructor; [done|]. constructor; [done|].
    rewrite Forall_forall in *. intros x Hx.
    eapply (sw_trans _ _ (st_weak vec_ltb_total) e.1 e'.1 x.1); [done|done|auto|done|auto].
  - constructor; [auto|]. eapply Forall_perm; [apply mm_insert_perm|]. constructor; [|done].
    destruct (vec_ltb e'.1 e.1) eqn:E'; [done|].
    by destruct (st_total vec_ltb_total e'.1 e.1); auto.
Qed.

(** Strictly sorted multimaps with the same entries are equal. *)
Lemma mm_sorted_ext m1 m2 : mm_wf m1 → mm_wf m2 → mm_sorted m1 → mm_sorted m2 →
  (∀ e, e ∈ m1 ↔ e ∈ m2) → m1 = m2.
Proof.
  intros W1 W2 S1 S2 Hin. unfold mm_sorted, mm_wf in *.
  assert (∀ a b : MapEntry, a ∈ m1 → b ∈ m1 → vec_ltb a.1 b.1 = true → vec_ltb b.1 a.1 = false)
    as Hasym.
  { intros a b Ha Hb. rewrite Forall_forall in W1. apply (sw_asym (st_weak vec_ltb_total)); auto. }
  revert m2 W2 S2 Hin. induction m1 as [|a m1 IH]; intros [|b m2] W2 S2 Hin; [done|..].
  - exfalso. specialize (Hin b). set_solver.
  - exfalso. specialize (Hin a). set_solver.
  - inversion W1 as [|?? Wa W1']; inversion W2 as [|?? Wb W2'];
      inversion S1 as [|?? S1' F1]; inversion S2 as [|?? S2' F2]; subst.
    rewrite Forall_forall in F1, F2.
    assert (a = b) as ->.
    { assert (a = b ∨ a ∈ m2) as [|Ha] by (apply elem_of_cons, Hin; set_solver); [done|].
      assert (b = a ∨ b ∈ m1) as [|Hb] by (apply elem_of_cons, Hin; set_solver); [done|].
      pose proof (Hasym a b ltac:(set_solver) ltac:(set_solver) (F1 b Hb)) as Hba.
      specialize (F2 a Ha). simpl in F2. congruence. }
    f_equal. apply IH; try done; [set_solver|]. intros e. specialize (Hin e).
    rewrite !elem_of_cons in Hin.
    assert (∀ m : MapBufT, (∀ x, x ∈ m → vec_ltb b.1 x.1 = true) → b ∉ m) as Hnot.
    { intros m Hm Hb. specialize (Hm b Hb). by rewrite vec_irrefl in Hm. }
    specialize (Hnot m1 F1) as N1. specialize (Hnot m2 F2) as N2. naive_solver.
Qed.

Lemma mm_sorted_same_keys (m1 m2 : MapBufT) : m1.*1 = m2.*1 → mm_sorted m2 → mm_sorted m1.
Proof.
  unfold mm_sorted. intros Hk Hs. revert m1 Hk.
  induction Hs as [|b m2 Hs IH Hb]; intros [|a m1] Hk; try done; [constructor|].
  injection Hk as Hab Hk. constructor; [auto|]. rewrite Forall_forall in *. intros x Hx.
  assert (x.1 ∈ m2.*1) as Hx2.
  { change (m1.*1 = m2.*1) in Hk. rewrite <- Hk. apply list_elem_of_fmap. by exists x. }
  apply list_elem_of_fmap in Hx2 as (y & Hy1 & Hy2). rewrite Hy1, Hab. auto.
Qed.

Lemma mm_sorted_other before after e e' : key_wf e.1 → mm_sorted (before ++ e :: after) →
  e' ∈ before ++ after → e'.1 = e.1 → False.
Proof.
  unfold mm_sorted. intros Hk Hs Hin E.
  induction before as [|b before IH]; simpl in *; inversion Hs as [|?? Hs' HF]; subst;
    rewrite Forall_forall in HF.
  - specialize (HF e' Hin). simpl in HF. by rewrite E, vec_irrefl in HF.
  - apply elem_of_cons in Hin as [->|Hin]; [|auto]. specialize (HF e ltac:(set_solver)).
    simpl in HF. by rewrite E, vec_irrefl in HF.
Qed.
End keys.

Lemma elem_of_middle {A} (x y : A) l1 l2 : x ∈ l1 ++ y :: l2 ↔ x = y ∨ x ∈ l1 ++ l2.
Proof. set_solver. Qed.

(** ** Grouping *)

Section grouping.
Context `{Digests, SubValOrder}.

(** Feeding rows into the multimap one after the other. *)
Fixpoint feed (rows : list MapEntry) (output : MapBufT) : option MapBufT :=
  match rows with
  | [] => Some output
  | (ukey, (uniks, narows)) :: rows' => MergeFullRow ukey uniks narows output ≫= feed rows'
  end.

(** The aggregates of a group of rows, in the order they came. *)
Definition agg_step (acc : option AggRowT) (n : AggRowT) : option AggRowT :=
  acc ≫= λ a, MergeAggRow a n.
Definition agg_fold (l : list AggRowT) : option AggRowT := foldl agg_step (Some ∅) l.

(** The rows with given unique columns. *)
Definition group (rows : list MapEntry) (m : StatMap) : list AggRowT :=
  (λ r, r.2.2) <$> filter (λ r, r.2.1 = m) rows.

(** Rows have the same key exactly when they have the same unique columns. *)
Definition no_collision (rows : list MapEntry) : Prop :=
  mm_wf rows ∧ ∀ r1 r2, r1 ∈ rows → r2 ∈ rows → r1.1 = r2.1 ↔ r1.2.1 = r2.2.1.

(** The specification of a grouped output. *)
Record grouped (rows : list MapEntry) (out : MapBufT) : Prop := {
  gr_sorted : mm_sorted out;
  gr_from e : e ∈ out → ∃ r, r ∈ rows ∧ r.1 = e.1 ∧ r.2.1 = e.2.1;
  gr_agg e : e ∈ out → agg_fold (group rows e.2.1) = Some e.2.2;
  gr_all r : r ∈ rows → ∃ e, e ∈ out ∧ e.1 = r.1 ∧ e.2.1 = r.2.1
}.

Lemma group_app rows1 rows2 m : group (rows1 ++ rows2) m = group rows1 m ++ group rows2 m.
Proof. unfold group. by rewrite filter_app, fmap_app. Qed.

Lemma group_snoc_eq rows r : group (rows ++ [r]) r.2.1 = group rows r.2.1 ++ [r.2.2].
Proof. rewrite group_app. unfold group at 2. by rewrite filter_cons_True. Qed.

Lemma group_cons_eq r rows m : r.2.1 = m → group (r :: rows) m = r.2.2 :: group rows m.
Proof. intros E. unfold group. by rewrite filter_cons_True. Qed.

Lemma group_snoc_ne rows r m : r.2.1 ≠ m → group (rows ++ [r]) m = group rows m.
Proof.
  intros Hne. rewrite group_app. unfold group at 2. rewrite filter_cons_False by done.
  apply app_nil_r.
Qed.

Lemma group_nil rows m : (∀ r, r ∈ rows → r.2.1 ≠ m) → group rows m = [].
Proof.
  intros Hn. unfold group. induction rows as [|r rows IH]; [done|].
  rewrite filter_cons_False by (apply Hn; set_solver). apply IH. set_solver.
Qed.

Lemma agg_fold_snoc l a : agg_fold (l ++ [a]) = agg_fold l ≫= λ b, MergeAggRow b a.
Proof. unfold agg_fold. by rewrite foldl_app. Qed.

Lemma no_collision_sub rows1 rows2 : no_collision (rows1 ++ rows2) → no_collision rows1.
Proof.
  intros [Hwf Hc]. split; [by apply Forall_app in Hwf as []|].
  intros r1 r2 H1 H2. apply Hc; set_solver.
Qed.

(** A row that joins an entry. *)
Lemma grouped_update rows before after k m a' a a'' :
  no_collision (rows ++ [(k, (m, a))]) → grouped rows (before ++ (k, (m, a')) :: after) →
  MergeAggRow a' a = Some a'' →
  grouped (rows ++ [(k, (m, a))]) (before ++ (k, (m, a'')) :: after).
Proof.
  intros Hnc [Gs Gf Ga Gall] Hm.
  assert (∀ e, e ∈ before ++ after → e ∈ before ++ (k, (m, a')) :: after) as Hsub by set_solver.
  assert (∀ e, e ∈ before ++ after → e.2.1 ≠ m) as Hne.
  { intros e He Em. destruct (Gf e (Hsub e He)) as (r & Hr & E1 & E2).
    destruct Hnc as [Hwf Hc].
    assert (e.1 = k) as Ek. { rewrite <- E1. apply (Hc r (k, (m, a))); [set_solver..|]. by rewrite E2. }
    assert (key_wf k) as Hk by (apply Forall_app in Hwf as [_ Hw]; by inversion Hw).
    apply (mm_sorted_other before after (k, (m, a')) e Hk Gs He Ek). }
  split.
  - eapply mm_sorted_same_keys; [|exact Gs]. by rewrite !fmap_app.
  - intros e [He|[->|He]%elem_of_cons]%elem_of_app.
    + destruct (Gf e) as (r & Hr & E); [set_solver|]. exists r. set_solver.
    + exists (k, (m, a)). set_solver.
    + destruct (Gf e) as (r & Hr & E); [set_solver|]. exists r. set_solver.
  - intros e [->|He]%elem_of_middle; simpl.
    + pose proof (group_snoc_eq rows (k, (m, a))) as Eg. simpl in Eg. rewrite Eg, agg_fold_snoc.
      specialize (Ga (k, (m, a'))). simpl in Ga. rewrite Ga by set_solver. done.
    + rewrite group_snoc_ne; [apply Ga; auto|]. simpl. intros E. by apply (Hne e).
  - intros r [Hr|Hr%list_elem_of_singleton]%elem_of_app; [|subst r].
    + destruct (Gall r Hr) as (e & [->|He]%elem_of_middle & E1 & E2); simpl in *.
      * eexists. split; [by apply elem_of_app; right; left|done].
      * exists e. set_solver.
    + eexists. split; [by apply elem_of_app; right; left|done].
Qed.

(** A row that opens an entry. *)
Lemma grouped_insert rows out k m a :
  no_collision (rows ++ [(k, (m, a))]) → grouped rows out → (∀ e, e ∈ out → k ≠ e.1) →
  grouped (rows ++ [(k, (m, a))]) (mm_insert (k, (m, a)) out).
Proof.
  intros [Hwf Hc] [Gs Gf Ga Gall] Hk. apply Forall_app in Hwf as [Hrows Hr].
  assert (∀ r, r ∈ rows → r.2.1 ≠ m) as Hrm.
  { intros r Hr' Em. destruct (Gall r Hr') as (e & He & E1 & E2). apply (Hk e He).
    rewrite E1. symmetry. apply (Hc r (k, (m, a))); set_solver. }
  assert (∀ e, e ∈ out → e.2.1 ≠ m) as Hem.
  { intros e He. destruct (Gf e He) as (r & Hr' & _ & <-). auto. }
  assert (∀ e, e ∈ mm_insert (k, (m, a)) out ↔ e = (k, (m, a)) ∨ e ∈ out) as Hin.
  { intros e. by rewrite <- mm_insert_perm, elem_of_cons. }
  split.
  - apply mm_insert_sorted; [by inversion Hr| |done|].
    + apply Forall_forall. intros e He. destruct (Gf e He) as (r & Hr' & <- & _).
      rewrite Forall_forall in Hrows. auto.
    + apply Forall_forall. intros e He E. by apply (Hk e He).
  - intros e [->|He]%Hin; [exists (k, (m, a)); set_solver|].
    destruct (Gf e He) as (r & Hr' & E). exists r. set_solver.
  - intros e [->|He]%Hin; simpl.
    + pose proof (group_snoc_eq rows (k, (m, a))) as Eg. simpl in Eg. by rewrite Eg, group_nil.
    + rewrite group_snoc_ne by (simpl; intros E; by apply (Hem e)). auto.
  - intros r [Hr'|Hr'%list_elem_of_singleton]%elem_of_app; [|subst r].
    + destruct (Gall r Hr') as (e & He & E). exists e. rewrite Hin. auto.
    + eexists. by rewrite Hin; split; [left|].
Qed.

(** One more row keeps the output grouped. *)
Lemma MergeFullRow_grouped rows out r out' :
  no_collision (rows ++ [r]) → grouped rows out →
  MergeFullRow r.1 r.2.1 r.2.2 out = Some out' → grouped (rows ++ [r]) out'.
Proof.
  intros [Hwf Hc] [Gs Gf Ga Gall] Hm. destruct r as [k [m a]]. simpl in *.
  assert (key_wf k) as Hk by (apply Forall_app in Hwf as [_ Hr]; by inversion Hr).
  assert (∀ e, e ∈ out → key_wf e.1 ∧ (e.1 = k ↔ e.2.1 = m)) as Hout.
  { intros e He. destruct (Gf e He) as (r' & Hr' & E1 & E2). rewrite <- E1, <- E2. split.
    - apply Forall_app in Hwf as [Hrows _]. rewrite Forall_forall in Hrows. auto.
    - apply (Hc r' (k, (m, a))); set_solver. }
  unfold MergeFullRow in Hm. destruct (mm_find k out) as [[[before [k' [m' a']]] after]|] eqn:Ef.
  - apply mm_find_some in Ef as [-> Heq]. simpl in Heq.
    destruct (Hout (k', (m', a'))) as [Hk' Hiff]; [set_solver|]. simpl in Hk', Hiff.
    apply key_equiv_eq in Heq as <-; [|done|done]. pose proof (proj1 Hiff eq_refl) as ->.
    rewrite decide_True in Hm by done.
    destruct (MergeAggRow a' a) as [a''|] eqn:Ea; [|done]. simpl in Hm. injection Hm as <-.
    by eapply (grouped_update rows before after k m a' a a'').
  - injection Hm as <-. apply (grouped_insert rows out k m a); try done.
    intros e He ->. pose proof (mm_find_none _ _ _ Ef He) as Hn.
    destruct (Hout e He) as [He1 _]. by rewrite (proj2 (key_equiv_eq e.1 e.1 He1 He1) eq_refl) in Hn.
Qed.

(** ** Types of aggregates *)

(** The aggregates of a query have one set of keys and types, and counters are
    integers. *)
Definition agg_types_ok (T : gmap (AggOper * string) VarType) : Prop :=
  ∀ k t, T !! k = Some t → k.1 = COUNT ∨ k.1 = COUNT_DISTINCT → t = UINT64.
Definition agg_typed (T : gmap (AggOper * string) VarType) (a : AggRowT) : Prop := which <$> a = T.
Definition rows_typed (T : gmap (AggOper * string) VarType) (rows : list MapEntry) : Prop :=
  Forall (λ r, agg_typed T r.2.2) rows.

Lemma agg_combine_typed op sv nv : which sv = which nv →
  (op = COUNT ∨ op = COUNT_DISTINCT → which sv = UINT64) →
  ∃ v, agg_combine op sv nv = Some v ∧ which v = which sv.
Proof.
  intros Hw Hc. destruct op, sv, nv; simpl in *; try done; try (by eexists);
    by specialize (Hc ltac:(auto)).
Qed.

Lemma MergeAggRow_typed T a n : agg_types_ok T → agg_typed T a → agg_typed T n →
  ∃ a', MergeAggRow a n = Some a' ∧ agg_typed T a' ∧
    (a ≠ ∅ → ∀ k, a' !! k = a !! k ≫= merge_agg n k).
Proof.
  intros HT Ha Hn. unfold MergeAggRow. destruct (bool_decide_reflect (a = ∅)) as [->|Hne].
  { exists n. by split_and!. }
  assert (∀ k v, a !! k = Some v → ∃ v', merge_agg n k v = Some v' ∧ which v' = which v) as Hm.
  { intros k v Hk. unfold merge_agg.
    assert (which <$> n !! k = Some (which v)) as Ek.
    { rewrite <- lookup_fmap. unfold agg_typed in *. rewrite Hn, <- Ha, lookup_fmap. by rewrite Hk. }
    destruct (n !! k) as [nv|] eqn:En; [|done]. simpl in Ek. injection Ek as Ek.
    apply agg_combine_typed; [done|]. intros Ho. apply (HT k); [|done].
    unfold agg_typed in Ha. rewrite <- Ha, lookup_fmap. by rewrite Hk. }
  rewrite (proj2 (forallb_forall _ _)).
  2: { intros [k v] Hin%list_elem_of_In%elem_of_map_to_list. apply bool_decide_eq_true. simpl.
       destruct (Hm k v Hin) as (v' & -> & _). by eexists. }
  exists (map_imap (merge_agg n) a). split_and!; [done| |].
  - unfold agg_typed in *. rewrite <- Ha. apply map_eq. intros k.
    rewrite !lookup_fmap, map_lookup_imap. destruct (a !! k) as [v|] eqn:Ek; [|done]. simpl.
    destruct (Hm k v Ek) as (v' & -> & Hw). simpl. by rewrite Hw.
  - intros _ k. by rewrite map_lookup_imap.
Qed.

Lemma MergeAggRow_empty n : MergeAggRow ∅ n = Some n.
Proof. unfold MergeAggRow. by rewrite bool_decide_eq_true_2. Qed.

Lemma agg_fold_typed T l : agg_types_ok T → Forall (agg_typed T) l → l ≠ [] →
  ∃ a, agg_fold l = Some a ∧ agg_typed T a.
Proof.
  intros HT Hl Hne. induction l as [|n l IH] using rev_ind; [done|].
  apply Forall_app in Hl as [Hl Hn]. apply Forall_cons in Hn as [Hn _]. rewrite agg_fold_snoc.
  destruct (decide (l = [])) as [->|Hl'].
  - exists n. split; [by rewrite <- MergeAggRow_empty|done].
  - destruct (IH Hl Hl') as (b & -> & Hb).
    destruct (MergeAggRow_typed T b n HT Hb Hn) as (a & E & Ha & _). exists a. done.
Qed.

Lemma feed_app rows1 rows2 out : feed (rows1 ++ rows2) out = feed rows1 out ≫= feed rows2.
Proof.
  revert out. induction rows1 as [|[k [m a]] rows1 IH]; intros out; [done|]. simpl.
  destruct (MergeFullRow k m a out) as [out'|]; [apply IH|done].
Qed.

Lemma MergeFullRow_typed T k m a out : agg_types_ok T → agg_typed T a → rows_typed T out →
  ∃ out', MergeFullRow k m a out = Some out' ∧ rows_typed T out'.
Proof.
  intros HT Ha Hout. unfold MergeFullRow.
  assert (rows_typed T (mm_insert (k, (m, a)) out)) as Hi.
  { eapply Forall_perm; [apply mm_insert_perm|by constructor]. }
  destruct (mm_find k out) as [[[before [k' [m' a']]] after]|] eqn:Ef; [|by eexists].
  case_decide; [|by eexists]. apply mm_find_some in Ef as [-> _].
  apply Forall_app in Hout as [Hb [Ha' Haf]%Forall_cons].
  destruct (MergeAggRow_typed T a' a HT Ha' Ha) as (a'' & -> & Ht & _). simpl.
  eexists. split; [done|]. apply Forall_app. split; [done|by constructor].
Qed.

(** Feeding typed rows without key collisions groups them. *)
Lemma feed_grouped_typed T rows : agg_types_ok T → rows_typed T rows → no_collision rows →
  ∃ out, feed rows [] = Some out ∧ grouped rows out ∧ rows_typed T out.
Proof.
  intros HT. induction rows as [|r rows IH] using rev_ind; intros Hty Hnc.
  { exists []. split; [done|]. split; [split; try by intros ? ?%not_elem_of_nil|constructor].
    constructor. }
  apply Forall_app in Hty as [Hty Hr]. apply Forall_cons in Hr as [Hr _].
  destruct (IH Hty (no_collision_sub _ _ Hnc)) as (out & E & G & Ho).
  destruct (MergeFullRow_typed T r.1 r.2.1 r.2.2 out HT Hr Ho) as (out' & Em & Ho').
  exists out'. rewrite feed_app, E. simpl. destruct r as [k [m a]]. simpl in *. rewrite Em.
  split_and!; [done| |done]. by eapply (MergeFullRow_grouped rows out (k, (m, a))).
Qed.

(** ** Integer aggregates *)

(** Two integer values of one aggregate. *)
Definition u64_comb (op : AggOper) (a b : Z) : Z :=
  match op with
  | SUM | COUNT | COUNT_DISTINCT => u64 (a + b)
  | MAX => Z.max a b
  | MIN => Z.min a b
  | _ => a
  end.

(** What the aggregate of a list of integers is meant to be. *)
Definition reduce (op : AggOper) (vs : list Z) : Z :=
  match op with
  | SUM | COUNT | COUNT_DISTINCT => u64 (sum_list vs)
  | MAX => foldr Z.max (hd 0 vs) vs
  | MIN => foldr Z.min (hd 0 vs) vs
  | _ => hd 0 vs
  end.

Lemma agg_combine_u64 op a b : agg_combine op (SvU64 a) (SvU64 b) = Some (SvU64 (u64_comb op a b)).
Proof.
  destruct op; simpl; try done.
  - destruct (Z.ltb_spec b a); repeat f_equal; lia.
  - destruct (Z.ltb_spec a b); repeat f_equal; lia.
Qed.

Lemma u64_comb_assoc op a b c : u64_comb op (u64_comb op a b) c = u64_comb op a (u64_comb op b c).
Proof.
  destruct op; simpl; try done; try lia; unfold u64;
    rewrite Zplus_mod_idemp_l, Zplus_mod_idemp_r; f_equal; lia.
Qed.

Lemma sum_list_app l1 l2 : sum_list (l1 ++ l2) = sum_list l1 + sum_list l2.
Proof. unfold sum_list. induction l1 as [|x l1 IH]; simpl; [done|]. rewrite IH. lia. Qed.

Lemma reduce_snoc op vs v : vs ≠ [] → reduce op (vs ++ [v]) = u64_comb op (reduce op vs) v.
Proof.
  intros Hne. assert (hd 0 (vs ++ [v]) = hd 0 vs) as Hh by (by destruct vs).
  assert (∀ d l, foldr Z.max d (l ++ [v]) = Z.max (foldr Z.max d l) v) as Hmax.
  { intros d l. induction l as [|x l IH]; simpl; [lia|]. rewrite IH. lia. }
  assert (∀ d l, foldr Z.min d (l ++ [v]) = Z.min (foldr Z.min d l) v) as Hmin.
  { intros d l. induction l as [|x l IH]; simpl; [lia|]. rewrite IH. lia. }
  destruct op; simpl; rewrite ?Hh, ?Hmax, ?Hmin; try done; rewrite sum_list_app; simpl;
    rewrite Z.add_0_r; unfold u64; by rewrite Zplus_mod_idemp_l.
Qed.

Lemma reduce_single op v : is_u64 v → reduce op [v] = v.
Proof.
  intros Hv. destruct op; simpl; try done; try lia; by rewrite Z.add_0_r, u64_small.
Qed.

(** The integers of one aggregate in a list of rows. *)
Definition column_values (k : AggOper * string) (l : list AggRowT) (vs : list Z) : Prop :=
  Forall2 (λ a v, a !! k = Some (SvU64 v) ∧ is_u64 v) l vs.

Lemma agg_fold_value T k l a vs : agg_types_ok T → Forall (agg_typed T) l → l ≠ [] →
  agg_fold l = Some a → column_values k l vs → a !! k = Some (SvU64 (reduce k.1 vs)).
Proof.
  intros HT Hl Hne. revert a vs. induction l as [|n l IH] using rev_ind; [done|].
  intros a vs Hf Hvs. apply Forall_app in Hl as [Hl Hn]. apply Forall_cons in Hn as [Hn _].
  apply Forall2_app_inv_l in Hvs as (vs1 & vs2 & Hvs1 & Hvs2 & ->).
  apply Forall2_cons_inv_l in Hvs2 as (v & ? & [Hv Hr] & ->%Forall2_nil_inv_l & ->).
  rewrite agg_fold_snoc in Hf. destruct (decide (l = [])) as [->|Hl'].
  - apply Forall2_nil_inv_l in Hvs1 as ->. simpl in Hf. rewrite MergeAggRow_empty in Hf.
    injection Hf as <-. simpl app. by rewrite reduce_single.
  - destruct (agg_fold_typed T l HT Hl Hl') as (b & Eb & Hb). rewrite Eb in Hf. simpl in Hf.
    destruct (MergeAggRow_typed T b n HT Hb Hn) as (a' & Ea & _ & Hk).
    rewrite Ea in Hf. injection Hf as <-.
    specialize (IH Hl Hl' b vs1 Eb Hvs1).
    rewrite Hk by (intros ->; by rewrite lookup_empty in IH). rewrite IH. simpl.
    unfold merge_agg. rewrite Hv. rewrite agg_combine_u64, reduce_snoc; [done|].
    intros ->. by apply Forall2_nil_inv_r in Hvs1.
Qed.

(** All aggregates are integers. *)
Definition all_u64 (T : gmap (AggOper * string) VarType) : Prop := ∀ k t, T !! k = Some t → t = UINT64.

Lemma all_u64_ok T : all_u64 T → agg_types_ok T.
Proof. intros HT k t Hk _. by eapply HT. Qed.

Lemma typed_lookup T a k : all_u64 T → agg_typed T a →
  (T !! k = None ∧ a !! k = None) ∨ (∃ v, is_Some (T !! k) ∧ a !! k = Some (SvU64 v)).
Proof.
  intros HT Ha. unfold agg_typed in Ha.
  assert (T !! k = which <$> a !! k) as E by (by rewrite <- Ha, lookup_fmap).
  destruct (a !! k) as [v|]; simpl in E; [right|by left].
  destruct v; try (specialize (HT _ _ E); discriminate HT). eexists. split; [by eexists|done].
Qed.

Lemma MergeAggRow_assoc T a b c : all_u64 T → agg_typed T a → agg_typed T b → agg_typed T c →
  MergeAggRow a b ≫= (λ ab, MergeAggRow ab c) = MergeAggRow b c ≫= MergeAggRow a.
Proof.
  intros HT Ha Hb Hc. pose proof (all_u64_ok T HT) as HT'.
  destruct (decide (a = ∅)) as [->|Hane].
  { assert (T = ∅) as -> by (unfold agg_typed in Ha; by rewrite <- Ha, fmap_empty).
    assert (∀ x, agg_typed ∅ x → x = ∅) as Hx by (intros x Hx; by apply fmap_empty_iff in Hx).
    rewrite (Hx b Hb), (Hx c Hc). rewrite MergeAggRow_empty. simpl. by rewrite MergeAggRow_empty. }
  assert (∀ x, agg_typed T x → x ≠ ∅) as Hne.
  { intros x Hx ->. apply Hane. unfold agg_typed in *. rewrite fmap_empty in Hx.
    rewrite <- Hx in Ha. by apply fmap_empty_iff in Ha. }
  destruct (MergeAggRow_typed T a b HT' Ha Hb) as (ab & Eab & Tab & Kab).
  destruct (MergeAggRow_typed T b c HT' Hb Hc) as (bc & Ebc & Tbc & Kbc).
  rewrite Eab, Ebc. simpl.
  destruct (MergeAggRow_typed T ab c HT' Tab Hc) as (x & Ex & _ & Kx).
  destruct (MergeAggRow_typed T a bc HT' Ha Tbc) as (y & Ey & _ & Ky).
  rewrite Ex, Ey. f_equal. apply map_eq. intros k.
  rewrite Kx, Ky, Kab by auto. specialize (Kbc (Hne b Hb) k).
  destruct (typed_lookup T a k HT Ha) as [[HTk ->]|(va & HTk & ->)]; [done|]. simpl.
  destruct (typed_lookup T b k HT Hb) as [[E _]|(vb & _ & Eb)]; [by destruct HTk; simplify_eq|].
  destruct (typed_lookup T c k HT Hc) as [[E _]|(vc & _ & Ec)]; [by destruct HTk; simplify_eq|].
  unfold merge_agg in *. rewrite Eb, Ec in *. simpl in Kbc.
  rewrite agg_combine_u64 in *. simpl. rewrite Kbc, !agg_combine_u64. by rewrite u64_comb_assoc.
Qed.

Lemma agg_fold_app T l1 l2 : all_u64 T → Forall (agg_typed T) l1 → Forall (agg_typed T) l2 →
  l2 ≠ [] → agg_fold (l1 ++ l2) = agg_fold l1 ≫= λ a, agg_fold l2 ≫= MergeAggRow a.
Proof.
  intros HT H1. induction l2 as [|n l2 IH] using rev_ind; intros H2 Hne; [done|].
  apply Forall_app in H2 as [H2 Hn]. apply Forall_cons in Hn as [Hn _].
  rewrite app_assoc, !agg_fold_snoc. pose proof (all_u64_ok T HT) as HT'.
  destruct (decide (l2 = [])) as [->|Hl2].
  { rewrite app_nil_r. simpl. by rewrite MergeAggRow_empty. }
  rewrite IH by done. destruct (agg_fold_typed T l2 HT' H2 Hl2) as (b & -> & Hb).
  destruct (decide (l1 = [])) as [->|Hl1].
  { simpl. rewrite MergeAggRow_empty. simpl. destruct (MergeAggRow b n) as [bn|]; simpl; [|done].
    by rewrite MergeAggRow_empty. }
  destruct (agg_fold_typed T l1 HT' H1 Hl1) as (a & -> & Ha). simpl.
  by apply (MergeAggRow_assoc T).
Qed.

(** A group and its partial aggregate: none for an empty group. *)
Definition partial_of (g : list AggRowT) (bs : list AggRowT) : Prop :=
  (g = [] ∧ bs = []) ∨ (g ≠ [] ∧ ∃ b, agg_fold g = Some b ∧ bs = [b]).

Lemma agg_fold_partials T gs bss : all_u64 T → Forall (Forall (agg_typed T)) gs →
  Forall2 partial_of gs bss → agg_fold (concat gs) = agg_fold (concat bss).
Proof.
  intros HT. revert bss. induction gs as [|g gs IH] using rev_ind; intros bss Hg H2.
  { by apply Forall2_nil_inv_l in H2 as ->. }
  apply Forall_app in Hg as [Hgs Hg]. apply Forall_cons in Hg as [Hg _].
  apply Forall2_app_inv_l in H2 as (bss1 & bss2 & H1 & H2 & ->).
  apply Forall2_cons_inv_l in H2 as (bs & ? & Hp & ->%Forall2_nil_inv_l & ->).
  rewrite !concat_app, !concat_cons. simpl. rewrite !app_nil_r.
  destruct Hp as [[-> ->]|(Hne & b & Eb & ->)]; [rewrite !app_nil_r; auto|].
  rewrite (agg_fold_app T) by (done || by apply Forall_concat).
  rewrite Eb, agg_fold_snoc, (IH bss1) by done. by destruct (agg_fold (concat bss1)).
Qed.

(** In a grouped output the entry of some unique columns is the only one. *)
Lemma grouped_partial rows out m : no_collision rows → grouped rows out →
  partial_of (group rows m) (group out m).
Proof.
  intros [Hwf Hc] G. destruct (decide (group rows m = [])) as [Hn|Hn].
  - left. split; [done|]. apply group_nil. intros e He Em.
    destruct (gr_from _ _ G e He) as (r & Hr & _ & E2).
    assert (r.2.2 ∈ group rows m) as Hin; [|rewrite Hn in Hin; by apply not_elem_of_nil in Hin].
    apply list_elem_of_fmap. exists r. split; [done|]. apply list_elem_of_filter. by rewrite E2.
  - right. split; [done|].
    destruct (group rows m) as [|a0 l] eqn:Eg; [done|].
    assert (a0 ∈ group rows m) as (r & -> & [Hm Hr]%list_elem_of_filter)%list_elem_of_fmap
      by (rewrite Eg; set_solver).
    destruct (gr_all _ _ G r Hr) as (e & He & E1 & E2).
    exists e.2.2. rewrite <- Eg, <- Hm, <- E2. split; [by apply (gr_agg _ _ G)|].
    apply list_elem_of_split in He as (before & after & ->).
    assert (key_wf e.1) as Hk by (rewrite E1; unfold mm_wf in Hwf; rewrite Forall_forall in Hwf; auto).
    assert (∀ e', e' ∈ before ++ after → e'.2.1 ≠ e.2.1) as Hother.
    { intros e' He' Em. apply (mm_sorted_other before after e e' Hk (gr_sorted _ _ G) He').
      destruct (gr_from _ _ G e') as (r' & Hr' & F1 & F2); [set_solver|].
      rewrite <- F1, E1. apply Hc; [done|done|]. by rewrite F2, Em. }
    rewrite group_app, group_cons_eq by done.
    rewrite (group_nil before), (group_nil after); [done|..]; intros x Hx; apply Hother; set_solver.
Qed.

Lemma group_concat rowss m : group (concat rowss) m = concat ((λ rows, group rows m) <$> rowss).
Proof. induction rowss as [|rows rowss IH]; [done|]. simpl. rewrite group_app. by rewrite IH. Qed.

Lemma group_typed T rows m : rows_typed T rows → Forall (agg_typed T) (group rows m).
Proof.
  intros Ht. apply Forall_forall. intros a (r & -> & [_ Hr]%list_elem_of_filter)%list_elem_of_fmap.
  unfold rows_typed in Ht. rewrite Forall_forall in Ht. auto.
Qed.

(** The outputs of the chunks, put together. *)
Record chunked (T : gmap (AggOper * string) VarType) (chunks outs : list (list MapEntry)) : Prop := {
  ch_grouped : Forall2 (λ c o, no_collision c ∧ grouped c o) chunks outs;
  ch_nc : no_collision (concat outs);
  ch_typed : rows_typed T (concat outs)
}.

Lemma chunked_from chunks outs : Forall2 (λ c o, no_collision c ∧ grouped c o) chunks outs →
  (∀ e, e ∈ concat outs → ∃ r, r ∈ concat chunks ∧ r.1 = e.1 ∧ r.2.1 = e.2.1) ∧
  (∀ r, r ∈ concat chunks → ∃ e, e ∈ concat outs ∧ e.1 = r.1 ∧ e.2.1 = r.2.1).
Proof.
  induction 1 as [|c o chunks outs [_ G] _ [IH1 IH2]]; simpl.
  { split; by intros ? ?%not_elem_of_nil. }
  split.
  - intros e [He|He]%elem_of_app.
    + destruct (gr_from _ _ G e He) as (r & Hr & E). exists r. set_solver.
    + destruct (IH1 e He) as (r & Hr & E). exists r. set_solver.
  - intros r [Hr|Hr]%elem_of_app.
    + destruct (gr_all _ _ G r Hr) as (e & He & E). exists e. set_solver.
    + destruct (IH2 r Hr) as (e & He & E). exists e. set_solver.
Qed.

Lemma chunks_grouped T chunks outs : all_u64 T → rows_typed T (concat chunks) →
  no_collision (concat chunks) → Forall2 (λ c o, feed c [] = Some o) chunks outs →
  chunked T chunks outs.
Proof.
  intros HT Hty Hnc H2.
  assert (Forall2 (λ c o, (no_collision c ∧ grouped c o) ∧ rows_typed T o) chunks outs) as Hall.
  { clear -HT Hty Hnc H2. induction H2 as [|c o chunks outs Hf H2 IH]; [constructor|].
    simpl in Hty, Hnc. apply Forall_app in Hty as [Hc Hty].
    pose proof (no_collision_sub _ _ Hnc) as Hnc1.
    destruct (feed_grouped_typed T c (all_u64_ok T HT) Hc Hnc1) as (o' & Ho & G & Ht).
    constructor; [by simplify_eq|]. apply IH; [done|].
    destruct Hnc as [Hw Hcc]. apply Forall_app in Hw as [_ Hw]. split; [done|].
    intros r1 r2 H1' H2'. apply Hcc; set_solver. }
  assert (Forall2 (λ c o, no_collision c ∧ grouped c o) chunks outs) as Hg
    by (eapply Forall2_impl; [exact Hall|naive_solver]).
  destruct (chunked_from chunks outs Hg) as [Hfrom _].
  split.
  - done.
  - destruct Hnc as [Hw Hcc]. split.
    + apply Forall_forall. intros e He. destruct (Hfrom e He) as (r & Hr & <- & _).
      unfold mm_wf in Hw. rewrite Forall_forall in Hw. auto.
    + intros e1 e2 He1 He2. destruct (Hfrom e1 He1) as (r1 & Hr1 & <- & <-).
      destruct (Hfrom e2 He2) as (r2 & Hr2 & <- & <-). auto.
  - apply Forall_concat. clear -Hall. induction Hall; constructor; naive_solver.
Qed.

Lemma chunked_agg T chunks outs m : all_u64 T → rows_typed T (concat chunks) →
  chunked T chunks outs →
  agg_fold (group (concat chunks) m) = agg_fold (group (concat outs) m).
Proof.
  intros HT Hty [Hg _ _]. rewrite !group_concat. apply (agg_fold_partials T); [done|..].
  - apply Forall_fmap, Forall_forall. intros c Hc. apply group_typed.
    unfold rows_typed in *. rewrite Forall_forall in *. intros r Hr. apply Hty.
    apply list_elem_of_In, in_concat. exists c. by split; apply list_elem_of_In.
  - apply Forall2_fmap. eapply Forall2_impl; [exact Hg|]. intros c o [Hnc G].
    by apply grouped_partial.
Qed.

(** Grouped outputs of inputs with the same rows and aggregates are equal. *)
Lemma grouped_ext rows1 rows2 out1 out2 :
  no_collision rows1 → no_collision rows2 → grouped rows1 out1 → grouped rows2 out2 →
  (∀ k m, (∃ r, r ∈ rows1 ∧ r.1 = k ∧ r.2.1 = m) ↔ (∃ r, r ∈ rows2 ∧ r.1 = k ∧ r.2.1 = m)) →
  (∀ m, agg_fold (group rows1 m) = agg_fold (group rows2 m)) → out1 = out2.
Proof.
  intros N1 N2 G1 G2 Hr Ha.
  assert (∀ rows out, no_collision rows → grouped rows out → mm_wf out) as Hwf.
  { intros rows out [Hw _] G. apply Forall_forall. intros e He.
    destruct (gr_from _ _ G e He) as (r & Hin & <- & _). unfold mm_wf in Hw.
    rewrite Forall_forall in Hw. auto. }
  assert (∀ rows rows' out out', grouped rows out → grouped rows' out' →
    (∀ k m, (∃ r, r ∈ rows ∧ r.1 = k ∧ r.2.1 = m) → (∃ r, r ∈ rows' ∧ r.1 = k ∧ r.2.1 = m)) →
    (∀ m, agg_fold (group rows m) = agg_fold (group rows' m)) → ∀ e, e ∈ out → e ∈ out') as Hsub.
  { intros rows rows' out out' G G' Hrr Haa e He.
    destruct (Hrr e.1 e.2.1 (gr_from _ _ G e He)) as (r & Hin & E1 & E2).
    destruct (gr_all _ _ G' r Hin) as (e' & He' & F1 & F2).
    pose proof (gr_agg _ _ G e He) as A. pose proof (gr_agg _ _ G' e' He') as A'.
    rewrite F2, E2, <- Haa, A in A'. injection A' as A'.
    destruct e as [k [m a]], e' as [k' [m' a']]. simpl in *. by simplify_eq. }
  apply mm_sorted_ext; [exact (Hwf rows1 out1 N1 G1)|exact (Hwf rows2 out2 N2 G2)
    |apply G1|apply G2|].
  intros e. split; [by eapply Hsub; [exact G1|exact G2|apply Hr|]|].
  eapply Hsub; [exact G2|exact G1|intros k m; apply Hr|done].
Qed.
(** ** The order of the rows *)

(** The aggregates that do not depend on the order of the values. *)
Definition order_free (op : AggOper) : bool :=
  match op with SUM | COUNT | COUNT_DISTINCT | MAX | MIN => true | _ => false end.
Definition all_order_free (T : gmap (AggOper * string) VarType) : Prop :=
  ∀ k, is_Some (T !! k) → order_free k.1 = true.

Lemma u64_comb_comm op a b : order_free op = true → u64_comb op a b = u64_comb op b a.
Proof. destruct op; simpl; try done; intros _; try lia; by rewrite Z.add_comm. Qed.

Lemma MergeAggRow_comm T a b : all_u64 T → all_order_free T → agg_typed T a → agg_typed T b →
  MergeAggRow a b = MergeAggRow b a.
Proof.
  intros HT Ho Ha Hb. pose proof (all_u64_ok T HT) as HT'.
  destruct (decide (T = ∅)) as [->|Hne].
  { apply fmap_empty_iff in Ha as ->, Hb as ->. done. }
  assert (∀ x, agg_typed T x → x ≠ ∅) as Hx.
  { intros x Hx ->. apply Hne. by rewrite <- Hx, fmap_empty. }
  destruct (MergeAggRow_typed T a b HT' Ha Hb) as (x & -> & _ & Kx).
  destruct (MergeAggRow_typed T b a HT' Hb Ha) as (y & -> & _ & Ky).
  f_equal. apply map_eq. intros k. rewrite Kx, Ky by auto.
  destruct (typed_lookup T a k HT Ha) as [[E1 Ea]|(va & HTk & Ea)],
    (typed_lookup T b k HT Hb) as [[E2 Eb]|(vb & HTk' & Eb)];
    rewrite Ea, Eb; simpl; [done|by destruct HTk'; simplify_eq|by destruct HTk; simplify_eq|].
  unfold merge_agg. rewrite Ea, Eb, !agg_combine_u64. by rewrite u64_comb_comm by auto.
Qed.

Lemma agg_fold_cons T a l : all_u64 T → agg_typed T a → Forall (agg_typed T) l → l ≠ [] →
  agg_fold (a :: l) = agg_fold l ≫= MergeAggRow a.
Proof.
  intros HT Ha Hl Hne. change (a :: l) with ([a] ++ l). rewrite (agg_fold_app T) by (done || by constructor).
  change (agg_fold [a]) with (MergeAggRow ∅ a). by rewrite MergeAggRow_empty.
Qed.

Lemma agg_fold_perm T l1 l2 : all_u64 T → all_order_free T → Permutation l1 l2 →
  Forall (agg_typed T) l1 → agg_fold l1 = agg_fold l2.
Proof.
  intros HT Ho. induction 1 as [|a l1 l2 Hp IH|a b l|l1 l2 l3 H1 IH1 H2 IH2]; intros Hty; [done|..].
  - apply Forall_cons in Hty as [Ha Hl]. destruct (decide (l1 = [])) as [->|Hne].
    { by apply Permutation_nil in Hp as ->. }
    rewrite !(agg_fold_cons T), IH; [done|..]; try done.
    + by eapply Forall_perm.
    + intros ->. by apply Permutation_sym, Permutation_nil in Hp.
  - apply Forall_cons in Hty as [Hb [Ha Hl]%Forall_cons].
    change (b :: a :: l) with ([b; a] ++ l). change (a :: b :: l) with ([a; b] ++ l).
    assert (agg_fold [b; a] = agg_fold [a; b]) as E.
    { unfold agg_fold. simpl. rewrite !MergeAggRow_empty. simpl. by apply (MergeAggRow_comm T). }
    destruct (decide (l = [])) as [->|Hne]; [done|].
    rewrite !(agg_fold_app T), E; first done; try done; by repeat constructor.
  - rewrite IH1 by done. apply IH2. by eapply Forall_perm.
Qed.

Lemma no_collision_perm rows1 rows2 : Permutation rows1 rows2 → no_collision rows1 → no_collision rows2.
Proof.
  intros Hp [Hw Hc]. split; [by eapply Forall_perm|].
  intros r1 r2 H1' H2'. apply Hc; by rewrite Hp.
Qed.

(** Feeding the rows in another order gives the same multimap. *)
Lemma feed_perm T rows1 rows2 : all_u64 T → all_order_free T → Permutation rows1 rows2 →
  rows_typed T rows1 → no_collision rows1 → feed rows1 [] = feed rows2 [].
Proof.
  intros HT Ho Hp Hty Hnc. pose proof (no_collision_perm _ _ Hp Hnc) as Hnc2.
  assert (rows_typed T rows2) as Hty2 by (by eapply Forall_perm).
  destruct (feed_grouped_typed T rows1 (all_u64_ok T HT) Hty Hnc) as (o1 & -> & G1 & _).
  destruct (feed_grouped_typed T rows2 (all_u64_ok T HT) Hty2 Hnc2) as (o2 & -> & G2 & _).
  f_equal. eapply grouped_ext; [exact Hnc|exact Hnc2|exact G1|exact G2|..].
  - intros k m. by setoid_rewrite Hp.
  - intros m. apply (agg_fold_perm T); [done|done| |by apply group_typed].
    unfold group. by rewrite Hp.
Qed.
End grouping.

(** ** Loading and merging *)

Section loading.
Context `{Digests, SubValOrder, StatHash}.

(** A sample: its UUID, its time and its attributes. *)
Abbreviation sample := (Z * Z * list StatEntry)%type.

(** The row [LoadRow] feeds into the multimap. *)
Definition row_of (s : StatsSelect) (x : sample) : option MapEntry :=
  let '(uuid, timestamp, row) := x in
  let uniks := build_uniks s uuid timestamp row in
  ukey ← build_ukey s uniks;
  narows ← build_aggs s uniks row;
  Some (ukey, (uniks, narows)).

Fixpoint load_all (s : StatsSelect) (samples : list sample) (output : MapBufT) : option MapBufT :=
  match samples with
  | [] => Some output
  | (uuid, timestamp, row) :: samples' =>
      match LoadRow s uuid timestamp row output with
      | None => None
      | Some (_, output') => load_all s samples' output'
      end
  end.

Lemma load_all_feed s samples out : status_ s = true →
  load_all s samples out = mapM (row_of s) samples ≫= λ rows, feed rows out.
Proof.
  intros Hs. revert out. induction samples as [|[[u t] row] samples IH]; intros out; [done|]. simpl.
  unfold LoadRow. rewrite Hs. simpl.
  destruct (build_ukey s (build_uniks s u t row)) as [k|]; simpl; [|done].
  destruct (build_aggs s (build_uniks s u t row) row) as [n|]; simpl; [|done].
  destruct (MergeFullRow k (build_uniks s u t row) n out) as [out'|] eqn:E; simpl.
  - rewrite IH. destruct (mapM (row_of s) samples); simpl; [|done]. by rewrite E.
  - destruct (mapM (row_of s) samples); simpl; [|done]. by rewrite E.
Qed.

(** The sort slots lie before the slot of the hash. *)
Definition slots (s : StatsSelect) : nat := (base.size (sort_cols_ s) + base.size (agg_sort_cols_ s))%nat.
Definition slots_ok (s : StatsSelect) : Prop :=
  map_Forall (λ _ slot, (slot < slots s)%nat) (sort_cols_ s).

Lemma build_ukey_hash s m k : slots_ok s → build_ukey s m = Some k →
  k !! slots s = Some (SvU64 (hash_range m)).
Proof.
  intros Hok. unfold build_ukey. fold (slots s). revert k. revert Hok. unfold slots_ok.
  set (f := λ name slot key, _). set (init := replicate _ _ ++ _).
  assert (∀ cols : gmap string nat, map_Forall (λ _ slot, (slot < slots s)%nat) cols →
    ∀ k, map_fold f (Some init) cols = Some k →
      length k = S (slots s) ∧ k !! slots s = Some (SvU64 (hash_range m))) as Hgen.
  { intros cols. apply (map_fold_weak_ind (λ r cols,
      map_Forall (λ _ slot, (slot < slots s)%nat) cols → ∀ k, r = Some k →
      length k = S (slots s) ∧ k !! slots s = Some (SvU64 (hash_range m)))).
    - intros _ k [= <-]. unfold init. rewrite List.length_app, length_replicate. split; [simpl; lia|].
      rewrite lookup_app_r by (rewrite length_replicate; lia). rewrite length_replicate, Nat.sub_diag. done.
    - intros name slot cols' r Hnew IH Hall k. unfold f at 1.
      apply map_Forall_insert in Hall as [Hslot Hall]; [|done].
      destruct r as [k0|]; simpl; [|done]. destruct (m !! name) as [v|]; simpl; [|done].
      unfold set_slot. destruct (Nat.ltb_spec slot (length k0)); [|done]. intros [= <-].
      destruct (IH Hall k0 eq_refl) as [Hl Hk]. split; [by rewrite length_insert|].
      rewrite list_lookup_insert_ne by lia. done. }
  intros Hok k Hk. by apply (Hgen _ Hok).
Qed.

(** The hash tells the groups apart, and no sort column is floating point. *)
Definition hash_separates (s : StatsSelect) (rows : list MapEntry) : Prop :=
  slots_ok s ∧ Forall (λ r, key_wf r.1) rows ∧
  ∀ r1 r2, r1 ∈ rows → r2 ∈ rows →
    hash_range r1.2.1 = hash_range r2.2.1 → r1.2.1 = r2.2.1.

Lemma load_no_collision s samples rows : mapM (row_of s) samples = Some rows →
  hash_separates s rows → no_collision rows.
Proof.
  intros Hm (Hs & Hwf & Hh). split; [done|].
  assert (∀ r, r ∈ rows → build_ukey s r.2.1 = Some r.1) as Hk.
  { apply mapM_Some in Hm. intros r [i Hi]%list_elem_of_lookup.
    destruct (Forall2_lookup_r _ _ _ _ _ Hm Hi) as ([[u t] row] & _ & Hr). unfold row_of in Hr.
    destruct (build_ukey s (build_uniks s u t row)) as [k|] eqn:E; simpl in Hr; [|done].
    destruct (build_aggs s (build_uniks s u t row) row); simpl in Hr; [|done].
    by injection Hr as <-. }
  intros r1 r2 H1' H2'. specialize (Hk r1 H1') as K1. specialize (Hk r2 H2') as K2. split.
  - intros E. apply Hh; [done|done|]. apply build_ukey_hash in K1, K2; [|done..].
    rewrite E in K1. congruence.
  - intros E. rewrite E in K1. congruence.
Qed.

(** C8.  Loading samples whose groups the hash tells apart gives one entry per
    group, in key order, and each integer aggregate of an entry is the sum
    (modulo 2^64), count, maximum or minimum over the samples of its group. *)
Theorem load_aggregates s samples rows T :
  status_ s = true → mapM (row_of s) samples = Some rows → hash_separates s rows →
  agg_types_ok T → rows_typed T rows →
  ∃ out, load_all s samples [] = Some out ∧ mm_sorted out ∧
    (∀ m, (∃ r, r ∈ rows ∧ r.2.1 = m) ↔ (∃ e, e ∈ out ∧ e.2.1 = m)) ∧
    (∀ e k vs, e ∈ out → column_values k (group rows e.2.1) vs →
       e.2.2 !! k = Some (SvU64 (reduce k.1 vs))).
Proof.
  intros Hs Hm Hh HT Hty. pose proof (load_no_collision s samples rows Hm Hh) as Hnc.
  destruct (feed_grouped_typed T rows HT Hty Hnc) as (out & E & G & _).
  exists out. split_and!.
  - rewrite load_all_feed by done. by rewrite Hm.
  - apply G.
  - intros m. split.
    + intros (r & Hr & <-). destruct (gr_all _ _ G r Hr) as (e & He & _ & E2). by exists e.
    + intros (e & He & <-). destruct (gr_from _ _ G e He) as (r & Hr & _ & E2). by exists r.
  - intros e k vs He Hv.
    apply (agg_fold_value T k (group rows e.2.1)); [done|by apply group_typed| |by apply G|done].
    destruct (gr_from _ _ G e He) as (r & Hr & _ & E2). intros Hn.
    assert (r.2.2 ∈ group rows e.2.1) as Hin; [|rewrite Hn in Hin; by apply not_elem_of_nil in Hin].
    apply list_elem_of_fmap. exists r. split; [done|]. by apply list_elem_of_filter.
Qed.

Lemma Merge_feed cd input out : (∀ e, e ∈ input → e.2.1 !! cd = None) →
  Merge cd input out = feed input out.
Proof.
  revert out. induction input as [|[k [m a]] input IH]; intros out Hcd; [done|]. simpl.
  assert (m !! cd = None) as -> by (apply (Hcd (k, (m, a))); set_solver).
  destruct (MergeFullRow k m a out); [|done]. apply IH. set_solver.
Qed.

Lemma merge_all_feed cd inputs out : (∀ e, e ∈ concat inputs → e.2.1 !! cd = None) →
  merge_all cd inputs out = feed (concat inputs) out.
Proof.
  revert out. induction inputs as [|i inputs IH]; intros out Hcd; [done|]. simpl.
  rewrite feed_app, Merge_feed by set_solver. destruct (feed i out); simpl; [|done].
  apply IH. set_solver.
Qed.

Lemma chunk_rows s chunks outs rows : status_ s = true →
  mapM (row_of s) (concat chunks) = Some rows →
  Forall2 (λ c o, load_all s c [] = Some o) chunks outs →
  ∃ rowss, rows = concat rowss ∧ Forall2 (λ c o, feed c [] = Some o) rowss outs.
Proof.
  intros Hs Hm Hl. revert rows Hm. induction Hl as [|c o chunks outs Hc _ IH]; intros rows Hm.
  { exists []. simpl in Hm. injection Hm as <-. split; [done|constructor]. }
  simpl in Hm. apply mapM_Some, Forall2_app_inv_l in Hm as (r1 & r2 & H1' & H2' & ->).
  apply mapM_Some in H1', H2'. destruct (IH r2 H2') as (rowss & -> & Hf).
  exists (r1 :: rowss). split; [done|]. constructor; [|done].
  rewrite load_all_feed, H1' in Hc by done. done.
Qed.

(** Merging the multimaps of chunks of rows gives that of all rows. *)
Lemma merge_all_chunks T cd rowss outs : all_u64 T → rows_typed T (concat rowss) →
  no_collision (concat rowss) → (∀ r, r ∈ concat rowss → r.2.1 !! cd = None) →
  Forall2 (λ c o, feed c [] = Some o) rowss outs →
  merge_all cd outs [] = feed (concat rowss) [].
Proof.
  intros HT Hty Hnc Hcd Hf.
  destruct (chunks_grouped T rowss outs HT Hty Hnc Hf) as [Hg Hnc' Hty'].
  assert (chunked T rowss outs) as Hch by (by split).
  pose proof (chunked_from rowss outs Hg) as [Hfrom Hto].
  rewrite merge_all_feed.
  2: { intros e He. destruct (Hfrom e He) as (r & Hr & _ & <-). auto. }
  destruct (feed_grouped_typed T (concat outs) (all_u64_ok T HT) Hty' Hnc') as (o1 & -> & G1 & _).
  destruct (feed_grouped_typed T (concat rowss) (all_u64_ok T HT) Hty Hnc) as (o2 & -> & G2 & _).
  f_equal. eapply grouped_ext; [exact Hnc'|exact Hnc|exact G1|exact G2|..].
  - intros k m. split.
    + intros (e & He & <- & <-). apply Hfrom, He.
    + intros (r & Hr & <- & <-). apply Hto, Hr.
  - intros m. symmetry. by apply (chunked_agg T).
Qed.

(** Splitting the samples over parallel chunks and merging the partial
    results gives the multimap of one pass over all samples, for integer
    aggregates that are not sorted by. *)
Theorem parallel_aggregation s chunks outs rows T :
  status_ s = true → mapM (row_of s) (concat chunks) = Some rows → hash_separates s rows →
  all_u64 T → rows_typed T rows → (∀ r, r ∈ rows → r.2.1 !! count_distinct_field_ s = None) →
  Forall2 (λ c o, load_all s c [] = Some o) chunks outs →
  MergeFinal (count_distinct_field_ s) [] outs [] = load_all s (concat chunks) [].
Proof.
  intros Hs Hm Hh HT Hty Hcd Hl. pose proof (load_no_collision s _ rows Hm Hh) as Hnc.
  destruct (chunk_rows s chunks outs rows Hs Hm Hl) as (rowss & -> & Hf).
  simpl. rewrite (merge_all_chunks T _ rowss) by done. rewrite load_all_feed by done. by rewrite Hm.
Qed.
End loading.

(** ** Where the aggregation loses or repeats *)

Section limits.
Context `{Digests, SubValOrder, StatHash}.

Lemma MergeFullRow_same k m a n : key_wf k →
  MergeFullRow k m n [(k, (m, a))] = (λ a', [(k, (m, a'))]) <$> MergeAggRow a n.
Proof.
  intros Hk. unfold MergeFullRow. simpl. rewrite (proj2 (key_equiv_eq k k Hk Hk) eq_refl).
  by rewrite decide_True.
Qed.

(** Two parallel instances that each saw the same single value of the
    COUNT_DISTINCT column report two distinct values: [MergeFinal] counts the
    entries of every input. *)
Theorem count_distinct_overcounts cd ukey uniks v :
  ukey ≠ [] → key_wf ukey → uniks !! cd = Some v →
  let e : MapEntry := (ukey, (uniks, ∅)) in
  ∃ k a, MergeFinal cd [] [[e]; [e]] [] = Some [(k, (delete cd uniks, a))] ∧
    a !! (COUNT_DISTINCT, cd) = Some (SvU64 2).
Proof.
  intros Hne Hk Hv. simpl. rewrite Hv, lookup_empty. rewrite bool_decide_eq_false_2 by done.
  set (k := <[_ := _]> ukey). set (a := <[(COUNT_DISTINCT, cd) := SvU64 1]> (∅ : AggRowT)).
  assert (key_wf k) as Hwf.
  { apply Forall_forall. intros x [->|Hx]%elem_of_insert_inv; [done|].
    unfold key_wf in Hk. rewrite Forall_forall in Hk. auto. }
  change (MergeFullRow k (delete cd uniks) a []) with (Some [(k, (delete cd uniks, a))]).
  simpl. rewrite MergeFullRow_same by done.
  destruct (MergeAggRow_typed {[(COUNT_DISTINCT, cd) := UINT64]} a a) as (a' & -> & _ & Ha).
  - intros k' t [_ <-]%lookup_singleton_Some _. done.
  - unfold agg_typed, a. by rewrite insert_empty, map_fmap_singleton.
  - unfold agg_typed, a. by rewrite insert_empty, map_fmap_singleton.
  - simpl. exists k, a'. split; [done|].
    rewrite Ha by (unfold a; apply insert_non_empty). unfold a, merge_agg. by rewrite lookup_insert_eq.
Qed.

(** When the hash of two different groups is the same, rows of the group
    that came second are not aggregated: only the first entry with the key is
    compared. *)
Theorem collision_splits_group ukey m1 m2 a1 a2 a3 :
  key_wf ukey → m1 ≠ m2 →
  feed [(ukey, (m1, a1)); (ukey, (m2, a2)); (ukey, (m2, a3))] []
  = Some [(ukey, (m1, a1)); (ukey, (m2, a2)); (ukey, (m2, a3))].
Proof.
  intros Hk Hne. assert (key_equiv ukey ukey = true) as He by (by apply key_equiv_eq).
  pose proof (vec_irrefl ukey Hk) as Hi.
  simpl. unfold MergeFullRow at 1. simpl. unfold MergeFullRow at 1. simpl.
  rewrite He, decide_False by done. simpl. rewrite Hi. simpl.
  unfold MergeFullRow. simpl. rewrite He, decide_False by done. simpl. by rewrite Hi.
Qed.
End limits.

(** ** Examples *)

Module StatExamples.
Definition rank (v : SubVal) : Z :=
  match v with
  | SvBlank => 0 | SvString _ => 1 | SvU64 _ => 2 | SvDouble _ => 3 | SvUuid _ => 4
  | SvTDigest _ => 5 | SvCentroid _ => 6
  end.
Definition ltb (x y : SubVal) : bool :=
  match x, y with
  | SvString a, SvString b => String.ltb a b
  | SvU64 a, SvU64 b | SvUuid a, SvUuid b | SvTDigest a, SvTDigest b
  | SvCentroid a, SvCentroid b => a <? b
  | SvDouble a, SvDouble b => SFltb a b
  | _, _ => rank x <? rank y
  end.

Lemma subval_ltb_total : strict_total (λ v, is_sv_double v = false) ltb.
Proof.
  pose proof (st_weak string_ltb_total) as Hs.
  split; [split|].
  - intros x y. destruct x, y; simpl; intros ?? H; try done; reflect_bools; try lia;
      by apply (sw_asym Hs).
  - intros x y z; destruct x, y, z; simpl; intros ??? H1 H2; try done; reflect_bools; try lia;
      by eapply (sw_neg_trans Hs); [..|exact H1|exact H2].
  - intros x y; destruct x, y; simpl; intros ?? H1 H2; try done; reflect_bools; try lia;
      try (f_equal; lia); f_equal; by apply (st_total string_ltb_total).
Qed.

Definition order : SubValOrder := {| sv_ltb := ltb; sv_ltb_total := subval_ltb_total |}.
#[local] Existing Instance order.

Definition digests : Digests := {|
  Centroid_of _ := 0; Centroid_merge a _ := a; TDigest_of _ := 0; TDigest_merge a _ := a;
  Centroid_get_mean _ := S754_zero false; TDigest_percentile _ _ := S754_zero false
|}.
#[local] Existing Instance digests.

(** A hash that reads the integer columns and the length of the others. *)
Definition value_hash (v : SubVal) : Z :=
  match v with SvU64 n => n | SvString s => size s | _ => 0 end.
Definition hash : StatHash := {|
  hash_range m := u64 (map_fold (λ _ v acc, 31 * acc + value_hash v) 0 m);
  hash_range_u64 m := u64_bound _
|}.
#[local] Existing Instance hash.

(** [SELECT name, SUM(x), COUNT(x), MAX(x)]. *)
Definition select : StatsSelect :=
  match StatsSelect_ctor ["name"; "SUM(x)"; "COUNT(x)"; "MAX(x)"]%string with
  | Done s => s | _ => StatsSelect_init end.

Definition entry (n : string) (v : SubVal) : StatEntry := {| se_name := n; se_value := v |}.
Definition sample (n : string) (x : Z) : Z * Z * list StatEntry :=
  (7, 1000, [entry "name" (SvString n); entry "x" (SvU64 x)]).
Definition chunk1 : list (Z * Z * list StatEntry) := [sample "a" 5; sample "bb" 1; sample "a" 3].
Definition chunk2 : list (Z * Z * list StatEntry) := [sample "bb" 4; sample "a" 9].
Definition rows (l : list (Z * Z * list StatEntry)) : list MapEntry :=
  default [] (mapM (row_of select) l).
Definition types : gmap (AggOper * string) VarType :=
  list_to_map [((SUM, "x"%string), UINT64); ((COUNT, "x"%string), UINT64); ((MAX, "x"%string), UINT64)].

(** Decidable forms of the hypotheses. *)
Lemma separates_dec l : bool_decide (map_Forall (λ _ slot, (slot < slots select)%nat) (sort_cols_ select)) = true →
  forallb (λ r, forallb (λ v, negb (is_sv_double v)) r.1) l = true →
  forallb (λ r1, forallb (λ r2,
    negb (hash_range r1.2.1 =? hash_range r2.2.1) || bool_decide (r1.2.1 = r2.2.1)) l) l = true →
  hash_separates select l.
Proof.
  intros H1%bool_decide_eq_true H2 H3. split_and!; [done|..].
  - apply Forall_forall. intros r Hr%list_elem_of_In.
    rewrite forallb_forall in H2. specialize (H2 r Hr). rewrite forallb_forall in H2.
    apply Forall_forall. intros v Hv%list_elem_of_In. by apply negb_true_iff, H2.
  - intros r1 r2 Hr1%list_elem_of_In Hr2%list_elem_of_In E. rewrite forallb_forall in H3.
    specialize (H3 r1 Hr1). rewrite forallb_forall in H3. specialize (H3 r2 Hr2).
    rewrite E, Z.eqb_refl in H3. by apply bool_decide_eq_true in H3.
Defined.

Lemma typed_dec l : forallb (λ r, bool_decide (which <$> r.2.2 = types)) l = true → rows_typed types l.
Proof.
  intros Hl. apply Forall_forall. intros r Hr%list_elem_of_In. rewrite forallb_forall in Hl.
  specialize (Hl r Hr). by apply bool_decide_eq_true in Hl.
Defined.

Lemma types_u64 : all_u64 types.
Proof.
  intros k t Hk. unfold types in Hk. apply elem_of_list_to_map_2 in Hk.
  rewrite !elem_of_cons in Hk. destruct Hk as [[= _ ->]|[[= _ ->]|[[= _ ->]|Hk]]]; try done.
  by apply not_elem_of_nil in Hk.
Defined.

Lemma load_aggregates_witness :
  ∃ out, load_all select (chunk1 ++ chunk2) [] = Some out ∧ mm_sorted out ∧
    (∀ m, (∃ r, r ∈ rows (chunk1 ++ chunk2) ∧ r.2.1 = m) ↔ (∃ e, e ∈ out ∧ e.2.1 = m)) ∧
    (∀ e k vs, e ∈ out → column_values k (group (rows (chunk1 ++ chunk2)) e.2.1) vs →
       e.2.2 !! k = Some (SvU64 (reduce k.1 vs))).
Proof.
  apply (load_aggregates select (chunk1 ++ chunk2) (rows (chunk1 ++ chunk2)) types);
    [reflexivity|vm_compute; reflexivity|apply separates_dec; vm_compute; reflexivity
    |apply all_u64_ok, types_u64|apply typed_dec; vm_compute; reflexivity].
Defined.

Lemma agg_output_name_parses_witness :
  ∃ name, agg_output_name "StatTable.t.a" (MAX, "x"%string) = Some name ∧
    (size name <= npos → ParseAgg name EmptyString = Done (MAX, "x"%string)).
Proof. by apply (agg_output_name_parses "StatTable.t.a" MAX "x" EmptyString). Defined.

Definition out1 : MapBufT := default [] (load_all select chunk1 []).
Definition out2 : MapBufT := default [] (load_all select chunk2 []).

Lemma parallel_aggregation_witness :
  MergeFinal (count_distinct_field_ select) [] [out1; out2] [] = load_all select (concat [chunk1; chunk2]) [].
Proof.
  apply (parallel_aggregation select [chunk1; chunk2] [out1; out2] (rows (chunk1 ++ chunk2)) types);
    [reflexivity|vm_compute; reflexivity|apply separates_dec; vm_compute; reflexivity
    |apply types_u64|apply typed_dec; vm_compute; reflexivity| |].
  - assert (forallb (λ r, bool_decide (r.2.1 !! count_distinct_field_ select = None))
              (rows (chunk1 ++ chunk2)) = true) as Hf by (vm_compute; reflexivity).
    intros r Hr%list_elem_of_In. rewrite forallb_forall in Hf. specialize (Hf r Hr).
    by apply bool_decide_eq_true in Hf.
  - repeat constructor.
Defined.

Lemma count_distinct_overcounts_witness :
  let e : MapEntry := ([SvU64 3], ({[ "vm"%string := SvU64 3 ]}, ∅)) in
  ∃ k a, MergeFinal "vm" [] [[e]; [e]] [] = Some [(k, (delete "vm"%string {[ "vm"%string := SvU64 3 ]}, a))] ∧
    a !! (COUNT_DISTINCT, "vm"%string) = Some (SvU64 2).
Proof.
  apply (count_distinct_overcounts "vm" [SvU64 3] {[ "vm"%string := SvU64 3 ]} (SvU64 3));
    [done|by repeat constructor|by rewrite lookup_singleton_eq].
Defined.

Lemma collision_splits_group_witness :
  let m n : StatMap := {[ "name"%string := SvString n ]} in
  feed [([SvU64 1], (m "a"%string, ∅)); ([SvU64 1], (m "b"%string, ∅)); ([SvU64 1], (m "b"%string, ∅))] []
  = Some [([SvU64 1], (m "a"%string, ∅)); ([SvU64 1], (m "b"%string, ∅)); ([SvU64 1], (m "b"%string, ∅))].
Proof.
  intros m. apply (collision_splits_group [SvU64 1] (m "a"%string) (m "b"%string));
    [by repeat constructor|by apply (bool_decide_eq_false_1 _); vm_compute].
Defined.

(** [SELECT name, SUM(x)] sorted by [SUM(x)] with limit 1, on one chunk. *)
Definition dynamic_table : StatsQuery :=
  {| type_ := "t"; attr_ := "a"; is_static_ := false; schema_ := ∅ |}.
Definition sum_select : StatsSelect :=
  match StatsSelect_ctor ["name"; "SUM(x)"]%string ≫=
        SetSortOrder "StatTable.t.a" (Some dynamic_table)
          [{| sf_name := "SUM(x)"; sf_type := EmptyString |}] with
  | Done s => s
  | _ => StatsSelect_init
  end.
Definition sum_chunk : MapBufT :=
  default [] (load_all sum_select [sample "a" 5; sample "bb" 1] []).
Definition sum_unit : PostProcessingQuery := {|
  filter_list := []; sorted := true; sorting_type := ASCENDING;
  sort_fields := [{| sf_name := "SUM(x)"; sf_type := EmptyString |}]; limit := 1
|}.
#[local] Existing Instance ConcreteStringToInteger.instance.
#[local] Existing Instance PostExamples.regex.
#[local] Existing Instance PostExamples.format.

(** The sum of the first row of a result. *)
Definition first_sum (o : option MapBufT) : option SubVal :=
  o ≫= λ m, m !! 0%nat ≫= λ e, e.2.2 !! (SUM, "x"%string).

(** The limit of an aggregated query sorted by an aggregate is applied to
    every chunk before the chunk is sorted: of the sums 5 and 1 the chunk keeps
    the 5, and the query with limit 1 returns it although 1 comes first. *)
Theorem limit_before_aggregate_sort :
  let cols := map_to_list (agg_sort_cols_ sum_select) in
  ∃ cut, process_query sum_unit "StatTable.t.a" true 0 [] sum_chunk = PPDone QUERY_SUCCESS [] cut ∧
    first_sum (apply_limit 1 <$> MergeFinal EmptyString cols [cut] []) = Some (SvU64 5) ∧
    first_sum (apply_limit 1 <$> MergeFinal EmptyString cols [sum_chunk] []) = Some (SvU64 1).
Proof. eexists. split; [vm_compute; reflexivity|]. split; vm_compute; reflexivity. Qed.
End StatExamples.
