(* ===== verification/WhereQuery.v ===== *)
(** * The WHERE clause

    [WhereQuery] of [contrail-query-engine/where_query.cc]: the terms of the
    clause are checked and translated into database sub-queries (one
    [DbQueryUnit] each) and into filters for the post-processing; when the
    sub-queries are done their results are combined with the set operations.

    The constructor is cut as the source is: [where_star] for a query without
    the clause, [where_term] for one AND term, [finish_or_term] for what follows
    the AND terms of one OR term, [WhereQuery_ctor] for the whole. *)
From stdpp Require Import base tactics list strings pretty gmap sets.
From Stdlib Require Import ZArith Lia Sorted Permutation SpecFloat Ascii.
From S2P Require Import Prelude.
From S2P Require Import CppString.
From S2P Require Import VizConstants.
From S2P Require Import QueryTypes.
From S2P Require Import SetOps.
From S2P Require Import Json.
From S2P Require Import AnalyticsQuery.
From S2P Require Import StatsQuery.
From S2P Require Import DbQuery.
From S2P Require Import PostProcessing.
Import Tables.
Local Open Scope Z_scope.

(** [strtod]. *)
Class Strtod := { strtod : string → spec_float }.

(** ** Conversions *)

Section conversions.
Context `{DoubleFormat, Strtod}.

(** [ToString] of a JSON value. *)
Definition ToString (v : json) : string :=
  match v with
  | JString s => s
  | JInt n => if IsInt v || IsUint v then pretty n else EmptyString
  | JDouble d => show_double d
  | _ => EmptyString
  end.

(** [ToDbDataValue] with the type of the column. *)
Definition ToDbDataValue (value : string) (desc : VarType) : DbDataValue :=
  match desc with
  | STRING | MAP_ELEM | LIST => DbString value
  | UINT64 => DbU64 (strtoul value)
  | DOUBLE => DbDouble (strtod value)
  | _ => DbBlank
  end.

(** [ToDbDataValue] of a JSON value: a negative integer wraps. *)
Definition ToDbDataValue_json (v : json) : DbDataValue :=
  match v with
  | JString s => DbString s
  | JInt n => if IsUint v then DbU64 n else if IsInt v then DbU64 (u64 n) else DbBlank
  | JDouble d => DbDouble d
  | _ => DbBlank
  end.

Definition ToDbDataType (val : string) : VarType :=
  if (val =? "int")%string then UINT64
  else if (val =? "string")%string then STRING
  else if (val =? "uuid")%string then UUID
  else if (val =? "double")%string then DOUBLE
  else if (val =? "map")%string then MAP_ELEM
  else if (val =? "set")%string || (val =? "list")%string then LIST
  else BLANK.
End conversions.

(** The static [get_column_desc]: the column, or the [.*] entry of its map. *)
Definition schema_column_desc (table_schema : gmap string column_t) (pname : string) : column_t :=
  match table_schema !! pname with
  | Some c => c
  | None =>
      let mapstr := default EmptyString (substr pname 0 (find_last_of pname ".")) +:+ ".*" in
      default (plain_column BLANK false false) (table_schema !! mapstr)
  end.

(** ** Columns of the index tables *)

(** [query_column_to_cass_column]: [None] is the assertion that the table has a
    schema, the empty string a column without an index. *)
Definition query_column_to_cass_column (table_ query_column : string) : option string :=
  let lookup m := Some (default EmptyString ((m : gmap string string) !! query_column)) in
  if is_message_table_query table_ || is_object_table_query table_ then lookup msg_index_columns
  else if is_session_query table_ || is_flow_query table_ then lookup session_index_columns
  else if is_stat_table_query table_ then lookup stats_index_columns
  else None.

(** [populate_where_vec]: the extended vector; [None] for [false]. *)
Definition populate_where_vec (table_ : string) (where_vec : list WhereIndexInfo)
    (query_col : string) (db_op : gendb_op) (value : string) : outcome (option (list WhereIndexInfo)) :=
  columnN ← stop_unless (query_column_to_cass_column table_ query_col);
  if (columnN =? EmptyString)%string then Done None
  else
    let val := if decide (db_op = OpLIKE) then value +:+ "%" else value in
    if (val =? "%")%string then Done (Some where_vec)
    else Done (Some (where_vec ++ [(columnN, db_op, DbString val)])).

(** The call wrapped in [QE_INVALIDARG_ERROR]. *)
Definition add_where (table_ : string) (where_vec : list WhereIndexInfo)
    (query_col : string) (db_op : gendb_op) (value : string) : outcome (list WhereIndexInfo) :=
  r ← populate_where_vec table_ where_vec query_col db_op value;
  match r with Some w => Done w | None => Status EINVAL end.

(** A sub-query over the message table. *)
Definition msg_unit (w : list WhereIndexInfo) : DbQueryUnit := {|
  cfname := COLLECTOR_GLOBAL_TABLE; cr_start := []; cr_finish := []; where_vec := w;
  row_key_suffix := []; t_only_col := true; t_only_row := true
|}.

(** The position of the first condition on a column (the size when none). *)
Fixpoint where_index (column : string) (w : list WhereIndexInfo) : nat :=
  match w with
  | [] => 0
  | wi :: w' => if (column =? wi.1.1)%string then 0 else S (where_index column w')
  end.

(** The vector of the [i]-th object column: the condition of the first is
    copied; [None] is the access past the end. *)
Definition object_column_vec (table_ : string) (w : list WhereIndexInfo) (index : nat) (i : Z)
  : option (list WhereIndexInfo) :=
  columnN ← query_column_to_cass_column table_ (OBJECT_TYPE_NAME_PFX +:+ pretty i);
  '(_, op, v) ← w !! index;
  Some (<[index := (columnN, op, v)]> w).

(** [handle_object_type_value]: the units for the six object columns, the first
    with the vector of [db_query]. *)
Definition handle_object_type_value (table_ : string) (w : list WhereIndexInfo)
    (object_id_specified : bool) : outcome (list DbQueryUnit) :=
  if is_object_table_query table_ then
    column1 ← stop_unless (query_column_to_cass_column table_ OBJECT_TYPE_NAME1);
    QE_INVALIDARG_ERROR (negb (column1 =? EmptyString)%string);;
    w ← (if object_id_specified then Done w
         else add_where table_ w OBJECT_TYPE_NAME1 (get_gendb_op_from_op PREFIX) (table_ +:+ ":"));
    let index := where_index column1 w in
    rest ← for_each (λ i, stop_unless (object_column_vec table_ w index i))
             (seqZ 2 (MSG_TABLE_MAX_OBJECTS_PER_MSG - 1));
    Done (msg_unit w :: (msg_unit <$> rest))
  else Done [msg_unit w].

(** ** Spreading tag conditions over sub-queries

    The number of tags is counted in a [uint16_t]. *)

(** [populate_stats_where_vec_list]. *)
Definition populate_stats_where_vec_list (where_vec_stats : list WhereIndexInfo)
    (where_vec_tags_stats : list (list WhereIndexInfo)) : list (list WhereIndexInfo) :=
  let max_tags := Z.to_nat (foldl (λ m v, if m <? Z.of_nat (length v) then u16 (Z.of_nat (length v)) else m)
                                  0 where_vec_tags_stats) in
  if (max_tags =? 0)%nat then [where_vec_stats]
  else (λ i, where_vec_stats ++ omap (λ tags, (tags : list WhereIndexInfo) !! i) where_vec_tags_stats)
       <$> seq 0 max_tags.

(** [populate_session_where_vec_list]. *)
Definition populate_session_where_vec_list
    (rest_where_vec labels remote_labels custom_tags remote_custom_tags : list WhereIndexInfo)
  : list (list WhereIndexInfo) :=
  let vecs := [labels; remote_labels; custom_tags; remote_custom_tags] in
  let max_random_attr := Z.to_nat (u16 (Z.of_nat (foldr Nat.max 0%nat (length <$> vecs)))) in
  if (max_random_attr =? 0)%nat then [rest_where_vec]
  else (λ i, rest_where_vec ++ omap (λ v, (v : list WhereIndexInfo) !! i) vecs) <$> seq 0 max_random_attr.

(** [djb_hash] over the (signed) characters of a string. *)
Definition char_value (c : ascii) : Z :=
  let n := Z.of_nat (nat_of_ascii c) in if n <? 128 then n else n - 256.
Fixpoint djb_hash_from (hash : Z) (s : string) : Z :=
  match s with
  | EmptyString => hash
  | String c s' => djb_hash_from (u32 (u32 (Z.shiftl hash 5) + hash + char_value c)) s'
  end.
Definition djb_hash (s : string) : Z := djb_hash_from 5381 s.

(** [GetStatTableAttrName]; [None]: [substr] throws. *)
Definition GetStatTableAttrName (tname : string) : option (string * string) :=
  let tpos := find tname "." 0 in
  let apos := find tname "." (u64 (tpos + 1)) in
  match substr tname (u64 (tpos + 1)) (u64 (apos - tpos - 1)), substr tname (u64 (apos + 1)) npos with
  | Some tstr, Some astr => Some (tstr, astr)
  | _, _ => None
  end.

(** ** Terms on StatTables *)

(** The output arguments of [StatTermParse]. *)
Record stat_term := {
  pname : string; pop : match_op; pval : DbDataValue; pval2 : DbDataValue;
  sname : string; sop : match_op; sval : DbDataValue; sval2 : DbDataValue
}.

(** [(match_op)0]. *)
Definition no_op : match_op := OTHER_OP 0.

Section stat_terms.
Context `{JsonParser, DoubleFormat, Strtod}.

(** [return false] of the parser leaves it with no term. *)
Definition require {A} (c : bool) (k : outcome (option A)) : outcome (option A) :=
  if c then k else Done None.

(** A member that may be absent, copied into a null value. *)
Definition member_or_null (v : json) (k : string) : outcome json :=
  has ← HasMember v k;
  if (has : bool) then member v k else Done JNull.

Definition GetBool (v : json) : outcome bool := match v with JBool b => Done b | _ => Stopped end.

(** One column of the schema sent with the query; [None]: [return false]. *)
Definition parse_schema_column (v : json) : outcome (option (string * column_t)) :=
  h1 ← HasMember v "name"; h2 ← HasMember v "datatype";
  h3 ← HasMember v "index"; h4 ← HasMember v "suffixes";
  require (h1 && h2 && h3 && h4)
    (name ← member v "name"; dt ← member v "datatype";
     idx ← member v "index"; sufs ← member v "suffixes";
     vstr ← GetString dt;
     i ← GetBool idx;
     ss ← match sufs with JArray l => for_each GetString l | _ => Done [] end;
     n ← GetString name;
     Done (Some (n, {| datatype := ToDbDataType vstr; index := i; output := false;
                       suffixes := list_to_set ss |}))).

Fixpoint parse_schema (l : list json) (s : gmap string column_t)
  : outcome (option (gmap string column_t)) :=
  match l with
  | [] => Done (Some s)
  | v :: l' =>
      c ← parse_schema_column v;
      match c with
      | None => Done None
      | Some (n, c) => parse_schema l' (<[n := c]> s)
      end
  end.

(** The suffix part of a term: its name, operation, values and their text. *)
Record stat_suffix := {
  sx_name : string; sx_op : match_op; sx_val : DbDataValue; sx_val2 : DbDataValue;
  srvalstr : string; srval2str : string
}.
Definition no_suffix : stat_suffix := {|
  sx_name := EmptyString; sx_op := no_op; sx_val := DbBlank; sx_val2 := DbBlank;
  srvalstr := EmptyString; srval2str := EmptyString
|}.

Definition parse_suffix (where_term : json) (pop : match_op) (prval2 : json)
  : outcome (option stat_suffix) :=
  has ← HasMember where_term "suffix";
  if negb has then Done (Some no_suffix)
  else
    suffix ← member where_term "suffix";
    if negb (IsObject suffix) then Done (Some no_suffix)
    else
      require (bool_decide (pop = EQUAL)) (
      require (match prval2 with JNull => true | _ => false end) (
      hv ← HasMember suffix "value";
      require hv (
      svalue_value ← member suffix "value";
      require (IsString svalue_value || IsNumber svalue_value) (
      svalue2_value ← member_or_null suffix "value2";
      ho ← HasMember suffix "op";
      require ho (
      sop_value ← member suffix "op";
      require (IsNumber sop_value) (
      o ← GetInt sop_value;
      hn ← HasMember suffix "name";
      require hn (
      sname_value ← member suffix "name";
      require (IsString sname_value) (
      n ← GetString sname_value;
      Done (Some {| sx_name := n; sx_op := match_op_of_int o;
                    sx_val := ToDbDataValue_json svalue_value;
                    sx_val2 := ToDbDataValue_json svalue2_value;
                    srvalstr := ToString svalue_value; srval2str := ToString svalue2_value |}))))))))).

(** What the schema says about the prefix: [return true] when the query sent an
    empty schema, [return false], or the lookup in the schema. *)
Inductive schema_result := SchemaEmpty | SchemaBad | SchemaIs (lookup : string → column_t).

Definition read_schema (sq : StatsQuery) (table_schema : option string) : outcome schema_result :=
  if is_static_ sq then Done (SchemaIs (get_column_desc sq))
  else match table_schema with
       | None => Done (SchemaIs (schema_column_desc ∅))
       | Some text =>
           v ← member (Parse (wrap "schema" text)) "schema";
           l ← elements v;
           match l with
           | [] => Done SchemaEmpty
           | _ => s ← parse_schema l ∅;
                  match s with
                  | None => Done SchemaBad
                  | Some s => Done (SchemaIs (schema_column_desc s))
                  end
           end
       end.

(** [*(suffixes.begin())]. *)
Definition first_suffix (s : gset string) : string :=
  default EmptyString (head (insertion_sort String.ltb (base.elements s))).

(** The last part: the values are converted to the types of the schema. *)
Definition apply_schema (lookup : string → column_t) (name : string) (op : match_op)
    (prval prval2 : json) (sx : stat_suffix) : outcome (option stat_term) :=
  let cdesc := lookup name in
  require (negb (bool_decide (datatype cdesc = BLANK))) (
  require (index cdesc) (
  require (negb (bool_decide (datatype cdesc = LIST) && negb (bool_decide (op = CONTAINS)))) (
  let pv := ToDbDataValue (ToString prval) (datatype cdesc) in
  let pv2 := match prval2 with JNull => ToDbDataValue_json prval2
                             | _ => ToDbDataValue (ToString prval2) (datatype cdesc) end in
  let term sn so sv sv2 := {| pname := name; pop := op; pval := pv; pval2 := pv2;
                              sname := sn; sop := so; sval := sv; sval2 := sv2 |} in
  if bool_decide (suffixes cdesc = ∅) then
    require ((sx_name sx =? EmptyString)%string && bool_decide (sx_op sx = no_op) &&
             (srvalstr sx =? EmptyString)%string && (srval2str sx =? EmptyString)%string)
      (Done (Some (term (sx_name sx) (sx_op sx) (sx_val sx) (sx_val2 sx))))
  else if (sx_name sx =? EmptyString)%string then
    let sn := first_suffix (suffixes cdesc) in
    match datatype (lookup sn) with
    | STRING => Done (Some (term sn (sx_op sx) (DbString EmptyString) (sx_val2 sx)))
    | UINT64 => Done (Some (term sn (sx_op sx) (DbU64 0) (sx_val2 sx)))
    | _ => Stopped
    end
  else
    require (bool_decide (sx_name sx ∈ suffixes cdesc))
      (let d2 := datatype (lookup (sx_name sx)) in
       if bool_decide (d2 = STRING) || bool_decide (d2 = UINT64) then
         Done (Some (term (sx_name sx) (sx_op sx) (ToDbDataValue (srvalstr sx) d2)
                       (if (srval2str sx =? EmptyString)%string then sx_val2 sx
                        else ToDbDataValue (srval2str sx) d2)))
       else Stopped)))).

(** [StatTermParse]; [None] is [false]. *)
Definition StatTermParse (table_ : string) (stats : option StatsQuery) (table_schema : option string)
    (where_term : json) : outcome (option stat_term) :=
  if negb (is_stat_table_query table_) then Stopped
  else
    hn ← HasMember where_term "name";
    require hn (
    name_value ← member where_term "name";
    require (IsString name_value) (
    name ← GetString name_value;
    prval ← member where_term "value";
    require (IsString prval || IsNumber prval) (
    prval2 ← member_or_null where_term "value2";
    ho ← HasMember where_term "op";
    require ho (
    op_value ← member where_term "op";
    require (IsNumber op_value) (
    o ← GetInt op_value;
    let op := match_op_of_int o in
    sx ← parse_suffix where_term op prval2;
    match sx with
    | None => Done None
    | Some sx =>
        sq ← stop_unless stats;
        r ← read_schema sq table_schema;
        match r with
        | SchemaEmpty =>
            Done (Some {| pname := name; pop := op; pval := ToDbDataValue_json prval;
                          pval2 := ToDbDataValue_json prval2; sname := sx_name sx; sop := sx_op sx;
                          sval := sx_val sx; sval2 := sx_val2 sx |})
        | SchemaBad => Done None
        | SchemaIs lookup => apply_schema lookup name op prval prval2 sx
        end
    end))))).
End stat_terms.

(** ** The index tables of older data *)

Definition is_db_string (v : DbDataValue) : bool := match v with DbString _ => true | _ => false end.
Definition is_db_u64 (v : DbDataValue) : bool := match v with DbU64 _ => true | _ => false end.

(** A unit with bounds appended to its column range. *)
Definition add_bounds (q : DbQueryUnit) (start finish : DbDataValue) : DbQueryUnit := {|
  cfname := cfname q; cr_start := cr_start q ++ [start]; cr_finish := cr_finish q ++ [finish];
  where_vec := where_vec q; row_key_suffix := row_key_suffix q;
  t_only_col := t_only_col q; t_only_row := t_only_row q
|}.

(** The text that ends a prefix range, ["\x7f"]. *)
Definition x7f : string := String "127" EmptyString.

(** [StatSlicer]: the unit with the range of a term; [None] for [false]. *)
Definition StatSlicer (q : DbQueryUnit) (op : match_op) (val val2 : DbDataValue) : option DbQueryUnit :=
  match val with
  | DbString s =>
      match op with
      | EQUAL => Some (add_bounds q val val)
      | PREFIX => Some (add_bounds q val (DbString (s +:+ x7f)))
      | _ => None
      end
  | _ =>
      match op with
      | EQUAL => Some (add_bounds q val val)
      | IN_RANGE => Some (add_bounds q val val2)
      | _ => None
      end
  end.

(** The index table for the types of a term; [None]: no such table. *)
Definition stat_index_table (t : stat_term) : option (bool * string) :=
  if bool_decide (sop t = no_op) && (sname t =? EmptyString)%string then
    match pval t with
    | DbString _ => Some (false, STATS_TABLE_BY_STR_TAG)
    | DbU64 _ => Some (false, STATS_TABLE_BY_U64_TAG)
    | DbDouble _ => Some (false, STATS_TABLE_BY_DBL_TAG)
    | _ => None
    end
  else
    match pval t, sval t with
    | DbString _, DbString _ => Some (true, STATS_TABLE_BY_STR_STR_TAG)
    | DbString _, DbU64 _ => Some (true, STATS_TABLE_BY_STR_U64_TAG)
    | DbU64 _, DbString _ => Some (true, STATS_TABLE_BY_U64_STR_TAG)
    | DbU64 _, DbU64 _ => Some (true, STATS_TABLE_BY_U64_U64_TAG)
    | _, _ => None
    end.

(** [StatTermProcess]: the units it adds to the WHERE query (one is added even
    when it then returns [false]) and the return value. *)
Definition StatTermProcess_term (table_ : string) (t : stat_term)
  : outcome (list DbQueryUnit * bool) :=
  match stat_index_table t with
  | None => Done ([], false)
  | Some (twotag, cf) =>
      '(tstr, astr) ← stop_unless (GetStatTableAttrName table_);
      let q := {| cfname := cf; cr_start := []; cr_finish := []; where_vec := [];
                  row_key_suffix := [DbString tstr; DbString astr; DbString (pname t)] ++
                                    (if (twotag : bool) then [DbString (sname t)] else []);
                  t_only_col := false; t_only_row := false |} in
      let slice q op v v2 := match StatSlicer q op v v2 with
                             | Some q => Done ([q], true) | None => Done ([q], false) end in
      if twotag then
        if decide (sop t = no_op) then
          match StatSlicer q (pop t) (pval t) (pval2 t) with
          | None => Done ([q], false)
          | Some q =>
              Done ([if is_db_string (sval t)
                     then add_bounds q (DbString EmptyString) (DbString x7f)
                     else add_bounds q (DbU64 0) (DbU64 0xffffffffffffffff)], true)
          end
        else if decide (pop t = EQUAL) then
          slice (add_bounds q (pval t) (pval t)) (sop t) (sval t) (sval2 t)
        else Done ([q], false)
      else slice q (pop t) (pval t) (pval2 t)
  end.

(** ** The constructor *)

(** A match the flow and session tables collect over the AND terms. *)
Record field_match := { fmt_val : DbDataValue; fmt_val2 : DbDataValue; fmt_op : match_op }.

(** The state of one OR term: the matches on the key fields ([vr], [svn], [dvn],
    [sip], [dip], [proto], [sport], [dport] and [name]), the condition vectors
    ([labels], [remote_labels], [custom_tags], [remote_custom_tags],
    [session_rest] and [stats]), those of the stats tags, the filters and the
    columns to select for them, the conditions of the message table unit, the
    units of the older tables, and whether the query names the query engine's
    module. *)
Record or_state := {
  matches : gmap string field_match;
  vecs : gmap string (list WhereIndexInfo);
  where_vec_tags_stats : list (list WhereIndexInfo);
  object_id_specified : bool;
  filter_and : list filter_match_t;
  additional_select : list string;
  msg_table_vec : option (list WhereIndexInfo);
  old_units : list DbQueryUnit;
  names_qe_module : bool
}.

Definition set_match (k : string) (f : field_match) (s : or_state) : or_state := {|
  matches := <[k := f]> (matches s); vecs := vecs s;
  where_vec_tags_stats := where_vec_tags_stats s; object_id_specified := object_id_specified s;
  filter_and := filter_and s; additional_select := additional_select s;
  msg_table_vec := msg_table_vec s; old_units := old_units s; names_qe_module := names_qe_module s |}.
Definition set_vec (k : string) (w : list WhereIndexInfo) (s : or_state) : or_state := {|
  matches := matches s; vecs := <[k := w]> (vecs s);
  where_vec_tags_stats := where_vec_tags_stats s; object_id_specified := object_id_specified s;
  filter_and := filter_and s; additional_select := additional_select s;
  msg_table_vec := msg_table_vec s; old_units := old_units s; names_qe_module := names_qe_module s |}.
Definition set_tags (i : nat) (w : list WhereIndexInfo) (s : or_state) : or_state := {|
  matches := matches s; vecs := vecs s;
  where_vec_tags_stats := <[i := w]> (where_vec_tags_stats s);
  object_id_specified := object_id_specified s;
  filter_and := filter_and s; additional_select := additional_select s;
  msg_table_vec := msg_table_vec s; old_units := old_units s; names_qe_module := names_qe_module s |}.
Definition add_filter (f : filter_match_t) (s : or_state) : or_state := {|
  matches := matches s; vecs := vecs s;
  where_vec_tags_stats := where_vec_tags_stats s; object_id_specified := object_id_specified s;
  filter_and := filter_and s ++ [f]; additional_select := additional_select s ++ [fm_name f];
  msg_table_vec := msg_table_vec s; old_units := old_units s; names_qe_module := names_qe_module s |}.
Definition set_object_id (s : or_state) : or_state := {|
  matches := matches s; vecs := vecs s;
  where_vec_tags_stats := where_vec_tags_stats s; object_id_specified := true;
  filter_and := filter_and s; additional_select := additional_select s;
  msg_table_vec := msg_table_vec s; old_units := old_units s; names_qe_module := names_qe_module s |}.
Definition set_msg (w : list WhereIndexInfo) (qe : bool) (s : or_state) : or_state := {|
  matches := matches s; vecs := vecs s;
  where_vec_tags_stats := where_vec_tags_stats s; object_id_specified := object_id_specified s;
  filter_and := filter_and s; additional_select := additional_select s;
  msg_table_vec := Some w; old_units := old_units s; names_qe_module := names_qe_module s || qe |}.
Definition add_old (us : list DbQueryUnit) (s : or_state) : or_state := {|
  matches := matches s; vecs := vecs s;
  where_vec_tags_stats := where_vec_tags_stats s; object_id_specified := object_id_specified s;
  filter_and := filter_and s; additional_select := additional_select s;
  msg_table_vec := msg_table_vec s; old_units := old_units s ++ us;
  names_qe_module := names_qe_module s |}.

Definition vec (k : string) (s : or_state) : list WhereIndexInfo := default [] (vecs s !! k).

(** The members of the query the constructor changes. *)
Record where_state := {
  sub_queries : list DbQueryUnit;
  filter_list_ : list (list filter_match_t);
  additional_select_ : list string;
  wterms_ : Z;
  where_filter_qe_logs : bool
}.

(** What the constructor reads of the main query. *)
Record where_main := {
  wm_table : string; wm_stats : option StatsQuery; wm_schema : option string;
  wm_moduleid : string; session_type : Z; is_si : Z; direction_ing : Z; oldDataExists : bool
}.

Definition or_init (m : where_main) : or_state := {|
  matches := ∅; vecs := ∅; where_vec_tags_stats := [[]; []; []; []];
  object_id_specified := false; filter_and := []; additional_select := [];
  msg_table_vec := if is_message_table_query (wm_table m) || is_object_table_query (wm_table m)
                   then Some [] else None;
  old_units := []; names_qe_module := false
|}.

(** A session or flow unit. *)
Definition session_unit (suffix : list DbDataValue) (start finish : list DbDataValue)
    (w : list WhereIndexInfo) : DbQueryUnit := {|
  cfname := SESSION_TABLE; cr_start := start; cr_finish := finish; where_vec := w;
  row_key_suffix := suffix; t_only_col := false; t_only_row := false
|}.

(** A query without a WHERE clause. *)
Definition where_star (m : where_main) : outcome (list DbQueryUnit) :=
  let t := wm_table m in
  let star suffix := session_unit suffix [DbU16 0] [DbU16 0xffff; DbU16 0xffff] [] in
  if is_message_table_query t then Done [msg_unit []]
  else if (t =? FLOW_TABLE)%string || (t =? FLOW_SERIES_TABLE)%string then
    Done [star [DbU8 (u8 (is_si m)); DbU8 SERVER_SESSION];
          star [DbU8 (u8 (is_si m)); DbU8 CLIENT_SESSION]]
  else if is_session_query t then
    Done [star [DbU8 (u8 (is_si m)); DbU8 (u8 (session_type m))]]
  else if is_object_table_query t then handle_object_type_value t [] false
  else Done [{| cfname := EmptyString; cr_start := []; cr_finish := []; where_vec := [];
                row_key_suffix := []; t_only_col := false; t_only_row := false |}].

(** *** One AND term *)

Section where_term.
Context `{JsonParser, DoubleFormat, Strtod, Regex, DbToString, VizSchema} (m : where_main).

(** A condition on the message table unit; [Stopped]: the unit is [NULL]. *)
Definition msg_term (s : or_state) (col : string) (op : match_op) (value : string) (qe : bool)
  : outcome or_state :=
  QE_INVALIDARG_ERROR (bool_decide (op = EQUAL) || bool_decide (op = PREFIX));;
  w ← stop_unless (msg_table_vec s);
  w ← add_where (wm_table m) w col (get_gendb_op_from_op op) value;
  Done (set_msg w qe s).

(** Source, module and message type. *)
Definition source_terms (s : or_state) (name : string) (op : match_op) (value : string)
  : outcome or_state :=
  if is_stat_table_query (wm_table m) then Done s
  else if (name =? SOURCE)%string then msg_term s name op value false
  else if (name =? MODULE)%string then msg_term s name op value (value =? wm_moduleid m)%string
  else if (name =? MESSAGE_TYPE)%string then msg_term s name op value false
  else Done s.

Definition object_term (s : or_state) (name : string) (op : match_op) (value : string)
  : outcome or_state :=
  if (name =? OBJECT_ID)%string then
    set_object_id <$> msg_term s OBJECT_TYPE_NAME1 op (wm_table m +:+ ":" +:+ value) false
  else Done s.

(** A 16-bit number with an optional range. *)
Definition u16_match (s : or_state) (k : string) (op : match_op) (value value2 : string)
  : outcome or_state :=
  let v := DbU16 (istream_u16 value) in
  if decide (op = IN_RANGE)
  then Done (set_match k {| fmt_val := v; fmt_val2 := DbU16 (istream_u16 value2); fmt_op := op |} s)
  else
    QE_INVALIDARG_ERROR (bool_decide (op = EQUAL));;
    Done (set_match k {| fmt_val := v; fmt_val2 := DbBlank; fmt_op := op |} s).

(** A tag of a session. *)
Definition session_tag (s : or_state) (k name : string) (op : match_op) (value : string)
  : outcome or_state :=
  QE_INVALIDARG_ERROR (bool_decide (op = CONTAINS));;
  w ← add_where (wm_table m) (vec k s) name OpLIKE ("%" +:+ value);
  Done (set_vec k w s).

Definition like_or_eq (op : match_op) : gendb_op := if decide (op = PREFIX) then OpLIKE else OpEQ.

Definition session_term (s : or_state) (name : string) (op : match_op) (value value2 : string)
  : outcome or_state :=
  if (name =? "protocol")%string then u16_match s "proto" op value value2
  else if (name =? "server_port")%string then u16_match s "sport" op value value2
  else if (name =? "labels")%string then session_tag s "labels" name op value
  else if (name =? "remote_labels")%string then session_tag s "remote_labels" name op value
  else if (name =? "custom_tags")%string then session_tag s "custom_tags" name op value
  else if (name =? "remote_custom_tags")%string then session_tag s "remote_custom_tags" name op value
  else
    w ← add_where (wm_table m) (vec "session_rest" s) name (like_or_eq op) value;
    Done (set_vec "session_rest" w s).

Definition where_filter (name : string) (op : match_op) (value : string) : filter_match_t := {|
  fm_name := name; fm_value := value; fm_op := op; ignore_col_absence := false;
  match_e := if decide (op = REGEX_MATCH) then value else EmptyString
|}.

(** A virtual network. *)
Definition vn_match (s : or_state) (k : string) (op : match_op) (value : string) : outcome or_state :=
  QE_INVALIDARG_ERROR (bool_decide (op = EQUAL) || bool_decide (op = PREFIX));;
  Done (set_match k {| fmt_val := DbString value; fmt_val2 := DbBlank; fmt_op := op |} s).

(** An address; the side that is not the local one becomes a filter. *)
Definition ip_match (s : or_state) (k name : string) (filter_dir : Z) (op : match_op)
    (value value2 : string) : outcome or_state :=
  (if decide (op = IN_RANGE) then Done () else QE_INVALIDARG_ERROR (bool_decide (op = EQUAL)));;
  let f := {| fmt_val := DbString value;
              fmt_val2 := if decide (op = IN_RANGE) then DbString value2 else DbBlank; fmt_op := op |} in
  let s := set_match k f s in
  Done (if direction_ing m =? filter_dir then add_filter (where_filter name op value) s else s).

(** A port, also a filter. *)
Definition port_match (s : or_state) (k name : string) (op : match_op) (value value2 : string)
  : outcome or_state :=
  s ← u16_match s k op value value2;
  Done (add_filter (where_filter name op (pretty (istream_u16 value))) s).

Definition vrouter_match (s : or_state) (op : match_op) (value : string) : outcome or_state :=
  QE_INVALIDARG_ERROR (bool_decide (op = EQUAL) || bool_decide (op = PREFIX));;
  let fop := if decide (op = PREFIX) then REGEX_MATCH else op in
  (if decide (fop = REGEX_MATCH)
   then stop_unless (if regex_compiles value then Some () else None) else Done ());;
  Done (add_filter (where_filter "vrouter" fop value)
         (set_match "vr" {| fmt_val := DbString value; fmt_val2 := DbBlank; fmt_op := op |} s)).

Definition flow_term (s : or_state) (name : string) (op : match_op) (value value2 : string)
  : outcome or_state :=
  if (name =? "protocol")%string then u16_match s "proto" op value value2
  else if (name =? "sourcevn")%string then vn_match s "svn" op value
  else if (name =? "destvn")%string then vn_match s "dvn" op value
  else if (name =? "sourceip")%string then ip_match s "sip" "sourceip" 0 op value value2
  else if (name =? "destip")%string then ip_match s "dip" "destip" 1 op value value2
  else if (name =? "sport")%string then port_match s "sport" "sport" op value value2
  else if (name =? "dport")%string then port_match s "dport" "dport" op value value2
  else if (name =? "vrouter")%string then vrouter_match s op value
  else Done s.

(** A condition on a stats column: name, index column or hashed tag. *)
Definition is_key_field (n : string) : bool := ends_with n STATS_KEY_FIELD.
Definition is_proxy_field (n : string) : bool := ends_with n STATS_PROXY_FIELD.

Definition index_field (n : string) : string :=
  let n := if is_key_field n then STATS_KEY_FIELD else n in
  if is_proxy_field n then STATS_PROXY_FIELD else n.

(** A tag condition goes to one of the tag columns, chosen by a hash. *)
Definition tag_term (s : or_state) (n : string) (v : DbDataValue) : outcome or_state :=
  let text := "%" +:+ n +:+ "=" +:+ DbDataValueToString v in
  let idx := djb_hash n mod NUM_STATS_TAGS_FIELD in
  w ← stop_unless (where_vec_tags_stats s !! Z.to_nat idx);
  w ← add_where (wm_table m) w (STATS_TAGS_FIELD +:+ pretty idx) OpLIKE
        (DbDataValueToString (DbString text));
  Done (set_tags (Z.to_nat idx) w s).

(** The prefix of a term. *)
Definition prefix_term (s : or_state) (t : stat_term) : outcome or_state :=
  let n := pname t in
  if (n =? STATS_NAME_FIELD)%string then
    Done (set_match "name" {| fmt_val := pval t; fmt_val2 := DbBlank; fmt_op := pop t |} s)
  else if (n =? STATS_SOURCE_FIELD)%string || is_key_field n || is_proxy_field n then
    QE_INVALIDARG_ERROR (bool_decide (pop t = EQUAL) || bool_decide (pop t = PREFIX));;
    let text := DbDataValueToString (pval t) in
    if decide (pop t = EQUAL) then
      w ← add_where (wm_table m) (vec "stats" s) (index_field n) OpEQ text;
      Done (set_vec "stats" w s)
    else if (text =? EmptyString)%string then Done s
    else
      w ← add_where (wm_table m) (vec "stats" s) (index_field n) OpLIKE text;
      Done (set_vec "stats" w s)
  else tag_term s n (pval t).

(** The prefix name after [prefix_term], which the suffix part reads. *)
Definition prefix_name_after (t : stat_term) : string :=
  let n := pname t in
  if negb (n =? STATS_NAME_FIELD)%string &&
     ((n =? STATS_SOURCE_FIELD)%string || is_key_field n || is_proxy_field n)
  then index_field n else n.

(** The suffix of a term: the test for an index column reads the prefix name. *)
Definition suffix_term (s : or_state) (t : stat_term) : outcome or_state :=
  if decide (sop t = no_op) then Done s
  else
    let pn := prefix_name_after t in
    if (sname t =? STATS_NAME_FIELD)%string then
      Done (set_match "name" {| fmt_val := sval t; fmt_val2 := DbBlank; fmt_op := sop t |} s)
    else if (sname t =? STATS_SOURCE_FIELD)%string || is_key_field pn || is_proxy_field pn then
      QE_INVALIDARG_ERROR (bool_decide (sop t = EQUAL) || bool_decide (sop t = PREFIX));;
      w ← add_where (wm_table m) (vec "stats" s) (sname t)
            (if decide (sop t = EQUAL) then OpEQ else OpLIKE) (DbDataValueToString (sval t));
      Done (set_vec "stats" w s)
    else
      QE_INVALIDARG_ERROR (bool_decide (sop t = EQUAL) || bool_decide (sop t = PREFIX));;
      tag_term s (sname t) (sval t).

Definition stat_where_term (s : or_state) (v : json) : outcome or_state :=
  if negb (is_stat_table_query (wm_table m)) then Done s
  else
    t ← StatTermParse (wm_table m) (wm_stats m) (wm_schema m) v;
    s ← (if oldDataExists m then
           match t with
           | None => Done s
           | Some t => '(us, _) ← StatTermProcess_term (wm_table m) t; Done (add_old us s)
           end
         else Done s);
    match t with
    | None => Status EINVAL
    | Some t =>
        s ← prefix_term s t;
        s ← suffix_term s t;
        Done (set_object_id s)
    end.

(** One AND term. *)
Definition where_term (s : or_state) (v : json) : outcome or_state :=
  h1 ← HasMember v "name"; h2 ← HasMember v "value"; h3 ← HasMember v "op";
  QE_PARSE_ERROR (h1 && h2 && h3);;
  name_value ← member v "name"; value_value ← member v "value"; op_value ← member v "op";
  QE_INVALIDARG_ERROR (IsString name_value);;
  QE_INVALIDARG_ERROR (IsString value_value || IsNumber value_value);;
  QE_INVALIDARG_ERROR (IsNumber op_value);;
  name ← GetString name_value;
  valid ← stop_unless (is_valid_where_field (wm_table m) (wm_stats m) name);
  QE_INVALIDARG_ERROR valid;;
  o ← GetInt op_value;
  let value := ToString value_value in
  let op := match_op_of_int o in
  let name := get_column_name name in
  value2 ← (if decide (op = IN_RANGE) then
              h ← HasMember v "value2";
              QE_PARSE_ERROR h;;
              ToString <$> member v "value2"
            else Done EmptyString);
  s ← source_terms s name op value;
  s ← object_term s name op value;
  s ← (if is_session_query (wm_table m) then session_term s name op value value2
       else if is_flow_query (wm_table m) then flow_term s name op value value2
       else Done s);
  stat_where_term s v.

(** *** The units of one OR term *)

(** The bounds of the name column of a StatTable unit. *)
Definition name_bounds (s : or_state) : outcome (DbDataValue * DbDataValue) :=
  match matches s !! "name"%string with
  | None => Done (DbString EmptyString, DbString x7f)
  | Some f =>
      match fmt_op f with
      | EQUAL => Done (fmt_val f, fmt_val f)
      | PREFIX => Done (fmt_val f, DbString (DbDataValueToString (fmt_val f) +:+ x7f))
      | _ => Status EINVAL
      end
  end.

Definition stat_units (s : or_state) : outcome (list DbQueryUnit) :=
  '(tstr, astr) ← stop_unless (GetStatTableAttrName (wm_table m));
  '(lo, hi) ← name_bounds s;
  Done ((λ w, {| cfname := STATS_TABLE; cr_start := [lo]; cr_finish := [hi]; where_vec := w;
                 row_key_suffix := [DbString tstr; DbString astr];
                 t_only_col := false; t_only_row := false |})
        <$> populate_stats_where_vec_list (vec "stats" s) (where_vec_tags_stats s)).

(** The clustering range on protocol and port: a port needs a protocol. *)
Definition upper (f : field_match) : DbDataValue :=
  if decide (fmt_op f = IN_RANGE) then fmt_val2 f else fmt_val f.

Definition port_bounds (proto port : option field_match)
  : outcome (list DbDataValue * list DbDataValue) :=
  let '(lo, hi) := match proto with
                   | Some f => ([fmt_val f], [upper f])
                   | None => ([DbU16 0], [DbU16 0xffff])
                   end in
  match port with
  | Some f =>
      QE_INVALIDARG_ERROR (bool_decide (is_Some proto));;
      Done (lo ++ [fmt_val f], hi ++ [upper f])
  | None => Done (lo, hi ++ [DbU16 0xffff])
  end.

Definition session_units (s : or_state) : outcome (list DbQueryUnit) :=
  '(lo, hi) ← port_bounds (matches s !! "proto"%string) (matches s !! "sport"%string);
  Done (session_unit [DbU8 (u8 (is_si m)); DbU8 (u8 (session_type m))] lo hi
        <$> populate_session_where_vec_list (vec "session_rest" s) (vec "labels" s)
              (vec "remote_labels" s) (vec "custom_tags" s) (vec "remote_custom_tags" s)).

(** The match of the side the direction selects. *)
Definition pick (egress ingress : option field_match) : option field_match :=
  if direction_ing m =? 0 then egress else if direction_ing m =? 1 then ingress else None.

Definition add_match (w : list WhereIndexInfo) (col : string) (f : option field_match)
  : outcome (list WhereIndexInfo) :=
  match f with
  | None => Done w
  | Some f =>
      match fmt_val f with
      | DbString v => add_where (wm_table m) w col (like_or_eq (fmt_op f)) v
      | _ => Stopped
      end
  end.

Definition flow_unit (s : or_state) (session : Z) (port : option field_match) : outcome DbQueryUnit :=
  let mt k := matches s !! k in
  '(lo, hi) ← port_bounds (mt "proto"%string) port;
  w ← add_match [] "local_ip" (pick (mt "dip"%string) (mt "sip"%string));
  w ← add_match w "vn" (pick (mt "dvn"%string) (mt "svn"%string));
  w ← add_match w "remote_vn" (pick (mt "svn"%string) (mt "dvn"%string));
  Done (session_unit [DbU8 session] lo hi w).

Definition flow_units (s : or_state) : outcome (list DbQueryUnit) :=
  let mt k := matches s !! k in
  client ← flow_unit s CLIENT_SESSION (pick (mt "sport"%string) (mt "dport"%string));
  server ← flow_unit s SERVER_SESSION (pick (mt "dport"%string) (mt "sport"%string));
  Done [client; server].

Definition finish_or_term (s : or_state) : outcome (list DbQueryUnit) :=
  let t := wm_table m in
  if is_stat_table_query t then (app (old_units s)) <$> stat_units s
  else if is_message_table_query t || is_object_table_query t then
    w ← stop_unless (msg_table_vec s);
    handle_object_type_value t w (object_id_specified s)
  else if is_session_query t then session_units s
  else if is_flow_query t then flow_units s
  else Done [].

(** One OR term. *)
Definition or_term (ws : where_state) (json_or_node : json) : outcome where_state :=
  l ← elements json_or_node;
  s ← fold_outcome where_term (or_init m) l;
  us ← finish_or_term s;
  Done {| sub_queries := sub_queries ws ++ us;
          filter_list_ := if is_flow_query (wm_table m) && negb (bool_decide (filter_and s = []))
                          then filter_list_ ws ++ [filter_and s] else filter_list_ ws;
          additional_select_ := additional_select_ ws ++ additional_select s;
          wterms_ := wterms_ ws;
          where_filter_qe_logs := where_filter_qe_logs ws && negb (names_qe_module s) |}.

(** The loop over the OR terms: each is checked, the requested one (all of them
    for [or_number] -1) is translated. *)
Fixpoint or_loop (or_number i : Z) (l : list json) (ws : where_state) : outcome where_state :=
  match l with
  | [] => Done ws
  | v :: l' =>
      QE_PARSE_ERROR (IsArray v);;
      ands ← elements v;
      QE_INVALIDARG_ERROR (negb (bool_decide (length ands = 0%nat)));;
      ws ← (if negb (or_number =? -1) && negb (or_number =? i) then Done ws else or_term ws v);
      or_loop or_number (i + 1) l' ws
  end.

Definition WhereQuery_ctor (where_json_string : string) (or_number : Z) (filter_qe_logs : bool)
  : outcome where_state :=
  if (where_json_string =? EmptyString)%string then
    us ← where_star m;
    Done {| sub_queries := us; filter_list_ := []; additional_select_ := [];
            wterms_ := if or_number =? -1 then 1 else 0; where_filter_qe_logs := filter_qe_logs |}
  else
    json_or_list ← member (Parse (wrap "where" where_json_string)) "where";
    QE_PARSE_ERROR (IsArray json_or_list);;
    l ← elements json_or_list;
    or_loop or_number 0 l
      {| sub_queries := []; filter_list_ := []; additional_select_ := [];
         wterms_ := if or_number =? -1 then Z.of_nat (length l) else 0;
         where_filter_qe_logs := filter_qe_logs |}.
End where_term.

(** ** Running the sub-queries *)

(** [WhereQuery::process_query]: the status it returns and how many sub-queries
    it started; it stops at the first that fails to start.  [starts] are the
    statuses of [DbQueryUnit::process_query]; a query on the object values has
    no WHERE part.  [query_status] is the member's value before. *)
Fixpoint start_all (query_status : query_status_t) (starts : list query_status_t)
  : query_status_t * nat :=
  match starts with
  | [] => (query_status, 0%nat)
  | s :: starts' =>
      if decide (s = QUERY_FAILURE) then (QUERY_FAILURE, 1%nat)
      else let '(r, k) := start_all s starts' in (r, S k)
  end.

Definition where_process_query (table_ : string) (status_details : Z) (query_status : query_status_t)
    (starts : list query_status_t) : query_status_t * nat :=
  if negb (status_details =? 0) then (QUERY_FAILURE, 0%nat)
  else if (table_ =? OBJECT_VALUE_TABLE)%string then (QUERY_SUCCESS, 0%nat)
  else start_all query_status starts.

(** A finished sub-query. *)
Record arrival := { ar_cfname : string; ar_result : WhereResultT; ar_status : query_status_t }.

(** The members the callbacks share under [vector_push_mutex_], and the error of
    the main query. *)
Record where_run := {
  inp : list WhereResultT; inp_new_data : list WhereResultT; qperf_error : Z
}.
Definition run_init : where_run := {| inp := []; inp_new_data := []; qperf_error := 0 |}.

Section subqueries.
Context `{DbValueOrder}.

(** The part under the lock. *)
Definition arrive (st : where_run) (a : arrival) : where_run := {|
  inp := if (ar_cfname a =? OBJECT_TABLE)%string then ar_result a :: inp st
         else if (ar_cfname a =? STATS_TABLE)%string then inp st
         else inp st ++ [ar_result a];
  inp_new_data := if negb (ar_cfname a =? OBJECT_TABLE)%string && (ar_cfname a =? STATS_TABLE)%string
                  then inp_new_data st ++ [ar_result a] else inp_new_data st;
  qperf_error := if decide (ar_status a = QUERY_FAILURE) then EIO else qperf_error st
|}.

(** The set operations on the collected results; [Stopped]: an empty input. *)
Definition combine (table_ : string) (st : where_run) : outcome WhereResultT :=
  if is_message_table_query table_ || is_object_table_query table_ || is_flow_query table_ then
    stop_unless (op_or (inp st))
  else if is_stat_table_query table_ then
    old ← (match inp st with
           | [] => Done []
           | _ => r ← stop_unless (op_and (inp st)); Done [r]
           end);
    new ← stop_unless (op_and (inp_new_data st));
    stop_unless (op_or (old ++ [new]))
  else stop_unless (op_and (inp st)).

(** [subquery_processed]: the arguments of [where_query_cb_] when it is called,
    the error and the result. *)
Definition subquery_processed (table_ : string) (n_sub_queries : nat) (st : where_run) (a : arrival)
  : where_run * option (outcome (Z * WhereResultT)) :=
  let st := arrive st a in
  if negb (n_sub_queries =? length (inp st) + length (inp_new_data st))%nat then (st, None)
  else if negb (qperf_error st =? 0) then (st, Some (Done (qperf_error st, [])))
  else (st, Some (r ← combine table_ st; Done (0, r))).

(** The callbacks in the order in which the sub-queries finish. *)
Fixpoint run_arrivals (table_ : string) (n : nat) (st : where_run) (l : list arrival)
  : list (option (outcome (Z * WhereResultT))) :=
  match l with
  | [] => []
  | a :: l' => let '(st, ans) := subquery_processed table_ n st a in
               ans :: run_arrivals table_ n st l'
  end.
End subqueries.

(** ** The answer of the WHERE clause *)

Section answer.
Context `{DbValueOrder}.

Definition is_new (a : arrival) : bool := (ar_cfname a =? STATS_TABLE)%string.
Definition failed (a : arrival) : bool := bool_decide (ar_status a = QUERY_FAILURE).
Definition news (l : list arrival) : list WhereResultT := ar_result <$> filter is_new l.
Definition olds (l : list arrival) : list WhereResultT := ar_result <$> filter (λ a, negb (is_new a)) l.

(** The tables whose sub-queries are alternatives. *)
Definition or_table (table_ : string) : bool :=
  is_message_table_query table_ || is_object_table_query table_ || is_flow_query table_.

(** What the clause asks of a unit, given the results of its sub-queries. *)
Definition where_holds (table_ : string) (l : list arrival) (x : query_result_unit_t) : Prop :=
  if or_table table_ then ∃ a, a ∈ l ∧ x ∈ ar_result a
  else if is_stat_table_query table_ then
    (olds l ≠ [] ∧ ∀ r, r ∈ olds l → x ∈ r) ∨ (∀ r, r ∈ news l → x ∈ r)
  else ∀ a, a ∈ l → x ∈ ar_result a.

(** The column families of the sub-queries: a StatTable has one over the new
    table, other tables have none. *)
Definition families_ok (table_ : string) (cfs : list string) : Prop :=
  if is_stat_table_query table_ then STATS_TABLE ∈ cfs else STATS_TABLE ∉ cfs.

Lemma arrive_counts st a :
  (length (inp (arrive st a)) + length (inp_new_data (arrive st a)))%nat
  = S (length (inp st) + length (inp_new_data st)).
Proof.
  unfold arrive; simpl. destruct (ar_cfname a =? OBJECT_TABLE)%string eqn:E1,
    (ar_cfname a =? STATS_TABLE)%string eqn:E2; simpl; rewrite ?List.length_app; simpl; try lia.
Qed.

Lemma arrive_all st l :
  Permutation (inp (foldl arrive st l)) (inp st ++ olds l) ∧
  inp_new_data (foldl arrive st l) = inp_new_data st ++ news l ∧
  qperf_error (foldl arrive st l) = if existsb failed l then EIO else qperf_error st.
Proof.
  revert st. induction l as [|a l IH]; intros st; simpl; [by rewrite !app_nil_r|].
  destruct (IH (arrive st a)) as (H1 & H2 & H3). rewrite H1, H2, H3. clear IH H1 H2 H3.
  assert (OBJECT_TABLE ≠ STATS_TABLE) as Hne by done.
  unfold arrive, olds, news, failed, is_new. simpl. rewrite !filter_cons.
  destruct (String.eqb_spec (ar_cfname a) OBJECT_TABLE) as [Eo|],
    (String.eqb_spec (ar_cfname a) STATS_TABLE); simpl; try (exfalso; congruence);
    destruct (decide (ar_status a = QUERY_FAILURE)); simpl;
    (split_and!; [|by rewrite <- ?(assoc_L (++))|
       by destruct (existsb _ l); rewrite ?bool_decide_true, ?bool_decide_false by done]);
    rewrite <- ?(assoc_L (++)); try done; by rewrite Permutation_middle.
Qed.

(** The answer given when everything has arrived. *)
Definition answer (table_ : string) (st : where_run) : outcome (Z * WhereResultT) :=
  if negb (qperf_error st =? 0) then Done (qperf_error st, [])
  else r ← combine table_ st; Done (0, r).

Lemma run_arrivals_cons table_ n st a l :
  run_arrivals table_ n st (a :: l)
  = (subquery_processed table_ n st a).2
    :: run_arrivals table_ n (subquery_processed table_ n st a).1 l.
Proof. simpl. by destruct (subquery_processed table_ n st a). Qed.

Lemma subquery_processed_wait table_ n st a :
  n ≠ S (length (inp st) + length (inp_new_data st)) →
  subquery_processed table_ n st a = (arrive st a, None).
Proof.
  intros Hn. unfold subquery_processed. rewrite arrive_counts.
  by destruct (Nat.eqb_spec n (S (length (inp st) + length (inp_new_data st)))).
Qed.

Lemma subquery_processed_last table_ st a :
  subquery_processed table_ (S (length (inp st) + length (inp_new_data st))) st a
  = (arrive st a, Some (answer table_ (arrive st a))).
Proof.
  unfold subquery_processed, answer. rewrite arrive_counts, Nat.eqb_refl. cbn [negb].
  by destruct (qperf_error (arrive st a) =? 0).
Qed.

Lemma run_arrivals_once table_ n st a l :
  n = (length (inp st) + length (inp_new_data st) + S (length l))%nat →
  run_arrivals table_ n st (a :: l)
  = replicate (length l) None ++ [Some (answer table_ (foldl arrive st (a :: l)))].
Proof.
  revert st a. induction l as [|b l IH]; intros st a Hn; rewrite run_arrivals_cons.
  - simpl length in *. rewrite Nat.add_1_r in Hn. subst n. by rewrite subquery_processed_last.
  - rewrite subquery_processed_wait by
      (rewrite Hn; cbn [length]; generalize (length l), (length (inp st)); lia).
    cbn [fst snd]. rewrite IH; [done|]. rewrite arrive_counts. simpl in Hn. lia.
Qed.

Lemma existsb_perm {A} (f : A → bool) l l' : Permutation l l' → existsb f l = existsb f l'.
Proof.
  induction 1 as [|x l l' _ IH|x y l|l l' l'' _ IH1 _ IH2]; simpl;
    [done|by rewrite IH|by destruct (f x), (f y)|by rewrite IH1].
Qed.

Lemma olds_perm l l' : Permutation l l' → Permutation (olds l) (olds l').
Proof. intros Hp. unfold olds. by rewrite Hp. Qed.
Lemma news_perm l l' : Permutation l l' → Permutation (news l) (news l').
Proof. intros Hp. unfold news. by rewrite Hp. Qed.

Lemma olds_ok w l : Forall (λ a, results_ok w (ar_result a)) l → Forall (results_ok w) (olds l).
Proof.
  intros Hl. apply Forall_fmap. rewrite Forall_forall in *.
  intros a [_ Ha]%list_elem_of_filter. by apply Hl.
Qed.
Lemma news_ok w l : Forall (λ a, results_ok w (ar_result a)) l → Forall (results_ok w) (news l).
Proof.
  intros Hl. apply Forall_fmap. rewrite Forall_forall in *.
  intros a [_ Ha]%list_elem_of_filter. by apply Hl.
Qed.

(** The combination does not depend on the order within the two inputs. *)
Lemma combine_perm w table_ st st' :
  Forall (results_ok w) (inp st) → Forall (results_ok w) (inp_new_data st) →
  Permutation (inp st) (inp st') → Permutation (inp_new_data st) (inp_new_data st') →
  combine table_ st = combine table_ st'.
Proof.
  intros Hi Hn Pi Pn. unfold combine.
  rewrite (op_or_perm w (inp st) (inp st')), (op_and_perm w (inp st) (inp st')),
    (op_and_perm w (inp_new_data st) (inp_new_data st')) by done.
  destruct (inp st) as [|r rs] eqn:E.
  - apply Permutation_nil in Pi as ->. done.
  - destruct (inp st') as [|r' rs'] eqn:E'; [by symmetry in Pi; apply Permutation_nil in Pi|]. done.
Qed.

Lemma answer_perm w table_ l l' :
  Forall (λ a, results_ok w (ar_result a)) l → Permutation l l' →
  answer table_ (foldl arrive run_init l) = answer table_ (foldl arrive run_init l').
Proof.
  intros Hok Hp. destruct (arrive_all run_init l) as (I1 & N1 & E1),
    (arrive_all run_init l') as (I2 & N2 & E2). simpl in *.
  unfold answer. rewrite E1, E2, (existsb_perm _ _ _ Hp).
  rewrite (combine_perm w table_ (foldl arrive run_init l) (foldl arrive run_init l')); [done|..].
  - rewrite I1. by apply olds_ok.
  - rewrite N1. by apply news_ok.
  - rewrite I1, I2. by apply olds_perm.
  - rewrite N1, N2. by apply news_perm.
Qed.

Lemma news_nil l : news l = [] ↔ STATS_TABLE ∉ (ar_cfname <$> l).
Proof.
  unfold news. split.
  - intros E%fmap_nil_inv (a & Ha & Hl)%list_elem_of_fmap.
    assert (a ∈ filter is_new l) as Hin; [|rewrite E in Hin; set_solver].
    apply list_elem_of_filter. split; [|done]. unfold is_new. rewrite <- Ha. by rewrite String.eqb_refl.
  - intros Hn. destruct (filter is_new l) as [|a f] eqn:E; [done|]. destruct Hn.
    assert (a ∈ filter is_new l) as [Hnew Hl]%list_elem_of_filter by (rewrite E; set_solver).
    apply list_elem_of_fmap. exists a. split; [|done]. unfold is_new in Hnew.
    by destruct (String.eqb_spec (ar_cfname a) STATS_TABLE).
Qed.

Lemma olds_all l : news l = [] → olds l = ar_result <$> l.
Proof.
  intros Hn%news_nil. unfold olds. f_equal. induction l as [|a l IH]; [done|].
  rewrite fmap_cons, not_elem_of_cons in Hn. destruct Hn as [Ha Hn].
  rewrite filter_cons, IH by done. unfold is_new.
  by destruct (String.eqb_spec (ar_cfname a) STATS_TABLE) as [E|].
Qed.

Lemma or_table_not_stat table_ : or_table table_ = true → is_stat_table_query table_ = false.
Proof.
  unfold or_table, is_message_table_query, is_object_table_query, is_flow_query. intros E.
  repeat match goal with H : (_ || _) = true |- _ => apply orb_prop in H as [H|H] end;
    try (apply String.eqb_eq in E as ->; done).
  by destruct (is_stat_table_query table_); rewrite ?andb_false_r in E.
Qed.

Lemma each_result (l : list arrival) (x : query_result_unit_t) :
  (∀ r, r ∈ ar_result <$> l → x ∈ r) ↔ ∀ a : arrival, a ∈ l → x ∈ ar_result a.
Proof.
  split; [intros HH a Ha; apply HH, list_elem_of_fmap; eauto|].
  intros HH r (a & -> & Ha)%list_elem_of_fmap. auto.
Qed.

Lemma some_result (l : list arrival) (x : query_result_unit_t) :
  (∃ r, r ∈ ar_result <$> l ∧ x ∈ r) ↔ ∃ a : arrival, a ∈ l ∧ x ∈ ar_result a.
Proof.
  split; [intros (r & (a & -> & Ha)%list_elem_of_fmap & Hx); eauto|].
  intros (a & Ha & Hx). exists (ar_result a). split; [apply list_elem_of_fmap; eauto|done].
Qed.

Section combine.
Context (w : nat) (table_ : string) (l : list arrival) (Hne : l ≠ [])
  (Hok : Forall (λ a, results_ok w (ar_result a)) l) (Hf : families_ok table_ (ar_cfname <$> l)).

Lemma combine_order : combine table_ (foldl arrive run_init l)
  = combine table_ {| inp := olds l; inp_new_data := news l; qperf_error := 0 |}.
Proof.
  destruct (arrive_all run_init l) as (I & N & _). simpl in I, N.
  apply (combine_perm w); simpl; rewrite ?I, ?N; auto using olds_ok, news_ok.
Qed.

Lemma plain_inputs : is_stat_table_query table_ = false → olds l = ar_result <$> l.
Proof. intros Es. apply olds_all, news_nil. unfold families_ok in Hf. by rewrite Es in Hf. Qed.

Lemma results_all_ok : ar_result <$> l ≠ [] ∧ Forall (results_ok w) (ar_result <$> l).
Proof. split; [by intros ?%fmap_nil_inv|by apply Forall_fmap]. Qed.

(** The result of the set operations, by table. *)
Lemma combine_units : ∃ res, combine table_ (foldl arrive run_init l) = Done res ∧ results_ok w res ∧
    ∀ x, unit_wf w x → x ∈ res ↔ where_holds table_ l x.
Proof.
  rewrite combine_order. unfold combine, where_holds. fold (or_table table_).
  cbn [inp inp_new_data]. destruct results_all_ok as [Hne' Hok'].
  destruct (or_table table_) eqn:Eor; [|destruct (is_stat_table_query table_) eqn:Es].
  - rewrite (plain_inputs (or_table_not_stat _ Eor)).
    destruct (op_or_units w _ Hne' Hok') as (res & -> & Hres & Hin).
    exists res. split_and!; [done..|]. intros x Hx. by rewrite Hin, some_result.
  - assert (news l ≠ []) as Hnew.
    { rewrite news_nil. unfold families_ok in Hf. rewrite Es in Hf. tauto. }
    destruct (op_and_units w (news l) Hnew (news_ok w l Hok)) as (new & -> & Hn & Hnin).
    destruct (decide (olds l = [])) as [E|Hold].
    + rewrite E. simpl. exists new. split_and!; [done..|]. intros x Hx. rewrite Hnin by done. tauto.
    + destruct (op_and_units w (olds l) Hold (olds_ok w l Hok)) as (old & Eo & Ho & Hoin).
      destruct (op_or_units w [old; new]) as (res & Er & Hr & Hrin); [done|by rewrite !Forall_cons|].
      exists res. split_and!; [|done|].
      * destruct (olds l) as [|r rs]; [done|]. rewrite Eo.
        change (stop_unless (op_or [old; new]) = Done res). by rewrite Er.
      * intros x Hx. rewrite Hrin, <- Hoin, <- Hnin by done. set_solver.
  - rewrite (plain_inputs Es). destruct (op_and_units w _ Hne' Hok') as (res & -> & Hres & Hin).
    exists res. split_and!; [done..|]. intros x Hx. by rewrite Hin, each_result.
Qed.
End combine.

(** C3.  However the sub-queries of a WHERE clause interleave, the callback is
    called once, when the last one finishes, with an answer that does not
    depend on their order: the error [EIO] and nothing when one of them failed,
    otherwise the sorted units the clause asks for (in some sub-query for the
    message, object and flow tables, in all of them for the session tables, in
    all of the new or all of the old ones for StatTables). *)
Theorem where_answer w table_ l :
  l ≠ [] → Forall (λ a, results_ok w (ar_result a)) l → families_ok table_ (ar_cfname <$> l) →
  ∃ error res, (∀ l', Permutation l l' →
      run_arrivals table_ (length l) run_init l'
      = replicate (length l - 1) None ++ [Some (Done (error, res))]) ∧
    (if existsb failed l then error = EIO ∧ res = []
     else error = 0 ∧ results_ok w res ∧ ∀ x, unit_wf w x → x ∈ res ↔ where_holds table_ l x).
Proof.
  intros Hne Hok Hf.
  assert (∃ error res, answer table_ (foldl arrive run_init l) = Done (error, res) ∧
    (if existsb failed l then error = EIO ∧ res = []
     else error = 0 ∧ results_ok w res ∧ ∀ x, unit_wf w x → x ∈ res ↔ where_holds table_ l x))
    as (error & res & Ea & Hspec).
  { unfold answer. destruct (arrive_all run_init l) as (_ & _ & ->).
    destruct (existsb failed l); simpl; [by exists EIO, []|].
    destruct (combine_units w table_ l Hne Hok Hf) as (res & -> & ? & ?). by exists 0, res. }
  exists error, res. split; [|done]. intros l' Hp.
  pose proof (Permutation_length Hp) as Hlen. rewrite Hlen.
  destruct l' as [|a l']; [by symmetry in Hp; apply Permutation_nil in Hp|].
  rewrite run_arrivals_once, <- (answer_perm w table_ l (a :: l')), Ea by done.
  simpl. by rewrite Nat.sub_0_r.
Qed.
End answer.

(** ** The OR terms of the clause *)

Section or_terms.
Context `{JsonParser, DoubleFormat, Strtod, Regex, DbToString, VizSchema} (m : where_main).

(** What an OR term adds to the members. *)
Definition join (ws d : where_state) : where_state := {|
  sub_queries := sub_queries ws ++ sub_queries d;
  filter_list_ := filter_list_ ws ++ filter_list_ d;
  additional_select_ := additional_select_ ws ++ additional_select_ d;
  wterms_ := wterms_ ws;
  where_filter_qe_logs := where_filter_qe_logs ws && where_filter_qe_logs d
|}.

Definition start_state (n : Z) (q : bool) : where_state := {|
  sub_queries := []; filter_list_ := []; additional_select_ := []; wterms_ := n;
  where_filter_qe_logs := q
|}.

Lemma or_term_join ws v : or_term m ws v = join ws <$> or_term m (start_state 0 true) v.
Proof.
  unfold or_term. destruct (elements v) as [l| |]; simpl; [|done|done].
  destruct (fold_outcome _ _ l) as [s| |]; simpl; [|done|done].
  destruct (finish_or_term m s) as [us| |]; simpl; [|done|done].
  unfold join; simpl. do 2 f_equal. by case_match; rewrite ?app_nil_r.
Qed.

(** The shape the loop checks of every OR term. *)
Definition or_ok (v : json) : Prop := ∃ a ands, v = JArray (a :: ands).

Lemma or_loop_cons n i v l ws :
  or_ok v →
  or_loop m n i (v :: l) ws
  = (if negb (n =? -1) && negb (n =? i) then Done ws else or_term m ws v) ≫= or_loop m n (i + 1) l.
Proof. intros (a & ands & ->). simpl. by destruct (_ && _). Qed.

Lemma or_loop_ok n i v l ws ws' : or_loop m n i (v :: l) ws = Done ws' → or_ok v.
Proof. destruct v as [| | | | |[|a ands]|]; simpl; try done. intros _. by exists a, ands. Qed.

Lemma or_loop_all i l ws ws' : or_loop m (-1) i l ws = Done ws' →
  Forall or_ok l ∧ ∃ ds, Forall2 (λ v d, or_term m (start_state 0 true) v = Done d) l ds ∧
    ws' = foldl join ws ds.
Proof.
  revert i ws. induction l as [|v l IH]; intros i ws E.
  { injection E as <-. split; [done|]. by exists []. }
  pose proof (or_loop_ok _ _ _ _ _ _ E) as Hv. rewrite or_loop_cons in E by done. simpl in E.
  rewrite or_term_join in E. outcome_inv E.
  apply bind_done in Ha as (d & Hd & [= <-]).
  destruct (IH _ _ E) as (Hl & ds & Hds & ->). split; [by constructor|].
  exists (d :: ds). split; [by constructor|done].
Qed.

Lemma or_loop_past n i l ws : Forall or_ok l → n ≠ -1 → n < i → or_loop m n i l ws = Done ws.
Proof.
  intros Hl Hn. revert i. induction Hl as [|v l Hv Hl IH]; intros i Hi; [done|].
  rewrite or_loop_cons by done. destruct (Z.eqb_spec n (-1)), (Z.eqb_spec n i); try lia.
  simpl. apply IH. lia.
Qed.

Lemma or_loop_one n i l v ws : Forall or_ok l → l !! n = Some v → 0 <= i →
  or_loop m (i + Z.of_nat n) i l ws = or_term m ws v.
Proof.
  intros Hl. revert n i. induction Hl as [|v' l Hv Hl IH]; intros n i E Hi; [done|].
  rewrite or_loop_cons by done. destruct (Z.eqb_spec (i + Z.of_nat n) (-1)); [lia|].
  destruct n as [|n]; simpl in E.
  - injection E as ->. rewrite Z.add_0_r, Z.eqb_refl. simpl.
    destruct (or_term m ws v) eqn:Ev; simpl; [|done|done]. by apply or_loop_past; [|lia..].
  - destruct (Z.eqb_spec (i + Z.of_nat (S n)) i); [lia|]. simpl.
    rewrite <- (IH n (i + 1) E) by lia. f_equal. lia.
Qed.

Lemma foldl_join ws ds : foldl join ws ds = {|
  sub_queries := sub_queries ws ++ concat (sub_queries <$> ds);
  filter_list_ := filter_list_ ws ++ concat (filter_list_ <$> ds);
  additional_select_ := additional_select_ ws ++ concat (additional_select_ <$> ds);
  wterms_ := wterms_ ws;
  where_filter_qe_logs := where_filter_qe_logs ws && forallb where_filter_qe_logs ds |}.
Proof.
  revert ws. induction ds as [|d ds IH]; intros ws; simpl.
  - rewrite !app_nil_r, andb_true_r. by destruct ws.
  - rewrite IH. simpl. by rewrite <- !(assoc_L (++)), andb_assoc.
Qed.

(** *** The column families of an OR term *)

Lemma stats_vecs_nonempty r tags : populate_stats_where_vec_list r tags ≠ [].
Proof.
  unfold populate_stats_where_vec_list. case_match eqn:E; [done|].
  destruct (Z.to_nat _); [done|]. done.
Qed.

Lemma session_vecs_nonempty r a b c d : populate_session_where_vec_list r a b c d ≠ [].
Proof.
  unfold populate_session_where_vec_list. case_match eqn:E; [done|].
  destruct (Z.to_nat _); [done|]. done.
Qed.

(** The units of an object or message query read one table. *)
Lemma object_units_family t w spec us : handle_object_type_value t w spec = Done us →
  us ≠ [] ∧ Forall (λ u, cfname u = COLLECTOR_GLOBAL_TABLE) us.
Proof.
  unfold handle_object_type_value. destruct (is_object_table_query t).
  - intros E. outcome_inv E. injection E as <-. split; [done|].
    constructor; [done|]. apply Forall_fmap, Forall_true. done.
  - intros [= <-]. split; [done|by repeat constructor].
Qed.

Lemma flow_unit_family s k p u : flow_unit m s k p = Done u → cfname u = SESSION_TABLE.
Proof.
  unfold flow_unit. intros E. apply bind_done in E as ([lo hi] & _ & E). outcome_inv E.
  by injection E as <-.
Qed.

Lemma one_family us cf (c : string) : us ≠ [] → Forall (λ u, cfname u = cf) us → cf ≠ c →
  c ∉ (cfname <$> us).
Proof.
  intros _ Hus Hc (u & -> & Hu)%list_elem_of_fmap. rewrite Forall_forall in Hus. by destruct Hc; rewrite (Hus u).
Qed.

Lemma finish_families s us : wm_table m ≠ OBJECT_VALUE_TABLE → finish_or_term m s = Done us →
  us ≠ [] ∧ families_ok (wm_table m) (cfname <$> us).
Proof.
  intros Ht. unfold finish_or_term, families_ok.
  destruct (is_stat_table_query (wm_table m)) eqn:Es.
  { intros E. apply bind_done in E as (us' & E & [= <-]). unfold stat_units in E.
    apply bind_done in E as ([tstr astr] & _ & E). apply bind_done in E as ([lo hi] & _ & [= <-]).
    destruct (populate_stats_where_vec_list (vec "stats" s) (where_vec_tags_stats s)) as [|w ws] eqn:Ew;
      [by destruct (stats_vecs_nonempty _ _ Ew)|].
    split; [by intros [_ ?]%app_eq_nil|]. rewrite fmap_app, elem_of_app. right. simpl. left. }
  destruct (is_message_table_query (wm_table m) || is_object_table_query (wm_table m)) eqn:Em.
  { intros E. outcome_inv E. destruct (object_units_family _ _ _ _ E). split; [done|].
    by eapply one_family. }
  destruct (is_session_query (wm_table m)) eqn:Ess.
  { unfold session_units. intros E. apply bind_done in E as ([lo hi] & _ & [= <-]).
    split; [by intros ?%fmap_nil_inv%session_vecs_nonempty|].
    intros (u & Hu & (x & -> & Hx)%list_elem_of_fmap)%list_elem_of_fmap. done. }
  destruct (is_flow_query (wm_table m)) eqn:Ef.
  { unfold flow_units. intros E. apply bind_done in E as (c & Hc & E).
    apply bind_done in E as (sv & Hs & [= <-]). split; [done|].
    apply (one_family [c; sv] SESSION_TABLE); [done| |done].
    repeat constructor; by eapply flow_unit_family. }
  exfalso. revert Em Ef Ess. unfold is_object_table_query, is_message_table_query, is_flow_query.
  rewrite Es. intros Em Ef Ess. rewrite Ess in Em.
  destruct (String.eqb_spec (wm_table m) OBJECT_VALUE_TABLE); [done|].
  apply orb_false_iff in Ef as [E1 E2]. rewrite E1, E2 in Em. by destruct (wm_table m =? MESSAGE_TABLE)%string.
Qed.

(** Translating the whole clause gives the parts its OR terms give on their own. *)
Lemma where_parts text q ws : WhereQuery_ctor m text (-1) q = Done ws →
  ∃ parts : list where_state,
    wterms_ ws = Z.of_nat (length parts) ∧
    sub_queries ws = concat (sub_queries <$> parts) ∧
    filter_list_ ws = concat (filter_list_ <$> parts) ∧
    additional_select_ ws = concat (additional_select_ <$> parts) ∧
    ∀ i part, parts !! i = Some part → WhereQuery_ctor m text (Z.of_nat i) q = Done part ∧
      (text ≠ EmptyString → ∃ s, finish_or_term m s = Done (sub_queries part)).
Proof.
  unfold WhereQuery_ctor. destruct (String.eqb_spec text EmptyString) as [->|Ht]; simpl.
  { intros E. apply bind_done in E as (us & Hus & [= <-]).
    exists [ {| sub_queries := us; filter_list_ := []; additional_select_ := []; wterms_ := 0;
                where_filter_qe_logs := q |} ]. simpl.
    split_and!; [done|by rewrite app_nil_r|done|done|]. intros [|i] part Hi; [|done]. simpl in Hi.
    injection Hi as <-. by rewrite Hus. }
  intros E. apply bind_done in E as (v & Ev & E). apply bind_done in E as ([] & Ep & E).
  apply bind_done in E as (l & El & E). change (-1 =? -1) with true in E. cbv iota in E.
  destruct (or_loop_all _ _ _ _ E) as (Hok & ds & Hds & ->). rewrite foldl_join. simpl.
  exists (join (start_state 0 q) <$> ds). rewrite length_fmap, <- !list_fmap_compose.
  split_and!; [by rewrite (Forall2_length _ _ _ Hds)|done|done|done|].
  intros i part Hi. apply list_lookup_fmap_Some in Hi as (d & -> & Hd).
  destruct (Forall2_lookup_r _ _ _ _ _ Hds Hd) as (vi & Hvi & Hti).
  rewrite Ev. simpl. rewrite Ep. simpl. rewrite El. simpl.
  destruct (Z.eqb_spec (Z.of_nat i) (-1)); [lia|]. split.
  - rewrite (or_loop_one i 0 l vi) by (done || lia). by rewrite or_term_join, Hti.
  - intros _. unfold or_term in Hti. outcome_inv Hti. injection Hti as <-. simpl. by exists a0.
Qed.

(** C4.  Preparing a query and executing its OR terms agree: when the prepare
    step ([or_number] -1) accepts a clause, its [wterms_] counts the OR terms,
    each of them is accepted when it is executed on its own, the sub-queries
    and filters of the whole are those of the terms one after the other, and
    every term has sub-queries over the column families its table is combined
    from. *)
Theorem where_terms_split text q ws :
  text ≠ EmptyString → wm_table m ≠ OBJECT_VALUE_TABLE → WhereQuery_ctor m text (-1) q = Done ws →
  ∃ parts : list where_state,
    wterms_ ws = Z.of_nat (length parts) ∧
    sub_queries ws = concat (sub_queries <$> parts) ∧
    filter_list_ ws = concat (filter_list_ <$> parts) ∧
    ∀ i part, parts !! i = Some part →
      WhereQuery_ctor m text (Z.of_nat i) q = Done part ∧
      sub_queries part ≠ [] ∧ families_ok (wm_table m) (cfname <$> sub_queries part).
Proof.
  intros Ht Htab E. destruct (where_parts text q ws E) as (parts & Hn & Hs & Hf & _ & Hp).
  exists parts. split_and!; [done|done|done|]. intros i part Hi. destruct (Hp i part Hi) as (Hc & Hfin).
  split; [done|]. destruct (Hfin Ht) as (s & Hu). by eapply finish_families.
Qed.
End or_terms.

(** ** Conditions on tags *)

Section tags.
Context (P : WhereIndexInfo → Prop).
Implicit Types (rest : list WhereIndexInfo) (vecs : list (list WhereIndexInfo)).

Lemma omap_length_le {A B} (f : A → option B) l : (length (omap f l) <= length l)%nat.
Proof. induction l as [|x l IH]; csimpl; [lia|]. destruct (f x); simpl; lia. Qed.

(** One condition of each vector per sub-query. *)
Definition spread (n : nat) rest vecs : list (list WhereIndexInfo) :=
  if (n =? 0)%nat then [rest]
  else (λ i, rest ++ omap (λ v, (v : list WhereIndexInfo) !! i) vecs) <$> seq 0 n.

Lemma spread_row rest vecs i : Forall P (rest ++ omap (λ v, (v : list WhereIndexInfo) !! i) vecs) ↔
  Forall P rest ∧ ∀ v c, v ∈ vecs → v !! i = Some c → P c.
Proof.
  rewrite Forall_app, (Forall_forall _ (omap _ _)). setoid_rewrite list_elem_of_omap.
  split; intros [? HH]; (split; [done|]); [intros v c ??; apply HH; eauto|].
  intros c (v & ? & ?); eauto.
Qed.

Lemma spread_conj n rest vecs : Forall (λ v, (length v <= n)%nat) vecs →
  Forall (Forall P) (spread n rest vecs) ↔ Forall P (rest ++ concat vecs).
Proof.
  intros Hn. unfold spread. rewrite Forall_app, Forall_concat.
  rewrite Forall_forall in Hn. destruct (Nat.eqb_spec n 0) as [->|Hpos].
  - rewrite Forall_singleton. split; [|tauto]. intros Hr. split; [done|].
    apply Forall_forall. intros v Hv. specialize (Hn v Hv). by destruct v; [|simpl in Hn; lia].
  - rewrite Forall_fmap, Forall_forall. setoid_rewrite elem_of_seq. unfold compose.
    setoid_rewrite spread_row. split.
    + intros HH. split; [apply (HH 0%nat); lia|]. apply Forall_forall. intros v Hv.
      apply Forall_lookup. intros i c Hc. destruct (HH i) as [_ Hi]; [|by eapply Hi].
      apply lookup_lt_Some in Hc. specialize (Hn v Hv). lia.
    + intros [Hr HH] i _. split; [done|]. intros v c Hv Hc. rewrite Forall_forall in HH.
      eapply Forall_lookup_1; [by apply HH|done].
Qed.

Lemma spread_bound n rest vecs w : w ∈ spread n rest vecs →
  ∃ tags, w = rest ++ tags ∧ (length tags <= length vecs)%nat.
Proof.
  unfold spread. case_match.
  - intros ->%list_elem_of_singleton. exists []. rewrite app_nil_r. simpl. split; [done|lia].
  - intros (i & -> & _)%list_elem_of_fmap. eexists. split; [done|].
    apply omap_length_le.
Qed.

(** The counters do not wrap below 65536 tags. *)
Lemma max_tags_bound vecs m : 0 <= m → Forall (λ v, Z.of_nat (length v) < 65536) vecs →
  let r := foldl (λ m v, if m <? Z.of_nat (length v) then u16 (Z.of_nat (length v)) else m) m vecs in
  m <= r ∧ Forall (λ v, (length v <= Z.to_nat r)%nat) vecs.
Proof.
  intros Hm Hv. revert m Hm. induction Hv as [|v vecs Hv Hvs IH]; intros m Hm; simpl; [split; [lia|done]|].
  assert (u16 (Z.of_nat (length v)) = Z.of_nat (length v)) as -> by (apply Z.mod_small; lia).
  set (m' := if m <? Z.of_nat (length v) then Z.of_nat (length v) else m).
  assert (m <= m' ∧ Z.of_nat (length v) <= m') as [??].
  { unfold m'. destruct (Z.ltb_spec m (Z.of_nat (length v))); lia. }
  destruct (IH m') as [H1 H2]; [lia|]. split; [lia|]. constructor; [lia|done].
Qed.

Lemma max_length vecs : Forall (λ v, (length v <= foldr Nat.max 0 (length <$> vecs))%nat) vecs.
Proof.
  induction vecs as [|v vecs IH]; constructor; csimpl; [lia|].
  eapply Forall_impl; [exact IH|]. simpl. intros; lia.
Qed.

Lemma max_length_lt vecs b : 0 < b → Forall (λ v, Z.of_nat (length v) < b) vecs →
  Z.of_nat (foldr Nat.max 0%nat (length <$> vecs)) < b.
Proof. intros Hb. induction 1; csimpl; lia. Qed.
End tags.

(** Conditions on tags of one column cannot be joined in a database query,
    so they are spread over several sub-queries, whose results are intersected:
    a row satisfies all of those exactly when it satisfies every condition, and
    each sub-query has at most one condition from every vector of tags. *)
Theorem tag_conditions_spread (P : WhereIndexInfo → Prop) rest a b c d stats tags :
  Forall (λ v, Z.of_nat (length v) < 65536) [a; b; c; d] →
  Forall (λ v, Z.of_nat (length v) < 65536) tags →
  let session_vecs := populate_session_where_vec_list rest a b c d in
  let stats_vecs := populate_stats_where_vec_list stats tags in
  (Forall (Forall P) session_vecs ↔ Forall P (rest ++ a ++ b ++ c ++ d)) ∧
  (Forall (Forall P) stats_vecs ↔ Forall P (stats ++ concat tags)) ∧
  (∀ w, w ∈ session_vecs → ∃ one, w = rest ++ one ∧ (length one <= 4)%nat) ∧
  (∀ w, w ∈ stats_vecs → ∃ one, w = stats ++ one ∧ (length one <= length tags)%nat).
Proof.
  intros Hs Ht session_vecs stats_vecs.
  change session_vecs with (spread (Z.to_nat (u16 (Z.of_nat (foldr Nat.max 0%nat (length <$> [a; b; c; d])))))
    rest [a; b; c; d]).
  unfold u16. rewrite (Z.mod_small _ (2 ^ 16)), Nat2Z.id
    by (split; [lia|by apply (max_length_lt [a; b; c; d] 65536)]).
  split_and!.
  - rewrite spread_conj by apply max_length. simpl. by rewrite app_nil_r.
  - unfold stats_vecs, populate_stats_where_vec_list. apply (spread_conj P).
    by apply (max_tags_bound tags 0).
  - intros w. apply (spread_bound _ rest [a; b; c; d]).
  - intros w. apply (spread_bound _ stats tags).
Qed.

(** ** Queries on object tables *)

Definition object_columns : list string :=
  ["column6"; "column7"; "column8"; "column9"; "column10"; "column11"].

Lemma object_cass_column t c : is_object_table_query t = true →
  query_column_to_cass_column t c = Some (default EmptyString (msg_index_columns !! c)).
Proof. intros Ht. unfold query_column_to_cass_column. by rewrite Ht, orb_true_r. Qed.

Lemma where_index_found c w op v : (c, op, v) ∈ w → ∃ op' v', w !! where_index c w = Some (c, op', v').
Proof.
  induction w as [|[[c' op'] v'] w IH]; [by intros ?%not_elem_of_nil|].
  intros [E|Hw]%elem_of_cons; simpl.
  - injection E as <- <- <-. rewrite String.eqb_refl. eauto.
  - destruct (String.eqb_spec c c') as [->|]; simpl; eauto.
Qed.

Lemma object_column_units t w i op v : is_object_table_query t = true →
  w !! i = Some ("column6"%string, op, v) →
  for_each (λ k, stop_unless (object_column_vec t w i k)) (seqZ 2 (MSG_TABLE_MAX_OBJECTS_PER_MSG - 1))
  = Done ((λ c, <[i := (c, op, v)]> w) <$> tail object_columns).
Proof.
  intros Ht Hi. change (seqZ 2 (MSG_TABLE_MAX_OBJECTS_PER_MSG - 1)) with [2; 3; 4; 5; 6].
  unfold object_column_vec. simpl. rewrite !(object_cass_column t) by done. simpl. by rewrite Hi.
Qed.

Lemma add_table_prefix t w : is_object_table_query t = true →
  add_where t w OBJECT_TYPE_NAME1 (get_gendb_op_from_op PREFIX) (t +:+ ":")
  = Done (w ++ [("column6"%string, OpLIKE, DbString ((t +:+ ":") +:+ "%"))]).
Proof.
  intros Ht. unfold add_where, populate_where_vec. rewrite object_cass_column by done. simpl.
  destruct (String.eqb_spec ((t +:+ ":") +:+ "%") "%") as [E|]; [|done].
  apply (f_equal String.length) in E. rewrite !CppString.length_app in E. simpl in E. lia.
Qed.

(** A query on an object table becomes six sub-queries, one for each object
    column of the message table, that differ only in the column the condition
    on the object is put on; without an object id that condition is the prefix
    of the table's name. *)
Theorem object_query_units t w spec :
  is_object_table_query t = true → (spec = true → ∃ op v, ("column6"%string, op, v) ∈ w) →
  ∃ i op v w', handle_object_type_value t w spec
      = Done ((λ c, msg_unit (<[i := (c, op, v)]> w')) <$> object_columns) ∧
    w' !! i = Some ("column6"%string, op, v) ∧
    w' = if spec then w else w ++ [("column6"%string, OpLIKE, DbString ((t +:+ ":") +:+ "%"))].
Proof.
  intros Ht Hspec. unfold handle_object_type_value. rewrite Ht, object_cass_column by done.
  change (default EmptyString (msg_index_columns !! OBJECT_TYPE_NAME1)) with "column6"%string.
  assert (∃ w', (if spec then Done w else
      add_where t w OBJECT_TYPE_NAME1 (get_gendb_op_from_op PREFIX) (t +:+ ":")) = Done w' ∧
    w' = (if spec then w else w ++ [("column6"%string, OpLIKE, DbString ((t +:+ ":") +:+ "%"))]) ∧
    ∃ op v, ("column6"%string, op, v) ∈ w') as (w' & Ew & Hw & op0 & v0 & Hin).
  { destruct spec; [destruct Hspec as (op & v & ?); [done|]; eexists; split_and!; eauto|].
    rewrite add_table_prefix by done. eexists. split_and!; [done..|].
    do 2 eexists. apply elem_of_app. right. left. }
  destruct (where_index_found _ _ _ _ Hin) as (op & v & Hi).
  exists (where_index "column6" w'), op, v, w'. split_and!; [|done|done].
  apply bind_done. exists "column6"%string. split; [done|].
  apply bind_done. exists tt. split; [done|]. apply bind_done. exists w'. split; [done|].
  apply bind_done. eexists. split; [by apply (object_column_units _ _ _ op v)|].
  rewrite <- list_fmap_compose.
  change object_columns with ("column6"%string :: tail object_columns). rewrite fmap_cons.
  by rewrite list_insert_id.
Qed.

(** ** Flow, session and StatTable terms *)

Section term_facts.
Context `{JsonParser, DoubleFormat, Strtod, StringToInteger, Regex, DbToString, StatFormat, VizSchema}
  (m : where_main).

Lemma stat_cass_column t c : is_stat_table_query t = true →
  query_column_to_cass_column t c = Some (default EmptyString (stats_index_columns !! c)).
Proof.
  intros Ht. unfold query_column_to_cass_column.
  destruct (is_message_table_query t || is_object_table_query t) eqn:E1.
  { rewrite or_table_not_stat in Ht; [done|]. unfold or_table. by rewrite E1. }
  destruct (is_flow_query t) eqn:E2.
  { rewrite or_table_not_stat in Ht; [done|]. unfold or_table. by rewrite E2, orb_true_r. }
  destruct (is_session_query t) eqn:E3; [|by rewrite Ht].
  unfold is_session_query in E3. by apply orb_prop in E3 as [->%String.eqb_eq | ->%String.eqb_eq].
Qed.

Lemma flow_cass_column t c : is_flow_query t = true →
  query_column_to_cass_column t c = Some (default EmptyString (session_index_columns !! c)).
Proof.
  intros Ht. unfold is_flow_query in Ht.
  by apply orb_prop in Ht as [->%String.eqb_eq | ->%String.eqb_eq].
Qed.

Lemma add_match_extends w c f w' : add_match m w c f = Done w' → ∃ e, w' = w ++ e.
Proof.
  destruct f as [[[] v2 op]|]; simpl; try done.
  - unfold add_where, populate_where_vec. intros E.
    destruct (query_column_to_cass_column (wm_table m) c); simpl in E; [|done].
    repeat case_match; simplify_eq/=; eauto; exists []; by rewrite app_nil_r.
  - intros [= <-]. exists []. by rewrite app_nil_r.
Qed.

(** The first condition of a flow unit is the one on the local address. *)
Lemma flow_unit_local_ip s k port u w0 :
  add_match m [] "local_ip" (pick m (matches s !! "dip"%string) (matches s !! "sip"%string)) = Done w0 →
  flow_unit m s k port = Done u → ∃ e, where_vec u = w0 ++ e.
Proof.
  intros E0. unfold flow_unit. intros E. apply bind_done in E as ([lo hi] & _ & E).
  rewrite E0 in E. apply bind_done in E as (w1 & [= <-] & E).
  apply bind_done in E as (w2 & (e2 & ->)%add_match_extends & E).
  apply bind_done in E as (w3 & (e3 & ->)%add_match_extends & [= <-]).
  exists (e2 ++ e3). by rewrite (assoc_L (++)).
Qed.

Lemma ranged_local_ip s value value2 k port u :
  is_flow_query (wm_table m) = true → direction_ing m = 1 → value ≠ "%"%string →
  flow_unit m (set_match "sip" {| fmt_val := DbString value; fmt_val2 := DbString value2;
                                  fmt_op := IN_RANGE |} s) k port = Done u →
  ("column20"%string, OpEQ, DbString value) ∈ where_vec u.
Proof.
  intros Ht Hd Hv Eu. 
  eapply (flow_unit_local_ip _ k port u [("column20"%string, OpEQ, DbString value)]) in Eu as [e ->].
  - apply list_elem_of_here.
  - unfold pick. rewrite Hd. cbn [matches set_match]. rewrite lookup_insert_eq.
    change (1 =? 0) with false. change (1 =? 1) with true. cbv iota.
    unfold add_match, add_where, populate_where_vec. cbn [fmt_val fmt_op].
    rewrite flow_cass_column by done. change (like_or_eq IN_RANGE) with OpEQ.
    change (default EmptyString (session_index_columns !! "local_ip"%string)) with "column20"%string.
    rewrite decide_False by done. cbn [mbind outcome_bind stop_unless].
    by destruct (String.eqb_spec value "%").
Qed.

Lemma port_without_protocol f : port_bounds None (Some f) = Status EINVAL.
Proof. done. Qed.

(** A port can only be asked for together with a protocol: a session query
    on the server port and a flow query (in either direction) on a port are
    refused with [EINVAL] when no term names the protocol. *)
Theorem port_needs_protocol s :
  matches s !! "proto"%string = None →
  (is_Some (matches s !! "sport"%string) → session_units m s = Status EINVAL) ∧
  (direction_ing m = 0 ∨ direction_ing m = 1 →
   is_Some (matches s !! "sport"%string) ∨ is_Some (matches s !! "dport"%string) →
   ∀ us, flow_units m s ≠ Done us).
Proof.
  intros Hp. split.
  - intros [f Hf]. unfold session_units. by rewrite Hp, Hf.
  - intros Hd Hport us E. unfold flow_units, flow_unit, pick in E. rewrite Hp in E.
    destruct (matches s !! "sport"%string) as [sp|], (matches s !! "dport"%string) as [dp|],
      Hd as [Hd|Hd]; rewrite Hd in E; simpl in E; try done;
      try (by destruct Hport as [[? ?]|[? ?]]).
    all: repeat (apply bind_done in E as (? & _ & E)); done.
Qed.

(** The test that sends a suffix to an index column reads the name of the
    prefix: a suffix that has no index column is refused below a prefix that
    ends in the key field, although it is turned into a tag condition below
    any other prefix. *)
Theorem suffix_below_key_refused s t :
  is_stat_table_query (wm_table m) = true → pname t ≠ STATS_NAME_FIELD →
  is_key_field (pname t) = true → sop t = EQUAL ∨ sop t = PREFIX →
  stats_index_columns !! sname t = None →
  suffix_term m s t = Status EINVAL ∧
  (∀ n, is_key_field n = false → is_proxy_field n = false →
     suffix_term m s {| pname := n; pop := pop t; pval := pval t; pval2 := pval2 t;
                        sname := sname t; sop := sop t; sval := sval t; sval2 := sval2 t |}
     = tag_term m s (sname t) (sval t)).
Proof.
  intros Ht Hn Hk Hop Hs.
  assert (sname t ≠ STATS_NAME_FIELD ∧ sname t ≠ STATS_SOURCE_FIELD) as [H1' H2'].
  { split; intros E; by rewrite E in Hs. }
  assert (sop t ≠ no_op) by (by destruct Hop as [-> | ->]).
  assert (bool_decide (sop t = EQUAL) || bool_decide (sop t = PREFIX) = true) as Hb.
  { destruct Hop as [-> | ->]; done. }
  split.
  - unfold suffix_term. rewrite decide_False by done. unfold prefix_name_after, index_field.
    rewrite Hk, orb_true_r. destruct (String.eqb_spec (pname t) STATS_NAME_FIELD); [done|].
    destruct (String.eqb_spec (sname t) STATS_NAME_FIELD); [done|].
    change (is_proxy_field STATS_KEY_FIELD) with false. cbv zeta. cbn [orb negb andb].
    change (is_key_field STATS_KEY_FIELD) with true. rewrite orb_true_r. cbn [orb].
    rewrite Hb. unfold add_where, populate_where_vec. by rewrite stat_cass_column, Hs.
  - intros n Hnk Hnp. unfold suffix_term, prefix_name_after, index_field. cbn [pname sname sop sval].
    rewrite decide_False by done. destruct (String.eqb_spec (sname t) STATS_NAME_FIELD); [done|].
    destruct (String.eqb_spec (sname t) STATS_SOURCE_FIELD); [done|].
    rewrite Hnk, Hnp. destruct (negb _ && _); rewrite Hnk, Hnp; cbn [orb]; by rewrite Hb.
Qed.

(** A range of addresses in a flow query is not applied: on the side that
    is filtered, every address passes the filter and the sub-queries are
    unchanged; on the local side the sub-queries ask for the lower end of the
    range alone. *)
Theorem flow_ip_range_not_applied s value value2 :
  is_flow_query (wm_table m) = true → value ≠ "%"%string →
  (direction_ing m = 0 → ∃ s' f, flow_term m s "sourceip" IN_RANGE value value2 = Done s' ∧
     filter_and s' = filter_and s ++ [f] ∧ (∀ v, stats_match f v = true) ∧
     flow_units m s' = flow_units m s) ∧
  (direction_ing m = 1 → ∃ s', flow_term m s "sourceip" IN_RANGE value value2 = Done s' ∧
     filter_and s' = filter_and s ∧
     ∀ us, flow_units m s' = Done us →
       Forall (λ u, ("column20"%string, OpEQ, DbString value) ∈ where_vec u) us).
Proof.
  intros Ht Hv. split; intros Hd.
  - unfold flow_term, ip_match. simpl. rewrite Hd. simpl. eexists _, _. split_and!; [done|done|done|].
    unfold flow_units, flow_unit, pick. rewrite Hd. simpl.
    by rewrite !lookup_insert_ne.
  - unfold flow_term, ip_match. simpl. rewrite Hd. simpl. eexists. split_and!; [done|done|].
    intros us E. unfold flow_units in E. apply bind_done in E as (c & Hc & E).
    apply bind_done in E as (sv & Hsv & [= <-]).
    repeat constructor; by eapply (ranged_local_ip s value value2).
Qed.
End term_facts.

(** ** Examples *)

Module WhereExamples.
#[local] Existing Instance ConcreteStringToInteger.instance.
#[local] Existing Instance SchemaExamples.schema.
#[local] Existing Instance PostExamples.regex.
#[local] Existing Instance PostExamples.format.
#[local] Existing Instance PostExamples.double_format.
#[local] Existing Instance ConcreteOrder.order.

Definition db_to_string : DbToString := {|
  DbDataValueToString v := match v with DbString s => s | DbU64 n => pretty n | _ => EmptyString end
|}.
#[local] Existing Instance db_to_string.
Definition to_double : Strtod := {| strtod _ := S754_zero false |}.
#[local] Existing Instance to_double.

Definition term (n v : string) : json :=
  JObject [("name", JString n); ("value", JString v); ("op", JInt 1)].

(** Two clauses: [sourcevn = a OR (sourcevn = b AND vrouter = Y)], and
    [vrouter = X OR vrouter = Y]. *)
Definition parser : JsonParser := {|
  Document_Parse text :=
    if (text =? wrap "where" "q1")%string
    then Some (JObject [("where", JArray [JArray [term "sourcevn" "a"];
                                          JArray [term "sourcevn" "b"; term "vrouter" "Y"]])])
    else if (text =? wrap "where" "q2")%string
    then Some (JObject [("where", JArray [JArray [term "vrouter" "X"]; JArray [term "vrouter" "Y"]])])
    else None
|}.
#[local] Existing Instance parser.

Definition flows : where_main := {|
  wm_table := FLOW_TABLE; wm_stats := None; wm_schema := None; wm_moduleid := "contrail-query-engine";
  session_type := 0; is_si := 0; direction_ing := 1; oldDataExists := false
|}.

Definition filters_of (text : string) (or_number : Z) : option (list (list filter_match_t)) :=
  match WhereQuery_ctor flows text or_number true with Done ws => Some (filter_list_ ws) | _ => None end.

Definition flow_row (vn vr : string) : StatMap :=
  {[ "sourcevn"%string := SvString vn; "vrouter"%string := SvString vr ]}.

Definition bytes_filter : filter_match_t := {|
  fm_name := "sum(bytes)"; fm_value := "0"; fm_op := GEQ; ignore_col_absence := false;
  match_e := EmptyString |}.

(** The filters of a flow query's OR terms do not stay with their terms.
    In [sourcevn = a OR (sourcevn = b AND vrouter = Y)] the first term has no
    filter, yet a flow of [a] on another vrouter is dropped by the filter of
    the second.  In [vrouter = X OR vrouter = Y] a filter of the user gets both
    terms' filters as a conjunction, and flows of [X] and of [Y] are dropped. *)
Theorem or_term_filters_mixed :
  let keep (text : string) user row := (λ fl, stats_keep (add_where_filters fl user) row) <$> filters_of text (-1) in
  let counted row := <["sum(bytes)"%string := SvU64 7]> row in
  (filters_of "q1" 0 = Some [] ∧ keep "q1" [] (flow_row "a" "X") = Some false) ∧
  (keep "q2" [] (flow_row "a" "X") = Some true ∧ keep "q2" [] (flow_row "a" "Y") = Some true ∧
   keep "q2" [[bytes_filter]] (counted (flow_row "a" "X")) = Some false ∧
   keep "q2" [[bytes_filter]] (counted (flow_row "a" "Y")) = Some false).
Proof. vm_compute. split_and!; reflexivity. Qed.

(** Witnesses. *)
Definition done_ (cf : string) (r : WhereResultT) : arrival :=
  {| ar_cfname := cf; ar_result := r; ar_status := QUERY_SUCCESS |}.
Definition three : list arrival :=
  [done_ COLLECTOR_GLOBAL_TABLE SetOpsExamples.r1; done_ COLLECTOR_GLOBAL_TABLE SetOpsExamples.r2;
   done_ COLLECTOR_GLOBAL_TABLE SetOpsExamples.r3].

Lemma where_answer_witness :
  ∃ error res, (∀ l', Permutation three l' →
      run_arrivals MESSAGE_TABLE 3 run_init l' = replicate 2 None ++ [Some (Done (error, res))]) ∧
    error = 0 ∧ results_ok 2 res ∧
    ∀ x, unit_wf 2 x → x ∈ res ↔ where_holds MESSAGE_TABLE three x.
Proof.
  apply (where_answer 2 MESSAGE_TABLE three); [done| |].
  - exact (proj1 (Forall_fmap ar_result (results_ok 2) three) SetOpsExamples.inputs_ok).
  - unfold families_ok. change (is_stat_table_query MESSAGE_TABLE) with false. cbv iota.
    by apply (bool_decide_unpack (STATS_TABLE ∉ _)).
Defined.

Lemma where_terms_split_witness :
  ∃ ws, WhereQuery_ctor flows "q1" (-1) true = Done ws ∧
  ∃ parts : list where_state,
    wterms_ ws = Z.of_nat (length parts) ∧
    sub_queries ws = concat (sub_queries <$> parts) ∧
    filter_list_ ws = concat (filter_list_ <$> parts) ∧
    ∀ i part, parts !! i = Some part →
      WhereQuery_ctor flows "q1" (Z.of_nat i) true = Done part ∧
      sub_queries part ≠ [] ∧ families_ok FLOW_TABLE (cfname <$> sub_queries part).
Proof.
  destruct (WhereQuery_ctor flows "q1" (-1) true) as [ws| |] eqn:E; [|vm_compute in E; discriminate..].
  exists ws. split; [done|].
  apply (where_terms_split flows "q1" true ws); [done|done|exact E].
Defined.

Lemma tag_conditions_spread_witness (P := λ wi : WhereIndexInfo, wi.1.2 = OpLIKE) :
  let tag (s : string) : WhereIndexInfo := ("column9"%string, OpLIKE, DbString s) in
  let session_vecs := populate_session_where_vec_list [] [tag "a"; tag "b"] [] [tag "c"] [] in
  let stats_vecs := populate_stats_where_vec_list [] [[tag "a"]; [tag "b"; tag "c"]; []; []] in
  (Forall (Forall P) session_vecs ↔ Forall P ([] ++ [tag "a"; tag "b"] ++ [] ++ [tag "c"] ++ [])) ∧
  (Forall (Forall P) stats_vecs ↔ Forall P ([] ++ concat [[tag "a"]; [tag "b"; tag "c"]; []; []])) ∧
  (∀ w, w ∈ session_vecs → ∃ one, w = [] ++ one ∧ (length one <= 4)%nat) ∧
  (∀ w, w ∈ stats_vecs → ∃ one, w = [] ++ one ∧ (length one <= 4)%nat).
Proof. apply tag_conditions_spread; by repeat constructor. Defined.

Lemma object_query_units_witness :
  let t := "ObjectVRouter"%string in
  ∃ i op v w', handle_object_type_value t [] false
      = Done ((λ c, msg_unit (<[i := (c, op, v)]> w')) <$> object_columns) ∧
    w' !! i = Some ("column6"%string, op, v) ∧
    w' = [] ++ [("column6"%string, OpLIKE, DbString ((t +:+ ":") +:+ "%"))].
Proof. by apply (object_query_units "ObjectVRouter" [] false). Defined.

Definition with_port : or_state :=
  set_match "sport" {| fmt_val := DbU16 80; fmt_val2 := DbBlank; fmt_op := EQUAL |} (or_init flows).

Lemma port_needs_protocol_witness :
  session_units flows with_port = Status EINVAL ∧ ∀ us, flow_units flows with_port ≠ Done us.
Proof.
  split; [apply (port_needs_protocol flows with_port); [by vm_compute|by vm_compute; eauto]|].
  apply (port_needs_protocol flows with_port); [by vm_compute|by right|left; by vm_compute; eauto].
Defined.

Definition stats_main : where_main := {|
  wm_table := "StatTable.NodeStatus.disk"; wm_stats := None; wm_schema := None;
  wm_moduleid := "contrail-query-engine"; session_type := 0; is_si := 0; direction_ing := 1;
  oldDataExists := false
|}.
Definition keyed : stat_term := {|
  pname := "disk.__key"; pop := EQUAL; pval := DbString "a"; pval2 := DbBlank;
  sname := "disk.name"; sop := EQUAL; sval := DbString "b"; sval2 := DbBlank
|}.

Lemma suffix_below_key_refused_witness :
  suffix_term stats_main (or_init stats_main) keyed = Status EINVAL ∧
  (∀ n, is_key_field n = false → is_proxy_field n = false →
     suffix_term stats_main (or_init stats_main)
       {| pname := n; pop := EQUAL; pval := DbString "a"; pval2 := DbBlank;
          sname := "disk.name"; sop := EQUAL; sval := DbString "b"; sval2 := DbBlank |}
     = tag_term stats_main (or_init stats_main) "disk.name" (DbString "b")).
Proof.
  apply (suffix_below_key_refused stats_main (or_init stats_main) keyed);
    [by vm_compute|done|by vm_compute|by left|by vm_compute].
Defined.

Lemma flow_ip_range_not_applied_witness :
  ∃ s', flow_term flows (or_init flows) "sourceip" IN_RANGE "10.0.0.1" "10.0.0.9" = Done s' ∧
    filter_and s' = filter_and (or_init flows) ∧
    ∀ us, flow_units flows s' = Done us →
      Forall (λ u, ("column20"%string, OpEQ, DbString "10.0.0.1") ∈ where_vec u) us.
Proof.
  apply (flow_ip_range_not_applied flows (or_init flows) "10.0.0.1" "10.0.0.9"); by vm_compute.
Defined.
End WhereExamples.
