(* ===== verification/QueryPipeline.v ===== *)
(** * The pipeline of one query

    [QEOpServerProxy::QEOpServerImpl] of
    [contrail-query-engine/QEOpServerProxy.cc]: a query runs as a pipeline.  Its
    first stage has a fixed number of instances; each draws the next chunk from
    a shared counter, requests the WHERE result of every OR term of the chunk
    and then the rows of the chunk, and accumulates them ([Stage0_QueryExec]).  When
    all instances are done their results are merged ([Stage0_QueryMerge]), and the
    rows are sent in batches ([QueryResp]).

    Requests and responses interleave freely: [stage_step] is the relation between
    the states of the stage. *)
From stdpp Require Import base tactics list strings pretty gmap sets.
From Stdlib Require Import ZArith Lia Sorted Permutation.
From S2P Require Import Prelude.
From S2P Require Import CppString.
From S2P Require Import VizConstants.
From S2P Require Import QueryTypes.
From S2P Require Import SetOps.
From S2P Require Import SortedLists.
From S2P Require Import AnalyticsQuery.
From S2P Require Import PostProcessing.
From S2P Require Import StatsSelect.
Import Tables.
Local Open Scope Z_scope.

(** [multimap::insert] with a position as hint: where among equal keys the
    entry goes is left to the library.  The hint and the result position are
    those of the entries. *)
Class MultimapHint `{SubValOrder} := {
  insert_hint : MapBufT → nat → MapEntry → MapBufT * nat;
  insert_hint_perm m hint e : Permutation (e :: m) (insert_hint m hint e).1
}.

(** What the pipeline reads of the query: [Input], and of the [AnalyticsQuery]
    that [QueryAccumulate] and [QueryFinalMerge] build from its parameters. *)
Record Input := {
  chunk_count : nat;          (* chunk_size.size() *)
  wterms : nat;
  need_merge : bool;
  map_output : bool;
  max_rows : Z;
  in_table : string;
  in_status : Z;              (* status_details after the parsing *)
  in_post : PostProcessingQuery;
  in_count_distinct : string;
  in_agg_sort : list (AggOper * string * nat)
}.

(** [RawResultT]: the response to a WHERE request, or to a SELECT request. *)
Inductive RawResultT :=
  | WhereRes (error : Z) (wres : WhereResultT)
  | ExecRes (error : Z) (res : BufferT) (mres : MapBufT).
Definition perf_error (r : RawResultT) : Z :=
  match r with WhereRes e _ => e | ExecRes e _ _ => e end.

(** [Stage0Out]. *)
Record Stage0Out := {
  ret_code : bool;
  result : BufferT;
  mresult : MapBufT;
  welem : list (option WhereResultT);
  wresult : WhereResultT;
  current_chunk : nat
}.

(** The counters shared by the instances, [chunk_q] and [total_rows]. *)
Record counters := { chunk_q : nat; total_rows : Z }.

Inductive request :=
  | ExecWhere (chunk or_number : nat)
  | ExecSelect (chunk : nat) (where_info : WhereResultT).

Definition set_out (o : Stage0Out) (rc : bool) (r : BufferT) (m : MapBufT) : Stage0Out := {|
  ret_code := rc; result := r; mresult := m; welem := welem o; wresult := wresult o;
  current_chunk := current_chunk o |}.
Definition set_where (o : Stage0Out) (we : list (option WhereResultT)) (w : WhereResultT) : Stage0Out := {|
  ret_code := ret_code o; result := result o; mresult := mresult o; welem := we; wresult := w;
  current_chunk := current_chunk o |}.
Definition set_chunk (o : Stage0Out) (c : nat) : Stage0Out := {|
  ret_code := ret_code o; result := result o; mresult := mresult o; welem := welem o;
  wresult := wresult o; current_chunk := c |}.

Section pipeline.
Context `{DbValueOrder, StringToInteger, StdSortPartial, Digests, SubValOrder, StatHash, !MultimapHint}.
Context (inp : Input).

(** Insertion of one multimap into another, with the last position as hint. *)
Fixpoint insert_all (input : MapBufT) (jt : nat) (output : MapBufT) : MapBufT :=
  match input with
  | [] => output
  | e :: input' => let '(output, jt) := insert_hint output jt e in insert_all input' jt output
  end.

(** [QueryEngine::QueryAccumulate]: a new query object, hence no result of its
    own. *)
Definition QueryAccumulate (input output : BufferT) : option (bool * BufferT) :=
  with_status (in_status inp) output (merge_processing (in_post inp) None input output).

(** The rows of a chunk are added to those of the instance. *)
Definition add_rows (res : BufferT) (mres : MapBufT) (o : Stage0Out) : option Stage0Out :=
  if need_merge inp then
    if map_output inp then
      (λ m, set_out o (ret_code o) (result o) m) <$> Merge EmptyString mres (mresult o)
    else
      (λ p, set_out o p.1 p.2 (mresult o)) <$> QueryAccumulate res (result o)
  else
    if map_output inp then Some (set_out o (ret_code o) (result o) (insert_all mres 0 (mresult o)))
    else Some (set_out o (ret_code o) (res ++ result o) (mresult o)).

Definition out_size (o : Stage0Out) : nat :=
  if map_output inp then length (mresult o) else length (result o).

(** [chunk_q.fetch_and_increment()] and the request for the chunk, if any. *)
Definition draw_chunk (c : counters) (o : Stage0Out) : counters * Stage0Out * option request :=
  let chunknum := chunk_q c in
  ({| chunk_q := S chunknum; total_rows := total_rows c |}, set_chunk o chunknum,
   if (chunknum <? chunk_count inp)%nat then Some (ExecWhere chunknum 0) else None).

Definition out_init : Stage0Out := {|
  ret_code := true; result := []; mresult := []; welem := replicate (wterms inp) None;
  wresult := []; current_chunk := 0 |}.

(** The substeps of [Stage0_QueryExec]: the WHERE result of an OR term that is not the
    last, of the last one, and the rows of the chunk.  [None]: a null result is
    dereferenced, an index is out of range, or an assertion fails. *)
Definition where_substep (substep : nat) (ext : RawResultT) (o : Stage0Out)
  : option (Stage0Out * option request) :=
  match ext, welem o !! (substep - 1)%nat with
  | WhereRes _ wres, Some _ =>
      Some (set_where o (<[(substep - 1)%nat := Some wres]> (welem o)) (wresult o),
            Some (ExecWhere (current_chunk o) substep))
  | _, _ => None
  end.

Definition last_where_substep (ext : RawResultT) (o : Stage0Out) : option (Stage0Out * option request) :=
  match ext, wterms inp with
  | WhereRes _ wres, S last =>
      let we := <[last := Some wres]> (welem o) in
      oterms ← mapM id we;
      if bool_decide (wresult o = []) then
        w ← op_or oterms;
        Some (set_where o (replicate (wterms inp) None) w, Some (ExecSelect (current_chunk o) w))
      else None
  | _, _ => None
  end.

Definition select_substep (ext : RawResultT) (c : counters) (o : Stage0Out)
  : option (counters * Stage0Out * option request) :=
  match ext with
  | ExecRes _ res mres =>
      let o := set_where o (welem o) [] in
      o' ← add_rows res mres o;
      let added_rows := if negb (need_merge inp) then u32 (Z.of_nat (if map_output inp then length mres else length res))
                        else u32 (Z.of_nat (out_size o') - Z.of_nat (out_size o)) in
      let before := total_rows c in
      let c := {| chunk_q := chunk_q c; total_rows := u32 (before + added_rows) |} in
      if max_rows inp <? before then Some (c, o', None)
      else Some (draw_chunk c o')
  | WhereRes _ _ => None
  end.

(** [QEOpServerImpl::QueryExec] with [step] responses so far, [ext] the last of them. *)
Definition Stage0_QueryExec (step : nat) (ext : option RawResultT) (c : counters) (o : Stage0Out)
  : option (counters * Stage0Out * option request) :=
  match step, ext with
  | O, _ => Some (draw_chunk c out_init)
  | S _, None => None
  | S _, Some ext =>
      let o := if negb (perf_error ext =? 0) then set_out o false (result o) (mresult o) else o in
      if negb (ret_code o) then Some (c, o, None)
      else
        let substep := (step mod (wterms inp + 1))%nat in
        if (substep =? wterms inp)%nat then
          '(o, r) ← last_where_substep ext o; Some (c, o, r)
        else if (substep =? 0)%nat then select_substep ext c o
        else '(o, r) ← where_substep substep ext o; Some (c, o, r)
  end.

(** [QueryEngine::QueryFinalMerge] for rows and for the multimap. *)
Definition QueryFinalMerge (inputs : list BufferT) : option (bool * BufferT) :=
  with_status (in_status inp) [] (final_merge_processing (in_post inp) inputs []).

Definition QueryFinalMerge_map (inputs : list MapBufT) : option (bool * MapBufT) :=
  if negb (is_stat_table_query (in_table inp) || is_session_query (in_table inp) ||
           is_flow_query (in_table inp))
  then Some (false, [])
  else (λ m, (true, apply_limit (limit (in_post inp)) m))
       <$> MergeFinal (in_count_distinct inp) (in_agg_sort inp) inputs [].

(** [Stage0Merge]. *)
Inductive Stage0Merge := Overflow | Failed | Merged (ret_code : bool) (result : BufferT) (mresult : MapBufT).

(** [QEOpServerImpl::QueryMerge]. *)
Definition Stage0_QueryMerge (subs : list Stage0Out) : option Stage0Merge :=
  let total := foldl (λ t o, u32 (t + Z.of_nat (out_size o))) 0 subs in
  if max_rows inp <? total then Some Overflow
  else if negb (forallb ret_code subs) then Some Failed
  else if need_merge inp then
    if map_output inp then
      (λ p, Merged p.1 [] p.2) <$> QueryFinalMerge_map (mresult <$> subs)
    else (λ p, Merged p.1 p.2 []) <$> QueryFinalMerge (result <$> subs)
  else
    if map_output inp then Some (Merged true [] (foldl (λ m o, insert_all (mresult o) 0 m) [] subs))
    else Some (Merged true (foldl (λ r o, result o ++ r) [] subs) []).
End pipeline.

(** ** The stage as a step relation *)

Inductive phase :=
  | Exec (step : nat) (ext : option RawResultT)   (* Stage0_QueryExec is due *)
  | Waiting (step : nat) (r : request)            (* the request is outstanding *)
  | Finished.

Record instance := { ph : phase; out : Stage0Out }.
Record state := { shared : counters; instances : list instance }.

#[export] Instance finished_dec (i : instance) : Decision (ph i = Finished).
Proof. destruct i as [[n ext|n r|] o]; [right|right|left]; done. Defined.

Section steps.
Context `{DbValueOrder, StringToInteger, StdSortPartial, Digests, SubValOrder, StatHash, !MultimapHint}.
Context (inp : Input).

(** The engine's answers: of a WHERE request (the error and the units), and of
    a SELECT request (the error, the rows, the multimap). *)
Context (where_resp : nat → nat → Z * WhereResultT)
  (select_resp : nat → WhereResultT → Z * BufferT * MapBufT).

Definition respond (r : request) : RawResultT :=
  match r with
  | ExecWhere c k => WhereRes (where_resp c k).1 (where_resp c k).2
  | ExecSelect c u => let '(e, res, mres) := select_resp c u in ExecRes e res mres
  end.

(** [StartPipeline] with [max_tasks_] instances. *)
Definition stage_init (max_tasks : nat) : state := {|
  shared := {| chunk_q := 0; total_rows := 0 |};
  instances := replicate max_tasks {| ph := Exec 0 None; out := out_init inp |}
|}.

Inductive stage_step : state → state → Prop :=
  | step_exec s i n ext o c' o' r :
      instances s !! i = Some {| ph := Exec n ext; out := o |} →
      Stage0_QueryExec inp n ext (shared s) o = Some (c', o', r) →
      stage_step s {| shared := c';
                instances := <[i := {| ph := match r with Some r => Waiting n r | None => Finished end;
                                       out := o' |}]> (instances s) |}
  | step_respond s i n r o :
      instances s !! i = Some {| ph := Waiting n r; out := o |} →
      stage_step s {| shared := shared s;
                instances := <[i := {| ph := Exec (S n) (Some (respond r)); out := o |}]> (instances s) |}.

Definition reachable (max_tasks : nat) (s : state) : Prop := rtc stage_step (stage_init max_tasks) s.
Definition all_finished (s : state) : Prop := Forall (λ i, ph i = Finished) (instances s).

(** ** What an instance has collected *)

(** The units of a chunk: the OR of its terms, and its rows. *)
Definition chunk_units (c : nat) : WhereResultT :=
  default [] (op_or ((λ k, (where_resp c k).2) <$> seq 0 (wterms inp))).
Definition chunk_rows (c : nat) : BufferT := (select_resp c (chunk_units c)).1.2.
Definition chunk_map (c : nat) : MapBufT := (select_resp c (chunk_units c)).2.

(** The part of an instance's output the chunks contribute to. *)
Definition core (o : Stage0Out) : bool * BufferT * MapBufT := (ret_code o, result o, mresult o).
Definition put (x : bool * BufferT * MapBufT) (o : Stage0Out) : Stage0Out := set_out o x.1.1 x.1.2 x.2.
Definition add_core (c : nat) (x : bool * BufferT * MapBufT) : option (bool * BufferT * MapBufT) :=
  core <$> add_rows inp (chunk_rows c) (chunk_map c) (put x (out_init inp)).
Definition collect (done : list nat) : option (bool * BufferT * MapBufT) :=
  foldl (λ acc c, acc ≫= add_core c) (Some (true, [], [])) done.

Lemma add_rows_core res mres o o' : core o = core o' →
  core <$> add_rows inp res mres o = core <$> add_rows inp res mres o'.
Proof.
  unfold core. intros [= Er Eres Em]. unfold add_rows. rewrite Er, Eres, Em.
  repeat case_match; simpl; try done.
  - by destruct (Merge _ _ _).
  - by destruct (QueryAccumulate _ _ _).
Qed.

Lemma collect_snoc done c o o' : collect done = Some (core o) →
  add_rows inp (chunk_rows c) (chunk_map c) o = Some o' → collect (done ++ [c]) = Some (core o').
Proof.
  intros Hd Ho. unfold collect in *. rewrite foldl_snoc, Hd. simpl. unfold add_core.
  rewrite (add_rows_core _ _ _ o); [by rewrite Ho|by destruct o].
Qed.
End steps.

(** ** Running the stage *)

Section run.
Context `{DbValueOrder, StringToInteger, StdSortPartial, Digests, SubValOrder, StatHash, !MultimapHint}.
Context (inp : Input) (where_resp : nat → nat → Z * WhereResultT)
  (select_resp : nat → WhereResultT → Z * BufferT * MapBufT).

(** One step of a given instance, and a schedule of them. *)
Definition advance (s : state) (i : nat) : option state :=
  match instances s !! i with
  | Some {| ph := Exec n ext; out := o |} =>
      '(c', o', r) ← Stage0_QueryExec inp n ext (shared s) o;
      Some {| shared := c';
              instances := <[i := {| ph := match r with Some r => Waiting n r | None => Finished end;
                                     out := o' |}]> (instances s) |}
  | Some {| ph := Waiting n r; out := o |} =>
      Some {| shared := shared s;
              instances := <[i := {| ph := Exec (S n) (Some (respond where_resp select_resp r));
                                     out := o |}]> (instances s) |}
  | _ => None
  end.
Fixpoint run (schedule : list nat) (s : state) : option state :=
  match schedule with [] => Some s | i :: rest => advance s i ≫= run rest end.

Lemma advance_step s i s' : advance s i = Some s' → stage_step inp where_resp select_resp s s'.
Proof.
  unfold advance. destruct (instances s !! i) as [[[n ext|n r|] o]|] eqn:E; [..|done|done].
  - intros ([[c' o'] r] & Hq & [= <-])%bind_Some. by eapply step_exec.
  - intros [= <-]. by eapply step_respond.
Qed.

Lemma run_steps schedule s s' : run schedule s = Some s' →
  nsteps (stage_step inp where_resp select_resp) (length schedule) s s'.
Proof.
  revert s. induction schedule as [|i rest IH]; intros s; simpl.
  - intros [= <-]. constructor.
  - intros (s1 & Ha & Hr)%bind_Some. econstructor; [by eapply advance_step|by apply IH].
Qed.

Lemma run_reachable schedule max_tasks s :
  run schedule (stage_init inp max_tasks) = Some s → reachable inp where_resp select_resp max_tasks s.
Proof. intros Hr%run_steps. by eapply rtc_nsteps_2. Qed.
End run.

(** ** A WHERE clause without terms *)

Section no_terms.
Context `{DbValueOrder, StringToInteger, StdSortPartial, Digests, SubValOrder, StatHash, !MultimapHint}.

(** With no OR term (the WHERE text is an empty array) the stage can stop
    the program: the response to the first request is taken for that of the last
    OR term, whose index is negative. *)
Theorem empty_where_stops inp where_resp select_resp max_tasks :
  wterms inp = 0%nat → (0 < max_tasks)%nat → (0 < chunk_count inp)%nat →
  (where_resp 0%nat 0%nat).1 = 0 →
  ∃ s n ext o, reachable inp where_resp select_resp max_tasks s ∧
    instances s !! 0%nat = Some {| ph := Exec n ext; out := o |} ∧
    Stage0_QueryExec inp n ext (shared s) o = None.
Proof.
  intros Hw Hmt Hc Herr. destruct max_tasks as [|k]; [lia|].
  destruct (run inp where_resp select_resp [0%nat; 0%nat] (stage_init inp (S k))) as [s|] eqn:E.
  - pose proof (run_reachable _ _ _ _ _ _ E) as Hr. simpl in E. unfold draw_chunk in E. simpl in E.
    rewrite (proj2 (Nat.ltb_lt _ _) Hc) in E. simpl in E. injection E as <-.
    eexists _, _, _, _. split; [exact Hr|]. split; [done|]. cbn -[Nat.modulo].
    by rewrite Herr, Hw.
  - exfalso. simpl in E. unfold draw_chunk in E. simpl in E.
    by rewrite (proj2 (Nat.ltb_lt _ _) Hc) in E.
Qed.
End no_terms.

(** ** Sizes *)

Lemma std_merge_partial_perm {A} (cmp : A → A → option bool) l1 l2 l :
  std_merge_partial cmp l1 l2 = Some l → Permutation (l1 ++ l2) l.
Proof.
  revert l2 l. induction l1 as [|a l1 IH]; intros l2 l; [destruct l2; by intros [= <-]|].
  revert l. induction l2 as [|b l2 IH2]; intros l; [intros [= <-]; by rewrite app_nil_r|]. simpl.
  destruct (cmp b a) as [[]|]; [..|done].
  - intros (l' & Hl & ->)%fmap_Some. change (a :: l1 ++ b :: l2) with ((a :: l1) ++ b :: l2).
    rewrite <- Permutation_middle. f_equiv. by apply IH2.
  - intros (l' & Hl & ->)%fmap_Some. f_equiv. by apply IH.
Qed.

(** Sorting the rows permutes them. *)
Lemma sort_rows_perm `{StringToInteger, StdSortPartial} pp rows rows' :
  sort_rows pp rows = Some rows' → Permutation rows rows'.
Proof.
  unfold sort_rows. destruct (sorted pp); [|by intros [= <-]].
  intros (l & Hl & ->)%fmap_Some. apply std_sort_partial_perm in Hl.
  etrans; [apply dir_perm|]. rewrite Hl. apply dir_perm.
Qed.

Section sizes.
Context `{DbValueOrder, StringToInteger, StdSortPartial, Digests, SubValOrder, StatHash, !MultimapHint}.
Context (inp : Input).

Lemma MergeFullRow_length k u a m m' :
  MergeFullRow k u a m = Some m' → (length m <= length m')%nat.
Proof.
  unfold MergeFullRow. destruct (mm_find k m) as [[[before [k' [u' a']]] after]|] eqn:E.
  - case_decide.
    + intros (r & _ & ->)%fmap_Some. apply mm_find_some in E as [-> _].
      rewrite !List.length_app. simpl. lia.
    + intros [= <-]. rewrite <- (Permutation_length (mm_insert_perm _ m)). simpl. lia.
  - intros [= <-]. rewrite <- (Permutation_length (mm_insert_perm _ m)). simpl. lia.
Qed.

Lemma Merge_length cd i m m' : Merge cd i m = Some m' → (length m <= length m')%nat.
Proof.
  revert m. induction i as [|e i IH]; intros m; simpl; [intros [= <-]; lia|].
  destruct (merge_entry cd e) as [[k [u a]]|]; [|done].
  destruct (MergeFullRow k u a m) as [m1|] eqn:E; [|done].
  intros Hm%IH. apply MergeFullRow_length in E. lia.
Qed.

Lemma insert_all_perm i jt m : Permutation (i ++ m) (insert_all i jt m).
Proof.
  revert jt m. induction i as [|e i IH]; intros jt m; simpl; [done|].
  pose proof (insert_hint_perm m jt e) as Hp. destruct (insert_hint m jt e) as [m' jt'].
  simpl in Hp. rewrite <- IH, <- Hp. by rewrite Permutation_middle.
Qed.

Lemma merge_processing_perm pp i m m' :
  merge_processing pp None i m = Some m' → Permutation (m ++ i) m'.
Proof.
  unfold merge_processing. destruct (sorted pp); [|by intros [= <-]].
  case_bool_decide as E; [by intros [= <-]|]. destruct (ascending pp).
  - apply std_merge_partial_perm.
  - intros (l & Hl%std_merge_partial_perm & ->)%fmap_Some. rewrite reverse_Permutation, <- Hl.
    rewrite !reverse_Permutation. apply Permutation_app_comm.
Qed.

Lemma QueryAccumulate_rows i m b m' : QueryAccumulate inp i m = Some (b, m') →
  (b = true ∧ Permutation (m ++ i) m') ∨ (b = false ∧ m' = m).
Proof.
  unfold QueryAccumulate, with_status. case_match; [intros [= <- <-]; auto|].
  intros (r & Hr & [= -> ->])%fmap_Some. left. split; [done|]. by eapply merge_processing_perm.
Qed.

Lemma add_rows_size res mres o o' : add_rows inp res mres o = Some o' →
  (out_size inp o <= out_size inp o')%nat ∧
  (if negb (need_merge inp) then u32 (Z.of_nat (if map_output inp then length mres else length res))
   else u32 (Z.of_nat (out_size inp o') - Z.of_nat (out_size inp o)))
  = u32 (Z.of_nat (out_size inp o') - Z.of_nat (out_size inp o)).
Proof.
  unfold add_rows, out_size. destruct (need_merge inp), (map_output inp); simpl.
  - intros (m & Hm & ->)%fmap_Some. simpl. split; [by eapply Merge_length|done].
  - intros ([b m] & Hm & ->)%fmap_Some. simpl. split; [|done].
    destruct (QueryAccumulate_rows _ _ _ _ Hm) as [[_ Hp]|[_ ->]]; [|lia].
    apply Permutation_length in Hp. rewrite List.length_app in Hp. lia.
  - intros [= <-]. simpl. pose proof (Permutation_length (insert_all_perm mres 0 (mresult o))) as Hl.
    rewrite List.length_app in Hl. split; [lia|]. f_equal. lia.
  - intros [= <-]. simpl. rewrite List.length_app. split; [lia|]. f_equal. lia.
Qed.
End sizes.

(** ** The invariant of the stage *)

Section invariant.
Context `{DbValueOrder, StringToInteger, StdSortPartial, Digests, SubValOrder, StatHash, !MultimapHint}.
Context (inp : Input) (where_resp : nat → nat → Z * WhereResultT)
  (select_resp : nat → WhereResultT → Z * BufferT * MapBufT).
Hypothesis Hw : (0 < wterms inp)%nat.

Abbreviation w := (wterms inp).
Abbreviation respond := (respond where_resp select_resp).
Abbreviation collect := (collect inp where_resp select_resp).
Abbreviation chunk_units := (chunk_units inp where_resp).

(** [welem] with the results of the first [k] OR terms. *)
Definition partial (c k : nat) : list (option WhereResultT) :=
  ((λ i, Some (where_resp c i).2) <$> seq 0 k) ++ replicate (w - k) None.

(** A request is outstanding after [n] responses, or its response has come. *)
Definition at_request (n : nat) (r : request) (p : phase) : Prop :=
  p = Waiting n r ∨ p = Exec (S n) (Some (respond r)).

(** The call of [Stage0_QueryExec] that is due, if any, has a response. *)
Definition awaited (p : phase) : Prop :=
  match p with Exec 0 _ | Exec (S _) None => False | _ => True end.

(** An instance and the chunks it has drawn: all but the last are in its
    result.  It stops when the chunks are exhausted or there are too many rows;
    after a failure nothing is said of its result. *)
Inductive instance_ok (c : counters) (tot : Z) : instance → list nat → Prop :=
  | ok_start : instance_ok c tot {| ph := Exec 0 None; out := out_init inp |} []
  | ok_where done ch k o p :
      (k < w)%nat → at_request (length done * (w + 1) + k) (ExecWhere ch k) p →
      collect done = Some (core o) → ret_code o = true → welem o = partial ch k →
      wresult o = [] → current_chunk o = ch →
      instance_ok c tot {| ph := p; out := o |} (done ++ [ch])
  | ok_select done ch o p :
      at_request (length done * (w + 1) + w) (ExecSelect ch (chunk_units ch)) p →
      collect done = Some (core o) → ret_code o = true → welem o = replicate w None →
      instance_ok c tot {| ph := p; out := o |} (done ++ [ch])
  | ok_done done o :
      collect done = Some (core o) → ret_code o = true →
      (chunk_count inp <= chunk_q c)%nat ∨ max_rows inp < tot →
      instance_ok c tot {| ph := Finished; out := o |} done
  | ok_failed p o done :
      ret_code o = false → awaited p → instance_ok c tot {| ph := p; out := o |} done.

Lemma instance_ok_mono c c' tot tot' i l : instance_ok c tot i l →
  (chunk_q c <= chunk_q c')%nat → tot <= tot' → instance_ok c' tot' i l.
Proof.
  destruct 1 as [| | |done o ? ? Hstop|]; intros Hc Ht; [by econstructor..| |by econstructor].
  apply ok_done; [done|done|]. destruct Hstop; [left|right]; lia.
Qed.

Lemma partial_length c k : (k <= w)%nat → length (partial c k) = w.
Proof. intros. unfold partial. rewrite List.length_app, length_fmap, length_seq, length_replicate. lia. Qed.

Lemma partial_S c k : (k < w)%nat → <[k := Some (where_resp c k).2]> (partial c k) = partial c (S k).
Proof.
  intros Hk. unfold partial. rewrite insert_app_r_alt; rewrite length_fmap, length_seq; [|lia].
  rewrite Nat.sub_diag, seq_S, fmap_app, <- (assoc_L (++)). f_equal.
  replace (w - k)%nat with (S (w - S k)) by lia. done.
Qed.

Lemma partial_full c : mapM id (partial c w) = Some ((λ k, (where_resp c k).2) <$> seq 0 w).
Proof.
  unfold partial. rewrite Nat.sub_diag, app_nil_r.
  apply mapM_Some, Forall2_fmap_2, Forall_Forall2_diag, Forall_true. done.
Qed.

Lemma chunk_units_or c :
  op_or ((λ k, (where_resp c k).2) <$> seq 0 w) = Some (chunk_units c).
Proof. unfold QueryPipeline.chunk_units. destruct w as [|v]; [lia|done]. Qed.

Lemma substep_mod j k : (k <= w)%nat → ((j * (w + 1) + k) mod (w + 1))%nat = k.
Proof. intros. rewrite Nat.add_comm, Nat.Div0.mod_add. apply Nat.mod_small. lia. Qed.

(** The chunks drawn so far. *)
Definition drawn (c : counters) : list nat := seq 0 (Nat.min (chunk_q c) (chunk_count inp)).
Definition next_phase (n : nat) (r : option request) : phase :=
  match r with Some r => Waiting n r | None => Finished end.

(** What one call of [Stage0_QueryExec] does to an instance, the counters and the sizes. *)
Definition exec_ok (c c' : counters) (tot : Z) (n : nat) (o o' : Stage0Out) (r : option request)
    (l : list nat) : Prop :=
  ∃ extra, instance_ok c' (tot - Z.of_nat (out_size inp o) + Z.of_nat (out_size inp o'))
             {| ph := next_phase n r; out := o' |} (l ++ extra) ∧
    drawn c' = drawn c ++ extra ∧ (chunk_q c <= chunk_q c')%nat ∧
    (out_size inp o <= out_size inp o')%nat ∧
    total_rows c' = u32 (total_rows c + (Z.of_nat (out_size inp o') - Z.of_nat (out_size inp o))).

Lemma drawn_S c t : drawn {| chunk_q := S (chunk_q c); total_rows := t |}
  = drawn c ++ (if (chunk_q c <? chunk_count inp)%nat then [chunk_q c] else []).
Proof.
  unfold drawn. simpl chunk_q. destruct (Nat.ltb_spec (chunk_q c) (chunk_count inp)).
  - rewrite !Nat.min_l by lia. by rewrite seq_S.
  - rewrite !Nat.min_r by lia. by rewrite app_nil_r.
Qed.

Lemma draw_instance_ok c tot o done n : collect done = Some (core o) → ret_code o = true →
  welem o = replicate w None → wresult o = [] → n = (length done * (w + 1))%nat →
  instance_ok {| chunk_q := S (chunk_q c); total_rows := total_rows c |} tot
    {| ph := next_phase n (if (chunk_q c <? chunk_count inp)%nat then Some (ExecWhere (chunk_q c) 0) else None);
       out := set_chunk o (chunk_q c) |}
    (done ++ (if (chunk_q c <? chunk_count inp)%nat then [chunk_q c] else [])).
Proof.
  intros Hd Hr Hwe Hwr ->. destruct (Nat.ltb_spec (chunk_q c) (chunk_count inp)) as [Hc|Hc]; simpl.
  - apply (ok_where _ _ done (chunk_q c) 0); simpl; try done.
    + left. f_equal. lia.
    + unfold partial. rewrite Hwe, Nat.sub_0_r. done.
  - rewrite app_nil_r. apply ok_done; [done|done|]. left. simpl. lia.
Qed.

Lemma add_rows_fields res mres o o' : add_rows inp res mres o = Some o' →
  welem o' = welem o ∧ wresult o' = wresult o.
Proof.
  unfold add_rows. repeat case_match; try (by intros [= <-]); intros (x & _ & ->)%fmap_Some; done.
Qed.

Lemma u32_add_r a b : u32 (a + u32 b) = u32 (a + b).
Proof. apply Zplus_mod_idemp_r. Qed.

(** The rows of a chunk have come: the instance before a new chunk is drawn. *)
Lemma rows_added done ch o o2 e res mres :
  select_resp ch (chunk_units ch) = (e, res, mres) →
  collect done = Some (core o) → welem o = replicate w None →
  add_rows inp res mres (set_where o (welem o) []) = Some o2 →
  collect (done ++ [ch]) = Some (core o2) ∧ welem o2 = replicate w None ∧ wresult o2 = [] ∧
  (out_size inp o <= out_size inp o2)%nat.
Proof.
  intros Esel Hd Hwe Eadd. destruct (add_rows_fields _ _ _ _ Eadd) as [-> ->]. simpl.
  split_and!; [|done|done|].
  - eapply (collect_snoc _ _ _ _ ch (set_where o (welem o) [])); [done|].
    unfold chunk_rows, chunk_map. by rewrite Esel.
  - by apply (add_rows_size inp) in Eadd as [? _].
Qed.

Lemma select_ok c c' tot n done ch o o' r :
  total_rows c <= tot →
  n = S (length done * (w + 1) + w) → collect done = Some (core o) →
  welem o = replicate w None →
  select_substep inp (respond (ExecSelect ch (chunk_units ch))) c o = Some (c', o', r) →
  exec_ok c c' tot n o o' r (done ++ [ch]).
Proof.
  intros Htot -> Hd Hwe. unfold select_substep. simpl.
  destruct (select_resp ch (chunk_units ch)) as [[e res] mres] eqn:Esel.
  destruct (add_rows inp res mres (set_where o (welem o) [])) as [o2|] eqn:Eadd; simpl; [|done].
  destruct (rows_added done ch o o2 e res mres Esel Hd Hwe Eadd) as (Hd2 & Hwe2 & Hwr2 & Hsz).
  destruct (add_rows_size inp _ _ _ _ Eadd) as [_ ->].
  change (out_size inp (set_where o (welem o) [])) with (out_size inp o). rewrite u32_add_r.
  set (t' := u32 _). destruct (Z.ltb_spec (max_rows inp) (total_rows c)).
  - intros [= <- <- <-]. exists []. unfold drawn. rewrite !app_nil_r. split_and!; try done.
    destruct (ret_code o2) eqn:Er; [|by apply ok_failed].
    apply ok_done; [done|done|]. right. lia.
  - unfold draw_chunk. simpl chunk_q. intros [= <- <- <-].
    exists (if (chunk_q c <? chunk_count inp)%nat then [chunk_q c] else []).
    rewrite drawn_S. split_and!; try done; simpl; [|lia].
    change (out_size inp (set_chunk o2 (chunk_q c))) with (out_size inp o2).
    destruct (ret_code o2) eqn:Er; [|by apply ok_failed; [done|destruct (_ <? _)%nat]].
    apply (draw_instance_ok {| chunk_q := chunk_q c; total_rows := t' |}); try done.
    rewrite List.length_app. simpl. lia.
Qed.

Lemma exec_ok_same c tot n o o' r l : total_rows c = u32 (total_rows c) →
  out_size inp o' = out_size inp o →
  instance_ok c tot {| ph := next_phase n r; out := o' |} l → exec_ok c c tot n o o' r l.
Proof.
  intros Hc Hsz Hok. exists []. rewrite !app_nil_r, Hsz, Z.sub_diag, Z.add_0_r.
  split_and!; try done; try lia. by replace (tot - _ + _) with tot by lia.
Qed.

Lemma start_ok c c' tot o' r : total_rows c = u32 (total_rows c) →
  draw_chunk inp c (out_init inp) = (c', o', r) → exec_ok c c' tot 0 (out_init inp) o' r [].
Proof.
  intros Hc. unfold draw_chunk. intros [= <- <- <-].
  exists (if (chunk_q c <? chunk_count inp)%nat then [chunk_q c] else []).
  change (out_size inp (set_chunk (out_init inp) (chunk_q c))) with (out_size inp (out_init inp)).
  rewrite Z.sub_diag, Z.add_0_r, drawn_S.
  split_and!; try done; [|simpl; lia]. by apply (draw_instance_ok c _ (out_init inp) [] 0).
Qed.

Lemma last_where_full e wres k o : S k = w →
  last_where_substep inp (WhereRes e wres) o
  = (oterms ← mapM id (<[k := Some wres]> (welem o));
     if bool_decide (wresult o = []) then
       u ← op_or oterms;
       Some (set_where o (replicate w None) u, Some (ExecSelect (current_chunk o) u))
     else None).
Proof. intros Ek. unfold last_where_substep. by rewrite <- Ek. Qed.

(** A WHERE response has come. *)
Lemma where_ok c c' tot done ch k o o' r :
  total_rows c = u32 (total_rows c) → (k < w)%nat →
  collect done = Some (core o) → ret_code o = true → welem o = partial ch k →
  wresult o = [] → current_chunk o = ch →
  Stage0_QueryExec inp (S (length done * (w + 1) + k)) (Some (respond (ExecWhere ch k))) c o
  = Some (c', o', r) →
  exec_ok c c' tot (S (length done * (w + 1) + k)) o o' r (done ++ [ch]).
Proof.
  intros Hc Hk Hd Hr Hwe Hwr Hcur. unfold Stage0_QueryExec.
  change (respond (ExecWhere ch k)) with (WhereRes (where_resp ch k).1 (where_resp ch k).2).
  simpl perf_error.
  destruct (Z.eqb_spec (where_resp ch k).1 0) as [_|He]; cbn [negb]; cbv zeta.
  2: { simpl. intros [= <- <- <-]. apply exec_ok_same; [done|done|]. by apply ok_failed. }
  rewrite Hr. cbn [negb].
  replace (S (length done * (w + 1) + k)) with (length done * (w + 1) + S k)%nat by lia.
  rewrite substep_mod by lia. destruct (Nat.eqb_spec (S k) w) as [Ek|Ek].
  - rewrite (last_where_full _ _ k) by done. rewrite Hwe, partial_S, Ek, partial_full by done. simpl.
    rewrite bool_decide_true by done. rewrite chunk_units_or. simpl. intros [= <- <- <-].
    apply exec_ok_same; [done|done|]. apply ok_select; simpl; try done.
    left. simpl. rewrite Hcur. done.
  - simpl. unfold where_substep.
    rewrite Nat.sub_0_r. destruct (lookup_lt_is_Some_2 (welem o) k) as [x Hx].
    { rewrite Hwe, partial_length; lia. }
    rewrite Hx. simpl. intros [= <- <- <-]. apply exec_ok_same; [done|done|].
    eapply (ok_where _ _ done ch (S k)); simpl; try done; [lia| |].
    + left. by rewrite Hcur.
    + by rewrite Hwe, partial_S.
Qed.

Lemma select_exec_ok c c' tot done ch o o' r :
  total_rows c = u32 (total_rows c) → total_rows c <= tot →
  collect done = Some (core o) → ret_code o = true → welem o = replicate w None →
  Stage0_QueryExec inp (S (length done * (w + 1) + w)) (Some (respond (ExecSelect ch (chunk_units ch)))) c o
  = Some (c', o', r) →
  exec_ok c c' tot (S (length done * (w + 1) + w)) o o' r (done ++ [ch]).
Proof.
  intros Hc Htot Hd Hr Hwe. unfold Stage0_QueryExec.
  destruct (Z.eqb_spec (perf_error (respond (ExecSelect ch (chunk_units ch)))) 0) as [_|He];
    cbn [negb]; cbv zeta.
  - rewrite Hr. cbn [negb].
    replace (S (length done * (w + 1) + w)) with (S (length done) * (w + 1) + 0)%nat by lia.
    rewrite substep_mod by lia. destruct (Nat.eqb_spec 0 w); [lia|].
    replace (S (length done) * (w + 1) + 0)%nat with (S (length done * (w + 1) + w)) by lia.
    by apply select_ok.
  - simpl. intros [= <- <- <-]. apply exec_ok_same; [done|done|]. by apply ok_failed.
Qed.

Lemma QueryExec_ok c c' tot n ext o o' r l :
  total_rows c = u32 (total_rows c) → total_rows c <= tot →
  instance_ok c tot {| ph := Exec n ext; out := o |} l →
  Stage0_QueryExec inp n ext c o = Some (c', o', r) → exec_ok c c' tot n o o' r l.
Proof.
  intros Hc Htot Hok E. remember {| ph := Exec n ext; out := o |} as i eqn:Ei.
  destruct Hok as [|done ch k o1 p Hk Hp Hd Hr Hwe Hwr Hcur|done ch o1 p Hp Hd Hr Hwe|
    done o1 Hd Hr Hs|p o1 done Hr Hp]; [|injection Ei as -> ->..|discriminate|injection Ei as -> ->].
  - injection Ei as <- <- <-. apply start_ok; [done|]. by apply (inj Some) in E.
  - destruct Hp as [Hp|[= -> ->]]; [done|]. by eapply where_ok.
  - destruct Hp as [Hp|[= -> ->]]; [done|]. by eapply select_exec_ok.
  - destruct n as [|n]; [done|]. destruct ext as [e|]; [|done]. unfold Stage0_QueryExec in E.
    destruct (negb (perf_error e =? 0)); simpl in E; [|rewrite Hr in E; simpl in E];
      injection E as <- <- <-; (apply exec_ok_same; [done|done|]); by apply ok_failed.
Qed.

(** *** Reachable states *)

Definition sizes (l : list instance) : nat := sum_list_with (λ i, out_size inp (out i)) l.

Record inv (s : state) : Prop := {
  inv_chunks : ∃ chunks, Permutation (concat chunks) (drawn (shared s)) ∧
    Forall2 (instance_ok (shared s) (Z.of_nat (sizes (instances s)))) (instances s) chunks;
  inv_total : total_rows (shared s) = u32 (Z.of_nat (sizes (instances s)))
}.

Lemma sizes_insert l i x y : l !! i = Some x →
  Z.of_nat (sizes (<[i := y]> l))
  = Z.of_nat (sizes l) - Z.of_nat (out_size inp (out x)) + Z.of_nat (out_size inp (out y)).
Proof.
  revert i. induction l as [|a l IH]; intros [|i]; simpl; [done..| |]; unfold sizes in *; simpl.
  - intros [= ->]. lia.
  - intros E. specialize (IH i E). simpl in IH. lia.
Qed.

Lemma concat_insert (ls : list (list nat)) i l extra : ls !! i = Some l →
  Permutation (concat (<[i := l ++ extra]> ls)) (concat ls ++ extra).
Proof.
  revert i. induction ls as [|a ls IH]; intros [|i]; simpl; [done..| |].
  - intros [= ->]. rewrite <- !(assoc_L (++)). f_equiv. apply Permutation_app_comm.
  - intros E. by rewrite (IH i E), (assoc_L (++)).
Qed.

Lemma concat_replicate_nil n : concat (replicate n (@nil nat)) = [].
Proof. by induction n. Qed.

Lemma stage_inv_init max_tasks : inv (stage_init inp max_tasks).
Proof.
  assert (sizes (instances (stage_init inp max_tasks)) = 0%nat) as Hz.
  { simpl. unfold sizes. induction max_tasks as [|k IH]; simpl; [done|]. rewrite IH.
    unfold out_size. simpl. by destruct (map_output inp). }
  split; [|by rewrite Hz]. exists (replicate max_tasks []). split.
  - unfold drawn. simpl. rewrite concat_replicate_nil. done.
  - simpl. apply Forall2_replicate. constructor.
Qed.

Lemma u32_idem a : u32 a = u32 (u32 a).
Proof. unfold u32. by rewrite Z.mod_mod. Qed.

Lemma u32_le a : 0 <= a → u32 a <= a.
Proof. intros. by apply Z.mod_le. Qed.

Lemma respond_ok c tot n r o l : instance_ok c tot {| ph := Waiting n r; out := o |} l →
  instance_ok c tot {| ph := Exec (S n) (Some (respond r)); out := o |} l.
Proof.
  intros Hok. remember {| ph := Waiting n r; out := o |} as i eqn:Ei.
  destruct Hok as [|done ch k o1 p Hk Hp Hd Hr Hwe Hwr Hcur|done ch o1 p Hp Hd Hr Hwe|
    done o1 Hd Hr Hs|p o1 done Hr Hp]; [discriminate|injection Ei as -> ->..|discriminate|injection Ei as -> ->].
  - apply (ok_where _ _ done ch k); try done. right. by destruct Hp as [[= -> ->]|].
  - apply (ok_select _ _ done ch); try done. right. by destruct Hp as [[= -> ->]|].
  - by apply ok_failed.
Qed.

Lemma stage_inv_step s s' : inv s → stage_step inp where_resp select_resp s s' → inv s'.
Proof.
  intros [(chunks & Hp & Hall) Htot]. destruct 1 as [s i n ext o c' o' r Hi E|s i n r o Hi].
  - destruct (Forall2_lookup_l _ _ _ _ _ Hall Hi) as (l & Hl & Hok).
    destruct (QueryExec_ok _ _ _ _ _ _ _ _ _ ltac:(rewrite Htot; apply u32_idem)
      ltac:(rewrite Htot; apply u32_le; lia) Hok E) as (extra & Hok' & Hdr & Hq & Hsz & Ht).
    pose proof (sizes_insert (instances s) i _ {| ph := next_phase n r; out := o' |} Hi) as Hins.
    simpl in Hins. unfold next_phase in *. split; simpl.
    + exists (<[i := l ++ extra]> chunks). split.
      * by rewrite concat_insert, Hp, Hdr.
      * rewrite Hins. apply Forall2_insert; [|done]. eapply Forall2_impl; [done|].
        intros x y Hxy. eapply instance_ok_mono; [done|done|lia].
    + rewrite Hins, Ht, Htot, Z.add_comm, u32_add_r. f_equal. lia.
  - destruct (Forall2_lookup_l _ _ _ _ _ Hall Hi) as (l & Hl & Hok).
    pose proof (sizes_insert (instances s) i _ {| ph := Exec (S n) (Some (respond r)); out := o |} Hi) as Hins.
    simpl in Hins. replace (_ - _ + _) with (Z.of_nat (sizes (instances s))) in Hins by lia.
    split; simpl; [|by rewrite Hins].
    exists (<[i := l]> chunks). rewrite Hins, (list_insert_id chunks) by done. split; [done|].
    rewrite <- (list_insert_id chunks i l) by done. apply Forall2_insert; [done|].
    by apply respond_ok.
Qed.

Lemma reachable_stage_inv max_tasks s :
  reachable inp where_resp select_resp max_tasks s → inv s ∧ length (instances s) = max_tasks.
Proof.
  unfold reachable. intros Hr.
  assert (inv (stage_init inp max_tasks) ∧ length (instances (stage_init inp max_tasks)) = max_tasks) as H0'.
  { split; [apply stage_inv_init|]. simpl. by rewrite length_replicate. }
  revert H0'. induction Hr as [s|s s1 s2 Hs _ IH]; [done|]. intros [Hi Hl]. apply IH.
  split; [by eapply stage_inv_step|]. destruct Hs; simpl; by rewrite length_insert.
Qed.

Lemma merge_total (l : list Stage0Out) t :
  0 <= t → t + Z.of_nat (sum_list_with (out_size inp) l) < 2 ^ 32 →
  foldl (λ t o, u32 (t + Z.of_nat (out_size inp o))) t l = t + Z.of_nat (sum_list_with (out_size inp) l).
Proof.
  revert t. induction l as [|o l IH]; intros t Ht Hl; simpl in *; [lia|].
  unfold u32 at 2. rewrite Z.mod_small by lia. rewrite IH; lia.
Qed.

Lemma sizes_out l : sum_list_with (out_size inp) (out <$> l) = sizes l.
Proof. unfold sizes. induction l; csimpl; [done|]. by f_equal. Qed.

(** A merge that reports a result had all instances succeed below the limit. *)
Lemma merged_ok (l : list instance) rc r m : Z.of_nat (sizes l) < 2 ^ 32 →
  Stage0_QueryMerge inp (out <$> l) = Some (Merged rc r m) →
  Z.of_nat (sizes l) <= max_rows inp ∧ Forall (λ i, ret_code (out i) = true) l.
Proof.
  intros Hsz. unfold Stage0_QueryMerge. rewrite merge_total by (rewrite ?sizes_out; lia).
  rewrite sizes_out, Z.add_0_l. destruct (Z.ltb_spec (max_rows inp) (Z.of_nat (sizes l))); [done|].
  destruct (forallb ret_code (out <$> l)) eqn:E; [|done]. intros _. split; [done|].
  rewrite Forall_forall. intros i Hi. rewrite forallb_forall in E.
  apply E, list_elem_of_In, list_elem_of_fmap. eauto.
Qed.

Lemma Forall2_Forall_impl {A B} (P : A → Prop) (R S : A → B → Prop) l k :
  Forall P l → Forall2 R l k → (∀ x y, P x → R x y → S x y) → Forall2 S l k.
Proof.
  intros HP HR HS. revert HP. induction HR as [|x y l k Hxy _ IH]; [constructor|].
  intros [Hx HP]%Forall_cons. constructor; auto.
Qed.

(** When all instances have succeeded, the chunks are all in their results. *)
Lemma finished_complete max_tasks s :
  (0 < max_tasks)%nat → reachable inp where_resp select_resp max_tasks s → all_finished s →
  Z.of_nat (sizes (instances s)) <= max_rows inp → Forall (λ i, ret_code (out i) = true) (instances s) →
  ∃ chunks, Permutation (concat chunks) (seq 0 (chunk_count inp)) ∧
    Forall2 (λ i ch, collect ch = Some (core (out i))) (instances s) chunks.
Proof.
  intros Hmt Hr Hfin Hmax Hrc. destruct (reachable_stage_inv _ _ Hr) as [[(chunks & Hp & Hall) _] Hlen].
  exists chunks.
  assert (Forall2 (λ i ch, collect ch = Some (core (out i)) ∧ (chunk_count inp <= chunk_q (shared s))%nat)
    (instances s) chunks) as Hall2.
  { eapply Forall2_Forall_impl; [apply Forall_and; split; [exact Hfin|exact Hrc]|exact Hall|].
    simpl. clear -Hmax. intros i ch [Hfin Hrc] Hok.
    destruct Hok as [|done ch' k o p Hk [-> | ->]|done ch' o p [-> | ->]|done o Hd Hr [Hs|Hs]|p o done Hr];
      cbn [ph out] in *; first [done|by split|lia|congruence]. }
  split; [|eapply Forall2_impl; [exact Hall2|naive_solver]].
  rewrite Hp. unfold drawn. rewrite Nat.min_r; [done|].
  destruct (instances s) as [|i l]; [simpl in Hlen; lia|].
  apply Forall2_cons_inv_l in Hall2 as (ch & chs & [_ Hq] & _). done.
Qed.

(** *** Results made of rows *)

Abbreviation chunk_rows := (chunk_rows inp where_resp select_resp).
Abbreviation chunk_map := (chunk_map inp where_resp select_resp).

Lemma collect_snoc_inv l c x : collect (l ++ [c]) = Some x →
  ∃ y, collect l = Some y ∧ add_core inp where_resp select_resp c y = Some x.
Proof.
  unfold QueryPipeline.collect. rewrite foldl_snoc. intros (y & Hy & Hx)%bind_Some. eauto.
Qed.

Lemma add_core_rows c rc r m x : map_output inp = false →
  add_core inp where_resp select_resp c (rc, r, m) = Some x →
  (need_merge inp = true ∧ ∃ b r', QueryAccumulate inp (chunk_rows c) r = Some (b, r') ∧ x = (b, r', m)) ∨
  (need_merge inp = false ∧ x = (rc, chunk_rows c ++ r, m)).
Proof.
  intros Hmap. unfold add_core, add_rows, put, core. rewrite Hmap. simpl.
  destruct (need_merge inp); [|intros [= <-]; auto].
  intros (o & (p & Hq & ->)%fmap_Some & ->)%fmap_Some. destruct p as [b r']. left. eauto.
Qed.

(** The rows an instance has collected are those of its chunks; accumulating
    fails only after an error in the query. *)
Lemma collect_rows l rc r m : map_output inp = false → collect l = Some (rc, r, m) →
  (rc = true ∧ Permutation (concat (chunk_rows <$> l)) r) ∨
  (rc = false ∧ need_merge inp = true ∧ in_status inp ≠ 0).
Proof.
  intros Hmap. revert rc r m. induction l as [|c l IH] using rev_ind; intros rc r m.
  { intros [= <- <- <-]. auto. }
  intros ([[rc0 r0] m0] & Hl & Hx)%collect_snoc_inv. rewrite fmap_app, concat_app. csimpl.
  rewrite app_nil_r. specialize (IH _ _ _ Hl).
  apply add_core_rows in Hx as [(Hn & b & r' & Hq & E)|(Hn & E)]; [..|done]; injection E as -> -> ->.
  - assert (b = bool_decide (in_status inp = 0)) as ->.
    { unfold QueryAccumulate, with_status in Hq. destruct (Z.eqb_spec (in_status inp) 0); simpl in Hq.
      - apply fmap_Some in Hq as (? & _ & [= -> _]). by rewrite bool_decide_true.
      - injection Hq as <- _. by rewrite bool_decide_false. }
    case_bool_decide; [left|by right]. split; [done|].
    destruct (QueryAccumulate_rows _ _ _ _ _ Hq) as [[_ Hp]|[? _]]; [|done].
    rewrite <- Hp. f_equiv. by destruct IH as [[_ ?]|(_ & _ & ?)].
  - destruct IH as [[-> Hp]|(_ & ? & _)]; [|congruence]. left. split; [done|].
    rewrite Hp. apply Permutation_app_comm.
Qed.

Lemma collect_all_rows (l : list instance) chunks : map_output inp = false →
  Forall (λ i, ret_code (out i) = true) l →
  Forall2 (λ i ch, collect ch = Some (core (out i))) l chunks →
  Permutation (concat (chunk_rows <$> concat chunks)) (concat (result <$> (out <$> l))).
Proof.
  intros Hmap Hrc. revert Hrc. induction 2 as [|i ch l chunks Hi _ IH]; [done|].
  apply Forall_cons in Hrc as [Hi' Hrc]. csimpl. rewrite fmap_app, concat_app, IH by done. f_equiv.
  unfold core in Hi. rewrite Hi' in Hi. by destruct (collect_rows _ _ _ _ Hmap Hi) as [[_ ?]|[? _]].
Qed.

Lemma foldl_prepend (l : list Stage0Out) r :
  Permutation (foldl (λ r o, result o ++ r) r l) (concat (result <$> l) ++ r).
Proof.
  revert r. induction l as [|o l IH]; intros r; csimpl; [done|].
  rewrite IH, !(assoc_L (++)). f_equiv. apply Permutation_app_comm.
Qed.
End invariant.

(** ** A successful result is complete *)

Section complete.
Context `{DbValueOrder, StringToInteger, StdSortPartial, Digests, SubValOrder, StatHash, !MultimapHint}.
Context (inp : Input) (where_resp : nat → nat → Z * WhereResultT)
  (select_resp : nat → WhereResultT → Z * BufferT * MapBufT) (max_tasks : nat) (s : state).

Abbreviation all_rows := (concat (chunk_rows inp where_resp select_resp <$> seq 0 (chunk_count inp))).
Abbreviation row_ltb := (returned (sort_field_comparator (sort_fields (in_post inp)))).

(** What a successful merge says of the instances. *)
Lemma successful_chunks rc r m :
  (0 < wterms inp)%nat → (0 < max_tasks)%nat →
  reachable inp where_resp select_resp max_tasks s → all_finished s →
  Z.of_nat (sizes inp (instances s)) < 2 ^ 32 →
  Stage0_QueryMerge inp (out <$> instances s) = Some (Merged rc r m) →
  ∃ chunks, Permutation (concat chunks) (seq 0 (chunk_count inp)) ∧
    Forall2 (λ i ch, collect inp where_resp select_resp ch = Some (core (out i))) (instances s) chunks ∧
    Forall (λ i, ret_code (out i) = true) (instances s).
Proof.
  intros Hw Hmt Hr Hfin Hsz Hm.
  assert (Z.of_nat (sizes inp (instances s)) <= max_rows inp ∧
    Forall (λ i, ret_code (out i) = true) (instances s)) as [Hmax Hrc] by (by eapply merged_ok).
  destruct (finished_complete inp where_resp select_resp Hw max_tasks s Hmt Hr Hfin Hmax Hrc)
    as (chunks & Hp & Hall). eauto.
Qed.

(** C5.  A query that is reported as successful is complete, whatever the
    interleaving of its parallel instances: every chunk was drawn by exactly
    one instance, and the rows returned are those of all chunks, arranged in
    the asked order and cut to the limit when a merge is needed.  A chunk that
    failed, or was not processed because there were too many rows, makes the
    merge report a failure or an overflow instead. *)
Theorem query_result_complete rc r m :
  (0 < wterms inp)%nat → (0 < max_tasks)%nat →
  reachable inp where_resp select_resp max_tasks s → all_finished s →
  Z.of_nat (sizes inp (instances s)) < 2 ^ 32 →
  Stage0_QueryMerge inp (out <$> instances s) = Some (Merged rc r m) →
  ∃ chunks, Permutation (concat chunks) (seq 0 (chunk_count inp)) ∧
    Forall2 (λ i ch, collect inp where_resp select_resp ch = Some (core (out i))) (instances s) chunks ∧
    (map_output inp = false → need_merge inp = false → rc = true ∧ Permutation all_rows r) ∧
    (map_output inp = false → need_merge inp = true → rc = true →
     ∃ arranged, Permutation all_rows arranged ∧ r = apply_limit (limit (in_post inp)) arranged ∧
       (sorted (in_post inp) = true → Forall (has_fields (sort_fields (in_post inp))) all_rows →
        sorted_dir (ascending (in_post inp)) row_ltb arranged)).
Proof.
  intros Hw Hmt Hr Hfin Hsz Hm.
  destruct (successful_chunks rc r m) as (chunks & Hp & Hall & Hrc); [done..|].
  exists chunks. split_and!; [done|done|..]; intros Hmap Hn.
  - revert Hm. unfold Stage0_QueryMerge. do 2 (case_match; [done|]). rewrite Hn, Hmap. intros [= <- <- _].
    split; [done|]. rewrite foldl_prepend, app_nil_r.
    rewrite <- (collect_all_rows inp where_resp select_resp _ chunks) by done. by rewrite Hp.
  - revert Hm. unfold Stage0_QueryMerge. do 2 (case_match; [done|]). rewrite Hn, Hmap.
    intros ([b r'] & Hq & [= -> -> _])%fmap_Some ->.
    unfold QueryFinalMerge, with_status in Hq. case_match; [done|].
    apply fmap_Some in Hq as (r0 & Hq & [= <-]).
    unfold final_merge_processing in Hq. apply fmap_Some in Hq as (arranged & Hs & ->).
    simpl in Hs.
    assert (Permutation all_rows (concat (result <$> (out <$> instances s)))) as Hrows.
    { rewrite <- (collect_all_rows inp where_resp select_resp _ chunks) by done. by rewrite Hp. }
    exists arranged. split_and!; [|done|].
    + rewrite Hrows. by eapply sort_rows_perm.
    + intros Hsort Hok. rewrite Hrows in Hok.
      destruct (sort_rows_spec (in_post inp) _ Hsort Hok) as (res & E & _ & Hd). by simplify_eq.
Qed.
End complete.

(** ** Termination and progress *)

Section termination.
Context `{DbValueOrder, StringToInteger, StdSortPartial, Digests, SubValOrder, StatHash, !MultimapHint}.
Context (inp : Input) (where_resp : nat → nat → Z * WhereResultT)
  (select_resp : nat → WhereResultT → Z * BufferT * MapBufT).
Local Open Scope nat_scope.

Abbreviation w := (wterms inp).

(** Steps an instance still has to make for the chunk it works on. *)
Definition phase_cost (p : phase) : nat :=
  match p with
  | Exec 0 _ => 1
  | Exec (S n) _ => 2 * (w + 1 - n mod (w + 1)) - 1
  | Waiting n _ => 2 * (w + 1 - n mod (w + 1))
  | Finished => 0
  end.
Definition undrawn (c : counters) : nat := chunk_count inp - Nat.min (chunk_q c) (chunk_count inp).
Definition cost (s : state) : nat :=
  undrawn (shared s) * (2 * (w + 1)) + sum_list_with (λ i, phase_cost (ph i)) (instances s).

Lemma sum_list_with_insert {A} (f : A → nat) l i x y : l !! i = Some x →
  sum_list_with f (<[i := y]> l) + f x = sum_list_with f l + f y.
Proof.
  revert i. induction l as [|a l IH]; intros [|i]; simpl; [done..| |].
  - intros [= ->]. lia.
  - intros E. specialize (IH i E). lia.
Qed.

Lemma draw_cost n c o c' o' r : draw_chunk inp c o = (c', o', r) → n mod (w + 1) = 0 →
  undrawn c' * (2 * (w + 1)) + phase_cost (next_phase n r) <= undrawn c * (2 * (w + 1)).
Proof.
  unfold draw_chunk, undrawn. intros [= <- <- <-] Hn. simpl chunk_q.
  destruct (Nat.ltb_spec (chunk_q c) (chunk_count inp)); unfold next_phase, phase_cost.
  - rewrite Hn, !Nat.min_l by lia.
    replace (chunk_count inp - chunk_q c) with (S (chunk_count inp - S (chunk_q c))) by lia. lia.
  - rewrite !Nat.min_r by lia. lia.
Qed.

Lemma step_lt n : n mod (w + 1) < w + 1.
Proof. apply Nat.mod_upper_bound. lia. Qed.

Lemma step_mod n : S n mod (w + 1) = 0 ∨ S n mod (w + 1) = S (n mod (w + 1)).
Proof.
  pose proof (step_lt n). pose proof (Nat.div_mod_eq n (w + 1)).
  destruct (decide (S (n mod (w + 1)) = w + 1)) as [E|E]; [left|right]; symmetry.
  - apply (Nat.mod_unique _ _ (S (n / (w + 1)))); nia.
  - apply (Nat.mod_unique _ _ (n / (w + 1))); lia.
Qed.

Lemma phase_cost_exec n ext : 0 < phase_cost (Exec n ext).
Proof. destruct n as [|n]; simpl; [lia|]. pose proof (step_lt n). lia. Qed.

Lemma phase_cost_wait n e q : S n mod (w + 1) ≠ 0 →
  phase_cost (Waiting (S n) q) < phase_cost (Exec (S n) (Some e)).
Proof.
  intros Hq. unfold phase_cost. destruct (step_mod n) as [|Es]; [done|].
  pose proof (step_lt (S n)). lia.
Qed.

Lemma last_where_request e o o' r : last_where_substep inp e o = Some (o', r) → w ≠ 0 ∧ is_Some r.
Proof.
  unfold last_where_substep. destruct e; [|done]. destruct w; [done|].
  intros (oterms & _ & E)%bind_Some. case_bool_decide; [|done].
  apply bind_Some in E as (u & _ & [= _ <-]). eauto.
Qed.

(** Every call of [Stage0_QueryExec] brings the stage closer to its end. *)
Lemma QueryExec_cost n ext c o c' o' r : Stage0_QueryExec inp n ext c o = Some (c', o', r) →
  undrawn c' * (2 * (w + 1)) + phase_cost (next_phase n r)
  < undrawn c * (2 * (w + 1)) + phase_cost (Exec n ext).
Proof.
  pose proof (phase_cost_exec n ext) as Hpos. destruct n as [|n].
  { intros E%(inj Some). apply (draw_cost 0) in E; [lia|apply Nat.Div0.mod_0_l]. }
  unfold Stage0_QueryExec. destruct ext as [e|]; [|done]. cbv zeta.
  set (o1 := if negb (perf_error e =? 0)%Z then _ else _).
  destruct (negb (ret_code o1)); [intros [= <- _ <-]; change (phase_cost (next_phase (S n) None)) with 0; lia|].
  destruct (Nat.eqb_spec (S n mod (w + 1)) w) as [Ew|Ew].
  - intros ([o2 r2] & E & [= <- _ <-])%bind_Some. apply last_where_request in E as [Hw [q ->]].
    pose proof (phase_cost_wait n e q ltac:(congruence)). unfold next_phase. lia.
  - destruct (Nat.eqb_spec (S n mod (w + 1)) 0) as [E0|E0].
    + unfold select_substep. destruct e as [|e res mres]; [done|].
      intros (o2 & _ & E)%bind_Some. case_match.
      { injection E as <- _ <-. change (phase_cost (next_phase (S n) None)) with 0.
        unfold undrawn in *. simpl chunk_q. lia. }
      apply (inj Some) in E. apply (draw_cost (S n)) in E; [|done]. unfold undrawn in *. simpl chunk_q in *. lia.
    + intros ([o2 r2] & E & [= <- _ <-])%bind_Some. unfold where_substep in E.
      repeat case_match; simplify_eq. pose proof (phase_cost_wait n (WhereRes error wres)
        (ExecWhere (current_chunk o1) (S n mod (w + 1))) E0). unfold next_phase. lia.
Qed.

Lemma step_cost s s' : stage_step inp where_resp select_resp s s' → cost s' < cost s.
Proof.
  destruct 1 as [s i n ext o c' o' r Hi E|s i n r o Hi]; unfold cost; cbn [shared instances].
  - apply QueryExec_cost in E.
    pose proof (sum_list_with_insert (λ i, phase_cost (ph i)) (instances s) i _
      {| ph := next_phase n r; out := o' |} Hi) as Hs. cbn [ph] in Hs. unfold next_phase in *. lia.
  - pose proof (sum_list_with_insert (λ i, phase_cost (ph i)) (instances s) i _
      {| ph := Exec (S n) (Some (respond where_resp select_resp r)); out := o |} Hi) as Hs.
    cbn [ph] in Hs. pose proof (step_lt n). unfold phase_cost at 2 4 in Hs. lia.
Qed.

Lemma nsteps_cost k s s' : nsteps (stage_step inp where_resp select_resp) k s s' → k + cost s' <= cost s.
Proof.
  induction 1 as [|k s s1 s2 Hs _ IH]; [done|]. apply step_cost in Hs. lia.
Qed.

Lemma init_cost max_tasks : cost (stage_init inp max_tasks) = max_tasks + chunk_count inp * (2 * (w + 1)).
Proof.
  unfold cost, undrawn. simpl shared. simpl chunk_q. rewrite Nat.min_0_l, Nat.sub_0_r, Nat.add_comm.
  f_equal. simpl. induction max_tasks as [|t IH]; simpl; [done|]. by rewrite IH.
Qed.

Lemma where_runs c j ch k o :
  0 < w → k < w → ret_code o = true → welem o = partial inp where_resp ch k → wresult o = [] →
  is_Some (Stage0_QueryExec inp (S (j * (w + 1) + k)) (Some (respond where_resp select_resp (ExecWhere ch k))) c o).
Proof.
  intros Hw Hk Hr Hwe Hwr. unfold Stage0_QueryExec, respond. cbv zeta. simpl perf_error.
  destruct (negb ((where_resp ch k).1 =? 0)%Z); [simpl; eauto|]. rewrite Hr. cbn [negb].
  replace (S (j * (w + 1) + k)) with (j * (w + 1) + S k) by lia. rewrite substep_mod by lia.
  destruct (Nat.eqb_spec (S k) w) as [Ek|Ek].
  - rewrite (last_where_full inp _ _ k) by done.
    rewrite Hwe, (partial_S inp where_resp), Ek, partial_full by lia. simpl.
    rewrite bool_decide_true, (chunk_units_or inp where_resp Hw) by done. simpl. eauto.
  - destruct (Nat.eqb_spec (S k) 0); [lia|]. unfold where_substep.
    destruct (lookup_lt_is_Some_2 (welem o) (S k - 1)) as [x ->]; [|simpl; eauto].
    rewrite Hwe, (partial_length inp where_resp); lia.
Qed.

Lemma select_runs c done ch o :
  0 < w → (∀ done, is_Some (collect inp where_resp select_resp done)) →
  collect inp where_resp select_resp done = Some (core o) → ret_code o = true →
  is_Some (Stage0_QueryExec inp (S (length done * (w + 1) + w))
    (Some (respond where_resp select_resp (ExecSelect ch (chunk_units inp where_resp ch)))) c o).
Proof.
  intros Hw Hcol Hd Hr. unfold Stage0_QueryExec. cbv zeta.
  destruct (negb (perf_error _ =? 0)%Z); [simpl; eauto|]. rewrite Hr. cbn [negb].
  replace (S (length done * (w + 1) + w)) with (S (length done) * (w + 1) + 0) by lia.
  rewrite substep_mod by lia. destruct (Nat.eqb_spec 0 w); [lia|]. cbn [Nat.eqb].
  destruct (Hcol (done ++ [ch])) as [x Hx]. apply collect_snoc_inv in Hx as (y & Hy & Hx).
  rewrite Hd in Hy. injection Hy as <-. unfold add_core, chunk_rows, chunk_map in Hx.
  unfold select_substep, respond.
  destruct (select_resp ch (chunk_units inp where_resp ch)) as [[e res] mres]. simpl in Hx.
  rewrite (add_rows_core _ _ _ _ (set_where o (welem o) [])) in Hx by done.
  apply fmap_Some in Hx as (o2 & Hx & _). rewrite Hx. simpl. case_match; eauto.
Qed.

(** The call of [Stage0_QueryExec] that is due does not stop, provided accumulating
    the chunks does not. *)
Lemma exec_runs c tot n ext o l :
  0 < w → (∀ done, is_Some (collect inp where_resp select_resp done)) →
  instance_ok inp where_resp select_resp c tot {| ph := Exec n ext; out := o |} l →
  is_Some (Stage0_QueryExec inp n ext c o).
Proof.
  intros Hw Hcol Hok. remember {| ph := Exec n ext; out := o |} as i eqn:Ei.
  destruct Hok as [|done ch k o1 p Hk Hp Hd Hr Hwe Hwr Hcur|done ch o1 p Hp Hd Hr Hwe|
    done o1 Hd Hr Hs|p o1 done Hr Hp]; [|injection Ei as -> ->..|discriminate|injection Ei as -> ->].
  - injection Ei as <- <- <-. unfold Stage0_QueryExec. eauto.
  - destruct Hp as [Hp|[= -> ->]]; [done|]. by eapply where_runs.
  - destruct Hp as [Hp|[= -> ->]]; [done|]. by eapply select_runs.
  - destruct n as [|n], ext as [e|]; try done. unfold Stage0_QueryExec. cbv zeta.
    destruct (negb (perf_error e =? 0)%Z); simpl; [|rewrite Hr; simpl]; eauto.
Qed.

(** Accumulating rows that have the sort columns does not stop. *)
Lemma QueryAccumulate_defined i m : Forall (has_fields (sort_fields (in_post inp))) i →
  Forall (has_fields (sort_fields (in_post inp))) m →
  ∃ b m', QueryAccumulate inp i m = Some (b, m') ∧ Forall (has_fields (sort_fields (in_post inp))) m'.
Proof.
  intros Hi Hm. assert (∃ p, QueryAccumulate inp i m = Some p) as [[b m'] E].
  { unfold QueryAccumulate, with_status. case_match; [by eexists|].
    unfold merge_processing. repeat case_match; simpl; try by eexists.
    all: rewrite std_merge_partial_done; [by eexists|].
    all: apply has_fields_comparable; by rewrite ?Forall_reverse. }
  exists b, m'. split; [done|].
  destruct (QueryAccumulate_rows _ _ _ _ _ E) as [[_ Hp]|[_ ->]]; [|done].
  eapply Forall_perm; [exact Hp|]. by apply Forall_app.
Qed.

Lemma collect_defined : map_output inp = false →
  (∀ c, Forall (has_fields (sort_fields (in_post inp))) (chunk_rows inp where_resp select_resp c)) →
  ∀ done, is_Some (collect inp where_resp select_resp done).
Proof.
  intros Hmap Hok l.
  assert (∃ rc r m, collect inp where_resp select_resp l = Some (rc, r, m) ∧
    Forall (has_fields (sort_fields (in_post inp))) r) as (rc & r & m & -> & _); [|done].
  induction l as [|c l (rc & r & m & IH & Hr)] using rev_ind; [by eexists _, _, _|].
  unfold collect in *. rewrite foldl_snoc, IH. simpl. unfold add_core, add_rows. rewrite Hmap. simpl.
  destruct (need_merge inp).
  - destruct (QueryAccumulate_defined (chunk_rows inp where_resp select_resp c) r (Hok c) Hr)
      as (b & r' & -> & Hr'). simpl. unfold core. simpl. eauto.
  - unfold core. simpl. eexists _, _, _. split; [done|]. by apply Forall_app.
Qed.

(** C7.  Every run of the stage ends: it makes at most one step per task and
    two per request of a chunk, and while an instance is not finished the stage
    can make a step, provided accumulating chunks does not stop the program. *)
Theorem query_stage_finishes max_tasks :
  0 < w → (∀ done, is_Some (collect inp where_resp select_resp done)) →
  (∀ k s, nsteps (stage_step inp where_resp select_resp) k (stage_init inp max_tasks) s →
     k <= max_tasks + chunk_count inp * (2 * (w + 1))) ∧
  (∀ s, reachable inp where_resp select_resp max_tasks s →
     all_finished s ∨ ∃ s', stage_step inp where_resp select_resp s s').
Proof.
  intros Hw Hcol. split.
  - intros k s Hk. pose proof (nsteps_cost k _ _ Hk) as Hc.
    rewrite init_cost in Hc. lia.
  - intros s Hr. destruct (reachable_stage_inv inp where_resp select_resp Hw _ _ Hr)
      as [[(chunks & _ & Hall) _] _].
    unfold all_finished. destruct (decide (Forall (λ i, ph i = Finished) (instances s))) as [|Hn];
      [by left|right]. apply not_Forall_Exists in Hn; [|apply _]. apply Exists_exists in Hn as ([p o] & Hi & Hp).
    apply list_elem_of_lookup in Hi as [i Hi].
    destruct (Forall2_lookup_l _ _ _ _ _ Hall Hi) as (l & _ & Hok). simpl in Hp.
    destruct p as [n ext|n r|]; [| |done].
    + destruct (exec_runs _ _ _ _ _ _ Hw Hcol Hok) as [[[c' o'] r] E].
      eexists. by eapply step_exec.
    + eexists. by eapply step_respond.
Qed.
End termination.
