(* ===== verification/PipelineResults.v ===== *)
(** * What a statistics query returns

    The pipeline of [QueryPipeline] for queries whose rows are aggregated: the
    multimaps of the chunks are merged by the instances that drew them and by
    the final merge.  The examples run the pipeline on concrete inputs. *)
From stdpp Require Import base tactics list strings pretty sorting gmap sets.
From Stdlib Require Import ZArith Lia Sorted Permutation.
From S2P Require Import Prelude.
From S2P Require Import CppString.
From S2P Require Import VizConstants.
From S2P Require Import QueryTypes.
From S2P Require Import SetOps.
From S2P Require Import SortedLists.
From S2P Require Import AnalyticsQuery.
From S2P Require Import PostProcessing.
From S2P Require Import StatsSelect.
From S2P Require Import QueryPipeline.
Import Tables.
Local Open Scope Z_scope.

Section stats.
Context `{DbValueOrder, StringToInteger, StdSortPartial, Digests, SubValOrder, StatHash, !MultimapHint}.
Context (inp : Input) (where_resp : nat → nat → Z * WhereResultT)
  (select_resp : nat → WhereResultT → Z * BufferT * MapBufT).

Abbreviation chunk_map := (chunk_map inp where_resp select_resp).
Abbreviation collect := (collect inp where_resp select_resp).

Lemma merge_all_snoc cd l x out : merge_all cd (l ++ [x]) out = merge_all cd l out ≫= Merge cd x.
Proof.
  revert out. induction l as [|i l IH]; intros out; simpl.
  - by destruct (Merge cd x out).
  - destruct (Merge cd i out); simpl; [apply IH|done].
Qed.

(** The multimap of an instance is the merge of those of its chunks. *)
Lemma collect_maps l rc r m : map_output inp = true → need_merge inp = true →
  collect l = Some (rc, r, m) → r = [] ∧ merge_all EmptyString (chunk_map <$> l) [] = Some m.
Proof.
  intros Hmap Hn. revert rc r m. induction l as [|c l IH] using rev_ind; intros rc r m.
  { by intros [= <- <- <-]. }
  intros ([[rc0 r0] m0] & Hl & Hx)%collect_snoc_inv. rewrite fmap_app. csimpl.
  destruct (IH _ _ _ Hl) as [-> Hm]. rewrite merge_all_snoc, Hm. simpl.
  unfold add_core, add_rows in Hx. rewrite Hn, Hmap in Hx. simpl in Hx.
  destruct (Merge _ _ _) as [m'|]; [|done]. simpl in Hx. unfold core in Hx. simpl in Hx. by simplify_eq.
Qed.

Context (T : gmap (AggOper * string) VarType) (rows : nat → list MapEntry).

(** The rows the chunks are aggregated from. *)
Definition rows_of (l : list nat) : list MapEntry := concat (rows <$> l).

Record well_formed (l : list nat) : Prop := {
  wf_typed : rows_typed T (rows_of l);
  wf_nc : no_collision (rows_of l);
  wf_empty : ∀ r, r ∈ rows_of l → r.2.1 !! EmptyString = None;
  wf_distinct : ∀ r, r ∈ rows_of l → r.2.1 !! in_count_distinct inp = None;
  wf_feed : ∀ c, c ∈ l → feed (rows c) [] = Some (chunk_map c)
}.

Lemma rows_of_app l1 l2 : rows_of (l1 ++ l2) = rows_of l1 ++ rows_of l2.
Proof. unfold rows_of. by rewrite fmap_app, concat_app. Qed.
Lemma rows_of_perm l1 l2 : Permutation l1 l2 → Permutation (rows_of l1) (rows_of l2).
Proof. intros Hp. unfold rows_of. by rewrite Hp. Qed.

Lemma well_formed_perm l1 l2 : Permutation l1 l2 → well_formed l1 → well_formed l2.
Proof.
  intros Hp [Ht Hn He Hd Hf]. pose proof (rows_of_perm _ _ Hp) as Hr. split.
  - by eapply Forall_perm.
  - by eapply no_collision_perm.
  - intros r. rewrite <- Hr. apply He.
  - intros r. rewrite <- Hr. apply Hd.
  - intros c. rewrite <- Hp. apply Hf.
Qed.
Lemma well_formed_l l1 l2 : well_formed (l1 ++ l2) → well_formed l1.
Proof.
  intros [Ht Hn He Hd Hf]. rewrite rows_of_app in *. split.
  - by apply Forall_app in Ht as [? _].
  - by apply no_collision_sub in Hn.
  - intros r Hr. apply He. set_solver.
  - intros r Hr. apply Hd. set_solver.
  - intros c Hc. apply Hf. set_solver.
Qed.
Lemma well_formed_r l1 l2 : well_formed (l1 ++ l2) → well_formed l2.
Proof. intros Hw. apply (well_formed_l l2 l1). eapply well_formed_perm; [apply Permutation_app_comm|done]. Qed.

Lemma instance_feed ch rc r m : all_u64 T → map_output inp = true → need_merge inp = true →
  well_formed ch → collect ch = Some (rc, r, m) → feed (rows_of ch) [] = Some m.
Proof.
  intros HT Hmap Hn [Ht Hnc He _ Hf] Hc. destruct (collect_maps ch rc r m Hmap Hn Hc) as [_ <-].
  symmetry. apply (merge_all_chunks T); try done.
  apply Forall2_fmap, Forall_Forall2_diag, Forall_forall. exact Hf.
Qed.

Lemma instances_feed (l : list instance) chunks : all_u64 T → map_output inp = true →
  need_merge inp = true → well_formed (concat chunks) →
  Forall2 (λ i ch, collect ch = Some (core (out i))) l chunks →
  Forall2 (λ c o, feed c [] = Some o) (rows_of <$> chunks) (mresult <$> (out <$> l)).
Proof.
  intros HT Hmap Hn Hw. revert Hw. induction 2 as [|i ch l chunks Hi _ IH]; csimpl; [constructor|].
  simpl in Hw. constructor; [|by apply IH; eapply well_formed_r].
  unfold core in Hi. eapply instance_feed; try done. by eapply well_formed_l.
Qed.

Lemma rows_of_concat chunks : rows_of (concat chunks) = concat (rows_of <$> chunks).
Proof. induction chunks as [|c chunks IH]; [done|]. csimpl. by rewrite rows_of_app, IH. Qed.

Lemma merged_feed (l : list instance) chunks : all_u64 T → map_output inp = true →
  need_merge inp = true → well_formed (concat chunks) →
  Forall2 (λ i ch, collect ch = Some (core (out i))) l chunks →
  merge_all (in_count_distinct inp) (mresult <$> (out <$> l)) [] = feed (rows_of (concat chunks)) [].
Proof.
  intros HT Hmap Hn Hw Hall. pose proof Hw as [Ht Hnc _ Hd _]. rewrite rows_of_concat in *.
  apply (merge_all_chunks T); try done. by apply instances_feed.
Qed.
End stats.

(** ** Chunks that are filtered and cut *)

(** Selecting from lists. *)
Lemma select_all {A} (P : A → Prop) `{∀ x, Decision (P x)} (l : list A) : (∀ x, x ∈ l → P x) → filter P l = l.
Proof. induction l as [|x l IH]; intros Hl; [done|]. rewrite filter_cons_True, IH; set_solver. Qed.
Lemma select_none {A} (P : A → Prop) `{∀ x, Decision (P x)} (l : list A) : (∀ x, x ∈ l → ¬ P x) → filter P l = [].
Proof. induction l as [|x l IH]; intros Hl; [done|]. rewrite filter_cons_False, IH; set_solver. Qed.
Lemma filter_of_part {A} (P Q : A → Prop) `{∀ x, Decision (P x), ∀ x, Decision (Q x)} (l : list A) :
  (∀ x, x ∈ l → Q x → P x) → filter Q (filter P l) = filter Q l.
Proof.
  induction l as [|x l IH]; intros Hl; [done|]. rewrite !filter_cons. specialize (IH ltac:(set_solver)).
  destruct (decide (Q x)).
  - rewrite decide_True by (apply Hl; set_solver). by rewrite filter_cons_True, IH.
  - case_decide; [by rewrite filter_cons_False|done].
Qed.
Lemma filter_taken {A B} `{EqDecision B} (f : A → B) k (l : list A) : NoDup (f <$> l) →
  filter (λ x, f x ∈ f <$> take k l) l = take k l.
Proof.
  intros Hnd. transitivity (filter (λ x, f x ∈ f <$> take k l) (take k l ++ drop k l)); [by rewrite take_drop|].
  rewrite filter_app.
  rewrite <- (take_drop k l), fmap_app in Hnd. apply NoDup_app in Hnd as (_ & Hd & _).
  rewrite (select_all _ (take k l)), (select_none _ (drop k l)); [apply app_nil_r|..].
  - intros x Hx Hin. apply (Hd (f x) Hin). by apply list_elem_of_fmap_2.
  - intros x Hx. by apply list_elem_of_fmap_2.
Qed.
Lemma filter_split_sorted {A} (R : A → A → Prop) (P : A → Prop) `{∀ x, Decision (P x)} (l : list A) : StronglySorted R l →
  (∀ x y, x ∈ l → y ∈ l → P x → ¬ P y → ¬ R y x) → l = filter P l ++ filter (λ x, ¬ P x) l.
Proof.
  induction 1 as [|x l Hl IH Hx]; intros Hp; [done|]. rewrite !filter_cons.
  assert (l = filter P l ++ filter (λ x, ¬ P x) l) as El by (apply IH; intros; apply Hp; set_solver).
  destruct (decide (P x)) as [HP|HP].
  - rewrite decide_False by tauto. simpl. by rewrite <- El.
  - rewrite decide_True by tauto. rewrite (select_none P).
    + simpl. rewrite select_all; [done|]. intros y Hy HPy. rewrite Forall_forall in Hx.
      apply (Hp y x); [set_solver..|]. by apply Hx.
    + intros y Hy HPy. rewrite Forall_forall in Hx. apply (Hp y x); [set_solver..|]. by apply Hx.
Qed.

Section cut_chunks.
Context `{Digests, SubValOrder}.

(** What comes first in a sorted list comes first in a part of it. *)
Lemma take_sorted_part (F S : list (list SubVal)) k x : Forall key_wf F →
  StronglySorted (λ a b, vec_ltb a b = true) F → StronglySorted (λ a b, vec_ltb a b = true) S →
  (∀ y, y ∈ S → y ∈ F) → x ∈ S → x ∈ take k F → x ∈ take k S.
Proof.
  intros Hwf HF HS Hsub Hx (j & Hj & Hjk)%elem_of_take.
  rewrite <- (take_drop k S) in Hx. apply elem_of_app in Hx as [Hx|Hx]; [done|]. exfalso.
  assert (∀ y, y ∈ F → vec_ltb y y = false) as Hirr by (intros y Hy; rewrite Forall_forall in Hwf; by apply vec_irrefl, Hwf).
  rewrite <- (take_drop k S) in HS. apply StronglySorted_app in HS as (Hlt & HSk & _).
  assert (∀ y, y ∈ take k S → y ∈ take j F) as Hin.
  { intros y Hy. assert (y ∈ F) as HyF by (apply Hsub; rewrite <- (take_drop k S); set_solver).
    specialize (Hlt y x Hy Hx). rewrite <- (take_drop_middle F j x Hj) in HyF, HF.
    apply StronglySorted_app in HF as (_ & _ & HF). inversion HF as [|?? _ Hlast]; subst.
    apply elem_of_app in HyF as [?|[->|Hy']%elem_of_cons]; [done| |].
    - rewrite Hirr in Hlt; [done|]. by apply list_elem_of_lookup; exists j.
    - rewrite Forall_forall in Hlast. specialize (Hlast y Hy'). exfalso.
      assert (key_wf x ∧ key_wf y) as [Wx Wy].
      { rewrite Forall_forall in Hwf. split; apply Hwf; [by apply list_elem_of_lookup; exists j|].
        rewrite <- (take_drop_middle F j x Hj). set_solver. }
      by rewrite (sw_asym (st_weak vec_ltb_total) x y) in Hlt. }
  assert (NoDup (take k S)) as Hnd.
  { assert (∀ y, y ∈ take k S → y ∈ F) as HkF by (intros y Hy; apply Hsub; rewrite <- (take_drop k S); set_solver).
    clear -HSk Hirr HkF. induction HSk as [|y l Hl IH Hy]; constructor.
    - intros Hin. rewrite Forall_forall in Hy. specialize (Hy y Hin). simpl in Hy. rewrite Hirr in Hy; [done|]. set_solver.
    - apply IH. set_solver. }
  pose proof (submseteq_length _ _ (NoDup_submseteq _ _ Hnd Hin)) as Hlen.
  assert (drop k S ≠ []) as Hne by (intros E; rewrite E in Hx; by apply elem_of_nil in Hx).
  assert (k < length S)%nat by (destruct (decide (k < length S)%nat); [done|]; destruct Hne; apply drop_ge; lia).
  rewrite !length_take in Hlen. lia.
Qed.

Lemma mm_keys_sorted (m : MapBufT) : mm_sorted m → StronglySorted (λ a b, vec_ltb a b = true) m.*1.
Proof. induction 1 as [|e m Hm IH He]; simpl; constructor; [done|]. by apply Forall_fmap. Qed.

(** The rows of some groups alone are grouped as all rows are. *)
Lemma group_filter (Q : StatMap → Prop) `{∀ m, Decision (Q m)} (rows : list MapEntry) m : Q m →
  group (filter (λ r, Q r.2.1) rows) m = group rows m.
Proof.
  intros Hm. unfold group. f_equal. induction rows as [|r rows IH]; [done|]. rewrite !filter_cons.
  destruct (decide (r.2.1 = m)) as [<-|Hne].
  - rewrite decide_True by done. rewrite filter_cons_True by done. by rewrite IH.
  - case_decide; [by rewrite filter_cons_False|done].
Qed.

Lemma no_collision_part rows1 rows2 : rows1 `sublist_of` rows2 → no_collision rows2 → no_collision rows1.
Proof.
  intros Hs [Hw Hc]. assert (∀ r, r ∈ rows1 → r ∈ rows2) as Hin by (intros r Hr; by eapply elem_of_submseteq, sublist_submseteq).
  split; [|intros; apply Hc; auto]. unfold mm_wf in *. rewrite Forall_forall in *. auto.
Qed.
Lemma rows_typed_part T rows1 rows2 : rows1 `sublist_of` rows2 → rows_typed T rows2 → rows_typed T rows1.
Proof.
  intros Hs Ht. unfold rows_typed in *. rewrite Forall_forall in *. intros r Hr.
  by eapply Ht, elem_of_submseteq, sublist_submseteq.
Qed.

Lemma mm_sorted_filter (Q : MapEntry → Prop) `{∀ e, Decision (Q e)} m : mm_sorted m → mm_sorted (filter Q m).
Proof.
  unfold mm_sorted. induction 1 as [|e m Hm IH He]; [constructor|]. rewrite filter_cons. case_decide; [|done].
  constructor; [done|]. apply Forall_forall. intros x [_ Hx]%list_elem_of_filter. by eapply Forall_forall in He.
Qed.

Lemma feed_part T (Q : StatMap → Prop) `{∀ m, Decision (Q m)} rows all : all_u64 T → rows_typed T rows → no_collision rows →
  feed rows [] = Some all → feed (filter (λ r, Q r.2.1) rows) [] = Some (filter (λ e, Q e.2.1) all).
Proof.
  intros HT Hty Hnc Hf. pose proof (sublist_filter (λ r : MapEntry, Q r.2.1) rows) as Hsub.
  destruct (feed_grouped_typed T rows (all_u64_ok T HT) Hty Hnc) as (o & Ho & G & _). simplify_eq.
  destruct (feed_grouped_typed T (filter (λ r, Q r.2.1) rows) (all_u64_ok T HT)) as (o' & -> & G' & _);
    [by eapply rows_typed_part|by eapply no_collision_part|]. f_equal.
  eapply (grouped_ext (filter (λ r, Q r.2.1) rows) (filter (λ r, Q r.2.1) rows));
    [by eapply no_collision_part|by eapply no_collision_part|exact G'| |done|done].
  split.
  - by apply mm_sorted_filter, G.
  - intros e [HQ He]%list_elem_of_filter. destruct (gr_from _ _ G e He) as (r & Hr & E1 & E2). exists r.
    split; [|done]. apply list_elem_of_filter. by rewrite E2.
  - intros e [HQ He]%list_elem_of_filter. rewrite group_filter by done. by apply (gr_agg _ _ G).
  - intros r [HQ Hr]%list_elem_of_filter. destruct (gr_all _ _ G r Hr) as (e & He & E1 & E2). exists e.
    split; [|done]. apply list_elem_of_filter. by rewrite E2.
Qed.
(** Rows and entries have the same key exactly when they have the same unique
    columns. *)
Lemma grouped_key rows all e r : no_collision rows → grouped rows all → e ∈ all → r ∈ rows → e.1 = r.1 ↔ e.2.1 = r.2.1.
Proof.
  intros [_ Hc] G He Hr. destruct (gr_from _ _ G e He) as (r' & Hr' & <- & <-). by apply Hc.
Qed.
Lemma grouped_wf rows all : no_collision rows → grouped rows all → Forall key_wf all.*1.
Proof.
  intros [Hw _] G. apply Forall_fmap, Forall_forall. intros e He. simpl. destruct (gr_from _ _ G e He) as (r & Hr & <- & _).
  unfold mm_wf in Hw. rewrite Forall_forall in Hw. by apply Hw.
Qed.
Lemma grouped_uniks rows all : no_collision rows → grouped rows all → NoDup ((λ e, e.2.1) <$> all).
Proof.
  intros Hnc G. pose proof (grouped_wf _ _ Hnc G) as Hw. rewrite Forall_fmap, Forall_forall in Hw.
  assert (∀ e1 e2, e1 ∈ all → e2 ∈ all → e1.2.1 = e2.2.1 → e1.1 = e2.1) as Hk.
  { intros e1 e2 H1' H2' E. destruct (gr_from _ _ G e2 H2') as (r & Hr & <- & E2).
    apply (grouped_key rows all); [done..|]. by rewrite E2. }
  pose proof (gr_sorted _ _ G) as Hs. clear G. unfold mm_sorted in Hs.
  induction Hs as [|e all Hs IH He]; [constructor|]. simpl. constructor.
  - intros (e' & E & He')%list_elem_of_fmap. rewrite Forall_forall in He. specialize (He e' He').
    rewrite (Hk e e') in He; [|set_solver..|done]. rewrite vec_irrefl in He; [done|]. apply Hw. set_solver.
  - apply IH; [intros; apply Hw; set_solver|intros; apply Hk; set_solver].
Qed.

Section cut.
Context (T : gmap (AggOper * string) VarType) (HT : all_u64 T) (keep : StatMap → Prop) `{∀ m, Decision (keep m)} (k : nat).
Abbreviation kept := (filter (λ e : MapEntry, keep e.2.1)).

(** The groups a cut chunk has left. *)
Definition left_groups (o : MapBufT) (m : StatMap) : Prop := m ∈ (λ e, e.2.1) <$> take k (kept o).
#[local] Instance left_groups_dec o m : Decision (left_groups o m).
Proof. unfold left_groups. apply _. Defined.

Lemma left_groups_keep o m : left_groups o m → keep m.
Proof.
  intros (e & -> & He)%list_elem_of_fmap. assert (e ∈ kept o) as [? _]%list_elem_of_filter; [|done].
  rewrite <- (take_drop k (kept o)). set_solver.
Qed.

(** Feeding the rows of the groups that are left gives the cut multimap. *)
Lemma feed_cut rows o : rows_typed T rows → no_collision rows → feed rows [] = Some o →
  feed (filter (λ r, left_groups o r.2.1) rows) [] = Some (take k (kept o)).
Proof.
  intros Hty Hnc Hf. rewrite (feed_part T (left_groups o) rows o) by done. f_equal.
  destruct (feed_grouped_typed T rows (all_u64_ok T HT) Hty Hnc) as (o' & Ho & G & _). simplify_eq.
  rewrite <- (filter_of_part (λ e : MapEntry, keep e.2.1) (λ e : MapEntry, left_groups o e.2.1) o)
    by (intros e _; apply left_groups_keep).
  apply filter_taken. eapply sublist_NoDup; [by eapply grouped_uniks|]. apply fmap_sublist, sublist_filter.
Qed.

(** The first groups of all rows are left in every chunk. *)
Lemma first_groups_left R all rows o r : rows_typed T R → no_collision R → feed R [] = Some all →
  rows `sublist_of` R → feed rows [] = Some o → r ∈ rows → left_groups all r.2.1 → left_groups o r.2.1.
Proof.
  intros Hty Hnc Hall Hsub Ho Hr Hf.
  destruct (feed_grouped_typed T R (all_u64_ok T HT) Hty Hnc) as (? & ? & G & _). simplify_eq.
  pose proof (no_collision_part _ _ Hsub Hnc) as Hnc'. pose proof (rows_typed_part _ _ _ Hsub Hty) as Hty'.
  destruct (feed_grouped_typed T rows (all_u64_ok T HT) Hty' Hnc') as (? & ? & G' & _). simplify_eq.
  assert (∀ x, x ∈ rows → x ∈ R) as Hin by (intros x Hx; by eapply elem_of_submseteq, sublist_submseteq).
  pose proof (left_groups_keep _ _ Hf) as Hkeep. apply list_elem_of_fmap in Hf as (f & Ef & Hf).
  assert (f ∈ all) as Hfa by (eapply elem_of_submseteq; [exact Hf|]; apply sublist_submseteq; etransitivity; [apply sublist_take|apply sublist_filter]).
  destruct (gr_all _ _ G' r Hr) as (e & He & E1 & E2).
  assert (e.1 ∈ take k (kept o).*1) as Hk.
  { apply (take_sorted_part (kept all).*1).
    - pose proof (grouped_wf _ _ Hnc G) as Hw. rewrite Forall_fmap in Hw |- *. rewrite Forall_forall in Hw |- *.
      intros x [_ Hx]%list_elem_of_filter. by apply Hw.
    - apply mm_keys_sorted, mm_sorted_filter, G.
    - apply mm_keys_sorted, mm_sorted_filter, G'.
    - intros y (e' & -> & [Hke' He']%list_elem_of_filter)%list_elem_of_fmap.
      destruct (gr_from _ _ G' e' He') as (r' & Hr' & <- & E'). destruct (gr_all _ _ G r' (Hin r' Hr')) as (e'' & He'' & <- & E'').
      apply list_elem_of_fmap_2, list_elem_of_filter. split; [|done]. by rewrite E'', E'.
    - apply list_elem_of_fmap_2, list_elem_of_filter. by rewrite E2.
    - rewrite <- fmap_take. apply list_elem_of_fmap. exists f. split; [|done].
      rewrite E1. symmetry. apply (grouped_key R all); [done..|by apply Hin|done]. }
  rewrite <- fmap_take in Hk. apply list_elem_of_fmap in Hk as (e' & E' & He').
  apply list_elem_of_fmap. exists e'. split; [|done]. symmetry. apply (grouped_key rows o); [done|done| |done|by rewrite <- E'].
  eapply elem_of_submseteq; [exact He'|]. apply sublist_submseteq. etransitivity; [apply sublist_take|apply sublist_filter].
Qed.
(** Rows that keep the first groups whole, and of the others what the filter
    accepts, have the same first entries. *)
Lemma first_entries R R' all all' : rows_typed T R → no_collision R → feed R [] = Some all →
  R' `sublist_of` R → (∀ r, r ∈ R' → keep r.2.1) →
  filter (λ r : MapEntry, left_groups all r.2.1) R' = filter (λ r : MapEntry, left_groups all r.2.1) R →
  feed R' [] = Some all' → take k all' = take k (kept all).
Proof.
  intros Hty Hnc Hall Hsub Hkeep Hsame Hall'.
  pose proof (no_collision_part _ _ Hsub Hnc) as Hnc'. pose proof (rows_typed_part _ _ _ Hsub Hty) as Hty'.
  destruct (feed_grouped_typed T R (all_u64_ok T HT) Hty Hnc) as (? & ? & G & _). simplify_eq.
  destruct (feed_grouped_typed T R' (all_u64_ok T HT) Hty' Hnc') as (? & ? & G' & _). simplify_eq.
  assert (filter (λ e : MapEntry, left_groups all e.2.1) all' = take k (kept all)) as Efirst.
  { pose proof (feed_part T (left_groups all) R' all' HT Hty' Hnc' Hall') as E. rewrite Hsame, (feed_cut R all) in E by done. by injection E. }
  assert (∀ e, e ∈ all' → ∃ f, f ∈ kept all ∧ f.1 = e.1 ∧ f.2.1 = e.2.1) as Hfrom.
  { intros e He. destruct (gr_from _ _ G' e He) as (r & Hr & <- & <-).
    destruct (gr_all _ _ G r) as (f & Hf & E1 & E2); [by eapply elem_of_submseteq, sublist_submseteq|].
    exists f. split; [|done]. apply list_elem_of_filter. rewrite E2. by split; [apply Hkeep|]. }
  assert (∀ e, e ∈ all' → ¬ left_groups all e.2.1 → ∃ f, f ∈ drop k (kept all) ∧ f.1 = e.1) as Hlater.
  { intros e He Hn. destruct (Hfrom e He) as (f & Hf & E1 & E2). exists f. split; [|done].
    rewrite <- (take_drop k (kept all)) in Hf. apply elem_of_app in Hf as [Hf|Hf]; [|done].
    destruct Hn. rewrite <- E2. by apply (list_elem_of_fmap_2 (λ e : MapEntry, e.2.1)). }
  rewrite (filter_split_sorted (λ a b, vec_ltb a.1 b.1 = true) (λ e, left_groups all e.2.1) all' (gr_sorted _ _ G')), Efirst.
  - destruct (decide (k <= length (kept all))%nat) as [Hk|Hk]; [by rewrite take_app_length' by (rewrite length_take; lia)|].
    rewrite (select_none (λ e : MapEntry, ¬ left_groups all e.2.1) all'); [by rewrite app_nil_r, take_take, Nat.min_id|].
    intros e He Hn. destruct (Hlater e He Hn) as (f & Hf & _). rewrite drop_ge in Hf by lia. by apply elem_of_nil in Hf.
  - intros x y Hx Hy Px Py Hlt. destruct (Hlater y Hy Py) as (f & Hf & Ef).
    assert (x ∈ take k (kept all)) as Hx' by (rewrite <- Efirst; by apply list_elem_of_filter).
    pose proof (mm_sorted_filter (λ e : MapEntry, keep e.2.1) all (gr_sorted _ _ G)) as Hs.
    unfold mm_sorted in Hs. rewrite <- (take_drop k (kept all)) in Hs. apply StronglySorted_app in Hs as (Hs & _ & _).
    specialize (Hs x f Hx' Hf). simpl in Hs, Hlt. rewrite Ef in Hs.
    pose proof (grouped_wf _ _ Hnc' G') as Hw. rewrite Forall_fmap, Forall_forall in Hw.
    rewrite (sw_asym (st_weak vec_ltb_total) x.1 y.1) in Hlt; [done|by apply Hw|by apply Hw|done].
Qed.

(** The rows of the cut chunks. *)
Definition cut_rows (rowss : list (list MapEntry)) (outs : list MapBufT) : list (list MapEntry) :=
  zip_with (λ rows o, filter (λ r : MapEntry, left_groups o r.2.1) rows) rowss outs.

Lemma cut_rows_part rowss outs : concat (cut_rows rowss outs) `sublist_of` concat rowss.
Proof.
  revert outs. induction rowss as [|rows rowss IH]; intros [|o outs]; simpl; try apply sublist_nil_l.
  apply sublist_app; [apply sublist_filter|apply IH].
Qed.
Lemma cut_rows_keep rowss outs r : r ∈ concat (cut_rows rowss outs) → keep r.2.1.
Proof.
  revert outs. induction rowss as [|rows rowss IH]; intros [|o outs]; simpl; try by intros ?%elem_of_nil.
  intros [[Hl _]%list_elem_of_filter|Hr]%elem_of_app; [by eapply left_groups_keep|by eapply IH].
Qed.
Lemma cut_rows_first R all rowss outs : rows_typed T R → no_collision R → feed R [] = Some all →
  concat rowss `sublist_of` R → Forall2 (λ c o, feed c [] = Some o) rowss outs →
  filter (λ r : MapEntry, left_groups all r.2.1) (concat (cut_rows rowss outs)) =
  filter (λ r : MapEntry, left_groups all r.2.1) (concat rowss).
Proof.
  intros Hty Hnc Hall Hsub Hf. induction Hf as [|rows o rowss outs Ho Hf IH]; [done|]. simpl in *.
  rewrite !filter_app, IH by (etransitivity; [|exact Hsub]; by apply sublist_inserts_l). f_equal.
  apply filter_of_part. intros r Hr. apply (first_groups_left R all rows o r); try done.
  etransitivity; [|exact Hsub]. by apply sublist_inserts_r.
Qed.
Lemma cut_rows_feed rowss outs : rows_typed T (concat rowss) → no_collision (concat rowss) →
  Forall2 (λ c o, feed c [] = Some o) rowss outs →
  Forall2 (λ c o, feed c [] = Some (take k (kept o))) (cut_rows rowss outs) outs.
Proof.
  intros Hty Hnc Hf. induction Hf as [|rows o rowss outs Ho Hf IH]; simpl in *; constructor.
  - apply feed_cut; [apply (rows_typed_part T rows (rows ++ concat rowss)), Hty
                    |apply (no_collision_part rows (rows ++ concat rowss)), Hnc|done]; by apply sublist_inserts_r.
  - apply IH; [apply (rows_typed_part T (concat rowss) (rows ++ concat rowss)), Hty
              |apply (no_collision_part (concat rowss) (rows ++ concat rowss)), Hnc]; by apply sublist_inserts_l.
Qed.

(** Filtering and cutting the chunks loses none of the first groups of all rows. *)
Lemma cut_merge rowss outs all : rows_typed T (concat rowss) → no_collision (concat rowss) →
  Forall2 (λ c o, feed c [] = Some o) rowss outs → feed (concat rowss) [] = Some all →
  ∃ all', feed (concat (cut_rows rowss outs)) [] = Some all' ∧ take k all' = take k (kept all).
Proof.
  intros Hty Hnc Hf Hall. pose proof (cut_rows_part rowss outs) as Hsub.
  destruct (feed_grouped_typed T (concat (cut_rows rowss outs)) (all_u64_ok T HT)) as (all' & Hall' & _ & _);
    [by eapply rows_typed_part|by eapply no_collision_part|].
  exists all'. split; [done|]. eapply (first_entries (concat rowss)); try done.
  - intros r. apply cut_rows_keep.
  - by apply (cut_rows_first (concat rowss)).
Qed.
End cut.
End cut_chunks.

(** The samples of some chunks. *)
Definition samples_of (samples : nat → list (Z * Z * list StatEntry)) (l : list nat)
  : list (Z * Z * list StatEntry) := concat (samples <$> l).

Lemma choose_list {A B} (P : A → B → Prop) l : (∀ x, x ∈ l → ∃ y, P x y) → ∃ ys, Forall2 P l ys.
Proof.
  induction l as [|x l IH]; intros Hl; [by exists []|]. destruct (Hl x) as [y Hy]; [by left|].
  destruct IH as [ys Hys]; [intros; apply Hl; by right|]. exists (y :: ys). by constructor.
Qed.

Section loaded.
Context `{DbValueOrder, StringToInteger, StdSortPartial, Digests, SubValOrder, StatHash, !MultimapHint, Regex, StatFormat}.

(** What the filter of the aggregated rows keeps: it reads the columns a group
    is made of, never the aggregates. *)
Definition stats_accepts (fl : list (list filter_match_t)) (m : StatMap) : bool := bool_decide (fl = []) || stats_keep fl m.
Definition stats_filtered (fl : list (list filter_match_t)) (m : MapBufT) : MapBufT :=
  filter (λ e : MapEntry, stats_accepts fl e.2.1 = true) m.

Lemma filter_bool {A} (f : A → bool) l : List.filter f l = filter (λ x, f x = true) l.
Proof. induction l as [|x l IH]; [done|]. simpl. rewrite filter_cons, IH. by destruct (f x). Qed.

(** The aggregated rows of a chunk after [process_query]. *)
Lemma process_query_maps pp table_ parallelized plain loaded res m :
  process_query pp table_ parallelized 0 plain loaded = PPDone QUERY_SUCCESS res m →
  m = if limit_here table_ parallelized then apply_limit (limit pp) (stats_filtered (filter_list pp) loaded)
      else stats_filtered (filter_list pp) loaded.
Proof.
  unfold process_query. simpl. case_match; [|done]. destruct (sort_rows _ _); [|done].
  assert ((if bool_decide (filter_list pp = []) then loaded else stats_filter_loop (filter_list pp) [] None loaded)
    = stats_filtered (filter_list pp) loaded) as ->.
  { unfold stats_filtered, stats_accepts. destruct (bool_decide_reflect (filter_list pp = [])); simpl.
    - by rewrite select_all.
    - by rewrite stats_filter_loop_app, app_nil_l, filter_bool. }
  destruct (limit_here _ _); by intros [= _ <-].
Qed.

Lemma FullRow_length k m a out res : MergeFullRow k m a out = Some res → (length res <= S (length out))%nat.
Proof.
  unfold MergeFullRow. assert (length (mm_insert (k, (m, a)) out) = S (length out)) as Hi by (by rewrite <- (Permutation_length (mm_insert_perm _ _))).
  destruct (mm_find k out) as [[[before [k' [m' a']]] after]|] eqn:Ef; [|intros [= <-]; lia].
  case_decide; [|intros [= <-]; lia]. apply mm_find_some in Ef as [-> _].
  intros (a'' & _ & ->)%fmap_Some. rewrite !List.length_app. simpl. lia.
Qed.
Lemma feed_length rows out res : feed rows out = Some res → (length res <= length rows + length out)%nat.
Proof.
  revert out. induction rows as [|[k [m a]] rows IH]; intros out; simpl; [intros [= ->]; lia|].
  intros (out' & E & Hf)%bind_Some. apply IH in Hf. apply FullRow_length in E. lia.
Qed.

Context (inp : Input) (where_resp : nat → nat → Z * WhereResultT) (select_resp : nat → WhereResultT → Z * BufferT * MapBufT).
Abbreviation chunk_map := (chunk_map inp where_resp select_resp).
Abbreviation chunks_of_query := (seq 0 (chunk_count inp)).
Abbreviation fl := (filter_list (in_post inp)).

(** The map of a chunk: its samples are loaded, filtered and cut. *)
Definition chunk_loaded (sel : StatsSelect) (samples : list (Z * Z * list StatEntry)) (parallelized : bool) (c : nat) : Prop :=
  ∃ loaded plain res, load_all sel samples [] = Some loaded ∧
    process_query (in_post inp) (in_table inp) parallelized 0 plain loaded = PPDone QUERY_SUCCESS res (chunk_map c).

(** Chunks loaded from samples are fed by rows that give the same result. *)
Lemma loaded_well_formed (sel : StatsSelect) T parallelized (samples : nat → list (Z * Z * list StatEntry)) rows :
  status_ sel = true → 0 <= limit (in_post inp) < 2 ^ 31 → all_u64 T →
  (∀ c, (c < chunk_count inp)%nat → chunk_loaded sel (samples c) parallelized c) →
  mapM (row_of sel) (samples_of samples chunks_of_query) = Some rows →
  hash_separates sel rows → rows_typed T rows →
  (∀ x, x ∈ rows → x.2.1 !! EmptyString = None ∧ x.2.1 !! in_count_distinct inp = None) →
  ∃ rowss all all', well_formed inp where_resp select_resp T rowss chunks_of_query ∧
    feed rows [] = Some all ∧ feed (rows_of rowss chunks_of_query) [] = Some all' ∧
    apply_limit (limit (in_post inp)) all' = apply_limit (limit (in_post inp)) (stats_filtered fl all).
Proof.
  intros Hst Hlim HT Hload Hrows Hh Hty Hcd. pose proof (load_no_collision sel _ _ Hrows Hh) as Hnc.
  destruct (feed_grouped_typed T rows (all_u64_ok T HT) Hty Hnc) as (all & Hall & _ & _).
  destruct (choose_list (λ c o, load_all sel (samples c) [] = Some o ∧
    chunk_map c = if limit_here (in_table inp) parallelized then apply_limit (limit (in_post inp)) (stats_filtered fl o)
                  else stats_filtered fl o) chunks_of_query) as [outs Houts].
  { intros c Hc%elem_of_seq. destruct (Hload c) as (o & plain & res & Ho & Hp); [lia|]. exists o. split; [done|].
    by apply process_query_maps in Hp. }
  destruct (StatsSelect.chunk_rows sel (samples <$> chunks_of_query) outs rows Hst Hrows) as (rowss & -> & Hf).
  { apply Forall2_fmap_l. eapply Forall2_impl; [exact Houts|]. by intros c o [? _]. }
  destruct (apply_limit_count (limit (in_post inp)) (length (concat rowss)) Hlim) as [k Hk].
  set (keep := λ m, stats_accepts fl m = true).
  set (k' := if limit_here (in_table inp) parallelized then k else max k (length (concat rowss))).
  destruct (cut_merge T HT keep k' rowss outs all Hty Hnc Hf Hall) as (all' & Hall' & Hsame).
  pose proof (cut_rows_part keep k' rowss outs) as Hsub. pose proof (cut_rows_feed T HT keep k' rowss outs Hty Hnc Hf) as Hcut.
  set (cut := cut_rows keep k' rowss outs) in *.
  assert (length cut = chunk_count inp) as Hlen.
  { by rewrite (Forall2_length _ _ _ Hcut), <- (Forall2_length _ _ _ Houts), length_seq. }
  assert (cut = (λ c, cut !!! c) <$> chunks_of_query) as Ecut.
  { rewrite <- Hlen. apply list_eq. intros i. rewrite list_lookup_fmap. destruct (decide (i < length cut)%nat) as [Hi|Hi].
    - rewrite lookup_seq_lt by lia. simpl. by apply list_lookup_lookup_total_lt.
    - rewrite !lookup_ge_None_2 by (rewrite ?length_seq; lia). done. }
  assert (∀ l : MapBufT, (length l <= length (concat rowss))%nat → take k (take k' l) = take k l) as Htake.
  { intros l Hl. rewrite take_take. subst k'. destruct (limit_here _ _); [by rewrite Nat.min_id|]. f_equal. lia. }
  exists (λ c, cut !!! c), all, all'. unfold rows_of. rewrite <- Ecut.
  assert (∀ x, x ∈ concat cut → x ∈ concat rowss) as Hin by (intros x Hx; by eapply elem_of_submseteq, sublist_submseteq).
  split_and!; [|done|done|].
  - split; unfold rows_of; rewrite <- ?Ecut; [by eapply rows_typed_part|by eapply no_collision_part| | |].
    + intros r Hr. by apply Hcd, Hin.
    + intros r Hr. by apply Hcd, Hin.
    + intros c Hc%elem_of_seq. destruct (Forall2_lookup_l _ _ _ c c Houts) as (o & Eo & _ & ->); [by rewrite lookup_seq_lt by lia|].
      destruct (Forall2_lookup_r _ _ _ c o Hcut Eo) as (x & Ex & Hx). rewrite (list_lookup_total_correct _ _ x), Hx by done.
      destruct (Forall2_lookup_r _ _ _ c o Hf Eo) as (y & Ey & Hy). apply feed_length in Hy. simpl in Hy.
      pose proof (length_piece y rowss (list_elem_of_lookup_2 _ _ _ Ey)) as Ly.
      assert (length (stats_filtered fl o) <= length o)%nat as Lf by (apply sublist_length, sublist_filter).
      f_equal. subst k'. destruct (limit_here _ _); [rewrite Hk by lia; done|]. apply take_ge. fold (stats_filtered fl o). lia.
  - apply feed_length in Hall as La. apply feed_length in Hall' as La'. pose proof (sublist_length _ _ Hsub) as Ls.
    simpl in La, La'. rewrite Nat.add_0_r in La, La'.
    assert (length (stats_filtered fl all) <= length all)%nat as Lf by (apply sublist_length, sublist_filter).
    rewrite !Hk by lia. rewrite <- (Htake all'), <- (Htake (stats_filtered fl all)) by lia. by rewrite Hsame.
Qed.
End loaded.

(** ** The statistics pipeline *)

Section stats_complete.
Context `{DbValueOrder, StringToInteger, StdSortPartial, Digests, SubValOrder, StatHash, !MultimapHint, Regex, StatFormat}.
Context (inp : Input) (where_resp : nat → nat → Z * WhereResultT)
  (select_resp : nat → WhereResultT → Z * BufferT * MapBufT) (max_tasks : nat) (s : state).

Abbreviation chunks_of_query := (seq 0 (chunk_count inp)).

(** C6.  A statistics query without COUNT_DISTINCT, of integer sums, counts,
    maxima and minima over groups the hash tells apart: when every chunk loads its
    samples and filters and cuts them, a query that is reported as successful
    returns what one pass over the samples of all chunks gives, filtered and cut to
    the limit; neither the number of instances nor the interleaving of their
    requests nor the cutting of the chunks is seen in the result.  Sorted by an
    aggregate the same holds when there is no limit ([limit_before_aggregate_sort]
    is a query with one whose rows are lost). *)
Theorem stats_result_one_pass (sel : StatsSelect) T parallelized
    (samples : nat → list (Z * Z * list StatEntry)) rows rc r m :
  (0 < wterms inp)%nat → (0 < max_tasks)%nat → map_output inp = true → need_merge inp = true →
  reachable inp where_resp select_resp max_tasks s → all_finished s →
  Z.of_nat (sizes inp (instances s)) < 2 ^ 32 → 0 <= limit (in_post inp) < 2 ^ 31 →
  all_u64 T → all_order_free T → status_ sel = true →
  (∀ c, (c < chunk_count inp)%nat →
     chunk_loaded inp where_resp select_resp sel (samples c) parallelized c) →
  mapM (row_of sel) (samples_of samples chunks_of_query) = Some rows →
  hash_separates sel rows → rows_typed T rows →
  (∀ x, x ∈ rows → x.2.1 !! EmptyString = None ∧ x.2.1 !! in_count_distinct inp = None) →
  Stage0_QueryMerge inp (out <$> instances s) = Some (Merged rc r m) → rc = true →
  r = [] ∧ ∃ all, load_all sel (samples_of samples chunks_of_query) [] = Some all ∧
    let passed := stats_filtered (filter_list (in_post inp)) all in
    match in_agg_sort inp with
    | [] => m = apply_limit (limit (in_post inp)) passed
    | cols => limit (in_post inp) = 0 → resort cols passed [] = Some m
    end.
Proof.
  intros Hw Hmt Hmap Hn Hr Hfin Hsz Hlim HT Ho Hst Hload Hrows Hh Hty Hcd Hm Hrc.
  destruct (successful_chunks inp where_resp select_resp max_tasks s rc r m)
    as (chunks & Hp & Hall & _); [done..|].
  destruct (loaded_well_formed inp where_resp select_resp sel T parallelized samples rows)
    as (rowss & all & all' & Hwf & Ea & Ea' & Hcut); [done..|].
  revert Hm. unfold Stage0_QueryMerge. do 2 (case_match; [done|]). rewrite Hn, Hmap.
  intros ([b m'] & Hq & [= -> <- ->])%fmap_Some. subst b. split; [done|].
  unfold QueryFinalMerge_map in Hq. case_match; [done|].
  apply fmap_Some in Hq as (m0 & Hq & [= ->]). exists all. split; [by rewrite load_all_feed, Hrows|].
  assert (merge_all (in_count_distinct inp) (mresult <$> (out <$> instances s)) [] = Some all') as Hmerged.
  { rewrite <- Ea', (merged_feed _ where_resp select_resp T rowss _ chunks); try done.
    - symmetry. apply (feed_perm T); [done|done|by apply rows_of_perm|by apply Hwf|by apply Hwf].
    - by eapply well_formed_perm. }
  cbv zeta. unfold MergeFinal in Hq. rewrite Hmerged in Hq. destruct (in_agg_sort inp) as [|col cols].
  - injection Hq as <-. exact Hcut.
  - intros Hl. rewrite Hl in *. unfold apply_limit in Hcut |- *. simpl in Hcut |- *. by rewrite <- Hcut.
Qed.
End stats_complete.

(** ** Examples *)

Module PipelineExamples.
#[local] Existing Instance ConcreteOrder.order.
#[local] Existing Instance ConcreteStringToInteger.instance.
#[local] Existing Instance StatExamples.order.
#[local] Existing Instance StatExamples.digests.
#[local] Existing Instance StatExamples.hash.
#[local] Existing Instance PostExamples.regex.
#[local] Existing Instance PostExamples.format.

(** An insertion that does not use the hint. *)
Definition hint : MultimapHint := {|
  insert_hint m _ e := (mm_insert e m, 0%nat);
  insert_hint_perm m _ e := mm_insert_perm e m
|}.
#[local] Existing Instance hint.

(** Three chunks of message rows, two OR terms, and two instances. *)
Definition rows_input : Input := {|
  chunk_count := 3; wterms := 2; need_merge := true; map_output := false; max_rows := 100;
  in_table := MESSAGE_TABLE; in_status := 0; in_post := PostExamples.unit_of ASCENDING 3;
  in_count_distinct := EmptyString; in_agg_sort := []
|}.
Definition no_units (c k : nat) : Z * WhereResultT := (0, []).
Definition rows_resp (c : nat) (u : WhereResultT) : Z * BufferT * MapBufT :=
  (0, PostExamples.row <$> [10 - Z.of_nat c; 20 + Z.of_nat c], []).

(** The first instance processes the chunks 0 and 2, the second one chunk 1. *)
Definition schedule : list nat :=
  [0; 1; 0; 0; 1; 0; 0; 1; 1; 1; 0; 0; 0; 0; 0; 0; 1; 0; 0; 1]%nat.
Definition rows_end : state :=
  default (stage_init rows_input 2) (run rows_input no_units rows_resp schedule (stage_init rows_input 2)).

Definition finished_b (s : state) : bool :=
  forallb (λ i, match ph i with Finished => true | _ => false end) (instances s).
Lemma finished_b_ok s : finished_b s = true → all_finished s.
Proof.
  intros Hf. apply Forall_forall. intros i Hi%list_elem_of_In. unfold finished_b in Hf.
  rewrite forallb_forall in Hf. specialize (Hf i Hi). by destruct (ph i).
Qed.

Lemma rows_end_reachable : reachable rows_input no_units rows_resp 2 rows_end.
Proof.
  apply (run_reachable rows_input no_units rows_resp schedule).
  unfold rows_end. by vm_compute.
Qed.
Definition rows_merged : BufferT :=
  match Stage0_QueryMerge rows_input (out <$> instances rows_end) with Some (Merged _ r _) => r | _ => [] end.

Lemma query_result_complete_witness :
  ∃ chunks, Permutation (concat chunks) (seq 0 3) ∧
    Forall2 (λ i ch, collect rows_input no_units rows_resp ch = Some (core (out i)))
      (instances rows_end) chunks ∧
    (map_output rows_input = false → need_merge rows_input = false →
     true = true ∧
     Permutation (concat (chunk_rows rows_input no_units rows_resp <$> seq 0 3)) rows_merged) ∧
    (map_output rows_input = false → need_merge rows_input = true → true = true →
     ∃ arranged, Permutation (concat (chunk_rows rows_input no_units rows_resp <$> seq 0 3)) arranged ∧
       rows_merged = apply_limit 3 arranged ∧
       (sorted (in_post rows_input) = true →
        Forall (has_fields (sort_fields (in_post rows_input)))
          (concat (chunk_rows rows_input no_units rows_resp <$> seq 0 3)) →
        sorted_dir true (returned (sort_field_comparator (sort_fields (in_post rows_input)))) arranged)).
Proof.
  apply (query_result_complete rows_input no_units rows_resp 2 rows_end true rows_merged []);
    [simpl; lia|lia|apply rows_end_reachable|apply finished_b_ok; by vm_compute
    |by vm_compute|by vm_compute].
Defined.

Lemma query_stage_finishes_witness :
  (∀ k s, nsteps (stage_step rows_input no_units rows_resp) k (stage_init rows_input 2) s → (k <= 2 + 3 * (2 * (2 + 1)))%nat) ∧
  (∀ s, reachable rows_input no_units rows_resp 2 s →
     all_finished s ∨ ∃ s', stage_step rows_input no_units rows_resp s s').
Proof.
  apply (query_stage_finishes rows_input no_units rows_resp 2); [simpl; lia|].
  apply collect_defined; [done|]. intros c. apply (PostExamples.rows_ok ASCENDING 3).
Defined.
Definition no_terms : Input := {|
  chunk_count := 3; wterms := 0; need_merge := true; map_output := false; max_rows := 100;
  in_table := MESSAGE_TABLE; in_status := 0; in_post := PostExamples.unit_of ASCENDING 3;
  in_count_distinct := EmptyString; in_agg_sort := []
|}.
Lemma empty_where_stops_witness :
  ∃ s n ext o, reachable no_terms no_units rows_resp 2 s ∧
    instances s !! 0%nat = Some {| ph := Exec n ext; out := o |} ∧
    Stage0_QueryExec no_terms n ext (shared s) o = None.
Proof. apply (empty_where_stops no_terms no_units rows_resp 2); [done|lia|simpl; lia|done]. Defined.

(** [SELECT name, SUM(x), COUNT(x), MAX(x)] over three chunks, limit 1, filtered. *)
Definition stats_post : PostProcessingQuery := {|
  filter_list := [[{| fm_name := "name"; fm_value := "a"; fm_op := NOT_EQUAL; ignore_col_absence := false; match_e := EmptyString |}]];
  sorted := false; sorting_type := ASCENDING; sort_fields := []; limit := 1
|}.
Definition stats_input : Input := {|
  chunk_count := 3; wterms := 2; need_merge := true; map_output := true; max_rows := 100;
  in_table := "StatTable.t.a"; in_status := 0; in_post := stats_post;
  in_count_distinct := EmptyString; in_agg_sort := []
|}.
Definition samples (c : nat) : list (Z * Z * list StatEntry) :=
  match c with
  | 0%nat => StatExamples.chunk1
  | 1%nat => StatExamples.chunk2
  | _ => [StatExamples.sample "a" 2]
  end.
Definition stats_resp (c : nat) (u : WhereResultT) : Z * BufferT * MapBufT :=
  match process_query stats_post "StatTable.t.a" true 0 [] (default [] (load_all StatExamples.select (samples c) [])) with
  | PPDone _ rows mrows => (0, rows, mrows)
  | PPStopped => (5, [], [])
  end.
Definition stats_end : state :=
  default (stage_init stats_input 2) (run stats_input no_units stats_resp schedule (stage_init stats_input 2)).
Definition stats_merged : MapBufT :=
  match Stage0_QueryMerge stats_input (out <$> instances stats_end) with Some (Merged _ _ m) => m | _ => [] end.
Definition all_samples : list (Z * Z * list StatEntry) := concat (samples <$> seq 0 3).

Lemma stats_end_reachable : reachable stats_input no_units stats_resp 2 stats_end.
Proof.
  apply (run_reachable stats_input no_units stats_resp schedule).
  unfold stats_end. by vm_compute.
Qed.

Lemma types_order_free : all_order_free StatExamples.types.
Proof.
  intros k [t Hk]. unfold StatExamples.types in Hk. apply elem_of_list_to_map_2 in Hk.
  rewrite !elem_of_cons in Hk. destruct Hk as [[= -> _]|[[= -> _]|[[= -> _]|Hk]]]; try done.
  by apply not_elem_of_nil in Hk.
Qed.

Lemma blank_column_dec l :
  forallb (λ r : MapEntry, bool_decide (r.2.1 !! EmptyString = None)) l = true →
  ∀ x, x ∈ l → x.2.1 !! EmptyString = None ∧ x.2.1 !! EmptyString = None.
Proof.
  intros Hl x Hx%list_elem_of_In. rewrite forallb_forall in Hl. specialize (Hl x Hx).
  by apply bool_decide_eq_true in Hl.
Qed.

Lemma stats_result_one_pass_witness :
  ([] : BufferT) = [] ∧ ∃ all, load_all StatExamples.select all_samples [] = Some all ∧
    stats_merged = apply_limit 1 (stats_filtered (filter_list stats_post) all) ∧
    (λ e : MapEntry, (e.2.1 !! "name"%string, e.2.2 !! (SUM, "x"%string))) <$> stats_merged = [(Some (SvString "bb"), Some (SvU64 5))].
Proof.
  destruct (stats_result_one_pass stats_input no_units stats_resp 2 stats_end StatExamples.select
    StatExamples.types true samples (StatExamples.rows all_samples) true [] stats_merged)
    as [Hr (all & Ha & Hm)];
    [simpl; lia|lia|done|done|apply stats_end_reachable|apply finished_b_ok; vm_compute; reflexivity
    |vm_compute; reflexivity|simpl; lia|apply StatExamples.types_u64|apply types_order_free|done|
    |vm_compute; reflexivity|apply StatExamples.separates_dec; vm_compute; reflexivity
    |apply StatExamples.typed_dec; vm_compute; reflexivity|apply blank_column_dec; vm_compute; reflexivity
    |vm_compute; reflexivity|done|].
  - intros c Hc. destruct c as [|[|[|c]]]; [| | |simpl in Hc; lia].
    + exists (default [] (load_all StatExamples.select (samples 0) [])), [], []. split; (vm_compute; reflexivity).
    + exists (default [] (load_all StatExamples.select (samples 1) [])), [], []. split; (vm_compute; reflexivity).
    + exists (default [] (load_all StatExamples.select (samples 2) [])), [], []. split; (vm_compute; reflexivity).
  - split; [exact Hr|]. exists all. split; [exact Ha|]. split; [exact Hm|vm_compute; reflexivity].
Defined.
End PipelineExamples.
