(* ===== verification/QueryResponse.v ===== *)
(** * The answer of a query

    The last stage of the pipeline and the table of running pipelines
    ([contrail-query-engine/QEOpServerProxy.cc]): a row becomes a JSON object
    ([JsonInsert], [QueryJsonify]), the rows are pushed to Redis in batches and
    the client is told how many there are ([QueryResp]), and queries are
    admitted, spread over the connections and retired ([StartPipeline],
    [LeastLoadedConnection], [QEPipeCb]). *)
From stdpp Require Import base tactics list strings pretty gmap fin_maps.
From Stdlib Require Import ZArith Lia Sorted SpecFloat.
From S2P Require Import Prelude.
From S2P Require Import CppString.
From S2P Require Import VizConstants.
From S2P Require Import QueryTypes.
From S2P Require Import Json.
From S2P Require Import AnalyticsQuery.
From S2P Require Import StatsQuery.
From S2P Require Import PostProcessing.
From S2P Require Import StatsSelect.
From S2P Require Import WhereQuery.
From S2P Require Import QueryPipeline.
Local Open Scope Z_scope.

(** ** Rows as JSON *)

(** [_OBJECT_TABLE_SCHEMA.columns] of [viz.sandesh]. *)
Class ObjectSchema := { OBJECT_TABLE_COLUMNS : list column_schema }.

Section jsonify.
Context `{StringToInteger, Strtod}.

(** The value of a field by the type of its column. *)
Definition typed_value (type value : string) : json :=
  if (type =? "string")%string || (type =? "uuid")%string then JString (c_str value)
  else if (type =? "ipaddr")%string then JString (c_str value)
  else if (type =? "double")%string then JDouble (strtod value)
  else JInt (stringToInteger value).1.

Definition is_count (name : string) : bool := (String.substring 0 5 name =? "COUNT")%string.

(** One iteration of the loop over the columns. *)
Definition insert_column (name value : string) (acc : bool * list (string * json)) (c : column_schema)
  : bool * list (string * json) :=
  if is_count name then (true, acc.2 ++ [(c_str name, JInt (stringToInteger value).1)])
  else if (col_name c =? name)%string then
    if (value =? EmptyString)%string then (true, acc.2 ++ [(c_str name, JNull)])
    else (true, acc.2 ++ [(c_str name, typed_value (col_datatype c) value)])
  else acc.

(** [JsonInsert]; [None]: the assertion that the column was found. *)
Definition JsonInsert (cols : list column_schema) (dd : list (string * json)) (f : string * string)
  : option (list (string * json)) :=
  let '(found, dd) := foldl (insert_column f.1 f.2) (false, dd) cols in
  if (found : bool) then Some dd else None.

Definition fields_of (row : gmap string string) : list (string * string) :=
  insertion_sort (λ a b, String.ltb a.1 b.1) (map_to_list row).

Definition row_object (cols : list column_schema) (row : gmap string string) : option json :=
  JObject <$> foldl (λ acc f, acc ≫= λ dd, JsonInsert cols dd f) (Some []) (fields_of row).

Context `{VizSchema, ObjectSchema, JsonWriter, Digests, UuidFormat}.

(** The columns of the table: the last one of that name, or those of an object
    table. *)
Definition columns_of (table : string) : list column_schema :=
  foldl (λ cols t, if (tbl_name t =? table)%string then columns t else cols)
    OBJECT_TABLE_COLUMNS TABLES.

(** [QueryJsonify]. *)
Definition QueryJsonify (table : string) (map_output : bool) (raw_res : BufferT) (raw_mres : MapBufT)
  : option (list string) :=
  if (table =? EmptyString)%string then Some []
  else
    let cols := columns_of table in
    if map_output then
      fmap write <$> mapM (λ e : MapEntry, Jsonify table e.2.1 e.2.2) raw_mres
    else fmap write <$> mapM (λ r : ResultRowT, row_object cols r.1) raw_res.

(** The members a field adds to its object. *)
Definition members_of (cols : list column_schema) (f : string * string) : list (string * json) :=
  if is_count f.1 then replicate (length cols) (c_str f.1, JInt (stringToInteger f.2).1)
  else (λ c, (c_str f.1, if (f.2 =? EmptyString)%string then JNull
                         else typed_value (col_datatype c) f.2))
       <$> filter (λ c, col_name c = f.1) cols.

Lemma insert_columns name value acc cols :
  foldl (insert_column name value) acc cols =
  (acc.1 || negb (bool_decide (members_of cols (name, value) = [])),
   acc.2 ++ members_of cols (name, value)).
Proof.
  revert acc. induction cols as [|c cols IH]; intros [found dd]; simpl.
  { assert (members_of [] (name, value) = []) as -> by (unfold members_of; simpl; by destruct (is_count name)).
    simpl. by rewrite orb_false_r, app_nil_r. }
  rewrite IH. unfold members_of, insert_column. simpl. destruct (is_count name); simpl.
  { by rewrite orb_true_r, <- (assoc_L (++)). }
  rewrite filter_cons. destruct (String.eqb_spec (col_name c) name) as [->|Hne].
  - rewrite decide_True by done. simpl. rewrite orb_true_r.
    by destruct (value =? EmptyString)%string; simpl; rewrite <- (assoc_L (++)).
  - by rewrite decide_False.
Qed.

Lemma JsonInsert_members cols dd f :
  JsonInsert cols dd f = if bool_decide (members_of cols f = []) then None else Some (dd ++ members_of cols f).
Proof.
  unfold JsonInsert. rewrite insert_columns. destruct f as [name value]. simpl.
  by destruct (bool_decide _).
Qed.

Lemma row_object_members cols l dd :
  foldl (λ acc f, acc ≫= λ dd, JsonInsert cols dd f) (Some dd) l =
  if existsb (λ f, bool_decide (members_of cols f = [])) l then None
  else Some (dd ++ concat (members_of cols <$> l)).
Proof.
  revert dd. induction l as [|f l IH]; intros dd; simpl; [by rewrite app_nil_r|].
  rewrite JsonInsert_members. case_bool_decide; simpl.
  - clear. induction l; simpl; done.
  - rewrite IH. by destruct (existsb _ l); rewrite <- ?(assoc_L (++)).
Qed.
End jsonify.

(** The member of a field whose column is known. *)
Definition column_value `{StringToInteger, Strtod} (cols : list column_schema) (name value : string) : json :=
  if (value =? EmptyString)%string then JNull
  else match List.find (λ c, (col_name c =? name)%string) cols with
       | Some c => typed_value (col_datatype c) value
       | None => JNull
       end.

Section row_object.
Context `{StringToInteger, Strtod}.

Lemma filter_name_none cols name : name ∉ col_name <$> cols →
  filter (λ c : column_schema, col_name c = name) cols = [].
Proof.
  induction cols as [|c cols IH]; [done|]. csimpl. intros [Hn Hni]%not_elem_of_cons.
  rewrite filter_cons, decide_False by congruence. by apply IH.
Qed.

Lemma members_of_plain cols name value : NoDup (col_name <$> cols) → is_count name = false →
  name ∈ col_name <$> cols → members_of cols (name, value) = [(c_str name, column_value cols name value)].
Proof.
  intros Hnd Hc Hin. unfold members_of, column_value. simpl. rewrite Hc.
  induction cols as [|c cols IH]; [by apply not_elem_of_nil in Hin|]. csimpl in Hnd.
  apply NoDup_cons in Hnd as [Hn Hnd]. rewrite filter_cons. simpl.
  destruct (String.eqb_spec (col_name c) name) as [<-|Hne].
  - rewrite decide_True by done. by rewrite filter_name_none.
  - rewrite decide_False by done. apply IH; [done|]. set_solver.
Qed.

Lemma find_member_None (m : list (string * json)) k : k ∉ m.*1 → find_member m k = None.
Proof.
  intros Hk. unfold find_member. destruct (List.find _ m) as [[k' v]|] eqn:E; [|done].
  apply find_some in E as [Hin He]. simpl in He. apply String.eqb_eq in He as ->.
  destruct Hk. apply list_elem_of_fmap. exists (k, v). split; [done|]. by apply list_elem_of_In.
Qed.
Lemma find_member_Some (m : list (string * json)) k v : NoDup m.*1 → (k, v) ∈ m → find_member m k = Some v.
Proof.
  intros Hnd Hin. unfold find_member.
  destruct (List.find _ m) as [[k' v']|] eqn:E.
  - apply find_some in E as [Hin' He]. simpl in He. apply String.eqb_eq in He as ->. simpl. f_equal.
    apply list_elem_of_In in Hin'. revert Hnd Hin Hin'. clear.
    induction m as [|[a b] m IH]; [by intros ? ?%not_elem_of_nil|]. csimpl.
    rewrite NoDup_cons. intros [Hn Hnd] [[= <- <-]|H1]%elem_of_cons [[= E]|H2]%elem_of_cons; auto; subst; auto.
    + destruct Hn. apply list_elem_of_fmap. by exists (k, v').
    + destruct Hn. apply list_elem_of_fmap. by exists (a, v).
  - eapply find_none in E; [|by apply list_elem_of_In]. simpl in E. by rewrite String.eqb_refl in E.
Qed.

(** The JSON object of a row has exactly one member per field of the row:
    null for an empty value, otherwise the value converted as the type of the
    column asks for.  The table must have a column for every field, with names
    that are distinct, free of zero characters and do not start with COUNT. *)
Theorem row_object_members_once cols (row : gmap string string) :
  NoDup (col_name <$> cols) →
  (∀ f, is_Some (row !! f) → f ∈ col_name <$> cols ∧ is_count f = false ∧ c_str f = f) →
  ∃ m, row_object cols row = Some (JObject m) ∧ length m = base.size row ∧
    ∀ f, find_member m f = column_value cols f <$> row !! f.
Proof.
  intros Hnd Hrow. set (l := fields_of row).
  assert (Permutation (map_to_list row) l) as Hp by apply insertion_sort_perm.
  assert (∀ f, f ∈ l → members_of cols f = [(f.1, column_value cols f.1 f.2)]) as Hm.
  { intros [f v] Hin. rewrite <- Hp in Hin. apply elem_of_map_to_list in Hin.
    destruct (Hrow f) as (H1 & H2 & H3); [by eexists|]. rewrite members_of_plain by done. by rewrite H3. }
  set (m := (λ f : string * string, (f.1, column_value cols f.1 f.2)) <$> l).
  assert (concat (members_of cols <$> l) = m ∧
    existsb (λ f, bool_decide (members_of cols f = [])) l = false) as [Hc He].
  { unfold m. clear Hp m. induction l as [|f l IH]; [done|]. csimpl.
    rewrite Hm by set_solver. destruct IH as [-> ->]; [set_solver|]. done. }
  exists m. unfold row_object. fold l. rewrite row_object_members, He, Hc.
  split_and!; [done| |].
  - unfold m. rewrite length_fmap, <- Hp. apply length_map_to_list.
  - assert (m.*1 = l.*1) as Hk by (unfold m; rewrite <- list_fmap_compose; done).
    assert (NoDup m.*1) as Hndm.
    { rewrite Hk. rewrite <- (fmap_Permutation fst _ _ Hp). apply NoDup_fst_map_to_list. }
    intros f. destruct (row !! f) as [v|] eqn:Ef; simpl.
    + apply find_member_Some; [done|]. apply list_elem_of_fmap. exists (f, v). split; [done|].
      rewrite <- Hp. by apply elem_of_map_to_list.
    + apply find_member_None. rewrite Hk. intros ([f' v] & -> & Hin)%list_elem_of_fmap.
      rewrite <- Hp in Hin. apply elem_of_map_to_list in Hin. simpl in Ef. congruence.
Qed.
End row_object.

(** ** Batches *)

Definition kMaxRowThreshold : Z := 10000.
Definition ENOBUFS : Z := 105.
(** The cast of a [uint32_t] to [int]. *)
Definition s32 (z : Z) : Z := if z <? 2 ^ 31 then z else z - 2 ^ 32.

(** The inner loop: rows are taken while the batch is below the threshold. *)
Fixpoint take_batch (rows : list string) (rowsize : Z) : list string * list string :=
  match rows with
  | [] => ([], [])
  | r :: rows' =>
      if s32 rowsize <? kMaxRowThreshold then
        let '(batch, rest) := take_batch rows' (u32 (rowsize + size r)) in (r :: batch, rest)
      else ([], rows)
  end.

(** The status objects [sprintf] writes. *)
Definition stat_failed (errno : Z) : string := "{" +:+ quoted "progress" +:+ ":" +:+ pretty (- errno) +:+ "}".
Definition stat_lines (rownum : Z) : string :=
  "{" +:+ quoted "progress" +:+ ":90, " +:+ quoted "lines" +:+ ":" +:+ pretty (s32 rownum) +:+ "}".
Definition stat_done (rownum count : Z) : string :=
  "{" +:+ quoted "progress" +:+ ":100, " +:+ quoted "lines" +:+ ":" +:+ pretty (s32 rownum) +:+ ", " +:+
  quoted "count" +:+ ":" +:+ pretty (s32 (u32 count)) +:+ "}".

Definition result_key (qid : string) (rownum : Z) : string :=
  "RESULT:" +:+ qid +:+ ":" +:+ pretty rownum.
Definition reply_key (qid : string) : string := "REPLY:" +:+ qid.

(** The commands for one batch. *)
Definition batch_commands (qid : string) (rownum : Z) (batch : list string) : list (list string) :=
  [ "RPUSH" :: result_key qid rownum :: batch;
    ["EXPIRE"; result_key qid rownum; "300"];
    ["RPUSH"; reply_key qid; stat_lines rownum] ]%string.

(** The outer loop, with fuel for its iterations; the commands and the number
    of batches. *)
Fixpoint send_batches (fuel : nat) (qid : string) (rows : list string) (rownum : Z)
  : option (list (list string) * Z) :=
  match rows with
  | [] => Some ([], rownum)
  | _ =>
      match fuel with
      | O => None
      | S fuel =>
          let '(batch, rest) := take_batch rows 0 in
          '(cmds, n) ← send_batches fuel qid rest (u32 (rownum + 1));
          Some (batch_commands qid rownum batch ++ cmds, n)
      end
  end.

(** The first step of the first instance of [QueryResp]: the commands, the
    status last. *)
Definition QueryResp (qid : string) (merged : Stage0Merge) (jsonresult : list string)
  : option (list (list string)) :=
  let reply stat := ["RPUSH"; reply_key qid; stat]%string in
  match merged with
  | Overflow => Some [reply (stat_failed ENOBUFS)]
  | Failed | Merged false _ _ => Some [reply (stat_failed EIO)]
  | Merged true _ _ =>
      '(cmds, rownum) ← send_batches (S (length jsonresult)) qid jsonresult 0;
      Some (cmds ++ [reply (stat_done rownum (Z.of_nat (length jsonresult)))])
  end.

(** The bytes of a list of rows. *)
Definition bytes (rows : list string) : Z := sum_list (size <$> rows).

Lemma bytes_nonneg rows : 0 <= bytes rows.
Proof.
  unfold bytes, sum_list. induction rows as [|r rows IH]; csimpl; [lia|]. pose proof (size_nonneg r). lia.
Qed.
Lemma bytes_cons r rows : bytes (r :: rows) = size r + bytes rows.
Proof. done. Qed.

Abbreviation row_ok := (λ r : string, size r < 2 ^ 31 - kMaxRowThreshold).

Lemma take_batch_spec rows s batch rest : Forall row_ok rows → 0 <= s < 2 ^ 31 →
  take_batch rows s = (batch, rest) →
  rows = batch ++ rest ∧ (s < kMaxRowThreshold → rows ≠ [] → batch ≠ []) ∧
  (batch ≠ [] → s + bytes (removelast batch) < kMaxRowThreshold) ∧
  (rest ≠ [] → kMaxRowThreshold <= s + bytes batch).
Proof.
  unfold kMaxRowThreshold. intros Hok. revert s batch.
  induction rows as [|r rows IH]; intros s batch Hs; simpl.
  { by intros [= <- <-]. }
  apply Forall_cons in Hok as [Hr Hok]. unfold kMaxRowThreshold in *. unfold s32.
  destruct (Z.ltb_spec s (2 ^ 31)); [|lia]. destruct (Z.ltb_spec s 10000) as [Hlt|Hge].
  - destruct (take_batch rows (u32 (s + size r))) as [b rest'] eqn:E. intros [= <- <-].
    pose proof (size_nonneg r) as Hpos. rewrite u32_small in E by (unfold is_u32; lia).
    destruct (IH Hok (s + size r) b) as (-> & Hne & Hb & Hrest); [lia|done|].
    split_and!; [done|done|..].
    + intros _. destruct b as [|x b]; [simpl; unfold bytes; simpl; lia|].
      change (removelast (r :: x :: b)) with (r :: removelast (x :: b)). rewrite bytes_cons.
      specialize (Hb ltac:(done)). lia.
    + intros Hr'. rewrite bytes_cons. specialize (Hrest Hr'). lia.
  - intros [= <- <-]. split_and!; try done; unfold bytes; simpl; lia.
Qed.

Lemma send_batches_S fuel qid rows rownum : rows ≠ [] →
  send_batches (S fuel) qid rows rownum =
  (let '(batch, rest) := take_batch rows 0 in
   '(cmds, n) ← send_batches fuel qid rest (u32 (rownum + 1));
   Some (batch_commands qid rownum batch ++ cmds, n)).
Proof. by destruct rows. Qed.

Lemma send_batches_spec fuel qid rows rownum : Forall row_ok rows →
  0 <= rownum → rownum + Z.of_nat (length rows) < 2 ^ 31 → (length rows < fuel)%nat →
  ∃ batches, concat batches = rows ∧
    Forall (λ b, b ≠ [] ∧ bytes (removelast b) < kMaxRowThreshold) batches ∧
    kMaxRowThreshold * (Z.of_nat (length batches) - 1) <= bytes rows ∧
    send_batches fuel qid rows rownum =
      Some (concat (imap (λ i b, batch_commands qid (rownum + Z.of_nat i) b) batches),
            rownum + Z.of_nat (length batches)).
Proof.
  revert rows rownum. induction fuel as [|fuel IH]; intros rows rownum Hok Hn Hlen Hf; [lia|].
  destruct rows as [|r rows0].
  { exists []. split_and!; try done.
    simpl. by rewrite Z.add_0_r. }
  remember (r :: rows0) as rows eqn:Er. assert (rows ≠ []) as Hrn by (by subst). clear Er r rows0.
  rewrite send_batches_S by done.
  destruct (take_batch rows 0) as [b rest] eqn:E.
  destruct (take_batch_spec rows 0 b rest Hok ltac:(lia) E) as (Hrows & Hne & Hb & Hrest).
  specialize (Hne ltac:(done) Hrn). specialize (Hb Hne).
  rewrite Hrows in Hok. apply Forall_app in Hok as [_ Hok].
  assert (length rows = length b + length rest)%nat as Hl by (by rewrite Hrows, List.length_app).
  assert (length b ≠ 0%nat) as Hb0 by (by destruct b).
  destruct (IH rest (rownum + 1)) as (batches & Hc & HF & Hbytes & Hs); [done|lia|lia|lia|].
  exists (b :: batches). split_and!.
  - simpl. by rewrite Hc.
  - constructor; [|done]. split; [done|lia].
  - assert (bytes rows = bytes b + bytes rest) as ->
      by (rewrite Hrows; unfold bytes; by rewrite fmap_app, sum_list_app).
    cbn [length]. pose proof (bytes_nonneg b). destruct rest as [|x rest].
    + destruct batches as [|[|] batches]; [|by apply Forall_cons in HF as [[? _] _]|done].
      unfold bytes. simpl. unfold bytes in *. lia.
    + specialize (Hrest ltac:(done)). unfold kMaxRowThreshold in *. lia.
  - rewrite u32_small by (unfold is_u32; lia). rewrite Hs.
    rewrite (imap_ext _ ((λ i b, batch_commands qid (rownum + Z.of_nat i) b) ∘ S) batches)
      by (intros i x _; unfold compose; f_equal; lia).
    simpl. rewrite Z.add_0_r. do 2 f_equal. lia.
Qed.

Lemma result_key_inj qid m n : result_key qid m = result_key qid n → m = n.
Proof.
  unfold result_key. intros E. by apply (inj (String.append "RESULT:")), (inj (String.append qid)),
    (inj (String.append ":")), (inj pretty) in E.
Qed.

(** C25.  The rows of a successful query reach the client: they are pushed, in
    order and each once, to lists whose keys are the numbers below the count of
    lines the last status gives; a batch is never empty, exceeds the threshold
    by at most its last row, and only the last batch may be below it.  Failed
    queries and those with too many rows are answered with an error number and
    no rows.  (The rows must be shorter than 2 GB and fewer than 2^31.) *)
Theorem rows_reach_client qid r m rows :
  Forall row_ok rows → Z.of_nat (length rows) < 2 ^ 31 →
  (∃ batches,
    concat batches = rows ∧
    Forall (λ b, b ≠ [] ∧ bytes (removelast b) < kMaxRowThreshold) batches ∧
    kMaxRowThreshold * (Z.of_nat (length batches) - 1) <= bytes rows ∧
    NoDup (result_key qid <$> (Z.of_nat <$> seq 0 (length batches))) ∧
    QueryResp qid (Merged true r m) rows =
      Some (concat (imap (λ i b, batch_commands qid (Z.of_nat i) b) batches) ++
            [["RPUSH"; reply_key qid; stat_done (Z.of_nat (length batches)) (Z.of_nat (length rows))]])) ∧
  QueryResp qid Overflow rows = Some [["RPUSH"; reply_key qid; stat_failed ENOBUFS]] ∧
  QueryResp qid Failed rows = Some [["RPUSH"; reply_key qid; stat_failed EIO]]%string.
Proof.
  intros Hok Hlen. split; [|done].
  destruct (send_batches_spec (S (length rows)) qid rows 0) as (batches & Hc & HF & Hb & Hs);
    [done|lia|lia|lia|].
  exists batches. split_and!; [done..| |].
  - apply NoDup_fmap_2; [intros x y; apply result_key_inj|].
    apply NoDup_fmap_2; [intros x y; lia|]. apply NoDup_seq.
  - unfold QueryResp. rewrite Hs. done.
Qed.

(** ** Running pipelines *)

Definition kConnections : nat := 4.
Definition kMaxPipes : nat := 32.
Definition EMFILE : Z := 24.

(** [LeastLoadedConnection] on the counters of one Redis host; [None]: an index
    out of range. *)
Definition least_step (row : list Z) (acc : option (Z * nat)) (i : nat) : option (Z * nat) :=
  '(minvalue, minindex) ← acc;
  v ← row !! i;
  Some (if v <? minvalue then (v, i) else (minvalue, minindex)).
Definition LeastLoadedConnection (row : list Z) : option nat :=
  snd <$> foldl (least_step row) ((λ v, (v, 0%nat)) <$> row !! 0%nat) (seq 1 (kConnections - 1)).

(** A pipeline object: the query, its Redis host and its connection. *)
Record pipe := { p_qid : string; p_host : nat; p_conn : nat }.
(** [pipes_], [npipes_], and the pipeline objects that exist. *)
Record Server := { pipes_ : gmap string nat; npipes_ : list (list Z); live : gmap nat pipe }.

Inductive start_result := Refused (errno : Z) | Started (cnum : nat).

Definition add_load (host conn : nat) (d : Z) (n : list (list Z)) : list (list Z) :=
  alter (alter (λ v, v + d) conn) host n.

(** [StartPipeline] after the query has been read from Redis; [ret] is what
    [QueryPrepare] returned and [wp] the new pipeline object. *)
Definition StartPipeline (s : Server) (qid : string) (host : nat) (ret : Z) (wp : nat)
  : option (start_result * Server) :=
  if negb (ret =? 0) then Some (Refused ret, s)
  else if (kMaxPipes <=? base.size (pipes_ s))%nat then Some (Refused EMFILE, s)
  else
    row ← npipes_ s !! host;
    conn ← LeastLoadedConnection row;
    Some (Started (S conn), {|
      pipes_ := map_insert_new qid wp (pipes_ s);
      npipes_ := add_load host conn 1 (npipes_ s);
      live := <[wp := {| p_qid := qid; p_host := host; p_conn := conn |}]> (live s) |}).

(** [QEPipeCb] of a pipeline; [None]: its assertion fails. *)
Definition QEPipeCb (s : Server) (wp : nat) : option Server :=
  p ← live s !! wp;
  if bool_decide (pipes_ s !! p_qid p = Some wp) then
    Some {| pipes_ := delete (p_qid p) (pipes_ s);
            npipes_ := add_load (p_host p) (p_conn p) (-1) (npipes_ s);
            live := delete wp (live s) |}
  else None.

Definition server_init (hosts : nat) : Server := {|
  pipes_ := ∅; npipes_ := replicate hosts (replicate kConnections 0); live := ∅ |}.

(** Queries arrive and pipelines finish.  Query ids are unique: a running one
    is not started again. *)
Inductive server_step (hosts : nat) : Server → Server → Prop :=
  | server_start s s' qid host ret wp r :
      (host < hosts)%nat → pipes_ s !! qid = None → live s !! wp = None →
      StartPipeline s qid host ret wp = Some (r, s') → server_step hosts s s'
  | server_done s s' wp : QEPipeCb s wp = Some s' → server_step hosts s s'.

Definition load (s : Server) (h c : nat) : Z :=
  Z.of_nat (base.size (filter (λ kp, p_host kp.2 = h ∧ p_conn kp.2 = c) (live s))).

Record server_ok (hosts : nat) (s : Server) : Prop := {
  so_bound : (base.size (pipes_ s) <= kMaxPipes)%nat;
  so_size : base.size (pipes_ s) = base.size (live s);
  so_live wp p : live s !! wp = Some p →
    pipes_ s !! p_qid p = Some wp ∧ (p_host p < hosts)%nat ∧ (p_conn p < kConnections)%nat;
  so_pipes qid wp : pipes_ s !! qid = Some wp → ∃ p, live s !! wp = Some p ∧ p_qid p = qid;
  so_load h : (h < hosts)%nat → npipes_ s !! h = Some (load s h <$> seq 0 kConnections)
}.

(** The choice is the first of the least loaded connections. *)
Lemma least_spec row n : length row = S n →
  ∃ v i, foldl (least_step row) ((λ v, (v, 0%nat)) <$> row !! 0%nat) (seq 1 n) = Some (v, i) ∧
    row !! i = Some v ∧ (i <= n)%nat ∧ ∀ j w, row !! j = Some w → v <= w.
Proof.
  intros Hlen.
  assert (∀ k, (k <= n)%nat → ∃ v i,
    foldl (least_step row) ((λ v, (v, 0%nat)) <$> row !! 0%nat) (seq 1 k) = Some (v, i) ∧
    row !! i = Some v ∧ (i <= k)%nat ∧ ∀ j w, (j <= k)%nat → row !! j = Some w → v <= w) as Hk.
  { induction k as [|k IH]; intros Hk.
    - destruct (lookup_lt_is_Some_2 row 0) as [v Hv]; [lia|]. exists v, 0%nat. simpl. rewrite Hv.
      split_and!; try done. intros j w Hj Hw. assert (j = 0%nat) as -> by lia. simplify_eq. lia.
    - destruct IH as (v & i & Hf & Hi & Hik & Hmin); [lia|].
      rewrite seq_S, foldl_snoc, Hf. simpl.
      destruct (lookup_lt_is_Some_2 row (S k)) as [w Hw]; [lia|]. rewrite Hw. simpl.
      destruct (Z.ltb_spec w v).
      + exists w, (S k). split_and!; try done. intros j x Hj Hx.
        destruct (decide (j = S k)) as [->|]; [simplify_eq; lia|].
        transitivity v; [lia|]. apply (Hmin j); [lia|done].
      + exists v, i. split_and!; try done; [lia|]. intros j x Hj Hx.
        destruct (decide (j = S k)) as [->|]; [simplify_eq; lia|]. apply (Hmin j); [lia|done]. }
  destruct (Hk n) as (v & i & Hf & Hi & Hin & Hmin); [lia|]. exists v, i. split_and!; try done.
  intros j w Hj. apply (Hmin j); [|done]. apply lookup_lt_Some in Hj. lia.
Qed.

Lemma LeastLoadedConnection_spec row : length row = kConnections →
  ∃ i v, LeastLoadedConnection row = Some i ∧ row !! i = Some v ∧ (i < kConnections)%nat ∧
    ∀ j w, row !! j = Some w → v <= w.
Proof.
  intros Hlen. destruct (least_spec row (kConnections - 1) Hlen) as (v & i & Hf & Hi & Hin & Hmin).
  exists i, v. unfold LeastLoadedConnection. rewrite Hf. split_and!; try done.
  unfold kConnections in *. lia.
Qed.

Lemma add_load_lookup h c d n (f g : nat → nat → Z) hosts : (c < kConnections)%nat →
  (∀ h', (h' < hosts)%nat → n !! h' = Some (f h' <$> seq 0 kConnections)) →
  (∀ h' c', g h' c' = f h' c' + (if decide (h' = h ∧ c' = c) then d else 0)) →
  ∀ h', (h' < hosts)%nat → add_load h c d n !! h' = Some (g h' <$> seq 0 kConnections).
Proof.
  intros Hc Hn Hg h' Hh'. unfold add_load. specialize (Hn h' Hh').
  assert (∀ k, (k < kConnections)%nat → seq 0 kConnections !! k = Some k) as Hseq
    by (intros k Hk; by rewrite lookup_seq_lt).
  assert (∀ F : nat → Z, (∀ k, k ≠ c → F k = g h' k) → F c + (if decide (h' = h) then d else 0) = g h' c →
    (if decide (h' = h) then alter (λ v, v + d) c (F <$> seq 0 kConnections)
     else F <$> seq 0 kConnections) = g h' <$> seq 0 kConnections) as Hrow.
  { intros F Hne Heq. case_decide; apply list_eq; intros k.
    - destruct (decide (k = c)) as [->|Hk].
      + rewrite list_lookup_alter_eq, !list_lookup_fmap, Hseq by done. simpl. f_equal. lia.
      + rewrite list_lookup_alter_ne, !list_lookup_fmap by done.
        destruct (seq 0 kConnections !! k) as [j|] eqn:E; [|done]. simpl. f_equal.
        apply lookup_seq in E as [-> _]. simpl. by apply Hne.
    - rewrite !list_lookup_fmap. destruct (seq 0 kConnections !! k) as [j|] eqn:E; [|done].
      simpl. f_equal. apply lookup_seq in E as [-> _]. simpl.
      destruct (decide (k = c)) as [->|]; [lia|by apply Hne]. }
  rewrite <- (Hrow (f h')).
  - rewrite list_lookup_alter. destruct (decide (h = h')) as [->|].
    + rewrite Hn, decide_True by done. done.
    + by rewrite Hn, decide_False.
  - intros k Hk. rewrite Hg, decide_False by naive_solver. lia.
  - rewrite Hg. repeat case_decide; naive_solver lia.
Qed.

Lemma server_init_ok hosts : server_ok hosts (server_init hosts).
Proof.
  split; simpl.
  - rewrite map_size_empty. unfold kMaxPipes. lia.
  - done.
  - intros wp p Hp. by rewrite lookup_empty in Hp.
  - intros qid wp Hp. by rewrite lookup_empty in Hp.
  - intros h Hh. rewrite lookup_replicate_2 by done. done.
Qed.

Lemma load_insert s wp p : live s !! wp = None → ∀ pn nn h c,
  load {| pipes_ := pn; npipes_ := nn; live := <[wp := p]> (live s) |} h c =
  load s h c + (if decide (h = p_host p ∧ c = p_conn p) then 1 else 0).
Proof.
  intros Hwp pn nn h c. unfold load. simpl. case_decide as E.
  - rewrite map_filter_insert_True by naive_solver. rewrite map_size_insert_None; [lia|].
    apply map_lookup_filter_None. by left.
  - rewrite map_filter_insert_False by naive_solver. rewrite delete_id by done. lia.
Qed.
Lemma load_delete s wp p : live s !! wp = Some p → ∀ pn nn h c,
  load {| pipes_ := pn; npipes_ := nn; live := delete wp (live s) |} h c =
  load s h c + (if decide (h = p_host p ∧ c = p_conn p) then -1 else 0).
Proof.
  intros Hwp pn nn h c.
  pose proof (load_insert {| pipes_ := pn; npipes_ := nn; live := delete wp (live s) |} wp p
    (lookup_delete_eq _ _) pn nn h c) as E. simpl in E. rewrite insert_delete_id in E by done.
  unfold load in *. simpl in *. case_decide; lia.
Qed.

Lemma server_step_ok hosts s s' : server_ok hosts s → server_step hosts s s' → server_ok hosts s'.
Proof.
  intros [Hb Hz Hl Hp Hn] Hs. destruct Hs as [s s' qid host ret wp r Hh Hq Hw Hs|s s' wp Hs].
  - unfold StartPipeline in Hs. case_match; [by simplify_eq|].
    destruct (Nat.leb_spec kMaxPipes (base.size (pipes_ s))) as [|Hlt]; [by simplify_eq|].
    rewrite Hn in Hs by done. cbn [mbind option_bind] in Hs.
    destruct (LeastLoadedConnection_spec (load s host <$> seq 0 kConnections))
      as (i & v & Hi & _ & Hik & _); [by rewrite length_fmap, length_seq|].
    rewrite Hi in Hs. cbn [mbind option_bind] in Hs. injection Hs as <- <-.
    unfold map_insert_new. rewrite Hq. split; simpl.
    + rewrite map_size_insert_None by done. lia.
    + by rewrite !map_size_insert_None, Hz by done.
    + intros wp' p [[<- <-]|[Hne Hp']]%lookup_insert_Some; simpl; [by rewrite lookup_insert_eq|].
      destruct (Hl wp' p Hp') as (E & ?). split; [|done]. rewrite lookup_insert_ne; [done|]. congruence.
    + intros qid' wp' [[<- <-]|[Hne Hp']]%lookup_insert_Some.
      { eexists. by rewrite lookup_insert_eq. }
      destruct (Hp qid' wp' Hp') as (p & Hp'' & <-). exists p. split; [|done].
      rewrite lookup_insert_ne; [done|]. congruence.
    + intros h Hh'. eapply add_load_lookup; [done|exact Hn| |done]. intros h' c'.
      by rewrite load_insert.
  - unfold QEPipeCb in Hs. destruct (live s !! wp) as [p|] eqn:Ew; [|done]. simpl in Hs.
    case_bool_decide as Eq; [|done]. injection Hs as <-. destruct (Hl wp p Ew) as (_ & Hph & Hpc).
    split; simpl.
    + rewrite map_size_delete, Eq. lia.
    + rewrite !map_size_delete, Ew, Eq. lia.
    + intros wp' p' [Hne Hp']%lookup_delete_Some. destruct (Hl wp' p' Hp') as (E & ?).
      split; [|done]. rewrite lookup_delete_ne; [done|]. congruence.
    + intros qid wp' [Hne Hp']%lookup_delete_Some. destruct (Hp qid wp' Hp') as (p' & Hp'' & <-).
      exists p'. split; [|done]. rewrite lookup_delete_ne; [done|]. congruence.
    + intros h Hh'. eapply add_load_lookup; [done|exact Hn| |done]. intros h' c'.
      by rewrite (load_delete s wp p).
Qed.

(** C24.  Whatever queries arrive and finish, with unique ids: at most 32
    pipelines run, the counter of every connection is the number of pipelines
    that run on it, [StartPipeline] answers, and a query it starts gets a
    connection no other of its host is less loaded than; the assertion of the
    completion callback holds for every running pipeline. *)
Theorem server_invariant hosts s :
  rtc (server_step hosts) (server_init hosts) s →
  (base.size (pipes_ s) <= kMaxPipes)%nat ∧ base.size (pipes_ s) = base.size (live s) ∧
  (∀ h, (h < hosts)%nat → npipes_ s !! h = Some (load s h <$> seq 0 kConnections)) ∧
  (∀ qid h ret wp, (h < hosts)%nat → ∃ r s', StartPipeline s qid h ret wp = Some (r, s') ∧
     (∀ cnum, r = Started cnum → (1 <= cnum <= kConnections)%nat ∧
        ∀ c, (c < kConnections)%nat → load s h (cnum - 1) <= load s h c)) ∧
  (∀ wp p, live s !! wp = Some p → is_Some (QEPipeCb s wp)).
Proof.
  intros Hr. assert (server_ok hosts s) as [Hb Hz Hl Hp Hn].
  { pose proof (server_init_ok hosts) as Hi. revert Hi. induction Hr as [|x y z Hs _ IH]; [done|].
    intros Hx. apply IH. by eapply server_step_ok. }
  split_and!; [done|done|done| |].
  - intros qid h ret wp Hh. unfold StartPipeline. case_match; [by eexists _, _|].
    case_match; [by eexists _, _|]. rewrite Hn by done. cbn [mbind option_bind].
    destruct (LeastLoadedConnection_spec (load s h <$> seq 0 kConnections))
      as (i & v & -> & Hv & Hik & Hmin); [by rewrite length_fmap, length_seq|]. simpl.
    eexists _, _. split; [done|]. intros cnum [= <-]. split; [lia|]. intros c Hc.
    assert (∀ k, (k < kConnections)%nat → (load s h <$> seq 0 kConnections) !! k = Some (load s h k)) as Hk
      by (intros k Hk; by rewrite list_lookup_fmap, lookup_seq_lt).
    rewrite Hk in Hv by done. injection Hv as <-. rewrite Nat.sub_succ, Nat.sub_0_r.
    by apply (Hmin c), Hk.
  - intros wp p Hw. unfold QEPipeCb. rewrite Hw. simpl. destruct (Hl wp p Hw) as (E & _).
    rewrite bool_decide_eq_true_2 by done. by eexists.
Qed.

(** ** Examples *)

Module ResponseExamples.
#[local] Existing Instance ConcreteStringToInteger.instance.
#[local] Instance strtod_zero : Strtod := {| strtod _ := S754_zero false |}.

Definition cols : list column_schema := [
  {| col_name := "Source"; col_datatype := "string"; col_index := true |};
  {| col_name := "Level"; col_datatype := "int"; col_index := false |};
  {| col_name := "Xmlmessage"; col_datatype := "string"; col_index := false |}]%string.
Definition row : gmap string string :=
  {[ "Source"%string := "a6s10"%string; "Level"%string := "7"%string; "Xmlmessage"%string := EmptyString ]}.

Lemma row_object_members_once_witness :
  ∃ m, row_object cols row = Some (JObject m) ∧ length m = base.size row ∧
    ∀ f, find_member m f = column_value cols f <$> row !! f.
Proof.
  apply (row_object_members_once cols row); [by apply (bool_decide_unpack _); vm_compute|].
  intros f [v Hf]. unfold row in Hf. rewrite !lookup_insert_Some in Hf.
  destruct Hf as [[<- _]|[_ [[<- _]|[_ [<- _]%lookup_singleton_Some]]]];
    split_and!; try done; by apply (bool_decide_unpack _); vm_compute.
Defined.

Example row_object_example :
  row_object cols row =
  Some (JObject [("Level", JInt 7); ("Source", JString "a6s10"); ("Xmlmessage", JNull)])%string.
Proof. vm_compute. reflexivity. Qed.

(** Three rows of 6000 characters make two batches. *)
Definition long_row : string := String.concat EmptyString (replicate 1000 "abcdef"%string).

Lemma rows_reach_client_witness :
  (∃ batches,
    concat batches = [long_row; long_row; long_row] ∧
    Forall (λ b, b ≠ [] ∧ bytes (removelast b) < kMaxRowThreshold) batches ∧
    kMaxRowThreshold * (Z.of_nat (length batches) - 1) <= bytes [long_row; long_row; long_row] ∧
    NoDup (result_key "q" <$> (Z.of_nat <$> seq 0 (length batches))) ∧
    QueryResp "q" (Merged true [] []) [long_row; long_row; long_row] =
      Some (concat (imap (λ i b, batch_commands "q" (Z.of_nat i) b) batches) ++
            [["RPUSH"; reply_key "q"; stat_done (Z.of_nat (length batches)) (Z.of_nat 3)]])) ∧
  QueryResp "q" Overflow [long_row; long_row; long_row] = Some [["RPUSH"; reply_key "q"; stat_failed ENOBUFS]] ∧
  QueryResp "q" Failed [long_row; long_row; long_row] = Some [["RPUSH"; reply_key "q"; stat_failed EIO]]%string.
Proof.
  apply (rows_reach_client "q" [] [] [long_row; long_row; long_row]); [|by vm_compute].
  repeat constructor; by vm_compute.
Defined.

(** Two queries arrive at one host and the first one finishes. *)
Definition server_example : Server :=
  default (server_init 1)
    ('(_, s) ← StartPipeline (server_init 1) "q1" 0 0 7;
     '(_, s) ← StartPipeline s "q2" 0 0 8;
     QEPipeCb s 7).
Lemma server_invariant_witness :
  (base.size (pipes_ server_example) <= kMaxPipes)%nat ∧
  base.size (pipes_ server_example) = base.size (live server_example) ∧
  (∀ h, (h < 1)%nat → npipes_ server_example !! h = Some (load server_example h <$> seq 0 kConnections)) ∧
  (∀ qid h ret wp, (h < 1)%nat → ∃ r s', StartPipeline server_example qid h ret wp = Some (r, s') ∧
     (∀ cnum, r = Started cnum → (1 <= cnum <= kConnections)%nat ∧
        ∀ c, (c < kConnections)%nat → load server_example h (cnum - 1) <= load server_example h c)) ∧
  (∀ wp p, live server_example !! wp = Some p → is_Some (QEPipeCb server_example wp)).
Proof.
  apply (server_invariant 1).
  eapply rtc_l; [eapply (server_start _ _ _ "q1" 0 0 7); [lia|done|done|by vm_compute]|].
  eapply rtc_l; [eapply (server_start _ _ _ "q2" 0 0 8); [lia|by vm_compute..]|].
  eapply rtc_l; [eapply (server_done _ _ _ 7); by vm_compute|].
  apply rtc_refl.
Defined.
Example server_example_loads : npipes_ server_example = [[0; 1; 0; 0]].
Proof. by vm_compute. Qed.
End ResponseExamples.
