(* ===== verification/SelectQuery.v ===== *)
(** * The SELECT clause: [SelectQuery]

    [contrail-query-engine/select.cc].  The constructor reads the list of
    fields, checks them against the table and decides whether the sessions of a
    row have to be unrolled; [process_query] turns the units the WHERE clause
    found into rows: sessions and flows and the samples of StatTables become
    lists of entries for [StatsSelect::LoadRow], messages and object logs
    become rows of strings, and an object query lists the objects. *)
From Stdlib Require Import Ascii.
From stdpp Require Import base tactics list strings pretty gmap sets.
From Stdlib Require Import ZArith Lia Sorted Permutation SpecFloat.
From S2P Require Import Prelude.
From S2P Require Import CppString.
From S2P Require Import VizConstants.
From S2P Require Import QueryTypes.
From S2P Require Import Json.
From S2P Require Import AnalyticsQuery.
From S2P Require Import StatsQuery.
From S2P Require Import DbQuery.
From S2P Require Import PostProcessing.
From S2P Require Import StatsSelect.
Import Tables.
Local Open Scope Z_scope.

(** ** The constructor *)

Inductive agg_op_t := RAW | AGG_SUM.
Inductive stat_type_t := PKT_STATS | BYTE_STATS.
#[export] Instance agg_op_eq_dec : EqDecision agg_op_t.
Proof. solve_decision. Defined.

(** The bits of [fs_query_type]. *)
Definition FS_SELECT_INVALID : Z := 0.
Definition FS_SELECT_T : Z := 1.
Definition FS_SELECT_TS : Z := 2.
Definition FS_SELECT_FLOW_TUPLE : Z := 4.
Definition FS_SELECT_STATS : Z := 8.

Record SelectQuery := {
  select_column_fields : list string;
  agg_stats : list (agg_op_t * stat_type_t);
  provide_timeseries : bool;
  granularity : Z;
  unroll_needed : bool;
  fs_query_type_ : Z;
  stats_ : option StatsSelect
}.

(** [session_json_fields]: the fields that are read from the session map. *)
Definition session_json_fields : list string := [
  "remote_ip"; "client_port"; "other_vrouter_ip"; "underlay_proto"; "forward_flow_uuid";
  "forward_setup_time"; "forward_teardown_time"; "forward_action"; "forward_sg_rule_uuid";
  "forward_nw_ave_uuid"; "forward_underlay_source_port"; "forward_drop_reason";
  "forward_teardown_bytes"; "forward_teardown_pkts"; "reverse_flow_uuid"; "reverse_setup_time";
  "reverse_teardown_time"; "reverse_action"; "reverse_sg_rule_uuid"; "reverse_nw_ave_uuid";
  "reverse_underlay_source_port"; "reverse_drop_reason"; "reverse_teardown_bytes";
  "reverse_teardown_pkts"; "sourceip"; "destip"; "dport"; "sport"; "UuidKey"; "setup_time";
  "teardown_time"; "agg-bytes"; "agg-pkts"; "action"; "sg_rule_uuid"; "nw_ace_uuid";
  "underlay_source_port"; "drop_reason"]%string.
Definition is_session_json_field (f : string) : bool := bool_decide (f ∈ session_json_fields).

(** What the loops over the fields accumulate. *)
Record sel_state := {
  fields : list string; aggs : list (agg_op_t * stat_type_t);
  timeseries : bool; gran : Z; unroll : bool;
  uuid_sel : bool; reverse_uuid_sel : bool; class_sel : bool; count_sel : bool
}.
Definition sel_init : sel_state := {|
  fields := []; aggs := []; timeseries := false; gran := 0; unroll := false;
  uuid_sel := false; reverse_uuid_sel := false; class_sel := false; count_sel := false |}.
Definition push (f : string) (s : sel_state) : sel_state := {|
  fields := fields s ++ [f]; aggs := aggs s; timeseries := timeseries s; gran := gran s;
  unroll := unroll s; uuid_sel := uuid_sel s; reverse_uuid_sel := reverse_uuid_sel s;
  class_sel := class_sel s; count_sel := count_sel s |}.
Definition add_agg (a : agg_op_t * stat_type_t) (s : sel_state) : sel_state := {|
  fields := fields s; aggs := aggs s ++ [a]; timeseries := timeseries s; gran := gran s;
  unroll := unroll s; uuid_sel := uuid_sel s; reverse_uuid_sel := reverse_uuid_sel s;
  class_sel := class_sel s; count_sel := count_sel s |}.
Definition set_timeseries (g : Z) (s : sel_state) : sel_state := {|
  fields := fields s; aggs := aggs s; timeseries := true; gran := g;
  unroll := unroll s; uuid_sel := uuid_sel s; reverse_uuid_sel := reverse_uuid_sel s;
  class_sel := class_sel s; count_sel := count_sel s |}.
Definition or_unroll (b : bool) (s : sel_state) : sel_state := {|
  fields := fields s; aggs := aggs s; timeseries := timeseries s; gran := gran s;
  unroll := unroll s || b; uuid_sel := uuid_sel s; reverse_uuid_sel := reverse_uuid_sel s;
  class_sel := class_sel s; count_sel := count_sel s |}.
Definition select_flags (u r c n : bool) (s : sel_state) : sel_state := {|
  fields := fields s; aggs := aggs s; timeseries := timeseries s; gran := gran s; unroll := unroll s;
  uuid_sel := uuid_sel s || u; reverse_uuid_sel := reverse_uuid_sel s || r;
  class_sel := class_sel s || c; count_sel := count_sel s || n |}.

Section ctor.
Context `{JsonParser, VizSchema}.
Context (table : string).

(** [is_valid_select_field]. *)
Definition is_valid_select_field (select_field : string) : bool :=
  match find_table table with
  | Some t => existsb (λ c, (col_name c =? select_field)%string) (columns t)
  | None => true
  end.

Definition is_teardown_field (field : string) : bool :=
  (field =? SESSION_FWD_TEARDOWN_BYTES)%string || (field =? SESSION_FWD_TEARDOWN_PKTS)%string ||
  (field =? SESSION_REV_TEARDOWN_BYTES)%string || (field =? SESSION_REV_TEARDOWN_PKTS)%string.

(** The field as it is selected in StatTables and sessions. *)
Definition stat_push (field : string) (s : sel_state) : outcome sel_state :=
  let series := QE_INVALIDARG_ERROR (table =? SESSION_SERIES_TABLE)%string in
  if (field =? "session_class_id")%string then series;; Done (select_flags false false true false s)
  else if (field =? "sample_count")%string then series;; Done (select_flags false false false true s)
  else
    let s := select_flags (field =? FORWARD_FLOW_UUID)%string (field =? REVERSE_FLOW_UUID)%string
               false false s in
    Done (push (if is_teardown_field field then "SUM(" +:+ field +:+ ")" else field) s).

(** The first loop: StatTables and sessions. *)
Definition stat_field (s : sel_state) (v : json) : outcome sel_state :=
  field ← GetString v;
  s ← stat_push field s;
  (if is_session_query table then
     if (field =? STAT_TIME_FIELD)%string || starts_with field STAT_TIMEBIN_FIELD
     then QE_INVALIDARG_ERROR (table =? SESSION_SERIES_TABLE)%string
     else QE_INVALIDARG_ERROR (is_valid_select_field field)
   else Done ());;
  Done (or_unroll (is_session_json_field field) s).

(** CLASS and COUNT are taken over the first selected field. *)
Definition add_over_first (op : string) (wanted : bool) (s : sel_state) : outcome sel_state :=
  if wanted then
    QE_INVALIDARG_ERROR (negb (bool_decide (fields s = [])));;
    f ← stop_unless (fields s !! 0%nat);
    Done (push (op +:+ "(" +:+ f +:+ ")") s)
  else Done s.

Definition record_keys (s : sel_state) : sel_state :=
  if (table =? SESSION_RECORD_TABLE)%string then
    let s := if uuid_sel s then s else push FORWARD_FLOW_UUID s in
    let s := if reverse_uuid_sel s then s else push REVERSE_FLOW_UUID s in
    or_unroll true s
  else s.

(** The second loop: flows, messages and object logs. *)
Definition T_prefix : string := "T=".
Definition plain_field (direction : Z) (s : sel_state) (v : json) : outcome sel_state :=
  QE_PARSE_ERROR (IsString v);;
  field ← GetString v;
  let flow := QE_INVALIDARG_ERROR (is_flow_query table) in
  let series := QE_INVALIDARG_ERROR (table =? FLOW_SERIES_TABLE)%string in
  if (field =? "T")%string then
    QE_INVALIDARG_ERROR (is_flow_query table || is_stat_table_query table);;
    Done (push "T" (set_timeseries (gran s) s))
  else if starts_with field T_prefix then
    QE_INVALIDARG_ERROR ((table =? FLOW_SERIES_TABLE)%string || is_stat_table_query table);;
    Done (push field (set_timeseries
      (u32 (atoi (String.substring 2 (String.length field - 2) field) * 1000000)) s))
  else if (field =? "packets")%string then flow;; Done (push field (add_agg (RAW, PKT_STATS) s))
  else if (field =? "bytes")%string then flow;; Done (push field (add_agg (RAW, BYTE_STATS) s))
  else if (field =? "SUM(packets)")%string then series;; Done (push field (add_agg (AGG_SUM, PKT_STATS) s))
  else if (field =? "SUM(bytes)")%string then series;; Done (push field (add_agg (AGG_SUM, BYTE_STATS) s))
  else if (field =? "flow_class_id")%string then series;; Done (select_flags false false true false s)
  else if (field =? "flow_count")%string then Status EINVAL
  else
    QE_INVALIDARG_ERROR (is_valid_select_field field);;
    let s := push (if (field =? FLOW_TABLE_AGG_PKTS)%string || (field =? FLOW_TABLE_AGG_BYTES)%string
                   then "SUM(" +:+ field +:+ ")" else get_column_name field) s in
    let s := select_flags (field =? UUID_KEY)%string false false false s in
    let stored := ((direction =? 1) && (field =? "sourceip")%string) ||
                  ((direction =? 0) && (field =? "destip")%string) in
    Done (or_unroll (negb stored && is_session_json_field field) s).

(** [is_flow_tuple_specified]; the table of names [get_query_string] searches
    is empty. *)
Definition is_flow_tuple_specified (s : sel_state) : bool :=
  existsb (λ f, bool_decide (f ∈ flow_tuple_names)) (fields s).

(** The loop of [evaluate_fs_query_type] over the aggregates. *)
Fixpoint fs_stats_loop (l : list (agg_op_t * stat_type_t)) (t : Z) (stats_op : option agg_op_t) : Z :=
  match l with
  | [] => t
  | (RAW, _) :: l' =>
      if negb (Z.land t FS_SELECT_TS =? 0) || bool_decide (stats_op = Some AGG_SUM)
      then FS_SELECT_INVALID
      else fs_stats_loop l' (Z.lor t FS_SELECT_T) (Some RAW)
  | (AGG_SUM, _) :: l' =>
      if negb (Z.land t FS_SELECT_T =? 0) || bool_decide (stats_op = Some RAW)
      then FS_SELECT_INVALID
      else fs_stats_loop l' t (Some AGG_SUM)
  end.

(** [evaluate_fs_query_type]. *)
Definition evaluate_fs_query_type (s : sel_state) : Z :=
  let t := if timeseries s then if negb (gran s =? 0) then FS_SELECT_TS else FS_SELECT_T
           else FS_SELECT_INVALID in
  let t := if is_flow_tuple_specified s then Z.lor t FS_SELECT_FLOW_TUPLE else t in
  match aggs s with
  | [] => t
  | _ => fs_stats_loop (aggs s) (Z.lor t FS_SELECT_STATS) None
  end.

Definition make_query (s : sel_state) (fs : Z) (stats : option StatsSelect) : SelectQuery := {|
  select_column_fields := fields s; agg_stats := aggs s; provide_timeseries := timeseries s;
  granularity := gran s; unroll_needed := unroll s; fs_query_type_ := fs; stats_ := stats |}.

Definition new_stats (l : list string) : outcome StatsSelect :=
  st ← StatsSelect_ctor l;
  QE_INVALIDARG_ERROR (status_ st);;
  Done st.

(** The columns of a StatTable or session query, and of the other queries with
    the type of a flow series query. *)
Definition stat_columns (l : list json) : outcome sel_state :=
  s ← fold_outcome stat_field sel_init l;
  s ← add_over_first "CLASS" (class_sel s) s;
  s ← add_over_first "COUNT" (count_sel s) s;
  Done (record_keys s).

Definition plain_columns (direction : Z) (l : list json) : outcome (Z * sel_state) :=
  s ← fold_outcome (plain_field direction) sel_init l;
  let fs := if (table =? FLOW_SERIES_TABLE)%string then evaluate_fs_query_type s else FS_SELECT_INVALID in
  QE_INVALIDARG_ERROR (negb (table =? FLOW_SERIES_TABLE)%string || negb (fs =? FS_SELECT_INVALID));;
  s ← (if class_sel s then f ← stop_unless (fields s !! 0%nat); Done (push ("CLASS(" +:+ f +:+ ")") s)
       else Done s);
  Done (fs, if (table =? FLOW_TABLE)%string && negb (uuid_sel s) then or_unroll true (push UUID_KEY s) else s).

(** The end of the constructor for each of the loops. *)
Definition stat_select (l : list json) : outcome SelectQuery :=
  s ← stat_columns l;
  st ← new_stats (fields s);
  Done (make_query s FS_SELECT_INVALID (Some st)).

(** Flow queries also load the columns their filters need. *)
Definition add_columns (l : list string) (s : sel_state) : sel_state := {|
  fields := fields s ++ l; aggs := aggs s; timeseries := timeseries s; gran := gran s;
  unroll := unroll s; uuid_sel := uuid_sel s; reverse_uuid_sel := reverse_uuid_sel s;
  class_sel := class_sel s; count_sel := count_sel s |}.
Definition flow_select (additional_select_ : list string) (fs : Z) (s : sel_state) : outcome SelectQuery :=
  if is_flow_query table then
    let s := add_columns additional_select_ s in
    st ← new_stats (fields s); Done (make_query s fs (Some st))
  else Done (make_query s fs None).

Definition plain_select (direction : Z) (additional_select_ : list string) (l : list json)
  : outcome SelectQuery :=
  '(fs, s) ← plain_columns direction l;
  flow_select additional_select_ fs s.

(** [SelectQuery::SelectQuery]. *)
Definition SelectQuery_ctor (additional_select_ : list string) (json_api_data : gmap string string)
  : outcome SelectQuery :=
  match json_api_data !! "select_fields"%string with
  | None => Status EBADMSG
  | Some text =>
      json_select_fields ← member (Parse (wrap "select" text)) "select";
      QE_PARSE_ERROR (IsArray json_select_fields);;
      l ← elements json_select_fields;
      let direction := match json_api_data !! "dir"%string with
                       | Some t => istream_int t | None => 1 end in
      if is_stat_table_query table || is_session_query table then stat_select l
      else plain_select direction additional_select_ l
  end.
End ctor.

(** ** Entries of a session row *)

(** The textual forms of the libraries: [to_string] of an address, and
    [regex_replace] with the pattern for the decimal prefix that index columns
    have before their value. *)
Class TextForms := {
  address_to_string : bool → Z → string;
  strip_t2 : string → string;
  strip_t2_prefixed n v : 0 <= n → has_char "010"%char v = false → has_char "013"%char v = false →
    strip_t2 (pretty n +:+ ":" +:+ v) = v
}.

Section rows.
Context `{TextForms, UuidFormat}.

Definition entry (name : string) (v : SubVal) : StatEntry := {| se_name := name; se_value := v |}.

(** [SessionTableAttributeConverter]; [None]: an assertion fails. *)
Definition convert_attribute (v : DbDataValue) (field : nat) : option (list StatEntry) :=
  let named (x : SubVal) := (λ n, [entry n x]) <$> session_query_columns !! field in
  match v with
  | DbBlank | DbBlob _ => None
  | DbString s =>
      if (s =? EmptyString)%string then Some []
      else named (SvString (if session_column_indexed field then strip_t2 s else s))
  | DbUuid u => named (SvString (uuid_to_string u))
  | DbU64 n | DbU32 n | DbU16 n | DbU8 n => named (SvU64 n)
  | DbDouble d => named (SvDouble d)
  | DbIpAddress v6 a => named (SvString (address_to_string v6 a))
  end.

(** The loop over the columns when the sessions are not unrolled; [idx] counts
    from 2.  The UUID of the row, and the entries. *)
Fixpoint session_loop (info : list DbDataValue) (idx : nat) (u : option Z) (attribs : list StatEntry)
  : option (option Z * list StatEntry) :=
  match info with
  | [] => Some (u, attribs)
  | v :: info' =>
      if (idx =? SESSION_T1)%nat then session_loop info' (S idx) u attribs
      else if (idx =? SESSION_UUID)%nat then
        match v with DbUuid u => session_loop info' (S idx) (Some u) attribs | _ => None end
      else
        field ← SessionCassTableColumns !! idx;
        es ← convert_attribute v field;
        session_loop info' (S idx) u (attribs ++ es)
  end.

(** The loop when they are: the sampled and logged counters are skipped, and
    the last column is left for the session map.  [skip] is the number of
    columns to pass over. *)
Fixpoint unroll_loop (info : list DbDataValue) (idx : nat) (skip : nat) (u : option Z)
    (attribs : list StatEntry) : option (option Z * list StatEntry * DbDataValue) :=
  match info with
  | [] => None
  | [last] => if (skip =? 0)%nat then Some (u, attribs, last) else None
  | v :: info' =>
      match skip with
      | S skip => unroll_loop info' idx skip u attribs
      | O =>
          field ← SessionCassTableColumns !! idx;
          if (field =? SESSION_T1)%nat then unroll_loop info' (S idx) 0 u attribs
          else if (field =? SESSION_SAMPLED_FORWARD_BYTES)%nat then
            unroll_loop info' (idx + NUM_SESSION_STATS_FIELDS) (NUM_SESSION_STATS_FIELDS - 1) u attribs
          else if (field =? SESSION_UUID)%nat then
            match v with DbUuid u => unroll_loop info' (S idx) 0 (Some u) attribs | _ => None end
          else
            es ← convert_attribute v field;
            unroll_loop info' (S idx) 0 u (attribs ++ es)
      end
  end.

(** [populate_attribs_from_json_member] and [parse_json]; a member is an
    unsigned integer, a floating point number or a string. *)
Definition json_entry (prefix : string) (m : string * json) : option StatEntry :=
  match m.2 with
  | JString s => Some (entry (prefix +:+ m.1) (SvString s))
  | JInt n => if (0 <=? n) && (n <? 2 ^ 64) then Some (entry (prefix +:+ m.1) (SvU64 n)) else None
  | JDouble d => Some (entry (prefix +:+ m.1) (SvDouble d))
  | _ => None
  end.
Definition parse_member (m : string * json) : option (list StatEntry) :=
  match m.2 with
  | JObject l =>
      mapM (json_entry (if (m.1 =? "forward_flow_info")%string then "forward_" else "reverse_")) l
  | _ => (λ e, [e]) <$> json_entry EmptyString m
  end.
Definition parse_json (v : json) : option (list StatEntry) :=
  match v with JObject l => @concat StatEntry <$> mapM parse_member l | _ => None end.

(** [map_session_to_flow]. *)
Definition session2flow_index (is_client_session direction : Z) : nat :=
  if negb (direction =? 0) then if negb (is_client_session =? 0) then 0 else 2
  else if negb (is_client_session =? 0) then 1 else 3.
Definition rename (m : gmap string string) (e : StatEntry) : StatEntry :=
  match m !! se_name e with Some n => entry n (se_value e) | None => e end.
Definition map_session_to_flow (attribs : list StatEntry) (is_client_session direction : Z)
  : list StatEntry :=
  rename (default ∅ (session2flow_maps !! session2flow_index is_client_session direction)) <$> attribs.

Context `{StringToInteger}.

(** The port and the address a session is stored under. *)
Definition ip_port_entries (ip_port : string) : option (list StatEntry) :=
  let delim_idx := find ip_port ":"%char 0 in
  port ← substr ip_port 0 delim_idx;
  ip ← substr ip_port (u64 (delim_idx + 1)) npos;
  Some [entry "client_port" (SvU64 (stringToInteger port).1); entry "remote_ip" (SvString ip)].

(** The renaming of a flow query. *)
Definition flow_entries (flow : bool) (session_type direction_ing : Z) (attribs : list StatEntry)
  : list StatEntry :=
  if flow then
    map_session_to_flow (attribs ++ [entry "direction_ing" (SvU64 (u64 direction_ing))])
      session_type (u8 direction_ing)
  else attribs.

Context `{JsonParser, Digests, SubValOrder, StatHash}.
Context (stats : StatsSelect) (flow : bool) (direction_ing : Z).

Definition session_type_of (r : query_result_unit_t) : option Z :=
  match info r !! 1%nat with Some (DbU8 n) => Some n | _ => None end.

Definition load (u : option Z) (ts : Z) (attribs : list StatEntry) (out : MapBufT) : option MapBufT :=
  u ← u; snd <$> LoadRow stats u ts attribs out.

(** One row without and with unrolling. *)
Definition session_row (r : query_result_unit_t) (out : MapBufT) : option MapBufT :=
  session_type ← session_type_of r;
  '(u, attribs) ← session_loop (info r) 2 None [];
  load u (timestamp r) (flow_entries flow session_type direction_ing attribs) out.

Definition unrolled_entries (session_type : Z) (temp : list StatEntry) (m : string * json)
  : option (list StatEntry) :=
  ip ← ip_port_entries m.1;
  js ← parse_json m.2;
  Some (flow_entries flow session_type direction_ing (ip ++ js ++ temp)).

Definition unrolled_row (r : query_result_unit_t) (out : MapBufT) : option MapBufT :=
  session_type ← session_type_of r;
  '(u, temp, last) ← unroll_loop (info r) 2 0 None [];
  match last with
  | DbString session_map =>
      match Document_Parse session_map with
      | None => Some out
      | Some (JObject members) =>
          foldl (λ acc m, out ← acc; attribs ← unrolled_entries session_type temp m;
                          load u (timestamp r) attribs out) (Some out) members
      | Some _ => None
      end
  | _ => None
  end.
End rows.

(** ** Samples of a StatTable *)

Definition last_char (s : string) : option ascii := String.get (String.length s - 1) s.
Definition json_string (v : json) : option string := match v with JString s => Some s | _ => None end.
Definition string_member (m : string * json) : option (string * string) :=
  pair m.1 <$> json_string m.2.

(** The text of a map attribute. *)
Definition map_text (l : list (string * string)) : string :=
  "{" +:+ String.concat ", " ((λ p, quoted p.1 +:+ ":" +:+ quoted p.2) <$> l) +:+ "}".

(** One attribute of a sample: the character at the end of its name tells its
    type.  [None]: an assertion fails. *)
Definition stat_member (m : string * json) : option (list StatEntry) :=
  tname ← last_char m.1;
  name ← substr m.1 0 (u64 (size m.1 - 2));
  if (tname =? "s")%char then (λ s, [entry name (SvString s)]) <$> json_string m.2
  else if (tname =? "n")%char then
    match m.2 with
    | JInt n => if (0 <=? n) && (n <? 2 ^ 64) then Some [entry name (SvU64 n)] else None
    | _ => None
    end
  else if (tname =? "d")%char then
    match m.2 with
    | JInt n => Some [entry name (SvDouble (double_of_u64 n))]
    | JDouble d => Some [entry name (SvDouble d)]
    | _ => None
    end
  else if (tname =? "a")%char then
    match m.2 with
    | JArray l => (λ ss, [entry name (SvString (String.concat "; " ss))]) <$> mapM json_string l
    | _ => None
    end
  else if (tname =? "m")%char then
    match m.2 with
    | JObject l =>
        (λ ps, ((λ p, entry (name +:+ "." +:+ p.1) (SvString p.2)) <$> ps) ++
               [entry name (SvString (map_text ps))]) <$> mapM string_member l
    | _ => None
    end
  else None.

Definition stat_entries (members : list (string * json)) : option (list StatEntry) :=
  @concat StatEntry <$> mapM stat_member members.

Definition stat_row `{JsonParser, Digests, SubValOrder, StatHash} (stats : StatsSelect)
    (r : query_result_unit_t) (out : MapBufT) : option MapBufT :=
  '(text, u) ← get_stattable_info r;
  match Document_Parse text with
  | None => Some out
  | Some (JObject members) => attribs ← stat_entries members; load stats (Some u) (timestamp r) attribs out
  | Some _ => None
  end.

(** ** Messages and object logs *)

(** The values of [SandeshType] of the sandesh library. *)
Class SandeshTypes := { ST_SYSTEM : Z; ST_OBJECT : Z; ST_UVE : Z; ST_ALARM : Z }.

(** The sixteen bytes of a UUID. *)
Definition uuid_bytes (u : Z) : string :=
  String.concat EmptyString ((λ i, String (ascii_of_nat (Z.to_nat ((u ≫ (8 * i)) `mod` 256))) EmptyString)
    <$> reverse (seqZ 0 16)).

Section messages.
Context `{DbToString, SandeshTypes} (table : string) (select_fields : list string).

(** [erase(begin(), begin() + find_first_of(":") + 1)]. *)
Definition erase_prefix (s : string) : string :=
  default s (substr s (u64 (find s ":" 0 + 1)) npos).

(** [get_query_column_value]: the query column, its value, and the object id. *)
Definition get_query_column_value (info : list DbDataValue) (index : nat) (object_id : string)
  : option (string * DbDataValue * string) :=
  '(_, query_column, indexed) ← msg_columns !! index;
  value ← info !! index;
  if (indexed : bool) && negb (bool_decide (value = DbBlank)) then
    let value_str := erase_prefix (DbDataValueToString value) in
    if starts_with query_column OBJECT_TYPE_NAME_PFX then
      let id := erase_prefix value_str in
      Some (query_column, DbString id, if starts_with value_str table then id else object_id)
    else Some (query_column, DbString value_str, object_id)
  else Some (query_column, value, object_id).

(** The columns of a unit by name; the time is that of the unit. *)
Definition unit_columns (r : query_result_unit_t) : option (gmap string DbDataValue * string) :=
  foldl (λ acc i, '(m, object_id) ← acc;
           '(query_column, value, object_id) ← get_query_column_value (info r) i object_id;
           let value := if (query_column =? TIMESTAMP)%string then DbU64 (timestamp r) else value in
           Some (map_insert_new query_column value m, object_id))
        (Some (∅, EmptyString)) (seq 0 (length (info r))).

(** [process_object_query_specific_select_params]: the value of the field;
    [Some None]: the log is not wanted. *)
Definition sandesh_type_name (type_val : Z) : option string :=
  if type_val =? ST_SYSTEM then Some SYSTEM_LOG
  else if (type_val =? ST_OBJECT) || (type_val =? ST_UVE) || (type_val =? ST_ALARM) then Some OBJECT_LOG
  else None.
Definition object_field (sel_field : string) (col_res_map : gmap string DbDataValue) (object_id : string)
  : option (option string) :=
  match col_res_map !! SANDESH_TYPE with
  | Some (DbU32 type_val) =>
      match sandesh_type_name type_val with
      | None => Some None
      | Some sandesh_type =>
          if (sel_field =? sandesh_type)%string then
            match col_res_map !! DATA with Some (DbString xml) => Some (Some xml) | _ => None end
          else if (sel_field =? "ObjectId")%string then Some (Some object_id)
          else if bool_decide (sandesh_type ∈ select_fields) then Some (Some EmptyString)
          else Some None
      end
  | _ => None
  end.

(** The value of one selected column. *)
Definition select_value (jt : string) (col_res_map : gmap string DbDataValue) (object_id : string)
  : option (option string) :=
  match col_res_map !! jt with
  | None => if is_object_table_query table then object_field jt col_res_map object_id
            else Some (Some EmptyString)
  | Some v =>
      if (jt =? UUID_KEY)%string then
        match v with DbUuid u => Some (Some (uuid_bytes u)) | _ => None end
      else Some (Some (DbDataValueToString v))
  end.

(** The loop over the selected columns; it is left early when the log is not
    wanted. *)
Fixpoint select_loop (l : list string) (col_res_map : gmap string DbDataValue) (object_id : string)
    (cmap : gmap string string) : option (option (gmap string string)) :=
  match l with
  | [] => Some (Some cmap)
  | jt :: l' =>
      match select_value jt col_res_map object_id with
      | None => None
      | Some None => Some None
      | Some (Some s) => select_loop l' col_res_map object_id (map_insert_new jt s cmap)
      end
  end.

(** The id of the object of a log. *)
Definition object_id_of (col_res_map : gmap string DbDataValue) (object_id : string) : option string :=
  if is_object_table_query table then
    match col_res_map !! UUID_KEY with
    | Some (DbUuid _) =>
        if (object_id =? EmptyString)%string then DbDataValueToString <$> col_res_map !! OBJECT_TYPE_NAME1
        else Some object_id
    | _ => None
    end
  else Some object_id.

Definition message_row (r : query_result_unit_t) : option (option ResultRowT) :=
  '(m, object_id) ← unit_columns r;
  object_id ← object_id_of m object_id;
  cmap ← select_loop select_fields m object_id ∅;
  Some ((λ c, (c, 0)) <$> (cmap : option (gmap string string))).
End messages.

(** ** The objects of an object query *)

Section objects.

(** The keys that are read; [from] and [to] are the times of the query. *)
Definition object_keys (object_value_key : string) (from_time end_time : Z) : list (list DbDataValue) :=
  let t2_start := u32 (from_time ≫ RowTimeInBits) in
  let t2_end := u32 (end_time ≫ RowTimeInBits) in
  (λ t2, [DbU32 t2; DbString object_value_key]) <$> seqZ t2_start (t2_end - t2_start).

(** The columns of one row; [None]: an assertion, or an element out of range. *)
Fixpoint object_columns (first last : bool) (t1_start t1_end : Z)
    (cols : list (list DbDataValue * list DbDataValue)) : option (list string) :=
  match cols with
  | [] => Some []
  | (name, value) :: cols' =>
      let take_value := match value !! 0%nat with
                        | Some (DbString s) => cons s <$> object_columns first last t1_start t1_end cols'
                        | _ => None end in
      if first || last then
        match name !! 0%nat with
        | Some (DbU32 t1) =>
            if first && (t1 <? t1_start) then object_columns first last t1_start t1_end cols'
            else if last && (t1_end <? t1) then Some []
            else take_value
        | _ => None
        end
      else take_value
  end.

Definition object_values (from_time end_time : Z)
    (mget_res : list (list (list DbDataValue * list DbDataValue))) : option (list string) :=
  let t1_start := u32 (Z.land from_time RowTimeInMask) in
  let t1_end := u32 (Z.land end_time RowTimeInMask) in
  @concat string <$> mapM (λ p : nat * _, object_columns (p.1 =? 0)%nat (p.1 =? length mget_res - 1)%nat
                      t1_start t1_end p.2) (imap pair mget_res).

(** The rows: every value once, in order. *)
Definition object_rows (values : list string) : BufferT :=
  (λ v, ({[ OBJECT_ID := v ]}, 0)) <$>
    insertion_sort String.ltb (base.elements (list_to_set values : gset string)).
End objects.

(** ** [process_query] *)

Definition query_result_size_limit : Z := 25000000.

Inductive select_result :=
  | SelFailure (status_details : Z)
  | SelSuccess (result : BufferT) (mresult : MapBufT).

(** What [process_query] reads of the main query. *)
Record sel_main := {
  sm_table : string; sm_from : Z; sm_end : Z; sm_object_value_key : string;
  sm_direction_ing : Z; sm_where_info : WhereResultT
}.

Section process.
Context `{TextForms, UuidFormat, StringToInteger, JsonParser, Digests, SubValOrder, StatHash,
  DbToString, SandeshTypes}.
Context (Db_GetMultiRow : list (list DbDataValue) → option (list (list (list DbDataValue * list DbDataValue)))).

Definition load_rows (f : query_result_unit_t → MapBufT → option MapBufT) (l : WhereResultT)
  : option select_result :=
  if query_result_size_limit <? Z.of_nat (length l) then Some (SelFailure EIO)
  else SelSuccess [] <$> foldl (λ acc r, acc ≫= f r) (Some []) l.

Definition select_process_query (q : SelectQuery) (m : sel_main) (status_details : Z)
  : option select_result :=
  let table := sm_table m in
  if negb (status_details =? 0) then Some (SelFailure status_details)
  else if is_session_query table || is_flow_query table then
    stats ← stats_ q;
    load_rows ((if unroll_needed q then unrolled_row else session_row)
                 stats (is_flow_query table) (sm_direction_ing m)) (sm_where_info m)
  else if is_stat_table_query table then
    stats ← stats_ q; load_rows (stat_row stats) (sm_where_info m)
  else if (table =? OBJECT_VALUE_TABLE)%string then
    match Db_GetMultiRow (object_keys (sm_object_value_key m) (sm_from m) (sm_end m)) with
    | None => Some (SelFailure EIO)
    | Some mget_res =>
        (λ vs, SelSuccess (object_rows vs) []) <$> object_values (sm_from m) (sm_end m) mget_res
    end
  else if query_result_size_limit <? Z.of_nat (length (sm_where_info m)) then Some (SelFailure EIO)
  else (λ rows, SelSuccess (omap id rows) [])
       <$> mapM (message_row table (select_column_fields q)) (sm_where_info m).
End process.

(** ** The type of a flow series query *)

Definition has_op (op : agg_op_t) (l : list (agg_op_t * stat_type_t)) : bool :=
  existsb (λ a, bool_decide (a.1 = op)) l.

Lemma fs_stats_loop_raw l t : Z.land t FS_SELECT_TS = 0 → Z.land t FS_SELECT_T ≠ 0 →
  Z.lor t FS_SELECT_T = t →
  fs_stats_loop l t (Some RAW) = if has_op AGG_SUM l then FS_SELECT_INVALID else t.
Proof.
  intros H1 H2 H3. induction l as [|[[|] st] l IH]; [done|..]; simpl.
  - by rewrite H1, H3.
  - by destruct (negb (Z.land t FS_SELECT_T =? 0)).
Qed.

Lemma fs_stats_loop_sum l t : Z.land t FS_SELECT_T = 0 →
  fs_stats_loop l t (Some AGG_SUM) = if has_op RAW l then FS_SELECT_INVALID else t.
Proof.
  intros H1. induction l as [|[[|] st] l IH]; [done|..]; simpl.
  - by rewrite orb_true_r.
  - by rewrite H1.
Qed.

Definition bit (b : bool) (n : Z) : Z := if b then n else 0.

(** The type of a flow series query is invalid exactly when nothing is
    selected or when raw counters are combined with summed ones or with time
    slots, or sums with the time of every sample; otherwise it is the set of
    what is selected, raw counters implying the time of every sample. *)
Theorem evaluate_fs_query_type_spec s :
  let each := timeseries s && (gran s =? 0) in
  let slots := timeseries s && negb (gran s =? 0) in
  let raw := has_op RAW (aggs s) in
  let sum := has_op AGG_SUM (aggs s) in
  evaluate_fs_query_type s =
  if (raw && (slots || sum)) || (sum && each) then FS_SELECT_INVALID
  else bit (each || raw) FS_SELECT_T + bit slots FS_SELECT_TS +
       bit (is_flow_tuple_specified s) FS_SELECT_FLOW_TUPLE + bit (raw || sum) FS_SELECT_STATS.
Proof.
  unfold evaluate_fs_query_type.
  destruct (timeseries s), (gran s =? 0), (is_flow_tuple_specified s); simpl;
    destruct (aggs s) as [|[[|] st] l]; simpl; try done;
    rewrite ?fs_stats_loop_raw, ?fs_stats_loop_sum by done;
    by destruct (has_op RAW l), (has_op AGG_SUM l).
Qed.

(** ** The constructor stays in bounds *)

Section bounds.
Context `{JsonParser, VizSchema} (table : string).

(** Something was pushed whenever the type of a flow series query is valid. *)
Definition pushed (s : sel_state) : Prop := fields s = [] → timeseries s = false ∧ aggs s = [].

Lemma plain_field_pushed direction s v s' : pushed s →
  plain_field table direction s v = Done s' → pushed s'.
Proof.
  assert (∀ x l, l ++ [x] = ([] : list string) → False) as Hsnoc by (intros x []; done).
  intros Hp. unfold plain_field. destruct v as [| | | |field| |]; try done.
  unfold QE_PARSE_ERROR, QE_INVALIDARG_ERROR. simpl.
  repeat (case_match; simpl; try done); intros [= <-]; unfold pushed; simpl; intros E;
    try (by destruct (Hsnoc _ _ E)); by apply Hp.
Qed.

Lemma fold_outcome_invariant {A S} (P : S → Prop) (f : S → A → outcome S) s l s' :
  (∀ s x s', P s → f s x = Done s' → P s') → P s → fold_outcome f s l = Done s' → P s'.
Proof.
  intros Hf. revert s. induction l as [|x l IH]; intros s Hs; simpl; [by intros [= <-]|].
  intros (s1 & H1 & H2)%bind_done. eapply IH; [|exact H2]. by eapply Hf.
Qed.

Lemma fold_outcome_stopped {A S} (f : S → A → outcome S) s l :
  (∀ s x, x ∈ l → f s x ≠ Stopped) → fold_outcome f s l ≠ Stopped.
Proof.
  revert s. induction l as [|x l IH]; intros s Hf; simpl; [done|].
  specialize (Hf s x) as Hx. destruct (f s x); simpl; [|done|set_solver].
  apply IH. intros s1 y Hy. apply Hf. set_solver.
Qed.

Lemma pushed_type s : pushed s → fields s = [] → evaluate_fs_query_type s = FS_SELECT_INVALID.
Proof.
  intros Hp Hf. destruct (Hp Hf) as [Ht Ha]. unfold evaluate_fs_query_type, is_flow_tuple_specified.
  by rewrite Ht, Ha, Hf.
Qed.

Lemma plain_field_class direction s v s' : plain_field table direction s v = Done s' →
  class_sel s' = true → class_sel s = true ∨ table = FLOW_SERIES_TABLE.
Proof.
  unfold plain_field. destruct v as [| | | |field| |]; try done.
  unfold QE_PARSE_ERROR, QE_INVALIDARG_ERROR. simpl.
  repeat (case_match; simpl; try done); intros [= <-]; simpl; rewrite ?orb_false_r; auto;
    right; by apply String.eqb_eq.
Qed.

(** When the SELECT list is an array of strings, choosing the columns
    ends with them or with an error number: the access to the first selected
    column, over which CLASS and COUNT are taken, is always in range, although
    the exception the code catches there would not be thrown. *)
Theorem select_in_bounds direction l : Forall (λ v, IsString v = true) l →
  stat_columns table l ≠ Stopped ∧ plain_columns table direction l ≠ Stopped.
Proof.
  intros Hl. rewrite Forall_forall in Hl.
  assert (∀ op w s, add_over_first op w s ≠ Stopped) as Hover.
  { intros op w s. unfold add_over_first, QE_INVALIDARG_ERROR. destruct w; [|done].
    case_bool_decide as Hf; simpl; [done|]. by destruct (fields s). }
  split.
  - unfold stat_columns.
    assert (fold_outcome (stat_field table) sel_init l ≠ Stopped) as H1.
    { apply fold_outcome_stopped. intros s v Hv. specialize (Hl v Hv). destruct v; try done.
      unfold stat_field, stat_push, QE_INVALIDARG_ERROR. simpl. repeat (case_match; simpl; try done). }
    destruct (fold_outcome _ _ _) as [s|e|]; simpl; [|done|done].
    specialize (Hover "CLASS" (class_sel s) s) as H2. destruct (add_over_first "CLASS" _ _) as [s1|e|]; simpl; [|done|done].
    specialize (Hover "COUNT" (count_sel s1) s1) as H3. by destruct (add_over_first "COUNT" _ _).
  - unfold plain_columns.
    assert (fold_outcome (plain_field table direction) sel_init l ≠ Stopped) as H1.
    { apply fold_outcome_stopped. intros s v Hv. specialize (Hl v Hv). destruct v; try done.
      unfold plain_field, QE_PARSE_ERROR, QE_INVALIDARG_ERROR. simpl. repeat (case_match; simpl; try done). }
    destruct (fold_outcome _ _ _) as [s|e|] eqn:Ef; simpl; [|done|done].
    assert (pushed s) as Hp.
    { eapply (fold_outcome_invariant pushed); [| |exact Ef]; [|done]. intros. by eapply plain_field_pushed. }
    assert (class_sel s = true → table = FLOW_SERIES_TABLE) as Hc.
    { eapply (fold_outcome_invariant (λ s, class_sel s = true → table = FLOW_SERIES_TABLE));
        [| |exact Ef]; [|done]. intros s1 x s2 Hs1 Hx Hs2.
      by destruct (plain_field_class _ _ _ _ Hx Hs2); auto. }
    unfold QE_INVALIDARG_ERROR.
    destruct (negb (table =? FLOW_SERIES_TABLE)%string || _) eqn:Eq; simpl; [|done].
    destruct (class_sel s) eqn:Ecl; simpl; [|done].
    specialize (Hc eq_refl). subst table. destruct (fields s) as [|f0 fs] eqn:Efs; [|done].
    by rewrite (pushed_type s Hp Efs) in Eq.
Qed.
End bounds.

(** ** The columns of a session row *)

Section session_rows.
Context `{TextForms, UuidFormat}.

(** The entries of consecutive columns. *)
Fixpoint convert_columns (l : list DbDataValue) (idx : nat) : option (list StatEntry) :=
  match l with
  | [] => Some []
  | v :: l' =>
      field ← SessionCassTableColumns !! idx;
      es ← convert_attribute v field;
      rest ← convert_columns l' (S idx);
      Some (es ++ rest)
  end.

Lemma session_loop_columns l rest idx u a :
  (∀ i, idx <= i < idx + length l → i ≠ SESSION_T1 ∧ i ≠ SESSION_UUID)%nat →
  session_loop (l ++ rest) idx u a =
  convert_columns l idx ≫= λ es, session_loop rest (idx + length l) u (a ++ es).
Proof.
  revert idx a. induction l as [|v l IH]; intros idx a Hi.
  { simpl. by rewrite Nat.add_0_r, app_nil_r. }
  destruct (Hi idx) as [H1 H2]; [simpl; lia|]. simpl.
  rewrite (proj2 (Nat.eqb_neq _ _) H1), (proj2 (Nat.eqb_neq _ _) H2).
  destruct (SessionCassTableColumns !! idx) as [field|]; simpl; [|done].
  destruct (convert_attribute v field) as [es|]; simpl; [|done].
  rewrite IH by (intros i ?; apply Hi; simpl; lia).
  destruct (convert_columns l (S idx)); simpl; [|done].
  by rewrite <- (assoc_L (++)), Nat.add_succ_r.
Qed.

Lemma unroll_loop_cons v l idx skip u a : l ≠ [] →
  unroll_loop (v :: l) idx skip u a =
  match skip with
  | S skip => unroll_loop l idx skip u a
  | O =>
      field ← SessionCassTableColumns !! idx;
      if (field =? SESSION_T1)%nat then unroll_loop l (S idx) 0 u a
      else if (field =? SESSION_SAMPLED_FORWARD_BYTES)%nat then
        unroll_loop l (idx + NUM_SESSION_STATS_FIELDS) (NUM_SESSION_STATS_FIELDS - 1) u a
      else if (field =? SESSION_UUID)%nat then
        match v with DbUuid u => unroll_loop l (S idx) 0 (Some u) a | _ => None end
      else es ← convert_attribute v field; unroll_loop l (S idx) 0 u (a ++ es)
  end.
Proof. by destruct l. Qed.
Lemma app_ne_nil_r {A} (l rest : list A) : rest ≠ [] → l ++ rest ≠ [].
Proof. by destruct l, rest. Qed.

Lemma unroll_loop_columns l rest idx u a : rest ≠ [] →
  Forall (λ i, ∀ field, SessionCassTableColumns !! i = Some field →
     field ≠ SESSION_T1 ∧ field ≠ SESSION_UUID ∧ field ≠ SESSION_SAMPLED_FORWARD_BYTES)
    (seq idx (length l)) →
  unroll_loop (l ++ rest) idx 0 u a =
  convert_columns l idx ≫= λ es, unroll_loop rest (idx + length l) 0 u (a ++ es).
Proof.
  intros Hr. revert idx a. induction l as [|v l IH]; intros idx a Hi.
  { simpl. by rewrite Nat.add_0_r, app_nil_r. }
  simpl in Hi. apply Forall_cons in Hi as [Hi Hl]. simpl app.
  rewrite unroll_loop_cons by by apply app_ne_nil_r. simpl.
  destruct (SessionCassTableColumns !! idx) as [field|]; simpl; [|done].
  destruct (Hi field eq_refl) as (H1 & H2 & H3).
  rewrite (proj2 (Nat.eqb_neq _ _) H1), (proj2 (Nat.eqb_neq _ _) H3), (proj2 (Nat.eqb_neq _ _) H2).
  destruct (convert_attribute v field) as [es|]; simpl; [|done].
  rewrite IH by done. destruct (convert_columns l (S idx)); simpl; [|done].
  by rewrite <- (assoc_L (++)), Nat.add_succ_r.
Qed.

Lemma unroll_loop_skip l rest idx n u a : length l = n → rest ≠ [] →
  unroll_loop (l ++ rest) idx n u a = unroll_loop rest idx 0 u a.
Proof.
  intros Hn Hr. revert n Hn. induction l as [|v l IH]; intros n Hn; simpl in Hn; subst n; [done|].
  simpl app. rewrite unroll_loop_cons by by apply app_ne_nil_r. by apply IH.
Qed.

Lemma unroll_loop_time t1 u l a : l ≠ [] →
  unroll_loop (t1 :: DbUuid u :: l) 6 0 None a = unroll_loop l 8 0 (Some u) a.
Proof. by destruct l. Qed.
Lemma unroll_loop_counters cs ws u a : length cs = 8%nat → ws ≠ [] →
  unroll_loop (cs ++ ws) 23 0 u a = unroll_loop ws 31 0 u a.
Proof.
  intros Hc Hw. destruct cs as [|c cs]; [done|]. simpl in Hc. simpl app.
  rewrite unroll_loop_cons by by apply app_ne_nil_r. apply unroll_loop_skip; [|done].
  by injection Hc as ->.
Qed.

(** The names the columns from a position on have. *)
Definition names_at (idx n : nat) : list string :=
  (λ i, default EmptyString (SessionCassTableColumns !! i ≫= λ f, session_query_columns !! f)) <$> seq idx n.

Lemma convert_columns_names l idx es : convert_columns l idx = Some es →
  Forall (λ e, se_name e ∈ names_at idx (length l)) es.
Proof.
  revert idx es. induction l as [|v l IH]; intros idx es; simpl; [by intros [= <-]|].
  intros (field & Hf & (es1 & H1 & (es2 & H2 & [= <-])%bind_Some)%bind_Some)%bind_Some.
  unfold names_at. simpl. apply Forall_app. split.
  - assert (Forall (λ e, session_query_columns !! field = Some (se_name e)) es1) as Hn.
    { unfold convert_attribute in H1. destruct v; try done; try case_match; simplify_eq;
        try (apply Forall_nil_2); apply fmap_Some in H1 as (nm & Hn & ->);
        by apply Forall_singleton. }
    eapply Forall_impl; [exact Hn|]. intros e He. rewrite Hf. simpl. rewrite He. by left.
  - eapply Forall_impl; [exact (IH _ _ H2)|]. intros e He. by right.
Qed.

(** The columns that hold counters. *)
Definition counter_names : list string := [
  "forward_sampled_bytes"; "forward_sampled_pkts"; "reverse_sampled_bytes"; "reverse_sampled_pkts";
  "forward_logged_bytes"; "forward_logged_pkts"; "reverse_logged_bytes"; "reverse_logged_pkts"]%string.
Definition is_counter (e : StatEntry) : Prop := se_name e ∈ counter_names.
#[export] Instance is_counter_dec e : Decision (is_counter e).
Proof. unfold is_counter. apply _. Defined.

Lemma filter_counters (b : bool) l idx es : convert_columns l idx = Some es →
  forallb (λ n, eqb b (bool_decide (n ∈ counter_names))) (names_at idx (length l)) = true →
  filter (λ e, ¬ is_counter e) es = if b then [] else es.
Proof.
  intros Hc%convert_columns_names Hn. rewrite forallb_forall in Hn.
  induction Hc as [|e es He _ IH]; [by destruct b|]. rewrite filter_cons, IH.
  apply list_elem_of_In in He. specialize (Hn _ He). apply eqb_prop in Hn.
  unfold is_counter. destruct b.
  - symmetry in Hn. apply bool_decide_eq_true in Hn. by rewrite decide_False by (intros ?; done).
  - symmetry in Hn. apply bool_decide_eq_false in Hn. by rewrite decide_True.
Qed.

(** Reading a session row with its sessions unrolled gives the entries
    of the plain reading but for the counters, which then belong to the single
    sessions: both loops find the columns by position, the one by the position
    itself and the other by the field stored there. *)
Theorem unrolled_columns info t1 u vs cs ws session_map E :
  length info = 4%nat → length vs = 15%nat → length cs = 8%nat → length ws = 5%nat →
  session_loop (info ++ t1 :: DbUuid u :: vs ++ cs ++ ws) 2 None [] = Some (Some u, E) →
  unroll_loop (info ++ t1 :: DbUuid u :: vs ++ cs ++ ws ++ [session_map]) 2 0 None [] =
  Some (Some u, filter (λ e, ¬ is_counter e) E, session_map).
Proof.
  intros Li Lv Lc Lw. rewrite session_loop_columns by (unfold SESSION_T1, SESSION_UUID; lia).
  rewrite Li. intros (e1 & H1 & Hs)%bind_Some. simpl in Hs.
  rewrite session_loop_columns in Hs by (unfold SESSION_T1, SESSION_UUID; lia).
  apply bind_Some in Hs as (e2 & H2 & Hs). rewrite Lv in Hs.
  rewrite session_loop_columns in Hs by (unfold SESSION_T1, SESSION_UUID; lia).
  apply bind_Some in Hs as (e3 & H3 & Hs). rewrite Lc in Hs.
  rewrite <- (app_nil_r ws) in Hs.
  rewrite session_loop_columns in Hs by (unfold SESSION_T1, SESSION_UUID; lia).
  apply bind_Some in Hs as (e4 & H4 & Hs). simpl in Hs. injection Hs as <-.
  assert (∀ idx n, forallb (λ i, bool_decide (SessionCassTableColumns !! i ≠ Some SESSION_T1) &&
      bool_decide (SessionCassTableColumns !! i ≠ Some SESSION_UUID) &&
      bool_decide (SessionCassTableColumns !! i ≠ Some SESSION_SAMPLED_FORWARD_BYTES)) (seq idx n) = true →
    Forall (λ i, ∀ field, SessionCassTableColumns !! i = Some field →
     field ≠ SESSION_T1 ∧ field ≠ SESSION_UUID ∧ field ≠ SESSION_SAMPLED_FORWARD_BYTES) (seq idx n)) as Hseq.
  { intros idx n Hf. rewrite forallb_forall in Hf. apply Forall_forall. intros i Hi field Hfield.
    apply list_elem_of_In in Hi. specialize (Hf i Hi). reflect_bools.
    repeat match goal with H : bool_decide _ = true |- _ => apply bool_decide_eq_true in H end.
    rewrite Hfield in *. split_and!; congruence. }
  rewrite unroll_loop_columns by (done || (apply Hseq; by rewrite Li)).
  rewrite H1, Li. cbn [mbind option_bind Nat.add].
  rewrite unroll_loop_time by (apply app_ne_nil_r; by destruct cs).
  rewrite unroll_loop_columns by (try (apply Hseq; by rewrite Lv); by destruct cs).
  rewrite H2, Lv. cbn [mbind option_bind Nat.add].
  rewrite unroll_loop_counters by (done || by apply app_ne_nil_r).
  rewrite unroll_loop_columns by (done || (apply Hseq; by rewrite Lw)).
  cbn [Nat.add] in H4. rewrite H4, Lw. simpl.
  rewrite !filter_app.
  rewrite (filter_counters false _ _ _ H1), (filter_counters false _ _ _ H2),
    (filter_counters true _ _ _ H3), (filter_counters false _ _ _ H4)
    by (simpl length; rewrite ?Li, ?Lv, ?Lw, ?Lc; by vm_compute).
  by rewrite <- !(assoc_L (++)).
Qed.
End session_rows.

(** ** The rows of messages and object logs *)

Section message_rows.
Context `{DbToString, SandeshTypes} (table : string).

(** Reading stops without a row exactly when the value of some selected column
    says so, and otherwise every column has its value. *)
Lemma select_loop_spec select_fields l m id cmap : (∀ f, f ∈ l → select_value table select_fields f m id ≠ None) →
  (select_loop table select_fields l m id cmap = Some None ∧
     ∃ f, f ∈ l ∧ select_value table select_fields f m id = Some None) ∨
  ∃ c, select_loop table select_fields l m id cmap = Some (Some c) ∧
    (∀ f, f ∈ l → select_value table select_fields f m id ≠ Some None) ∧
    ∀ f, Some (c !! f) = match cmap !! f with
                         | Some s => Some (Some s)
                         | None => if bool_decide (f ∈ l) then select_value table select_fields f m id
                                   else Some None
                         end.
Proof.
  revert cmap. induction l as [|jt l IH]; intros cmap Hv; simpl.
  { right. exists cmap. split; [done|]. split; [set_solver|]. intros f. by destruct (cmap !! f). }
  assert (select_value table select_fields jt m id ≠ None) as Hj by (apply Hv; by left).
  destruct (select_value table select_fields jt m id) as [[s|]|] eqn:Es; [|left; set_solver|done].
  destruct (IH (map_insert_new jt s cmap)) as [(Hs & f & Hf & Hn)|(c & Hs & Hn & Hc)];
    [intros f Hf; apply Hv; by right|left|right].
  - split; [done|]. exists f. split; [by right|done].
  - exists c. split; [done|]. split.
    { intros f [->|Hf]%elem_of_cons; [congruence|by apply Hn]. }
    intros f. rewrite Hc, lookup_map_insert_new. destruct (decide (jt = f)) as [<-|Hne].
    + destruct (cmap !! jt) eqn:Ec; simpl; [done|]. rewrite bool_decide_true by (by left). done.
    + destruct (cmap !! f); [done|]. case_bool_decide; case_bool_decide; set_solver.
Qed.

(** What is shown of a column of the unit. *)
Definition shown (f : string) (v : DbDataValue) : string :=
  match v with
  | DbUuid u => if (f =? UUID_KEY)%string then uuid_bytes u else DbDataValueToString v
  | _ => DbDataValueToString v
  end.

Lemma select_value_shown select_fields f m id v : m !! f = Some v →
  (f = UUID_KEY → ∃ u, v = DbUuid u) →
  select_value table select_fields f m id = Some (Some (shown f v)).
Proof.
  intros Hf Hu. unfold select_value, shown. rewrite Hf.
  destruct (f =? UUID_KEY)%string eqn:E; [|by destruct v].
  destruct (Hu (proj1 (String.eqb_eq _ _) E)) as (u & ->). done.
Qed.

(** A message that is read gives one row with the selected columns and no
    other: each is the value of the column in the unit, and a column the unit
    does not have is empty. *)
Theorem message_row_fields select_fields r m id :
  is_object_table_query table = false → unit_columns table r = Some (m, id) →
  (∀ v, m !! UUID_KEY = Some v → ∃ u, v = DbUuid u) →
  ∃ c, message_row table select_fields r = Some (Some (c, 0)) ∧
    ∀ f, c !! f = if bool_decide (f ∈ select_fields)
                  then Some (match m !! f with Some v => shown f v | None => EmptyString end) else None.
Proof.
  intros Ht Hm Hu. unfold message_row, object_id_of. rewrite Hm, Ht. simpl.
  assert (∀ f, select_value table select_fields f m id =
    Some (Some match m !! f with Some v => shown f v | None => EmptyString end)) as Hs.
  { intros f. destruct (m !! f) as [v|] eqn:Ef.
    - apply select_value_shown; [done|]. intros ->. by apply Hu.
    - unfold select_value. by rewrite Ef, Ht. }
  destruct (select_loop_spec select_fields select_fields m id ∅) as [(_ & f & _ & Hf)|(c & Hc & _ & Hl)];
    [intros f _; by rewrite Hs|by rewrite Hs in Hf|].
  exists c. rewrite Hc. simpl. split; [done|]. intros f. specialize (Hl f).
  rewrite lookup_empty, Hs in Hl. case_bool_decide; congruence.
Qed.

(** What is shown of a column an object log does not have. *)
Definition object_shown (t : string) (f id xml : string) : string :=
  if (f =? t)%string then xml else if (f =? "ObjectId")%string then id else EmptyString.

(** An object log is left out exactly when a column it does not have is
    selected and either its type is none of the logged ones or the log of its
    type is not selected, the column [ObjectId] aside; when it is kept, the
    log of its type is the message, [ObjectId] the object, and the other log
    is empty. *)
Theorem object_log_selected select_fields r m id ty xml u :
  is_object_table_query table = true → unit_columns table r = Some (m, id) → id ≠ EmptyString →
  m !! UUID_KEY = Some (DbUuid u) → m !! SANDESH_TYPE = Some (DbU32 ty) → m !! DATA = Some (DbString xml) →
  let unwanted f := f ∈ select_fields ∧ m !! f = None ∧
    match sandesh_type_name ty with
    | Some t => f ≠ "ObjectId"%string ∧ t ∉ select_fields
    | None => True
    end in
  (message_row table select_fields r = Some None ∧ ∃ f, unwanted f) ∨
  (∃ c, message_row table select_fields r = Some (Some (c, 0)) ∧ (¬ ∃ f, unwanted f) ∧
     ∀ f, c !! f = if bool_decide (f ∈ select_fields)
                   then Some (match m !! f, sandesh_type_name ty with
                              | Some v, _ => shown f v
                              | None, Some t => object_shown t f id xml
                              | None, None => EmptyString
                              end) else None).
Proof.
  intros Ht Hm Hid Hu Hty Hxml unwanted. unfold message_row, object_id_of. rewrite Hm, Ht. simpl.
  rewrite Hu. apply String.eqb_neq in Hid. rewrite Hid. simpl.
  assert (∀ f, select_value table select_fields f m id =
    match m !! f, sandesh_type_name ty with
    | Some v, _ => Some (Some (shown f v))
    | None, Some t => if (f =? t)%string || (f =? "ObjectId")%string || bool_decide (t ∈ select_fields)
                      then Some (Some (object_shown t f id xml)) else Some None
    | None, None => Some None
    end) as Hs.
  { intros f. destruct (m !! f) as [v|] eqn:Ef.
    - apply select_value_shown; [done|]. intros ->. rewrite Ef in Hu. injection Hu as ->. by exists u.
    - unfold select_value, object_field, object_shown. rewrite Ef, Ht, Hty, Hxml.
      destruct (sandesh_type_name ty) as [t|]; [|done]. by repeat case_match. }
  assert (∀ f, f ∈ select_fields → select_value table select_fields f m id = Some None ↔ unwanted f) as Hw.
  { intros f Hf. unfold unwanted. rewrite Hs. destruct (m !! f); [naive_solver|].
    destruct (sandesh_type_name ty) as [t|]; [|naive_solver].
    destruct (f =? t)%string eqn:E1; simpl; [apply String.eqb_eq in E1; subst; naive_solver|].
    destruct (f =? "ObjectId")%string eqn:E2; simpl; [apply String.eqb_eq in E2; subst; naive_solver|].
    apply String.eqb_neq in E2. case_bool_decide; naive_solver. }
  destruct (select_loop_spec select_fields select_fields m id ∅) as [(Hc & f & Hf & Hn)|(c & Hc & Hn & Hl)];
    [intros f _; rewrite Hs; by repeat case_match|left|right]; rewrite Hc; simpl.
  - split; [done|]. exists f. by apply Hw.
  - exists c. split; [done|]. split; [intros (f & Hf); apply (Hn f); [apply Hf|apply Hw; [apply Hf|done]]|].
    intros f. specialize (Hl f). rewrite lookup_empty in Hl. case_bool_decide as Hf; [|congruence].
    specialize (Hn f Hf). rewrite Hs in Hl, Hn. repeat case_match; simplify_eq; done.
Qed.
End message_rows.

(** ** The objects of a type *)

Section object_values.

(** A column of the table, as it is read: the offset in the row and the id. *)
Definition object_column (c : Z * string) : list DbDataValue * list DbDataValue :=
  ([DbU32 c.1], [DbString c.2]).

Lemma mapM_done {A B} (f : A → option B) (g : A → B) l :
  (∀ x, x ∈ l → f x = Some (g x)) → mapM f l = Some (g <$> l).
Proof.
  induction l as [|x l IH]; intros Hf; simpl; [done|].
  rewrite (Hf x) by (by left). simpl. by rewrite IH by (intros y ?; apply Hf; by right).
Qed.

Lemma u32_row ts : 0 <= ts < 2 ^ 55 →
  u32 (Z.shiftr ts RowTimeInBits) = t2_of ts ∧ u32 (Z.land ts RowTimeInMask) = t1_of ts.
Proof.
  intros Hts. unfold t2_of, t1_of. split; apply u32_small; unfold is_u32.
  - rewrite Z.shiftr_div_pow2 by (unfold RowTimeInBits; lia). unfold RowTimeInBits.
    split; [apply Z.div_pos; lia|]. apply Z.div_lt_upper_bound; lia.
  - change RowTimeInMask with (Z.ones 23). rewrite Z.land_ones by lia.
    pose proof (Z.mod_pos_bound ts (2 ^ 23)). lia.
Qed.

(** The columns that are taken of a row. *)
Definition taken (first last : bool) (t1_start t1_end : Z) (c : Z * string) : bool :=
  negb (first && (c.1 <? t1_start)) && negb (last && (t1_end <? c.1)).

Lemma list_filter_none {A} (f : A → bool) l : (∀ x, x ∈ l → f x = false) → List.filter f l = [].
Proof.
  induction l as [|x l IH]; intros Hf; simpl; [done|].
  rewrite (Hf x) by (by left). apply IH. intros y ?. apply Hf. by right.
Qed.

Definition taken_values (first last : bool) (t1_start t1_end : Z) (row : list (Z * string)) : list string :=
  snd <$> List.filter (taken first last t1_start t1_end) row.
Definition stored_row (row : list (Z * string)) : list (list DbDataValue * list DbDataValue) :=
  object_column <$> row.

Lemma object_columns_taken first last t1_start t1_end cs : StronglySorted (λ a b, a.1 <= b.1) cs →
  object_columns first last t1_start t1_end (stored_row cs) =
  Some (taken_values first last t1_start t1_end cs).
Proof.
  unfold taken_values, stored_row. induction 1 as [|[t v] cs Hs IH Hall]; [done|].
  assert (last = true → (t1_end <? t) = true →
    List.filter (taken first last t1_start t1_end) cs = []) as Hbreak.
  { intros -> Ht. apply list_filter_none. rewrite Forall_forall in Hall.
    intros [t' v'] Hin%Hall. unfold taken. simpl in *.
    by rewrite (proj2 (Z.ltb_lt t1_end t')), andb_false_r by lia. }
  cbn -[taken]. unfold taken at 1. cbn -[taken].
  destruct first, last; simpl orb; cbv iota; cbn -[taken]; repeat (case_match; cbn -[taken]);
    rewrite ?IH, ?Hbreak by done; try done.
Qed.

Definition row_values (from_time end_time : Z) (rows : list (list (Z * string))) (i : nat) : list string :=
  taken_values (i =? 0)%nat (i =? length rows - 1)%nat (t1_of from_time) (t1_of end_time)
    (default [] (rows !! i)).

Lemma object_values_taken from_time end_time (rows : list (list (Z * string))) :
  0 <= from_time < 2 ^ 55 → 0 <= end_time < 2 ^ 55 →
  Forall (StronglySorted (λ a b, a.1 <= b.1)) rows →
  object_values from_time end_time (stored_row <$> rows) =
  Some (concat (row_values from_time end_time rows <$> seq 0 (length rows))).
Proof.
  intros Hf He Hs. unfold object_values. rewrite length_fmap.
  rewrite (proj2 (u32_row _ Hf)), (proj2 (u32_row _ He)).
  rewrite (mapM_done _ (λ p, row_values from_time end_time rows p.1)).
  2: { intros [i x] (j & Hj)%list_elem_of_lookup. rewrite list_lookup_imap, list_lookup_fmap in Hj.
    destruct (rows !! j) as [row|] eqn:E; [|done]. injection Hj as -> <-. simpl. unfold row_values. rewrite E.
    apply object_columns_taken. rewrite Forall_forall in Hs. apply Hs. by eapply list_elem_of_lookup_2. }
  simpl. do 2 f_equal. apply list_eq. intros i.
  rewrite !list_lookup_fmap, list_lookup_imap, list_lookup_fmap.
  destruct (rows !! i) as [row|] eqn:E; simpl.
  - by rewrite lookup_seq_lt by (by eapply lookup_lt_Some).
  - by rewrite lookup_seq_ge by (by apply lookup_ge_None).
Qed.

Lemma elem_of_taken_values first last s e row v : v ∈ taken_values first last s e row ↔
  ∃ t1, (t1, v) ∈ row ∧ (first = true → s <= t1) ∧ (last = true → t1 <= e).
Proof.
  unfold taken_values. rewrite list_elem_of_fmap. split.
  - intros ([t1 v'] & -> & Hin%list_elem_of_In). apply filter_In in Hin as [Hin Ht].
    exists t1. split; [by apply list_elem_of_In|]. unfold taken in Ht. simpl in Ht.
    destruct first, last; simpl in Ht; split; intros; try done; reflect_bools; lia.
  - intros (t1 & Hin & H1 & H2). exists (t1, v). split; [done|]. apply list_elem_of_In, filter_In.
    split; [by apply list_elem_of_In|]. unfold taken. simpl.
    destruct first, last; simpl; try specialize (H1 eq_refl); try specialize (H2 eq_refl);
      rewrite ?(proj2 (Z.ltb_ge _ _)) by done; done.
Qed.

Context `{TextForms, UuidFormat, StringToInteger, JsonParser, Digests, SubValOrder, StatHash,
  DbToString, SandeshTypes}.

Lemma elem_of_row_values from_time end_time rows v :
  v ∈ concat (row_values from_time end_time rows <$> seq 0 (length rows)) ↔
  ∃ i, (i < length rows)%nat ∧ ∃ row, rows !! i = Some row ∧ ∃ t1, (t1, v) ∈ row ∧
    (i = 0%nat → t1_of from_time <= t1) ∧ (i = (length rows - 1)%nat → t1 <= t1_of end_time).
Proof.
  rewrite list_elem_of_In, in_concat. split.
  - intros (l & Hl & Hv). apply list_elem_of_In, list_elem_of_fmap in Hl as (i & -> & [_ Hi]%elem_of_seq).
    apply list_elem_of_In, elem_of_taken_values in Hv as (t1 & Hin & Hge & Hle).
    rewrite !Nat.eqb_eq in *. destruct (rows !! i) as [row|] eqn:E; [|by apply not_elem_of_nil in Hin].
    exists i. split; [lia|]. exists row. split; [done|]. by exists t1.
  - intros (i & Hi & row & E & t1 & Hin & Hge & Hle). exists (row_values from_time end_time rows i).
    split; apply list_elem_of_In; [apply list_elem_of_fmap; exists i; split; [done|apply elem_of_seq; lia]|].
    apply elem_of_taken_values. exists t1. by rewrite E, !Nat.eqb_eq.
Qed.

Lemma object_keys_rows key from_time end_time : 0 <= from_time < 2 ^ 55 → 0 <= end_time < 2 ^ 55 →
  object_keys key from_time end_time =
  (λ t2, [DbU32 t2; DbString key]) <$> seqZ (t2_of from_time) (t2_of end_time - t2_of from_time).
Proof. intros Hf He. unfold object_keys. by rewrite (proj1 (u32_row _ Hf)), (proj1 (u32_row _ He)). Qed.

Lemma process_objects Db_GetMultiRow q m : sm_table m = OBJECT_VALUE_TABLE →
  select_process_query Db_GetMultiRow q m 0 =
  match Db_GetMultiRow (object_keys (sm_object_value_key m) (sm_from m) (sm_end m)) with
  | None => Some (SelFailure EIO)
  | Some mget_res =>
      (λ vs, SelSuccess (object_rows vs) []) <$> object_values (sm_from m) (sm_end m) mget_res
  end.
Proof. intros Ht. unfold select_process_query. by rewrite Ht. Qed.

(** C15.  An object query gives one row for every distinct id found, in
    ascending order.  The rows that are read are those from the row of the
    start of the query up to the one before the row of its end; the ids taken
    of the first are those from the offset of the start on, and of the last
    those up to the offset the end has in the row after it. *)
Theorem object_query_result (Db_GetMultiRow : list (list DbDataValue) →
      option (list (list (list DbDataValue * list DbDataValue)))) q m (D : Z → list (Z * string)) :
  sm_table m = OBJECT_VALUE_TABLE → 0 <= sm_from m <= sm_end m → sm_end m < 2 ^ 55 →
  (∀ t2, StronglySorted (λ a b, a.1 <= b.1) (D t2)) →
  (∀ l, Db_GetMultiRow ((λ t2, [DbU32 t2; DbString (sm_object_value_key m)]) <$> l) =
        Some ((λ t2, stored_row (D t2)) <$> l)) →
  ∃ vs, select_process_query Db_GetMultiRow q m 0 =
      Some (SelSuccess ((λ v, ({[ OBJECT_ID := v ]}, 0)) <$> vs) []) ∧
    NoDup vs ∧ cpp_sorted String.ltb vs ∧
    ∀ v, v ∈ vs ↔ ∃ t2 t1, (t1, v) ∈ D t2 ∧ t2_of (sm_from m) <= t2 < t2_of (sm_end m) ∧
      (t2 = t2_of (sm_from m) → t1_of (sm_from m) <= t1) ∧
      (t2 + 1 = t2_of (sm_end m) → t1 <= t1_of (sm_end m)).
Proof.
  intros Ht Hf He Hs HD. rewrite process_objects, object_keys_rows, HD by (done || lia).
  set (a := t2_of (sm_from m)). set (b := t2_of (sm_end m)).
  replace ((λ t2, stored_row (D t2)) <$> seqZ a (b - a)) with (stored_row <$> (D <$> seqZ a (b - a)))
    by by rewrite <- list_fmap_compose.
  rewrite object_values_taken by (try lia; by apply Forall_fmap, Forall_true). cbn [fmap option_fmap option_map].
  eexists. split; [done|]. split; [|split].
  - rewrite <- insertion_sort_perm. apply NoDup_elements.
  - eapply insertion_sort_sorted; [apply string_ltb_total|by apply Forall_true].
  - intros v. rewrite <- insertion_sort_perm, elem_of_elements, elem_of_list_to_set.
    rewrite elem_of_row_values. unfold a, b. rewrite length_fmap, length_seqZ.
    split.
    + intros (i & Hi & row & Hrow & t1 & Hin & Hge & Hle). rewrite list_lookup_fmap in Hrow.
      apply fmap_Some in Hrow as (t2 & [-> Hlt]%lookup_seqZ & ->).
      eexists _, t1. split; [exact Hin|]. split; [lia|]. split; intros; [apply Hge|apply Hle]; lia.
    + intros (t2 & t1 & Hin & Ht2 & Hge & Hle). exists (Z.to_nat (t2 - t2_of (sm_from m))). split; [lia|].
      exists (D t2). split.
      { rewrite list_lookup_fmap, fmap_Some. exists t2. split; [|done]. apply lookup_seqZ. lia. }
      exists t1. split; [done|]. split; intros; [apply Hge|apply Hle]; lia.
Qed.
End object_values.

(** ** Examples *)

Module SelectExamples.
#[local] Existing Instance SchemaExamples.schema.
#[local] Existing Instance ConcreteStringToInteger.instance.
#[local] Existing Instance StatExamples.order.
#[local] Existing Instance StatExamples.digests.
#[local] Existing Instance StatExamples.hash.

Fixpoint after_colon (s : string) : string :=
  match s with
  | EmptyString => EmptyString
  | String c s' => if (c =? ":")%char then s' else after_colon s'
  end.
Lemma after_colon_prefixed n v : 0 <= n → has_char "010"%char v = false → has_char "013"%char v = false →
  after_colon (pretty n +:+ ":" +:+ v) = v.
Proof.
  intros Hn _ _. pose proof (all_digits_pretty n Hn) as Hd. revert Hd.
  induction (pretty n) as [|c s IH]; [done|]. simpl. intros [Hc Hs]%andb_true_iff.
  destruct (Ascii.eqb_spec c ":"); [by subst|]. by apply IH.
Qed.

(** The forms of values and the types that only have to be some function. *)
Definition text : TextForms := {|
  address_to_string _ _ := EmptyString; strip_t2 := after_colon; strip_t2_prefixed := after_colon_prefixed
|}.
Definition uuid_format : UuidFormat := {| uuid_to_string u := pretty u |}.
Definition parser : JsonParser := {| Document_Parse _ := None |}.
Definition db_to_string : DbToString := {|
  DbDataValueToString v := match v with DbString s => s | DbU64 n | DbU32 n => pretty n | _ => EmptyString end
|}.
Definition types : SandeshTypes := {| ST_SYSTEM := 1; ST_OBJECT := 4; ST_UVE := 6; ST_ALARM := 11 |}.
#[local] Existing Instance text.
#[local] Existing Instance uuid_format.
#[local] Existing Instance parser.
#[local] Existing Instance db_to_string.
#[local] Existing Instance types.

Lemma select_in_bounds_witness :
  stat_columns SESSION_SERIES_TABLE [JString "T=60"; JString "SUM(forward_logged_bytes)"] ≠ Stopped ∧
  plain_columns SESSION_SERIES_TABLE 1 [JString "T=60"; JString "SUM(forward_logged_bytes)"] ≠ Stopped.
Proof. apply select_in_bounds. by repeat constructor. Defined.

(** A session with its counters, as the columns of the row are laid out. *)
Definition info1 : list DbDataValue := [DbU8 1; DbU8 1; DbU16 6; DbU16 80].
Definition tags : list DbDataValue := repeat (DbString "5:web") 15.
Definition counters : list DbDataValue := repeat (DbU64 9) 8.
Definition rest : list DbDataValue := repeat (DbString "x") 5.
Definition session_entries : list StatEntry :=
  match session_loop (info1 ++ DbU32 0 :: DbUuid 77 :: tags ++ counters ++ rest) 2 None [] with
  | Some (_, l) => l | None => []
  end.
Lemma unrolled_columns_witness :
  length session_entries = 32%nat ∧
  unroll_loop (info1 ++ DbU32 0 :: DbUuid 77 :: tags ++ counters ++ rest ++ [DbString "{}"]) 2 0 None [] =
  Some (Some 77, filter (λ e, ¬ is_counter e) session_entries, DbString "{}").
Proof. split; [by vm_compute|]. apply (unrolled_columns info1); by vm_compute. Defined.

(** A message and an object log, as the columns of [MESSAGE_TABLE]. *)
Definition message (type_val : Z) : query_result_unit_t := {| timestamp := 1600000000123456; info :=
  [DbU32 190734863; DbU8 0; DbU32 4161; DbUuid 5; DbString "190734863:host"; DbString "190734863:VRouterLog";
   DbString "190734863:agent"; DbString "190734863:ObjectVRouter:host"; DbBlank; DbBlank; DbBlank; DbBlank; DbBlank;
   DbBlank; DbU32 1; DbString "c"; DbU32 7; DbString "Compute"; DbString "0"; DbU32 3; DbU32 type_val;
   DbString "<xml/>"] |}.
Definition columns_of (table : string) (r : query_result_unit_t) : gmap string DbDataValue * string :=
  default (∅, EmptyString) (unit_columns table r).

Lemma uuid_key_dec (m : gmap string DbDataValue) :
  match m !! UUID_KEY with Some (DbUuid _) | None => true | _ => false end = true →
  ∀ v, m !! UUID_KEY = Some v → ∃ u, v = DbUuid u.
Proof. intros Hm v Hv. rewrite Hv in Hm. destruct v; eauto; done. Qed.

Lemma message_row_fields_witness :
  ∃ c, message_row MESSAGE_TABLE [SOURCE; "Level"; "Nothing"]%string (message 1) = Some (Some (c, 0)) ∧
    ∀ f, c !! f = if bool_decide (f ∈ [SOURCE; "Level"; "Nothing"]%string)
                  then Some (match (columns_of MESSAGE_TABLE (message 1)).1 !! f with
                             | Some v => shown f v | None => EmptyString end) else None.
Proof.
  apply (message_row_fields MESSAGE_TABLE _ (message 1) _ (columns_of MESSAGE_TABLE (message 1)).2);
    [done|vm_cast_no_check (eq_refl (unit_columns MESSAGE_TABLE (message 1)))
    |apply uuid_key_dec; by vm_compute].
Defined.

Definition log_fields : list string := [SOURCE; OBJECT_LOG; SYSTEM_LOG; "ObjectId"]%string.
Lemma object_log_selected_witness :
  ∃ c, message_row "ObjectVRouter" log_fields (message 4) = Some (Some (c, 0)) ∧
    c !! OBJECT_LOG = Some "<xml/>"%string ∧ c !! SYSTEM_LOG = Some EmptyString ∧
    c !! "ObjectId"%string = Some "host"%string ∧ c !! "Level"%string = None.
Proof.
  destruct (object_log_selected "ObjectVRouter" log_fields (message 4)
    (columns_of "ObjectVRouter" (message 4)).1 "host" 4 "<xml/>" 5) as [(Hn & _)|(c & Hc & _ & Hl)];
    [done|vm_cast_no_check (eq_refl (unit_columns "ObjectVRouter" (message 4)))
    |done|by vm_compute|by vm_compute|by vm_compute
    |by apply (f_equal (λ o, match o with Some None => true | _ => false end)) in Hn; vm_compute in Hn|].
  exists c. split; [exact Hc|]. split_and!; rewrite Hl; vm_compute; reflexivity.
Defined.

(** Ids that were written in three rows; the query ends in the last of them. *)
Definition ids (t2 : Z) : list (Z * string) :=
  if t2 =? 10 then [(1, "a"); (5, "b")]%string
  else if t2 =? 11 then [(2, "c"); (7, "b"); (9, "d")]%string
  else if t2 =? 12 then [(1, "e")]%string else [].
Lemma ids_sorted t2 : StronglySorted (λ a b, a.1 <= b.1) (ids t2).
Proof. unfold ids. repeat case_match; repeat constructor; simpl; lia. Qed.
Definition object_main : sel_main := {|
  sm_table := OBJECT_VALUE_TABLE; sm_from := Z.shiftl 10 23 + 3; sm_end := Z.shiftl 12 23 + 7;
  sm_object_value_key := "ObjectVRouter"; sm_direction_ing := 1; sm_where_info := []
|}.
Definition object_select : SelectQuery := {|
  select_column_fields := [OBJECT_ID]; agg_stats := []; provide_timeseries := false; granularity := 0;
  unroll_needed := false; fs_query_type_ := 0; stats_ := None
|}.
Definition db_rows (l : list (list DbDataValue)) :
    option (list (list (list DbDataValue * list DbDataValue))) :=
  Some ((λ k, match k with DbU32 t2 :: _ => stored_row (ids t2) | _ => [] end) <$> l).
Lemma db_rows_stored l : db_rows ((λ t2, [DbU32 t2; DbString "ObjectVRouter"]) <$> l) =
  Some ((λ t2, stored_row (ids t2)) <$> l).
Proof. unfold db_rows. by rewrite <- list_fmap_compose. Qed.

Lemma object_query_result_witness :
  ∃ vs, select_process_query db_rows object_select object_main 0 =
      Some (SelSuccess ((λ v, ({[ OBJECT_ID := v ]}, 0)) <$> vs) []) ∧
    NoDup vs ∧ cpp_sorted String.ltb vs ∧
    ∀ v, v ∈ vs ↔ ∃ t2 t1, (t1, v) ∈ ids t2 ∧ t2_of (sm_from object_main) <= t2 < t2_of (sm_end object_main) ∧
      (t2 = t2_of (sm_from object_main) → t1_of (sm_from object_main) <= t1) ∧
      (t2 + 1 = t2_of (sm_end object_main) → t1 <= t1_of (sm_end object_main)).
Proof.
  apply (object_query_result db_rows object_select object_main ids); [done|..].
  - split; vm_compute; congruence.
  - by vm_compute.
  - apply ids_sorted.
  - apply db_rows_stored.
Defined.

(** The last row, which holds the id [e], is not read, and the id [d] of the
    row before it is cut off. *)
Example object_query_misses :
  select_process_query db_rows object_select object_main 0 =
  Some (SelSuccess ((λ v, ({[ OBJECT_ID := v ]}, 0)) <$> ["b"; "c"]%string) []).
Proof. by vm_compute. Qed.
End SelectExamples.
