(* ===== verification/StatWalker.v ===== *)
(** * Statistics samples of the collector: [Var] and [StatWalker]

    [contrail-collector/db_handler.h] (the values of a sample) and
    [contrail-collector/stat_walker.cc].  The rule engine walks the nested
    structures of a statistics message with [Push] and [Pop]; at every [Pop]
    the walker hands a sample to a function: the path of the node, its
    attributes, and the tags of the node and of all its ancestors. *)
From Stdlib Require Import Ascii.
From stdpp Require Import base tactics list strings gmap.
From Stdlib Require Import ZArith Lia Permutation SpecFloat.
From S2P Require Import Prelude.
From S2P Require Import CppString.
From S2P Require Import QueryTypes.
From S2P Require Import StatsSelect.
Local Open Scope Z_scope.
#[local] Set Warnings "-register-all".

(** ** The values of a sample *)

(** [DbHandler::Var]: the type with the one member that is meant. *)
Inductive Var :=
  | VarInvalid
  | VarU64 (num : Z)
  | VarString (str : string)
  | VarDouble (dbl : spec_float)
  | VarList (vec : list string)
  | VarMap (map : gmap string string).
#[export] Instance Var_eq_dec : EqDecision Var.
Proof. solve_decision. Defined.
Definition is_valid (v : Var) : bool := negb (bool_decide (v = VarInvalid)).

(** The member [str] of a value of any type. *)
Definition var_str (v : Var) : string := match v with VarString s => s | _ => EmptyString end.

Abbreviation AttribMap := (gmap string Var).

(** The entries of a [std::map], in the order of its iterators. *)
Definition entries {A} (m : gmap string A) : list (string * A) :=
  insertion_sort (λ a b, String.ltb a.1 b.1) (map_to_list m).

Lemma entries_perm {A} (m : gmap string A) : Permutation (map_to_list m) (entries m).
Proof. apply insertion_sort_perm. Qed.
Lemma elem_of_entries {A} (m : gmap string A) k v : (k, v) ∈ entries m ↔ m !! k = Some v.
Proof. rewrite <- entries_perm. apply elem_of_map_to_list. Qed.
Lemma entries_list_to_map {A} (m : gmap string A) : list_to_map (entries m) = m.
Proof.
  rewrite <- (list_to_map_to_list m) at 2. symmetry.
  apply list_to_map_proper; [apply NoDup_fst_map_to_list|apply entries_perm].
Qed.

(** [DbHandler::TagMap], a [std::multimap]: its entries in order. *)
Abbreviation TagMap := (list (string * (Var * AttribMap))).

(** [insert]: after the entries with the same key. *)
Fixpoint tag_insert (k : string) (x : Var * AttribMap) (m : TagMap) : TagMap :=
  match m with
  | [] => [(k, x)]
  | e :: m' => if String.ltb k e.1 then (k, x) :: m else e :: tag_insert k x m'
  end.
Definition tag_find (k : string) (m : TagMap) : option (Var * AttribMap) :=
  snd <$> List.find (λ e, (e.1 =? k)%string) m.
(** Update of the entry [find] returns. *)
Fixpoint tag_update (k : string) (f : AttribMap → AttribMap) (m : TagMap) : TagMap :=
  match m with
  | [] => []
  | e :: m' => if (e.1 =? k)%string then (e.1, (e.2.1, f e.2.2)) :: m' else e :: tag_update k f m'
  end.

(** ** The walker *)

(** [StatWalker::TagVal]. *)
Record TagVal := { tv_prefix : string * Var; tv_val : Var }.

(** [StatWalker::StatNode], and the walker's constant members with its stack;
    the last node is the innermost. *)
Record StatNode := { sn_name : string; sn_tags : gmap string TagVal; sn_attribs : AttribMap }.

(** A sample: the arguments of [fn_] that are not constant. *)
Record sample := { sm_attr : string; sm_tags : TagMap; sm_attribs : AttribMap }.

(** One step of the loops that join the names of the nodes. *)
Definition add_name (prename name : string) : string :=
  if (prename =? EmptyString)%string then name else prename +:+ "." +:+ name.
Definition path (nodes : list StatNode) : string :=
  foldl (λ p n, add_name p (sn_name n)) EmptyString nodes.

Definition qualify (prename k : string) : string := prename +:+ "." +:+ k.
(** The assertion on the local names. *)
Definition local_names {A} (m : gmap string A) : bool :=
  forallb (λ e, find e.1 "."%char 0 =? npos) (map_to_list m).

(** [Push]; [None]: an assertion fails. *)
Definition Push (name : string) (tags : gmap string TagVal) (attribs : AttribMap)
    (nodes_ : list StatNode) : option (list StatNode) :=
  let prename := add_name (path nodes_) name in
  if local_names tags && local_names attribs then
    Some (nodes_ ++ [{| sn_name := name; sn_tags := kmap (qualify prename) tags;
                        sn_attribs := kmap (qualify prename) attribs |}])
  else None.

(** [FillTag]. *)
Definition FillTag (attribs_tag : TagMap) (ti : string * TagVal) : TagMap :=
  let '(pname, pval, sname, sval) :=
    if is_valid (tv_prefix ti.2).2
    then ((tv_prefix ti.2).1, (tv_prefix ti.2).2, ti.1, tv_val ti.2)
    else (ti.1, tv_val ti.2, EmptyString, VarInvalid) in
  match tag_find pname attribs_tag with
  | None => tag_insert pname (pval, if is_valid sval then {[ sname := sval ]} else ∅) attribs_tag
  | Some _ => if is_valid sval then tag_update pname (map_insert_new sname sval) attribs_tag
              else attribs_tag
  end.

(** The tags of a sample, and the loop that makes them attributes too;
    [insert] keeps an attribute that is there. *)
Definition all_tags (top_tags_ : gmap string TagVal) (nodes_ : list StatNode) : list (string * TagVal) :=
  entries top_tags_ ++ concat ((λ n, entries (sn_tags n)) <$> nodes_).
Definition collect_tags (top_tags_ : gmap string TagVal) (nodes_ : list StatNode) : TagMap :=
  foldl FillTag [] (all_tags top_tags_ nodes_).
Definition insert_tag (attribs : AttribMap) (fi : string * (Var * AttribMap)) : AttribMap :=
  map_insert_new fi.1 fi.2.1 attribs ∪ fi.2.2.

(** [Pop]: the sample handed to [fn_], and the stack. *)
Definition Pop (top_tags_ : gmap string TagVal) (nodes_ : list StatNode)
  : option (sample * list StatNode) :=
  node ← last nodes_;
  let attribs_tag := collect_tags top_tags_ nodes_ in
  Some ({| sm_attr := path nodes_; sm_tags := attribs_tag;
           sm_attribs := foldl insert_tag (sn_attribs node) attribs_tag |},
        take (length nodes_ - 1) nodes_).

(** What a client does with a walker: the calls and the samples they make. *)
Inductive call := CallPush (name : string) (tags : gmap string TagVal) (attribs : AttribMap) | CallPop.
Definition walker_step (top_tags_ : gmap string TagVal) (c : call) (nodes_ : list StatNode)
  : option (list StatNode * list sample) :=
  match c with
  | CallPush name tags attribs => (λ ns, (ns, [])) <$> Push name tags attribs nodes_
  | CallPop => '(s, ns) ← Pop top_tags_ nodes_; Some (ns, [s])
  end.
Fixpoint run_calls (top_tags_ : gmap string TagVal) (l : list call) (nodes_ : list StatNode)
  : option (list StatNode * list sample) :=
  match l with
  | [] => Some (nodes_, [])
  | c :: l' =>
      '(ns, out) ← walker_step top_tags_ c nodes_;
      '(ns', out') ← run_calls top_tags_ l' ns;
      Some (ns', out ++ out')
  end.

(** ** Walking a tree *)

(** A nested structure with its tags and attributes, and the calls of a client
    that walks it. *)
Inductive stat_tree :=
  StatTree (name : string) (tags : gmap string TagVal) (attribs : AttribMap) (children : list stat_tree).

Section stat_tree_ind.
Variable (P : stat_tree → Prop).
Hypothesis (HP : ∀ name tags attribs children, Forall P children → P (StatTree name tags attribs children)).
Fixpoint stat_tree_ind' (t : stat_tree) : P t :=
  match t with
  | StatTree name tags attribs children =>
      HP name tags attribs children
        ((fix go (l : list stat_tree) : Forall P l :=
            match l with
            | [] => Forall_nil_2 P
            | t' :: l' => Forall_cons_2 P t' l' (stat_tree_ind' t') (go l')
            end) children)
  end.
End stat_tree_ind.

Fixpoint calls_of (t : stat_tree) : list call :=
  match t with
  | StatTree name tags attribs children =>
      CallPush name tags attribs :: concat (calls_of <$> children) ++ [CallPop]
  end.

(** No local name has a dot. *)
Fixpoint tree_local (t : stat_tree) : bool :=
  match t with
  | StatTree _ tags attribs children =>
      local_names tags && local_names attribs && forallb tree_local children
  end.

(** The samples of a tree: those of the children, then its own. *)
Definition node_of (nodes_ : list StatNode) (name : string) (tags : gmap string TagVal)
    (attribs : AttribMap) : StatNode :=
  let prename := add_name (path nodes_) name in
  {| sn_name := name; sn_tags := kmap (qualify prename) tags; sn_attribs := kmap (qualify prename) attribs |}.
Definition sample_of (top_tags_ : gmap string TagVal) (nodes_ : list StatNode) (node : StatNode) : sample :=
  {| sm_attr := path (nodes_ ++ [node]); sm_tags := collect_tags top_tags_ (nodes_ ++ [node]);
     sm_attribs := foldl insert_tag (sn_attribs node) (collect_tags top_tags_ (nodes_ ++ [node])) |}.
Fixpoint samples_in (top_tags_ : gmap string TagVal) (nodes_ : list StatNode) (t : stat_tree)
  : list sample :=
  match t with
  | StatTree name tags attribs children =>
      let node := node_of nodes_ name tags attribs in
      concat (samples_in top_tags_ (nodes_ ++ [node]) <$> children) ++ [sample_of top_tags_ nodes_ node]
  end.

Section walk.
Context (top_tags_ : gmap string TagVal).
Abbreviation run := (run_calls top_tags_).

Lemma run_calls_app l1 l2 ns ns1 out1 : run l1 ns = Some (ns1, out1) →
  run (l1 ++ l2) ns = '(ns2, out2) ← run l2 ns1; Some (ns2, out1 ++ out2).
Proof.
  revert ns out1. induction l1 as [|c l1 IH]; intros ns out1; simpl.
  - intros [= -> <-]. by destruct (run l2 ns1) as [[]|].
  - destruct (walker_step top_tags_ c ns) as [[ns' out]|]; simpl; [|done].
    destruct (run l1 ns') as [[ns'' out']|] eqn:E; simpl; [|done].
    intros [= -> <-]. rewrite (IH _ _ E). destruct (run l2 ns1) as [[]|]; simpl; [|done].
    by rewrite (assoc_L (++)).
Qed.

Lemma run_calls_concat {A} (f : A → list call) (g : A → list sample) l ns :
  Forall (λ x, run (f x) ns = Some (ns, g x)) l →
  run (concat (f <$> l)) ns = Some (ns, concat (g <$> l)).
Proof.
  induction 1 as [|x l Hx _ IH]; [done|]. rewrite !fmap_cons. simpl concat.
  by rewrite (run_calls_app _ _ _ _ _ Hx), IH.
Qed.

Lemma Pop_node ns node : Pop top_tags_ (ns ++ [node]) = Some (sample_of top_tags_ ns node, ns).
Proof.
  unfold Pop. rewrite last_snoc. simpl. rewrite List.length_app, Nat.add_sub. by rewrite take_app_length.
Qed.

Lemma walk_tree t ns : tree_local t = true →
  run (calls_of t) ns = Some (ns, samples_in top_tags_ ns t).
Proof.
  revert ns. induction t as [name tags attribs children IH] using stat_tree_ind'. intros ns.
  cbn [tree_local calls_of samples_in]. intros [Hl Hc]%andb_true_iff.
  set (node := node_of ns name tags attribs).
  assert (run (concat (calls_of <$> children)) (ns ++ [node]) =
    Some (ns ++ [node], concat (samples_in top_tags_ (ns ++ [node]) <$> children))) as Hrun.
  { apply run_calls_concat. rewrite forallb_forall in Hc. rewrite Forall_forall in IH |- *.
    intros t Ht. apply IH; [done|]. by apply Hc, list_elem_of_In. }
  cbn [run_calls walker_step]. unfold Push. rewrite Hl. cbn [fmap option_fmap option_map mbind option_bind].
  fold (node_of ns name tags attribs). fold node.
  rewrite (run_calls_app _ _ _ _ _ Hrun). simpl. by rewrite Pop_node.
Qed.

(** Walking a nested structure makes one sample for every node of it, the
    children of a node before it, each with the path of its node, its
    attributes and the tags on the path; no assertion fails and the stack is
    as it was. *)
Theorem walk_samples t ns : tree_local t = true →
  run (calls_of t) ns = Some (ns, samples_in top_tags_ ns t).
Proof. apply walk_tree. Qed.
End walk.

(** ** The attributes of a sample *)

(** The values a tag brings. *)
Definition tag_values (ti : string * TagVal) : list (string * Var) :=
  if is_valid (tv_prefix ti.2).2
  then tv_prefix ti.2 :: (if is_valid (tv_val ti.2) then [(ti.1, tv_val ti.2)] else [])
  else [(ti.1, tv_val ti.2)].

(** The values of a [DbHandler::TagMap]. *)
Definition flat (m : TagMap) : list (string * Var) :=
  concat ((λ e, (e.1, e.2.1) :: map_to_list e.2.2) <$> m).

Lemma elem_of_flat k v m : (k, v) ∈ flat m ↔
  ∃ pname pval amap, (pname, (pval, amap)) ∈ m ∧ ((k = pname ∧ v = pval) ∨ amap !! k = Some v).
Proof.
  unfold flat. rewrite list_elem_of_In, in_concat. split.
  - intros (l & Hl & Hk). apply list_elem_of_In, list_elem_of_fmap in Hl as ([pname [pval amap]] & -> & Hin).
    apply list_elem_of_In, elem_of_cons in Hk. exists pname, pval, amap. split; [done|].
    destruct Hk as [[= -> ->]|Hk]; [by left|right]. by apply elem_of_map_to_list in Hk.
  - intros (pname & pval & amap & Hin & Hk). eexists. split.
    + apply list_elem_of_In, list_elem_of_fmap. by eexists (_, (_, _)).
    + apply list_elem_of_In. simpl. destruct Hk as [[-> ->]|Hk]; [by left|right]. by apply elem_of_map_to_list.
Qed.

Lemma elem_of_tag_insert e k x m : e ∈ tag_insert k x m ↔ e = (k, x) ∨ e ∈ m.
Proof.
  induction m as [|e' m IH]; simpl; [set_solver|]. case_match; [set_solver|].
  rewrite elem_of_cons, IH. set_solver.
Qed.

Lemma tag_find_In k m x : tag_find k m = Some x → (k, x) ∈ m.
Proof.
  unfold tag_find. intros ([k' x'] & Hf & ->)%fmap_Some. apply find_some in Hf as [Hin Hk].
  apply String.eqb_eq in Hk. simpl in *. subst. by apply list_elem_of_In.
Qed.

Lemma tag_update_split k f m x : tag_find k m = Some x →
  ∃ m1 m2, m = m1 ++ (k, x) :: m2 ∧ tag_update k f m = m1 ++ (k, (x.1, f x.2)) :: m2.
Proof.
  unfold tag_find. induction m as [|[k' x'] m IH]; simpl; [done|].
  destruct (k' =? k)%string eqn:E; simpl.
  - apply String.eqb_eq in E as ->. intros [= ->]. by exists [], m.
  - intros Hf. destruct (IH Hf) as (m1 & m2 & -> & ->). by exists ((k', x') :: m1), m2.
Qed.

(** What a tag is inserted as: a value with one below it. *)
Definition put_tag (pname : string) (pval : Var) (sname : string) (sval : Var) (m : TagMap) : TagMap :=
  match tag_find pname m with
  | None => tag_insert pname (pval, if is_valid sval then {[ sname := sval ]} else ∅) m
  | Some _ => if is_valid sval then tag_update pname (map_insert_new sname sval) m else m
  end.

Lemma flat_app m1 m2 : flat (m1 ++ m2) = flat m1 ++ flat m2.
Proof. unfold flat. by rewrite fmap_app, concat_app. Qed.
Lemma flat_cons pname pval amap m : flat ((pname, (pval, amap)) :: m) = (pname, pval) :: map_to_list amap ++ flat m.
Proof. done. Qed.

Lemma flat_split m1 pname pval amap m2 k v : (k, v) ∈ flat (m1 ++ (pname, (pval, amap)) :: m2) ↔
  (k, v) ∈ flat (m1 ++ m2) ∨ (k = pname ∧ v = pval) ∨ amap !! k = Some v.
Proof.
  rewrite !flat_app, flat_cons, !elem_of_app, elem_of_cons, elem_of_app, elem_of_map_to_list.
  split; [intros [?|[[= -> ->]|[?|?]]]; auto|intros [[?|?]|[[-> ->]|?]]; auto].
Qed.

Lemma flat_insert pname pval amap m k v : (k, v) ∈ flat (tag_insert pname (pval, amap) m) ↔
  (k, v) ∈ flat m ∨ (k = pname ∧ v = pval) ∨ amap !! k = Some v.
Proof.
  induction m as [|[pn [pv am]] m IH]; [apply (flat_split [] pname pval amap [])|].
  cbn [tag_insert]. case_match.
  - apply (flat_split [] pname pval amap).
  - rewrite !flat_cons, !elem_of_cons, !elem_of_app, IH. tauto.
Qed.

Lemma put_tag_values pname pval sname sval m k v : (k, v) ∈ flat (put_tag pname pval sname sval m) →
  (k, v) ∈ flat m ∨ (k = pname ∧ v = pval) ∨ (is_valid sval = true ∧ k = sname ∧ v = sval).
Proof.
  unfold put_tag. destruct (tag_find pname m) as [[pv amap]|] eqn:Ef.
  - destruct (is_valid sval); [|by left].
    destruct (tag_update_split _ (map_insert_new sname sval) _ _ Ef) as (m1 & m2 & -> & ->). simpl.
    rewrite !flat_split, lookup_map_insert_new. destruct (decide (sname = k)) as [->|]; [|naive_solver].
    destruct (amap !! k) eqn:E; simpl; naive_solver.
  - rewrite flat_insert. destruct (is_valid sval).
    + rewrite lookup_singleton_Some. naive_solver.
    + rewrite lookup_empty. naive_solver.
Qed.

Definition names (l : list (string * Var)) : list string := l.*1.
Lemma elem_of_names k l : k ∈ names l ↔ ∃ v, (k, v) ∈ l.
Proof.
  unfold names. rewrite list_elem_of_fmap. split; [intros ([? v] & -> & ?); eauto|].
  intros (v & Hv). by exists (k, v).
Qed.

Lemma put_tag_names pname pval sname sval m k :
  k ∈ names (flat (put_tag pname pval sname sval m)) ↔
  k ∈ names (flat m) ∨ k = pname ∨ (is_valid sval = true ∧ k = sname).
Proof.
  split.
  { rewrite !elem_of_names. intros (v & Hv). apply put_tag_values in Hv as [Hv|[[-> _]|(? & -> & _)]]; eauto. }
  rewrite !elem_of_names. unfold put_tag. destruct (tag_find pname m) as [[pv amap]|] eqn:Ef.
  - assert ((pname, pv) ∈ flat m) as Hp.
    { apply elem_of_flat. exists pname, pv, amap. split; [by apply tag_find_In|by left]. }
    destruct (is_valid sval); [|intros [?|[->|[? _]]]; eauto; done].
    destruct (tag_update_split _ (map_insert_new sname sval) _ _ Ef) as (m1 & m2 & -> & ->). simpl.
    setoid_rewrite flat_split. setoid_rewrite lookup_map_insert_new.
    intros [(v & Hv)|[->|[_ ->]]].
    + destruct (decide (sname = k)) as [->|]; [|naive_solver].
      destruct (amap !! k) eqn:E; simpl; naive_solver.
    + naive_solver.
    + exists (default sval (amap !! sname)). rewrite decide_True by done. naive_solver.
  - setoid_rewrite flat_insert. destruct (is_valid sval).
    + setoid_rewrite lookup_singleton_Some. naive_solver.
    + naive_solver.
Qed.

Lemma FillTag_put m ti : FillTag m ti =
  if is_valid (tv_prefix ti.2).2 then put_tag (tv_prefix ti.2).1 (tv_prefix ti.2).2 ti.1 (tv_val ti.2) m
  else put_tag ti.1 (tv_val ti.2) EmptyString VarInvalid m.
Proof. unfold FillTag. by destruct (is_valid (tv_prefix ti.2).2). Qed.

(** A tag brings no other values than its own, and its names are there
    afterwards, with those that were. *)
Lemma FillTag_values m ti k v : (k, v) ∈ flat (FillTag m ti) → (k, v) ∈ flat m ∨ (k, v) ∈ tag_values ti.
Proof.
  rewrite FillTag_put. unfold tag_values. destruct ti as [n [[pn pv] v']]. simpl.
  destruct (is_valid pv); intros H%put_tag_values; [|set_solver].
  destruct H as [?|[[-> ->]|(Hv & -> & ->)]]; [set_solver..|]. rewrite Hv. set_solver.
Qed.
Lemma FillTag_names m ti k : k ∈ names (flat (FillTag m ti)) ↔ k ∈ names (flat m) ∨ k ∈ names (tag_values ti).
Proof.
  rewrite FillTag_put. unfold tag_values. destruct ti as [n [[pn pv] v']]. simpl.
  destruct (is_valid pv); rewrite put_tag_names; simpl; [|set_solver].
  destruct (is_valid v'); simpl; set_solver.
Qed.

Definition values (tags : list (string * TagVal)) : list (string * Var) := concat (tag_values <$> tags).

Lemma collect_values tags m k v : (k, v) ∈ flat (foldl FillTag m tags) → (k, v) ∈ flat m ∨ (k, v) ∈ values tags.
Proof.
  revert m. induction tags as [|ti tags IH]; intros m; simpl; [by left|].
  intros [[?|?]%FillTag_values|?]%IH; unfold values in *; simpl; set_solver.
Qed.
Lemma collect_names tags m k :
  k ∈ names (flat (foldl FillTag m tags)) ↔ k ∈ names (flat m) ∨ k ∈ names (values tags).
Proof.
  revert m. induction tags as [|ti tags IH]; intros m; simpl; [set_solver|].
  rewrite IH, FillTag_names. unfold values, names in *. simpl. rewrite fmap_app. set_solver.
Qed.

(** Making the tags attributes keeps what is there. *)
Lemma insert_tag_spec a pn pv am k v : insert_tag a (pn, (pv, am)) !! k = Some v →
  a !! k = Some v ∨ (a !! k = None ∧ ((k = pn ∧ v = pv) ∨ am !! k = Some v)).
Proof.
  unfold insert_tag. simpl. rewrite lookup_union_Some_raw, lookup_map_insert_new.
  destruct (decide (pn = k)) as [->|]; [|naive_solver].
  destruct (a !! k) eqn:E; simpl; naive_solver.
Qed.
Lemma insert_tag_names a pn pv am k : is_Some (insert_tag a (pn, (pv, am)) !! k) ↔
  is_Some (a !! k) ∨ k = pn ∨ is_Some (am !! k).
Proof.
  unfold insert_tag. simpl. rewrite lookup_union_is_Some, lookup_map_insert_new.
  destruct (decide (pn = k)) as [->|]; [|naive_solver]. split; [|intros _; left]; eauto.
Qed.

Lemma insert_tags_values m a k v : foldl insert_tag a m !! k = Some v →
  a !! k = Some v ∨ (a !! k = None ∧ (k, v) ∈ flat m).
Proof.
  revert a. induction m as [|[pn [pv am]] m IH]; intros a; [by left|].
  cbn [foldl]. rewrite flat_cons, elem_of_cons, elem_of_app, elem_of_map_to_list.
  intros [Hk|[Hn Hk]]%IH.
  - apply insert_tag_spec in Hk as [?|[? [[-> ->]|?]]]; auto.
  - right. split; [|auto]. apply eq_None_not_Some. intros Ha.
    apply eq_None_not_Some in Hn. apply Hn, insert_tag_names. by left.
Qed.
Lemma insert_tags_names m a k : is_Some (foldl insert_tag a m !! k) ↔ is_Some (a !! k) ∨ k ∈ names (flat m).
Proof.
  revert a. induction m as [|[pn [pv am]] m IH]; intros a; [simpl; set_solver|].
  cbn [foldl]. rewrite IH, insert_tag_names. unfold names. rewrite flat_cons, fmap_cons, fmap_app.
  rewrite elem_of_cons, elem_of_app. simpl.
  assert (k ∈ (map_to_list am).*1 ↔ is_Some (am !! k)) as ->; [|tauto].
  rewrite elem_of_names. setoid_rewrite elem_of_map_to_list. done.
Qed.
Lemma insert_tags_keep m a k v : a !! k = Some v → foldl insert_tag a m !! k = Some v.
Proof.
  intros Ha. destruct (foldl insert_tag a m !! k) as [w|] eqn:E.
  - apply insert_tags_values in E as [?|[? _]]; congruence.
  - apply eq_None_not_Some in E. destruct E. apply insert_tags_names. left. by exists v.
Qed.

(** The sample of a node has the attributes of the node with the values
    they have, and besides them exactly the names of the tags of the walker, of
    the node and of its ancestors, each with a value one of those tags has; the
    tags that select the sample are the same.  An attribute wins over a tag of
    the same name. *)
Theorem sample_attributes top_tags_ ns node :
  let s := sample_of top_tags_ ns node in
  let tags := values (all_tags top_tags_ (ns ++ [node])) in
  sm_attr s = path (ns ++ [node]) ∧
  (∀ k v, sn_attribs node !! k = Some v → sm_attribs s !! k = Some v) ∧
  (∀ k, is_Some (sm_attribs s !! k) ↔ is_Some (sn_attribs node !! k) ∨ k ∈ names tags) ∧
  (∀ k v, sm_attribs s !! k = Some v → sn_attribs node !! k = None → (k, v) ∈ tags) ∧
  (∀ k, k ∈ names (flat (sm_tags s)) ↔ k ∈ names tags) ∧
  (∀ k v, (k, v) ∈ flat (sm_tags s) → (k, v) ∈ tags).
Proof.
  intros s tags. unfold s, sample_of. simpl. unfold collect_tags.
  assert (∀ k, k ∈ names (flat (foldl FillTag [] (all_tags top_tags_ (ns ++ [node])))) ↔ k ∈ names tags) as Hn.
  { intros k. rewrite collect_names. unfold tags, names, flat. simpl. set_solver. }
  assert (∀ k v, (k, v) ∈ flat (foldl FillTag [] (all_tags top_tags_ (ns ++ [node]))) → (k, v) ∈ tags) as Hv.
  { intros k v [Hk|?]%collect_values; [by apply not_elem_of_nil in Hk|done]. }
  split; [done|]. split; [intros k v; apply insert_tags_keep|].
  split; [intros k; by rewrite insert_tags_names, Hn|].
  split; [|split; [exact Hn|exact Hv]].
  intros k v [?|[_ ?]]%insert_tags_values ?; [congruence|by apply Hv].
Qed.

(** ** Examples *)

Module WalkerExamples.
Definition plain (v : Var) : TagVal := {| tv_prefix := (EmptyString, VarInvalid); tv_val := v |}.
Definition below (p : string) (pv v : Var) : TagVal := {| tv_prefix := (p, pv); tv_val := v |}.

(** An interface statistic with two flows below it. *)
Definition flow (proto : Z) : stat_tree :=
  StatTree "flows" {[ "proto"%string := below "vif.name" (VarString "eth0") (VarU64 proto) ]}
    {[ "bytes"%string := VarU64 (100 * proto) ]} [].
Definition tree : stat_tree :=
  StatTree "vif" {[ "name"%string := plain (VarString "eth0") ]} {[ "mtu"%string := VarU64 1500 ]}
    [flow 6; flow 17].
Definition top : gmap string TagVal := {[ "Source"%string := plain (VarString "host1") ]}.

Definition summary (s : sample) : string * list string := (sm_attr s, (entries (sm_attribs s)).*1).
Example tree_samples :
  option_map (λ p, summary <$> p.2) (run_calls top (calls_of tree) []) =
  Some ([("vif.flows", ["Source"; "vif.flows.bytes"; "vif.flows.proto"; "vif.name"]);
             ("vif.flows", ["Source"; "vif.flows.bytes"; "vif.flows.proto"; "vif.name"]);
             ("vif", ["Source"; "vif.mtu"; "vif.name"])]%string).
Proof. by vm_compute. Qed.

Lemma walk_samples_witness :
  run_calls top (calls_of tree) [] = Some ([], samples_in top [] tree).
Proof. apply walk_samples. by vm_compute. Defined.
End WalkerExamples.
