(* ===== verification/DomStats.v ===== *)
(** * Statistics in XML messages: the walkers of the rule engine

    [contrail-collector/ruleeng.cc], [ParseNodeImpl] to [DomTopStatWalker].  A
    structure or list with a [tags] annotation holds statistics.  The rule
    engine walks it: for every element it parses the tags and the attributes,
    pushes them on a [StatWalker], walks the annotated parts below the element
    and pops, which inserts a sample.  The walk is shown to insert the samples
    of the nested structure ([dom_tree]) the document holds. *)
From Stdlib Require Import Ascii.
From stdpp Require Import base tactics list strings gmap.
From Stdlib Require Import ZArith Lia SpecFloat.
From S2P Require Import Prelude.
From S2P Require Import CppString.
From S2P Require Import VizConstants.
From S2P Require Import StatsSelect.
From S2P Require Import WhereQuery.
From S2P Require Import StatWalker.
From S2P Require Import Xml.
Local Open Scope Z_scope.

Definition STAT_KEY_FIELD : string := "__key".
Definition STAT_VALUE_FIELD : string := "__value".

(** ** Values *)

(** [ElemVar] and [ElemT]: a structure or a value, and its key in a map. *)
Inductive ElemVar := ElemNode (node : handle) | ElemValue (v : Var).
Abbreviation ElemT := (ElemVar * string)%type.
(** [elem_chain]: the names and elements from the message down. *)
Abbreviation chain := (list (string * ElemT)).

Section parse.
Context `{XmlForms, Strtod}.

(** The text of a node without the escapes. *)
Definition unescaped (h : handle) : string := unescapeXMLControlChars (child_value h).

(** The pairs of a map: keys and values alternate. *)
Fixpoint map_pairs (l : list xml_node) (m : gmap string string) : gmap string string :=
  match l with
  | k :: v :: l' => map_pairs l' (map_insert_new (child_value (Some k)) (child_value (Some v)) m)
  | [k] => map_insert_new (child_value (Some k)) EmptyString m
  | [] => m
  end.

(** [ParseNodeImpl]; [None]: it returns false. *)
Definition ParseNodeImpl (attype : string) (node : handle) : option Var :=
  if (attype =? "string")%string then Some (VarString (unescaped node))
  else if (attype =? "double")%string then Some (VarDouble (strtod (child_value node)))
  else if (attype =? "u16")%string || (attype =? "u32")%string || (attype =? "u64")%string then
    Some (VarU64 (strtoul (child_value node)))
  else if (attype =? "set")%string || (attype =? "list")%string then
    let set := child node attype in
    if (attribute_value set "type" =? "string")%string
    then Some (VarList ((λ e, unescaped (Some e)) <$> children set)) else None
  else if (attype =? "map")%string then
    let map_node := child node "map" in
    if (attribute_value map_node "key" =? "string")%string &&
       (attribute_value map_node "value" =? "string")%string
    then Some (VarMap (map_pairs (children map_node) ∅)) else None
  else None.

(** [ParseNode]. *)
Definition ParseNode (node : handle) : Var :=
  match node with
  | None => VarInvalid
  | Some _ => default VarInvalid (ParseNodeImpl (attribute_value node "type") node)
  end.

(** ** Elements *)

(** [DomChildVisitor] with [GetResult]. *)
Definition elem_child (ev : ElemVar) (sub : string) : handle :=
  match ev with ElemNode node => child node sub | ElemValue _ => None end.

(** An element of a list or a map of type [ltype]. *)
Definition list_elem (ltype key : string) (elem : xml_node) : option ElemT :=
  if (ltype =? "struct")%string then Some (ElemNode (Some elem), key)
  else (λ v, (ElemValue v, key)) <$> ParseNodeImpl ltype (Some elem).
Fixpoint map_elems (ltype : string) (l : list xml_node) : option (list ElemT) :=
  match l with
  | k :: v :: l' =>
      e ← list_elem ltype (unescaped (Some k)) v;
      es ← map_elems ltype l';
      Some (e :: es)
  | _ => Some []
  end.

(** [DomValidElems]; [None]: it returns false. *)
Definition DomValidElems (node : handle) : option (list ElemT) :=
  let type := attribute_value node "type" in
  if (type =? "list")%string then
    let subs := child node "list" in
    mapM (list_elem (attribute_value subs "type") EmptyString) (children subs)
  else if (type =? "struct")%string then Some [(ElemNode (first_child node), EmptyString)]
  else if (type =? "map")%string then
    let subs := child node "map" in
    map_elems (attribute_value subs "value") (children subs)
  else None.

(** ** Tags *)

(** The terms between the commas, and the prefix and suffix of a term. *)
Fixpoint tag_terms (s : string) : list string :=
  match s with
  | EmptyString => [EmptyString]
  | String c s' =>
      if (c =? ",")%char then EmptyString :: tag_terms s'
      else match tag_terms s' with t :: l => String c t :: l | [] => [String c EmptyString] end
  end.
Definition split_term (term : string) : string * string :=
  let spos := find term ":"%char 0 in
  if spos =? npos then (EmptyString, term)
  else (default EmptyString (substr term 0 spos), default EmptyString (substr term (spos + 1) npos)).
Definition first_is_dot (s : string) : bool :=
  match s with String c _ => (c =? ".")%char | EmptyString => false end.

(** [ParseDomTags] for the top-level tags of a statistics attribute.
    [None]: it returns false. *)
Definition top_term (acc : option (list string)) (term : string) : option (list string) :=
  toptags ← acc;
  let '(pterm, sterm) := split_term term in
  if (sterm =? EmptyString)%string then None
  else if first_is_dot sterm then Some toptags
  else if (pterm =? EmptyString)%string then Some (toptags ++ [sterm]) else None.
Definition ParseTopTags (tstr : string) : option (list string) :=
  if (tstr =? EmptyString)%string then Some [] else foldl top_term (Some []) (tag_terms tstr).

(** The value of the field [f] of the element at [idx]; [None]: it has none. *)
Definition elem_field (elem_chain : chain) (idx : nat) (f : string) : option Var :=
  '(_, (ev, key)) ← elem_chain !! idx;
  if (f =? STAT_KEY_FIELD)%string then Some (VarString key)
  else match elem_child ev f with
       | Some n => Some (ParseNode (Some n))
       | None => None
       end.

(** The full name of a prefix: its element's names and its own. *)
Definition prefix_name (elem_chain : chain) (idx : nat) (pterm : string) : string :=
  let pname := foldl (λ p e, add_name p e.1) EmptyString (take idx (drop 1 elem_chain)) in
  if first_is_dot pterm then pname +:+ pterm else add_name pname pterm.

(** [ParseDomTags] for the tags of an element, the last of the chain. *)
Definition elem_term (elem_chain : chain) (acc : option (gmap string TagVal)) (term : string)
  : option (gmap string TagVal) :=
  tagmap ← acc;
  let '(pterm, sterm) := split_term term in
  match sterm with
  | EmptyString => None
  | String c sname =>
      if negb (c =? ".")%char then Some tagmap
      else
        let sz := length elem_chain in
        val ← elem_field elem_chain (sz - 1) sname;
        prefix ← (if (pterm =? EmptyString)%string then Some (EmptyString, VarInvalid)
                  else
                    let idx := (if first_is_dot pterm then sz - 1 else sz - 2)%nat in
                    let pattr := default EmptyString (substr pterm (u64 (find_last_of pterm "."%char + 1)) npos) in
                    pv ← elem_field elem_chain idx pattr;
                    Some (prefix_name elem_chain idx pterm, pv));
        Some (map_insert_new sname {| tv_prefix := prefix; tv_val := val |} tagmap)
  end.
Definition ParseDomTags (tstr : string) (elem_chain : chain) : option (gmap string TagVal) :=
  if (tstr =? EmptyString)%string then Some ∅ else foldl (elem_term elem_chain) (Some ∅) (tag_terms tstr).

(** ** The walk of an element *)

(** [DomStatVisitor]: the attributes, and the elements of the parts with an
    annotation. *)
Definition visit_attr (acc : AttribMap * gmap string (string * list ElemT)) (sattr : xml_node)
  : AttribMap * gmap string (string * list ElemT) :=
  let '(attribs, elem_map) := acc in
  let h := Some sattr in
  match ParseNode h with
  | VarInvalid =>
      match attribute h "tags", DomValidElems h with
      | Some tags, Some elem_list => (attribs, <[name h := (tags, elem_list)]> elem_map)
      | _, _ => (attribs, elem_map)
      end
  | sample => (map_insert_new (name h) sample attribs, elem_map)
  end.
Definition DomStatVisitor (ev : ElemVar) : AttribMap * gmap string (string * list ElemT) :=
  match ev with
  | ElemNode node => foldl visit_attr (∅, ∅) (children node)
  | ElemValue v => ({[ STAT_VALUE_FIELD := v ]}, ∅)
  end.

(** The attributes with the key of the element, and what is below it: the name,
    the tags and the element, in the order of the names. *)
Definition elem_attribs (ev : ElemVar) (node_key : string) : AttribMap :=
  if (node_key =? EmptyString)%string then (DomStatVisitor ev).1
  else map_insert_new STAT_KEY_FIELD (VarString node_key) (DomStatVisitor ev).1.
Definition below (ev : ElemVar) : list (string * string * ElemT) :=
  concat ((λ e : string * (string * list ElemT), (λ x : ElemT, (e.1, e.2.1, x)) <$> e.2.2) <$>
          entries (DomStatVisitor ev).2).

Section walk.
Context {S : Type} (top_tags_ : gmap string TagVal) (fn_ : sample → S → S).

(** [DomStatWalker]: the value it returns, with the walker's stack and the
    state the samples are inserted into; [None]: an assertion of the walker
    fails.  The recursion goes down the document, so that its depth is enough
    fuel. *)
Fixpoint DomStatWalker (fuel : nat) (tstr : string) (elem_chain : chain) (sw : list StatNode * S)
  : option (bool * (list StatNode * S)) :=
  match fuel, last elem_chain with
  | O, _ | _, None => None
  | Datatypes.S fuel, Some (node_name, (ev, node_key)) =>
      match ParseDomTags tstr elem_chain with
      | None => Some (false, sw)
      | Some tagmap =>
          nodes_ ← Push node_name tagmap (elem_attribs ev node_key) sw.1;
          sw ← foldl (λ acc (e : string * string * ElemT),
                        sw ← acc; snd <$> DomStatWalker fuel e.1.2 (elem_chain ++ [(e.1.1, e.2)]) sw)
                 (Some (nodes_, sw.2)) (below ev);
          '(s, nodes_) ← Pop top_tags_ sw.1;
          Some (true, (nodes_, fn_ s sw.2))
      end
  end.
End walk.

(** The nested structure an element of the document stands for; [None]: its
    tags are refused. *)
Fixpoint dom_tree (fuel : nat) (tstr : string) (elem_chain : chain) : option stat_tree :=
  match fuel, last elem_chain with
  | O, _ | _, None => None
  | S fuel, Some (node_name, (ev, node_key)) =>
      tagmap ← ParseDomTags tstr elem_chain;
      Some (StatTree node_name tagmap (elem_attribs ev node_key)
              (omap (λ e, dom_tree fuel e.1.2 (elem_chain ++ [(e.1.1, e.2)])) (below ev)))
  end.

(** ** A statistics attribute of a message *)

(** The tags on the top level: those given and the fields the annotation
    names. *)
Definition no_prefix (v : Var) : TagVal := {| tv_prefix := (EmptyString, VarInvalid); tv_val := v |}.
Definition top_tags (object : handle) (toptags : list string) (tmap : gmap string TagVal) : gmap string TagVal :=
  foldl (λ m t, map_insert_new t (no_prefix (ParseNode (child object t))) m) tmap toptags.

(** [DomTopStatWalker]: the value it returns, and the state the samples are
    inserted into. *)
Definition object_chain (object : handle) : chain := [(name object, (ElemNode object, EmptyString))].
Definition walk_fuel (node : handle) : nat := S (depth_of node).
Definition DomTopStatWalker {S} (fn_ : sample → S → S) (object node : handle) (tmap : gmap string TagVal)
    (st : S) : option (bool * S) :=
  match DomValidElems node with
  | None => Some (false, st)
  | Some elem_list =>
      let tstr := attribute_value node "tags" in
      match ParseTopTags tstr with
      | None => Some (false, st)
      | Some toptags =>
          let m1 := top_tags object toptags tmap in
          sw ← foldl (λ acc (e : ElemT), sw ← acc;
                        snd <$> DomStatWalker m1 fn_ (walk_fuel node) tstr
                                  (object_chain object ++ [(name node, e)]) sw)
                 (Some ([], st)) elem_list;
          Some (true, sw.2)
      end
  end.
End parse.

(** ** What is below an element *)

(** Induction by two elements. *)
Lemma pairs_ind {A} (P : list A → Prop) :
  P [] → (∀ x, P [x]) → (∀ x y l, P l → P (x :: y :: l)) → ∀ l, P l.
Proof.
  intros H0 H1 HSS l. enough (P l ∧ ∀ x, P (x :: l)) by tauto. induction l as [|y l [IH1 IH2]]; auto.
Qed.

Lemma elem_of_concat {A} (x : A) ll : x ∈ concat ll ↔ ∃ l, l ∈ ll ∧ x ∈ l.
Proof.
  rewrite list_elem_of_In, in_concat. setoid_rewrite list_elem_of_In. done.
Qed.

Section below.
Context `{XmlForms, Strtod}.

(** A node one or two levels down. *)
Definition under (h : handle) (n : xml_node) : Prop :=
  n ∈ children h ∨ ∃ c, c ∈ children h ∧ n ∈ children (Some c).
(** An element of [h]: a node under it, an empty handle or a value. *)
Definition elem_of_handle (h : handle) (ev : ElemVar) : Prop :=
  match ev with ElemNode (Some n) => under h n | _ => True end.

Lemma list_elem_of_handle h c ltype key x e : under h x → list_elem ltype key x = Some e →
  c = e.1 → elem_of_handle h c.
Proof.
  unfold list_elem. intros Hx He ->. case_match; [by injection He as <-|].
  by destruct (ParseNodeImpl ltype (Some x)); [injection He as <-|].
Qed.

Lemma map_elems_list ltype l es e : map_elems ltype l = Some es → e ∈ es →
  ∃ k v, k ∈ l ∧ v ∈ l ∧ list_elem ltype (unescaped (Some k)) v = Some e.
Proof.
  revert es. induction l as [|k|k v l IH] using pairs_ind; simpl; intros es Hes He; simplify_option_eq; [by apply elem_of_nil in He..|].
  apply elem_of_cons in He as [->|He].
  - exists k, v. split; [by left|]. split; [right; by left|]. done.
  - destruct (IH _ eq_refl He) as (k' & v' & ? & ? & ?). exists k', v'. set_solver.
Qed.

Lemma valid_elems_under h l e : DomValidElems h = Some l → e ∈ l → elem_of_handle h e.1.
Proof.
  assert (∀ s n, n ∈ children (child h s) → under h n) as Hsub.
  { intros s n Hn. destruct (child h s) as [c|] eqn:Ec; [|by apply elem_of_nil in Hn].
    apply child_Some in Ec as [Hc _]. right. eauto. }
  unfold DomValidElems. intros Hl He. repeat case_match; try done.
  - apply mapM_Some in Hl. apply list_elem_of_lookup in He as [i He].
    destruct (Forall2_lookup_r _ _ _ _ _ Hl He) as (x & Hx & Hxe). apply list_elem_of_lookup_2 in Hx.
    by eapply list_elem_of_handle; [apply (Hsub "list"%string)|exact Hxe|].
  - injection Hl as <-. apply list_elem_of_singleton in He as ->. simpl.
    destruct (first_child h) as [n|] eqn:E; [|done]. left. by apply head_elem.
  - destruct (map_elems_list _ _ _ _ Hl He) as (k & v & _ & Hv & Hve).
    by eapply list_elem_of_handle; [apply (Hsub "map"%string)|exact Hve|].
Qed.

(** The parts the visitor collects are children of the node, under their names. *)
Lemma visit_attr_parts l acc k tags es : (foldl visit_attr acc l).2 !! k = Some (tags, es) →
  acc.2 !! k = Some (tags, es) ∨
  ∃ c, c ∈ l ∧ node_name c = k ∧ attribute (Some c) "tags" = Some tags ∧ DomValidElems (Some c) = Some es.
Proof.
  revert acc. induction l as [|c l IH]; intros acc; simpl; [by left|].
  intros [Hk|(c' & Hc & Hr)]%IH; [|right; exists c'; split; [by right|done]].
  destruct acc as [attribs em]. unfold visit_attr in Hk. cbn [snd] in *.
  destruct (ParseNode (Some c)); try (by left).
  destruct (attribute (Some c) "tags") as [t|] eqn:Et; [|by left].
  destruct (DomValidElems (Some c)) as [es'|] eqn:Ee; [|by left]. cbn [snd] in Hk.
  destruct (decide (name (Some c) = k)) as [<-|Hne].
  - rewrite lookup_insert_eq in Hk. injection Hk as -> ->. right. exists c. split; [by left|done].
  - rewrite lookup_insert_ne in Hk by done. by left.
Qed.
Lemma visit_attr_attribs l acc k : is_Some ((foldl visit_attr acc l).1 !! k) →
  is_Some (acc.1 !! k) ∨ ∃ c, c ∈ l ∧ node_name c = k.
Proof.
  revert acc. induction l as [|c l IH]; intros acc; simpl; [by left|].
  intros [Hk|(c' & Hc & Hr)]%IH; [|right; exists c'; split; [by right|done]].
  destruct acc as [attribs em]. unfold visit_attr in Hk. cbn [fst] in *.
  destruct (decide (node_name c = k)) as [|Hne]; [right; exists c; split; [by left|done]|left].
  destruct (ParseNode (Some c)); try (by repeat case_match);
    (cbn [fst] in Hk; rewrite lookup_map_insert_new, decide_False in Hk by done; done).
Qed.

Lemma below_part node x : x ∈ below (ElemNode node) →
  ∃ c, c ∈ children node ∧ node_name c = x.1.1 ∧ elem_of_handle (Some c) x.2.1.
Proof.
  unfold below. intros (l & (e & -> & He)%list_elem_of_fmap & Hx)%elem_of_concat.
  apply list_elem_of_fmap in Hx as (x' & -> & Hx'). destruct e as [k [tags es]].
  apply elem_of_entries in He. simpl in *.
  destruct (visit_attr_parts _ _ _ _ _ He) as [Hf|(c & Hc & Hn & _ & Hv)].
  { cbn [snd] in Hf. by rewrite lookup_empty in Hf. }
  exists c. split; [done|]. split; [done|]. by apply (valid_elems_under _ es).
Qed.
Lemma below_value v : below (ElemValue v) = [].
Proof. done. Qed.

(** The depth of an element. *)
Definition elem_depth (ev : ElemVar) : nat :=
  match ev with ElemNode h => depth_of h | ElemValue _ => 0%nat end.
Definition elem_dotless (ev : ElemVar) : bool :=
  match ev with ElemNode h => dotless_of h | ElemValue _ => true end.

Lemma elem_of_handle_depth c ev : elem_of_handle (Some c) ev → (elem_depth ev < depth c)%nat.
Proof.
  assert (0 < depth c)%nat as Hp by (destruct c; simpl; lia).
  destruct ev as [[n|]|v]; [|done..]. change (under (Some c) n → (depth n < depth c)%nat).
  intros [Hn%children_depth|(c' & Hc'%children_depth & Hn%children_depth)]; [done|].
  change (depth c' < depth c)%nat in Hc'. change (depth n < depth c')%nat in Hn. lia.
Qed.
Lemma elem_of_handle_dotless c ev : dotless c = true → elem_of_handle (Some c) ev → elem_dotless ev = true.
Proof.
  destruct ev as [[n|]|v]; simpl; [|done..]. intros Hc [Hn|(c' & Hc' & Hn)].
  - by apply (dotless_children (Some c)).
  - apply (dotless_children (Some c')); [|done]. by apply (dotless_children (Some c)).
Qed.

Lemma below_depth ev x : x ∈ below ev → (elem_depth x.2.1 < elem_depth ev)%nat.
Proof.
  destruct ev as [node|v]; [|by intros ?%elem_of_nil].
  intros (c & Hc & _ & Hx)%below_part. apply elem_of_handle_depth in Hx.
  apply children_depth in Hc. simpl. lia.
Qed.
Lemma below_dotless ev x : elem_dotless ev = true → x ∈ below ev → elem_dotless x.2.1 = true.
Proof.
  destruct ev as [node|v]; [|by intros _ ?%elem_of_nil]. intros Hd (c & Hc & _ & Hx)%below_part.
  apply (elem_of_handle_dotless c); [|done]. by apply (dotless_children node).
Qed.
End below.

(** ** The walk makes the samples of the nested structure *)

Section refines.
Context `{XmlForms, Strtod} {S : Type} (top_tags_ : gmap string TagVal) (fn_ : sample → S → S).

(** Calls of the walker, its samples inserted. *)
Definition insert_samples (st : S) (out : list sample) : S := foldl (λ st s, fn_ s st) st out.
Definition run_insert (l : list call) (sw : list StatNode * S) : option (list StatNode * S) :=
  '(ns, out) ← run_calls top_tags_ l sw.1; Some (ns, insert_samples sw.2 out).

Lemma run_insert_app l1 l2 sw : run_insert (l1 ++ l2) sw = sw ← run_insert l1 sw; run_insert l2 sw.
Proof.
  destruct sw as [ns st]. unfold run_insert. simpl. revert ns st.
  induction l1 as [|c l1 IH]; intros ns st; simpl; [done|].
  destruct (walker_step top_tags_ c ns) as [[ns' out]|]; simpl; [|done].
  specialize (IH ns' (insert_samples st out)).
  destruct (run_calls top_tags_ (l1 ++ l2) ns') as [[ns1 out1]|] eqn:E1;
    destruct (run_calls top_tags_ l1 ns') as [[ns2 out2]|] eqn:E2; simpl in *;
    try (destruct (run_calls top_tags_ l2 ns2) as [[ns3 out3]|]); simpl in *; try done.
  injection IH as -> IH. unfold insert_samples in *. rewrite !foldl_app. by rewrite IH.
Qed.

Lemma run_insert_push name tags attribs l sw : run_insert (CallPush name tags attribs :: l) sw =
  ns ← Push name tags attribs sw.1; run_insert l (ns, sw.2).
Proof.
  unfold run_insert. cbn [run_calls walker_step]. destruct (Push _ _ _ _) as [ns|]; [|done].
  cbn. by destruct (run_calls top_tags_ l ns) as [[]|].
Qed.
Lemma run_insert_pop l sw : run_insert (l ++ [CallPop]) sw =
  sw ← run_insert l sw; '(s, ns) ← Pop top_tags_ sw.1; Some (ns, fn_ s sw.2).
Proof.
  rewrite run_insert_app. destruct (run_insert l sw) as [[ns st]|]; [|done].
  unfold run_insert. cbn [run_calls walker_step fst snd mbind option_bind].
  by destruct (Pop top_tags_ ns) as [[]|].
Qed.

Lemma run_insert_foldl {A} (f : A → list call) l sw :
  run_insert (concat (f <$> l)) sw = foldl (λ acc x, sw ← acc; run_insert (f x) sw) (Some sw) l.
Proof.
  revert sw. induction l as [|x l IH]; intros sw; [by destruct sw|].
  rewrite fmap_cons. simpl concat. rewrite run_insert_app. simpl.
  destruct (run_insert (f x) sw) as [sw'|]; simpl; [apply IH|].
  clear IH. by induction l.
Qed.

Lemma foldl_option_ext {A B} (f g : B → A → option B) l b :
  Forall (λ x, ∀ b, f b x = g b x) l →
  foldl (λ acc x, b ← acc; f b x) (Some b) l = foldl (λ acc x, b ← acc; g b x) (Some b) l.
Proof.
  intros Hl. generalize (Some b) as ob. induction Hl as [|x l Hx _ IH]; intros ob; [done|].
  simpl. destruct ob as [b'|]; simpl; [by rewrite Hx|]. apply IH.
Qed.

Definition tree_calls (t : option stat_tree) : list call := default [] (calls_of <$> t).

Lemma omap_calls {A} (f : A → option stat_tree) l :
  concat (calls_of <$> omap f l) = concat ((λ x, tree_calls (f x)) <$> l).
Proof.
  induction l as [|x l IH]; [done|]. rewrite fmap_cons. cbn [concat]. rewrite <- IH.
  change (omap f (x :: l)) with (match f x with Some y => y :: omap f l | None => omap f l end).
  unfold tree_calls. by destruct (f x).
Qed.

Definition last_depth (elem_chain : chain) : nat :=
  match last elem_chain with Some e => elem_depth e.2.1 | None => 0%nat end.

Lemma walker_runs_tree fuel tstr elem_chain sw : elem_chain ≠ [] → (last_depth elem_chain < fuel)%nat →
  DomStatWalker top_tags_ fn_ fuel tstr elem_chain sw =
  match dom_tree fuel tstr elem_chain with
  | Some t => pair true <$> run_insert (calls_of t) sw
  | None => Some (false, sw)
  end.
Proof.
  revert tstr elem_chain sw. induction fuel as [|fuel IH]; intros tstr elem_chain sw Hne Hd; [lia|].
  unfold last_depth in Hd. cbn [DomStatWalker dom_tree].
  destruct (last elem_chain) as [[nm [ev key]]|] eqn:El; [|by apply last_None in El].
  destruct (ParseDomTags tstr elem_chain) as [tagmap|]; [|done]. cbn [mbind option_bind].
  cbn [calls_of]. rewrite run_insert_push. destruct (Push _ _ _ _) as [ns'|]; [|done].
  cbn [mbind option_bind]. rewrite run_insert_pop.
  rewrite (foldl_option_ext _ (λ sw (x : string * string * ElemT),
    run_insert (tree_calls (dom_tree fuel x.1.2 (elem_chain ++ [(x.1.1, x.2)]))) sw)).
  2: { apply Forall_forall. intros x Hx sw'. rewrite IH.
       - destruct (dom_tree fuel x.1.2 _) as [t|]; [|by destruct sw'].
         change (snd <$> (pair true <$> run_insert (calls_of t) sw') = run_insert (calls_of t) sw').
         by destruct (run_insert (calls_of t) sw').
       - by destruct elem_chain.
       - unfold last_depth. rewrite last_snoc. apply below_depth in Hx. simpl in *. lia. }
  rewrite <- (run_insert_foldl (λ x : string * string * ElemT,
    tree_calls (dom_tree fuel x.1.2 (elem_chain ++ [(x.1.1, x.2)])))).
  rewrite <- (omap_calls (λ x : string * string * ElemT, dom_tree fuel x.1.2 (elem_chain ++ [(x.1.1, x.2)]))).
  destruct (run_insert _ _) as [[ns2 st2]|]; [|done].
  cbn [fst snd mbind option_bind]. by destruct (Pop top_tags_ ns2) as [[]|].
Qed.
End refines.

(** ** No assertion fails *)

Lemma foldl_None {A B} (f : option A → B → option A) l : (∀ x, f None x = None) → foldl f None l = None.
Proof. intros Hf. induction l as [|x l IH]; simpl; [done|by rewrite Hf]. Qed.

Section local.
Context `{XmlForms, Strtod}.

Lemma find_dotless k i : has_char "."%char k = false → find_at "."%char k i 0 = npos.
Proof.
  revert i. induction k as [|c k IH]; intros i; [done|]. simpl. intros [Hc Hk]%orb_false_iff.
  rewrite Hc, andb_false_r. by apply IH.
Qed.

Lemma local_names_intro {A} (m : gmap string A) :
  (∀ k, is_Some (m !! k) → has_char "."%char k = false) → local_names m = true.
Proof.
  intros Hm. unfold local_names. apply forallb_forall. intros [k x] Hx%list_elem_of_In.
  apply elem_of_map_to_list in Hx. apply Z.eqb_eq, find_dotless, Hm. eauto.
Qed.

Lemma child_dotless h k n : dotless_of h = true → child h k = Some n → has_char "."%char k = false.
Proof.
  intros Hd [Hn <-%is_element_name]%child_Some. apply dotless_name. by apply (dotless_children h).
Qed.
Lemma elem_field_dotless elem_chain idx nm ev key f v : elem_chain !! idx = Some (nm, (ev, key)) →
  elem_dotless ev = true → elem_field elem_chain idx f = Some v → has_char "."%char f = false.
Proof.
  unfold elem_field. intros -> Hd. cbn [mbind option_bind].
  destruct (String.eqb_spec f STAT_KEY_FIELD) as [->|_]; [done|].
  destruct ev as [node|u]; [|done]. simpl. destruct (child node f) as [n|] eqn:E; [|done].
  intros _. by apply (child_dotless node f n).
Qed.

Lemma tags_dotless tstr elem_chain nm ev key tagmap k : last elem_chain = Some (nm, (ev, key)) →
  elem_dotless ev = true → ParseDomTags tstr elem_chain = Some tagmap →
  is_Some (tagmap !! k) → has_char "."%char k = false.
Proof.
  intros Hl Hd. unfold ParseDomTags. case_match; [intros [= <-]; rewrite lookup_empty; by intros []|].
  assert (elem_chain !! (length elem_chain - 1)%nat = Some (nm, (ev, key))) as Hi.
  { rewrite <- Hl, last_lookup. f_equal. lia. }
  assert (∀ k, is_Some ((∅ : gmap string TagVal) !! k) → has_char "."%char k = false) as Hm.
  { intros k'. rewrite lookup_empty. by intros []. }
  revert Hm. generalize (∅ : gmap string TagVal) as m. induction (tag_terms tstr) as [|t l IH]; intros m Hm; cbn [foldl].
  { intros [= <-]. apply Hm. }
  destruct (elem_term elem_chain (Some m) t) as [m'|] eqn:E.
  2: { by rewrite foldl_None. }
  apply IH. clear IH. intros k' Hk'. unfold elem_term in E. cbn [mbind option_bind] in E.
  destruct (split_term t) as [pterm sterm]. destruct sterm as [|c sname]; [done|].
  case_match; [injection E as <-; auto|].
  apply bind_Some in E as (v & Ev & (pr & _ & E)%bind_Some).
  injection E as <-. rewrite lookup_map_insert_new in Hk'. destruct (decide (sname = k')) as [<-|]; [|auto].
  by apply (elem_field_dotless _ _ _ _ _ _ _ Hi Hd Ev).
Qed.

Lemma attribs_dotless ev key k : elem_dotless ev = true → is_Some (elem_attribs ev key !! k) →
  has_char "."%char k = false.
Proof.
  intros Hd. assert (is_Some ((DomStatVisitor ev).1 !! k) → has_char "."%char k = false) as Hv.
  { destruct ev as [node|v]; simpl.
    - intros [Hf|(c & Hc & <-)]%visit_attr_attribs; [cbn [fst] in Hf; rewrite lookup_empty in Hf; by destruct Hf|].
      apply dotless_name. by apply (dotless_children node).
    - destruct (decide (STAT_VALUE_FIELD = k)) as [<-|Hne]; [done|].
      rewrite lookup_singleton_ne by done. by intros []. }
  unfold elem_attribs. case_match; [done|]. rewrite lookup_map_insert_new.
  destruct (decide (STAT_KEY_FIELD = k)) as [<-|]; [done|exact Hv].
Qed.

Definition last_dotless (elem_chain : chain) : bool :=
  match last elem_chain with Some e => elem_dotless e.2.1 | None => true end.

Lemma dom_tree_local fuel tstr elem_chain t : last_dotless elem_chain = true →
  dom_tree fuel tstr elem_chain = Some t → tree_local t = true.
Proof.
  revert tstr elem_chain t. induction fuel as [|fuel IH]; intros tstr elem_chain t Hd; [done|].
  unfold last_dotless in Hd. cbn [dom_tree].
  destruct (last elem_chain) as [[nm [ev key]]|] eqn:El; [|done]. cbn [fst snd] in Hd.
  destruct (ParseDomTags tstr elem_chain) as [tagmap|] eqn:Et; [|done]. intros [= <-]. cbn [tree_local].
  apply andb_true_iff. split; [apply andb_true_iff; split; apply local_names_intro; intros k Hk|].
  - by apply (tags_dotless tstr elem_chain nm ev key tagmap).
  - by apply (attribs_dotless ev key).
  - apply forallb_forall. intros t' Ht'%list_elem_of_In.
    apply list_elem_of_omap in Ht' as (x & Hx & Ht'). eapply IH; [|exact Ht'].
    unfold last_dotless. rewrite last_snoc. simpl. by apply (below_dotless ev).
Qed.
End local.

(** ** The samples of a statistics attribute *)

Section top.
Context `{XmlForms, Strtod} {S : Type} (fn_ : sample → S → S).

(** The nested structures of the elements of an attribute. *)
Definition node_trees (object node : handle) (elem_list : list ElemT) : list stat_tree :=
  omap (λ e, dom_tree (walk_fuel node) (attribute_value node "tags")
               (object_chain object ++ [(name node, e)])) elem_list.
(** The samples an attribute makes: none when its type or its tags are bad. *)
Definition node_samples (object node : handle) (tmap : gmap string TagVal) : list sample :=
  match DomValidElems node, ParseTopTags (attribute_value node "tags") with
  | Some elem_list, Some toptags =>
      concat (samples_in (top_tags object toptags tmap) [] <$> node_trees object node elem_list)
  | _, _ => []
  end.
Definition valid_stats (node : handle) : bool :=
  match DomValidElems node, ParseTopTags (attribute_value node "tags") with
  | Some _, Some _ => true
  | _, _ => false
  end.

Lemma insert_samples_app st l1 l2 :
  insert_samples fn_ st (l1 ++ l2) = insert_samples fn_ (insert_samples fn_ st l1) l2.
Proof. unfold insert_samples. by rewrite foldl_app. Qed.

Lemma run_tree top t st : tree_local t = true →
  run_insert top fn_ (calls_of t) ([], st) = Some ([], insert_samples fn_ st (samples_in top [] t)).
Proof. intros Ht. unfold run_insert. cbn [fst snd]. by rewrite walk_tree. Qed.

Lemma walk_elements top (f : ElemT → option stat_tree) l st :
  Forall (λ e, ∀ t, f e = Some t → tree_local t = true) l →
  foldl (λ acc e, sw ← acc;
           snd <$> match f e with Some t => pair true <$> run_insert top fn_ (calls_of t) sw
                                | None => Some (false, sw) end) (Some ([], st)) l =
  Some ([], insert_samples fn_ st (concat (samples_in top [] <$> omap f l))).
Proof.
  intros Hl. revert st. induction Hl as [|e l He _ IH]; intros st; [done|]. cbn [foldl].
  change (omap f (e :: l)) with (match f e with Some y => y :: omap f l | None => omap f l end).
  cbn [mbind option_bind]. destruct (f e) as [t|]; [|apply IH].
  rewrite (run_tree _ _ _ (He t eq_refl)). cbn [fmap option_fmap option_map snd].
  rewrite IH. simpl. by rewrite insert_samples_app.
Qed.

Lemma top_walk object node tmap st : dotless object = true → node ∈ children (Some object) →
  DomTopStatWalker fn_ (Some object) (Some node) tmap st =
  Some (valid_stats (Some node), insert_samples fn_ st (node_samples (Some object) (Some node) tmap)).
Proof.
  intros Hd Hin. unfold DomTopStatWalker, valid_stats, node_samples.
  destruct (DomValidElems (Some node)) as [l|] eqn:El; [|done].
  destruct (ParseTopTags _) as [toptags|]; [|done].
  assert (∀ e, e ∈ l → elem_of_handle (Some node) e.1) as Hl by (intros e; by apply valid_elems_under).
  rewrite (foldl_option_ext _ (λ sw e, snd <$>
    match dom_tree (walk_fuel (Some node)) (attribute_value (Some node) "tags")
            (object_chain (Some object) ++ [(name (Some node), e)]) with
    | Some t => pair true <$> run_insert (top_tags (Some object) toptags tmap) fn_ (calls_of t) sw
    | None => Some (false, sw)
    end)).
  2: { apply Forall_forall. intros e He sw. f_equal. apply walker_runs_tree; [done|].
       unfold last_depth. rewrite last_snoc. specialize (Hl e He). apply elem_of_handle_depth in Hl.
       unfold walk_fuel. cbn [fst snd]. change (depth_of (Some node)) with (depth node). lia. }
  rewrite walk_elements; [done|]. apply Forall_forall. intros e He t. apply dom_tree_local.
  unfold last_dotless. rewrite last_snoc. apply (elem_of_handle_dotless node); [|by apply Hl].
  by apply (dotless_children (Some object)).
Qed.

(** C19.  Walking a statistics attribute of a message inserts exactly the
    samples of the nested structures it holds, in the order of its elements,
    each nested sample before the one around it; no assertion of the walker
    fails, the recursion ends, and a bad type or bad tags insert nothing. *)
Theorem top_walk_samples object node tmap st : dotless object = true → node ∈ children (Some object) →
  DomTopStatWalker fn_ (Some object) (Some node) tmap st =
  Some (valid_stats (Some node), insert_samples fn_ st (node_samples (Some object) (Some node) tmap)).
Proof. apply top_walk. Qed.
End top.

(** ** Examples *)

Module DomExamples.
#[local] Existing Instance WhereExamples.to_double.
Definition forms : XmlForms := {| xml_print n := node_name n; unescapeXMLControlChars s := s |}.
#[local] Existing Instance forms.

Definition field (type nm value : string) : xml_node := XmlElement nm [("type", type)]%string [XmlText value].
Definition queue (id drops : string) : xml_node :=
  XmlElement "QueueStats" [] [field "u32" "id" id; field "u64" "drops" drops].
(** Two interfaces; the first has a list of queues with an annotation of its
    own, whose tag has the name of the interface before it. *)
Definition interface (nm bytes : string) (queues : list xml_node) : xml_node :=
  XmlElement "InterfaceStats" [] [field "string" "name" nm; field "u64" "bytes" bytes;
    XmlElement "queues" [("type", "list"); ("tags", "name:.id")]%string
      [XmlElement "list" [("type", "struct")]%string queues]].
Definition if_stats : xml_node :=
  XmlElement "if_stats" [("type", "list"); ("tags", ".name,vrouter")]%string
    [XmlElement "list" [("type", "struct")]%string
      [interface "eth0" "100" [queue "1" "0"; queue "2" "5"]; interface "eth1" "7" []]].
Definition agent : xml_node :=
  XmlElement "VrouterStatsAgent" [] [field "string" "name" "vr1"; field "string" "vrouter" "compute-1"; if_stats].
Definition collect (s : sample) (l : list sample) : list sample := l ++ [s].

Lemma top_walk_samples_witness :
  (sm_attr <$> node_samples (Some agent) (Some if_stats) ∅) =
    ["if_stats.queues"; "if_stats.queues"; "if_stats"; "if_stats"]%string ∧
  DomTopStatWalker collect (Some agent) (Some if_stats) ∅ [] =
  Some (valid_stats (Some if_stats), insert_samples collect [] (node_samples (Some agent) (Some if_stats) ∅)).
Proof.
  split; [by vm_compute|]. apply top_walk_samples; [by vm_compute|]. right. right. by left.
Defined.
End DomExamples.
