(* ===== verification/DbHandler.v ===== *)
(** * What the collector inserts: [DbHandler]

    [contrail-collector/db_handler.cc].  Messages, objects and statistics are
    laid out as columns of the tables the engine queries.  The handler is
    modelled with its state: the cache of the field names recorded lately, the
    random identifiers drawn, and what was inserted.  The database, the random
    generators and the hash of the field names' identifiers are parameters.
    The last part reads back with the engine's definitions what is inserted. *)
From Stdlib Require Import Ascii.
From stdpp Require Import base tactics list strings pretty gmap sets sorting.
From Stdlib Require Import ZArith Lia Permutation SpecFloat.
From S2P Require Import Prelude.
From S2P Require Import CppString.
From S2P Require Import VizConstants.
From S2P Require Import QueryTypes.
From S2P Require Import Json.
From S2P Require Import AnalyticsQuery.
From S2P Require Import DbQuery.
From S2P Require Import PostProcessing.
From S2P Require Import StatsSelect.
From S2P Require Import WhereQuery.
From S2P Require Import SelectQuery.
From S2P Require Import StatWalker.
Import Tables.
Local Open Scope Z_scope.

(** ** The handler *)

(** [GenDb::ColList] with its one column. *)
Record ColList := {
  cfname : string; rowkey : list DbDataValue;
  col_name : list DbDataValue; col_value : list DbDataValue; col_ttl : Z
}.

(** The parts of the environment: the answer of the database to an insertion
    after others, the [n]-th identifier and partition drawn, the identifier
    made of a name, and the parser of addresses. *)
Class Environment := {
  Db_AddColumn : list ColList → ColList → bool;
  umn_gen_ : nat → Z;
  gen_partition_no_ : nat → Z;
  name_generator : string → Z;
  IpAddress_from_string : string → option (bool * Z)
}.

(** The values of [SandeshType] the handler tests besides those of
    [SandeshTypes]. *)
Class CollectorSandeshTypes := { ST_SYSLOG : Z; ST_FLOW : Z; ST_SESSION : Z }.

(** The members that do not change while messages are handled. *)
Record DbHandler := {
  disable_all_writes_ : bool; disable_statistics_writes_ : bool; disable_messages_writes_ : bool;
  col_name_ : string; ttl_map_ : TtlType → option Z
}.

(** The static cache, what was drawn and what was inserted. *)
Record db_state := {
  field_cache_index_ : Z; field_cache_set_ : gset string;
  uuids_drawn : nat; partitions_drawn : nat; inserted : list ColList
}.
Definition set_cache (i : Z) (s : gset string) (st : db_state) : db_state := {|
  field_cache_index_ := i; field_cache_set_ := s; uuids_drawn := uuids_drawn st;
  partitions_drawn := partitions_drawn st; inserted := inserted st |}.
Definition draw (uuids parts : nat) (st : db_state) : db_state := {|
  field_cache_index_ := field_cache_index_ st; field_cache_set_ := field_cache_set_ st;
  uuids_drawn := uuids_drawn st + uuids; partitions_drawn := partitions_drawn st + parts;
  inserted := inserted st |}.
Definition add_inserted (c : ColList) (st : db_state) : db_state := {|
  field_cache_index_ := field_cache_index_ st; field_cache_set_ := field_cache_set_ st;
  uuids_drawn := uuids_drawn st; partitions_drawn := partitions_drawn st;
  inserted := inserted st ++ [c] |}.

(** [GetTtlFromMap], narrowed to [int]. *)
Definition GetTtlFromMap (ttl_map : TtlType → option Z) (t : TtlType) : Z :=
  match ttl_map t with Some hours => u64 (hours * 3600) | None => 0 end.
Definition GetTtl (h : DbHandler) (t : TtlType) : Z := i32 (GetTtlFromMap (ttl_map_ h) t).

(** The row and the offset of a time. *)
Definition T2_of (ts : Z) : Z := u32 (Z.shiftr ts RowTimeInBits).
Definition T1_of (ts : Z) : Z := u32 (Z.land ts RowTimeInMask).
Definition PrependT2 (T2 : Z) (str : string) : string := pretty T2 +:+ ":" +:+ str.

Section handler.
Context `{Environment} (h : DbHandler).

(** [InsertIntoDb]: whether the insertion was accepted. *)
Definition InsertIntoDb (col_list : ColList) (st : db_state) : bool * db_state :=
  if disable_all_writes_ h then (true, st)
  else (Db_AddColumn (inserted st) col_list, add_inserted col_list st).

(** ** The cache of field names *)

Definition CanRecordDataForT2 (temp_u32 : Z) (fc_entry : string) (st : db_state) : bool * db_state :=
  let cacheindex := Z.shiftr temp_u32 CacheTimeInAdditionalBits in
  if field_cache_index_ st <? cacheindex then (true, set_cache cacheindex {[ fc_entry ]} st)
  else if cacheindex =? field_cache_index_ st then
    if bool_decide (fc_entry ∈ field_cache_set_ st) then (false, st)
    else (true, set_cache cacheindex ({[ fc_entry ]} ∪ field_cache_set_ st) st)
  else (false, st).

(** ** Statistics *)

(** One member of the JSON object: the name gets a suffix for its type. *)
Definition attrib_member (a : string * Var) : option (string * json) :=
  match a.2 with
  | VarString s => Some (c_str (a.1 +:+ "|s"), JString (c_str s))
  | VarU64 n => Some (c_str (a.1 +:+ "|n"), JInt n)
  | VarDouble d => Some (c_str (a.1 +:+ "|d"), JDouble d)
  | VarList l => Some (c_str (a.1 +:+ "|a"), JArray ((λ e, JString (c_str e)) <$> l))
  | VarMap m => Some (c_str (a.1 +:+ "|m"),
                      JObject ((λ p, (c_str p.1, JString (c_str p.2))) <$> entries m))
  | VarInvalid => None
  end.
Definition attribs_json (attribs : AttribMap) : list (string * json) :=
  omap attrib_member (entries attribs).

Context `{DoubleFormat}.

(** [operator<<] of [Var]; the enumerator INVALID is 0. *)
Definition show_var (v : Var) : string :=
  match v with
  | VarString s => s
  | VarU64 n => pretty n
  | VarDouble d => show_double d
  | VarList l => String.concat "; " l
  | VarMap m => String.concat EmptyString ((λ p, "{" +:+ p.1 +:+ ":" +:+ p.2 +:+ "}, ") <$> entries m)
  | VarInvalid => "Invalid type: 0"
  end.

(** The four lists of tags, and the columns of their own. *)
Record tag_columns := {
  tc_name : string; tc_source : string; tc_key : string; tc_proxy : string; tc_tags : list (list string)
}.
Definition no_tags : tag_columns := {|
  tc_name := EmptyString; tc_source := EmptyString; tc_key := EmptyString; tc_proxy := EmptyString;
  tc_tags := [[]; []; []; []] |}.
Definition push_tag (c : tag_columns) (t : string * string) : tag_columns := {|
  tc_name := tc_name c; tc_source := tc_source c; tc_key := tc_key c; tc_proxy := tc_proxy c;
  tc_tags := alter (λ l, l ++ [t.1 +:+ "=" +:+ t.2]) (Z.to_nat (djb_hash t.1 mod NUM_STATS_TAGS_FIELD)) (tc_tags c) |}.

(** The tags of a value: none for an invalid one. *)
Definition value_tags (k : string) (v : Var) : list (string * string) :=
  match v with
  | VarString _ | VarU64 _ | VarDouble _ => [(k, show_var v)]
  | VarList l => pair k <$> l
  | VarMap m => (λ p, (k +:+ "." +:+ p.1, p.2)) <$> entries m
  | VarInvalid => []
  end.

(** The column a name has of its own. *)
Definition own_column (c : tag_columns) (k : string) (v : Var) : option tag_columns :=
  if (k =? STATS_NAME_FIELD)%string then
    Some {| tc_name := var_str v; tc_source := tc_source c; tc_key := tc_key c; tc_proxy := tc_proxy c;
            tc_tags := tc_tags c |}
  else if (k =? STATS_SOURCE_FIELD)%string then
    Some {| tc_name := tc_name c; tc_source := var_str v; tc_key := tc_key c; tc_proxy := tc_proxy c;
            tc_tags := tc_tags c |}
  else if ends_with k STATS_KEY_FIELD then
    Some {| tc_name := tc_name c; tc_source := tc_source c; tc_key := var_str v; tc_proxy := tc_proxy c;
            tc_tags := tc_tags c |}
  else if ends_with k STATS_PROXY_FIELD then
    Some {| tc_name := tc_name c; tc_source := tc_source c; tc_key := tc_key c; tc_proxy := var_str v;
            tc_tags := tc_tags c |}
  else None.

(** A tag below another one is written as a whole and then by its type. *)
Definition second_tag (c : tag_columns) (jt : string * Var) : tag_columns :=
  match own_column c jt.1 jt.2 with
  | Some c => c
  | None => foldl push_tag (push_tag c (jt.1, show_var jt.2)) (value_tags jt.1 jt.2)
  end.
Definition first_tag (c : tag_columns) (it : string * (Var * AttribMap)) : tag_columns :=
  match own_column c it.1 it.2.1 with
  | Some c => foldl second_tag c (entries it.2.2)
  | None =>
      if is_valid it.2.1
      then foldl second_tag (foldl push_tag c (value_tags it.1 it.2.1)) (entries it.2.2)
      else c
  end.
Definition columns_of_tags (attribs_tag : TagMap) : tag_columns := foldl first_tag no_tags attribs_tag.

Context `{JsonWriter}.

Definition join (sep : string) (l : list string) : string := String.concat sep l.

(** [StatTableWrite]; its instrumentation is left out. *)
Definition stat_column (t2 : Z) (statName statAttr : string) (c : tag_columns) (t1 unm : Z)
    (jsonline : string) (ttl : Z) : ColList := {|
  cfname := STATS_TABLE;
  rowkey := [DbU32 t2; DbU8 0; DbString statName; DbString statAttr];
  col_name := [DbString (tc_name c); DbU32 t1; DbUuid unm; DbString (PrependT2 t2 (tc_source c));
               DbString (PrependT2 t2 (tc_key c)); DbString (PrependT2 t2 (tc_proxy c))] ++
              ((λ l, DbString (PrependT2 t2 (join ";" l))) <$> tc_tags c);
  col_value := [DbString jsonline]; col_ttl := ttl |}.

(** The insertion at the end of [StatTableInsertTtl]. *)
Definition stat_sample (ts : Z) (statName statAttr : string) (attribs_tag : TagMap)
    (attribs : AttribMap) (unm ttl : Z) : ColList :=
  stat_column (T2_of ts) statName statAttr (columns_of_tags attribs_tag) (T1_of ts) unm
    (write (JObject (attribs_json attribs))) ttl.
Definition StatTableWrite (ts : Z) (statName statAttr : string) (attribs_tag : TagMap)
    (attribs : AttribMap) (unm ttl : Z) (st : db_state) : db_state :=
  (InsertIntoDb (stat_sample ts statName statAttr attribs_tag attribs unm ttl) st).2.

(** The identifier of a field name depends on the value only; without a value
    it is not initialised (0 here). *)
Definition field_unm (attribs : AttribMap) : Z :=
  match attribs !! "fields.value"%string with Some (VarString s) => name_generator (c_str s) | _ => 0 end.

(** [FieldNamesTableInsert]; its call of [StatTableInsertTtl] is for the
    statistics [FieldNames], which records no field names itself. *)
Definition field_attribs (table_name field_val : string) : AttribMap :=
  map_insert_new "Source" (VarString (col_name_ h))
    (map_insert_new "fields.value" (VarString field_val) {[ "name"%string := VarString table_name ]}).
Definition field_tags (table_name : string) : TagMap :=
  tag_insert "Source" (VarString (col_name_ h), ∅) (tag_insert "name" (VarString table_name, ∅) []).
Definition FieldNames : string := "FieldNames".
Definition FieldNamesTableInsert (ts : Z) (table_prefix field_name field_val : string) (ttl : Z)
    (st : db_state) : db_state :=
  let table_name := table_prefix +:+ field_name in
  let '(record, st) := CanRecordDataForT2 (T2_of ts) (table_name +:+ ":" +:+ field_val) st in
  if record then
    let attribs := field_attribs table_name field_val in
    StatTableWrite ts FieldNames "fields" (field_tags table_name) attribs (field_unm attribs) ttl st
  else st.

(** [StatTableInsertTtl]. *)
Definition stat_table (statName statAttr : string) : string := "StatTable." +:+ statName +:+ "." +:+ statAttr.
Definition tag_field (ts : Z) (statName statAttr : string) (ttl : Z) (st : db_state)
    (it : string * (Var * AttribMap)) : db_state :=
  match it.2.1 with
  | VarString s =>
      if (statName =? FieldNames)%string then st
      else FieldNamesTableInsert ts (stat_table statName statAttr) (":" +:+ it.1) s ttl st
  | _ => st
  end.
Definition StatTableInsertTtl (ts : Z) (statName statAttr : string) (attribs_tag : TagMap)
    (attribs : AttribMap) (ttl : Z) (st : db_state) : db_state :=
  let names := negb (statName =? FieldNames)%string in
  let unm := if names then umn_gen_ (uuids_drawn st) else field_unm attribs in
  let st := if names then draw 1 0 st else st in
  let tablename := stat_table statName statAttr in
  let st := if names then FieldNamesTableInsert ts "STAT:" tablename tablename ttl st else st in
  let st := foldl (tag_field ts statName statAttr ttl) st attribs_tag in
  StatTableWrite ts statName statAttr attribs_tag attribs unm ttl st.

(** [StatTableInsert]. *)
Definition StatTableInsert (ts : Z) (statName statAttr : string) (attribs_tag : TagMap)
    (attribs : AttribMap) (st : db_state) : db_state :=
  if disable_all_writes_ h || disable_statistics_writes_ h then st
  else StatTableInsertTtl ts statName statAttr attribs_tag attribs (GetTtl h STATSDATA_TTL) st.

(** ** Messages *)

(** [SandeshHeader] with its optional members, and [VizMsg]. *)
Record SandeshHeader := {
  hd_Timestamp : Z; hd_Source : string; hd_Module : string; hd_IPAddress : option string;
  hd_Pid : option Z; hd_Category : string; hd_Level : Z; hd_NodeType : string;
  hd_InstanceId : string; hd_SequenceNum : Z; hd_Type : Z; hd_Hints : Z
}.
Record VizMsg := { header : SandeshHeader; message_type : string; vm_unm : Z; ExtractMessage : string }.

Definition message_ttl (message_type : string) : Z :=
  GetTtl h (if (message_type =? "VncApiConfigLog")%string then CONFIGAUDIT_TTL else GLOBAL_TTL).

(** The columns of the object names: the first six, the others blank. *)
Definition object_columns_of (T2 : Z) (object_names : list string) : list DbDataValue :=
  ((λ n, DbString (PrependT2 T2 n)) <$> take (Z.to_nat MSG_TABLE_MAX_OBJECTS_PER_MSG) object_names) ++
  replicate (Z.to_nat MSG_TABLE_MAX_OBJECTS_PER_MSG - length object_names) DbBlank.

Definition ip_column (ip : option string) : DbDataValue :=
  match ip with
  | Some s => match IpAddress_from_string s with Some (v6, a) => DbIpAddress v6 a | None => DbBlank end
  | None => DbBlank
  end.

(** The column of a message; [part] is the partition drawn. *)
Definition message_column (vmsg : VizMsg) (object_names : list string) (part : Z) : ColList :=
  let hd := header vmsg in
  let T2 := T2_of (hd_Timestamp hd) in
  {| cfname := COLLECTOR_GLOBAL_TABLE;
     rowkey := [DbU32 T2; DbU8 part];
     col_name :=
       [DbU32 (T1_of (hd_Timestamp hd)); DbUuid (vm_unm vmsg); DbString (PrependT2 T2 (hd_Source hd));
        DbString (PrependT2 T2 (message_type vmsg)); DbString (PrependT2 T2 (hd_Module hd))] ++
       object_columns_of T2 object_names ++
       [ip_column (hd_IPAddress hd); match hd_Pid hd with Some p => DbU32 (u32 p) | None => DbBlank end;
        DbString (hd_Category hd); DbU32 (u32 (hd_Level hd)); DbString (hd_NodeType hd);
        DbString (hd_InstanceId hd); DbU32 (u32 (hd_SequenceNum hd)); DbU8 (u8 (hd_Type hd))];
     col_value := [DbString (ExtractMessage vmsg)]; col_ttl := message_ttl (message_type vmsg) |}.

(** [MessageTableOnlyInsert]. *)
Definition MessageTableOnlyInsert (vmsg : VizMsg) (object_names : list string) (st : db_state) : db_state :=
  let part := gen_partition_no_ (partitions_drawn st) in
  (InsertIntoDb (message_column vmsg object_names part) (draw 0 1 st)).2.

Context `{SandeshTypes, CollectorSandeshTypes}.

Definition AllowMessageTableInsert (hd : SandeshHeader) : bool :=
  negb (disable_messages_writes_ h) && negb (disable_all_writes_ h) &&
  negb (hd_Type hd =? ST_FLOW) && negb (hd_Type hd =? ST_SESSION).

(** [MessageTableInsert]. *)
Definition MessageTableInsert (vmsg : VizMsg) (object_names : list string) (st : db_state) : db_state :=
  let hd := header vmsg in
  if AllowMessageTableInsert hd then
    let st := MessageTableOnlyInsert vmsg object_names st in
    if (hd_Type hd =? ST_SYSLOG) || (hd_Type hd =? ST_SYSTEM) then
      let field name val st :=
        FieldNamesTableInsert (hd_Timestamp hd) MESSAGE_TABLE name val (GetTtl h GLOBAL_TTL) st in
      let st := field ":Messagetype" (message_type vmsg) st in
      let st := field ":ModuleId" (hd_Module hd) st in
      let st := field ":Source" (hd_Source hd) st in
      if (hd_Category hd =? EmptyString)%string then st else field ":Category" (hd_Category hd) st
    else st
  else st.

(** [ObjectTableInsert]. *)
Definition object_value_column (table objectkey_str message_type : string) (timestamp : Z) : ColList := {|
  cfname := OBJECT_VALUE_TABLE;
  rowkey := [DbU32 (T2_of timestamp); DbString table];
  col_name := [DbU32 (T1_of timestamp)]; col_value := [DbString objectkey_str];
  col_ttl := message_ttl message_type |}.
Definition ObjectTableInsert (table objectkey_str : string) (timestamp : Z) (vmsg : VizMsg)
    (st : db_state) : db_state :=
  if disable_messages_writes_ h || disable_all_writes_ h then st
  else
    let ttl := message_ttl (message_type vmsg) in
    let '(ok, st) := InsertIntoDb (object_value_column table objectkey_str (message_type vmsg) timestamp) st in
    if ok then
      let field prefix name val st := FieldNamesTableInsert timestamp prefix name val ttl st in
      let st := field table ":ObjectId" objectkey_str st in
      let st := field table ":Messagetype" (message_type vmsg) st in
      let st := field table ":ModuleId" (hd_Module (header vmsg)) st in
      let st := field table ":Source" (hd_Source (header vmsg)) st in
      field "OBJECT:" table table st
    else st.

(** ** Flow samples of the underlay *)

Record UFlowSample := {
  pifindex : Z; sip : string; dip : string; sport : Z; dport : Z; protocol : Z; flowtype : string
}.
(** [UnderlayFlowSampleInsert]. *)
Definition uflow_attribs (name : string) (f : UFlowSample) : AttribMap := list_to_map [
  ("name", VarString name); ("flow.pifindex", VarU64 (pifindex f)); ("flow.sip", VarString (sip f));
  ("flow.dip", VarString (dip f)); ("flow.sport", VarU64 (sport f));
  ("flow.dport", VarU64 (dport f)); ("flow.protocol", VarU64 (protocol f));
  ("flow.flowtype", VarString (flowtype f))]%string.
Definition uflow_tags (name : string) (f : UFlowSample) : TagMap :=
  foldl (λ m t, tag_insert t.1 t.2 m) [] [
    ("name", (VarString name, {[ "flow.pifindex" := VarU64 (pifindex f) ]}));
    ("flow.sip", (VarString (sip f), ∅)); ("flow.dip", (VarString (dip f), ∅));
    ("flow.protocol", (VarU64 (protocol f), {[ "flow.sport" := VarU64 (sport f) ]}));
    ("flow.protocol", (VarU64 (protocol f), {[ "flow.dport" := VarU64 (dport f) ]}))]%string.
Definition UnderlayFlowSampleInsert (name : string) (flow : list UFlowSample) (timestamp : Z)
    (st : db_state) : db_state :=
  foldl (λ st f, StatTableInsert timestamp "UFlowData" "flow" (uflow_tags name f) (uflow_attribs name f) st)
    st flow.

(** ** Dropping messages *)

(** [DropMessage]; the levels are those of the three watermarks. *)
Definition DropMessage (use_db_write_options_ : bool) (drop_level_ disk_drop_level compaction_drop_level : Z)
    (hd : SandeshHeader) : bool :=
  let stype := hd_Type hd in
  let slevel := hd_Level hd in
  if stype =? ST_FLOW then true
  else if negb ((stype =? ST_SYSTEM) || (stype =? ST_OBJECT) || (stype =? ST_UVE) || (stype =? ST_SESSION))
  then false
  else if drop_level_ <=? slevel then true
  else use_db_write_options_ && ((disk_drop_level <=? slevel) || (compaction_drop_level <=? slevel)).
End handler.

(** ** Field names are recorded once *)

Section cache.

Definition cache_period (t2 : Z) : Z := Z.shiftr t2 CacheTimeInAdditionalBits.
(** The earlier requests that keep a request from being recorded. *)
Definition shadows (r r' : Z * string) : Prop :=
  cache_period r.1 < cache_period r'.1 ∨ (cache_period r.1 = cache_period r'.1 ∧ r.2 = r'.2).
#[export] Instance shadows_dec r r' : Decision (shadows r r').
Proof. unfold shadows. apply _. Defined.

(** What the cache holds after some requests: the latest period, and the
    entries requested for it. *)
Definition cache_inv (l : list (Z * string)) (st : db_state) : Prop :=
  0 <= field_cache_index_ st ∧
  (∀ r, r ∈ l → cache_period r.1 <= field_cache_index_ st) ∧
  (field_cache_index_ st = 0 ∨ ∃ r, r ∈ l ∧ cache_period r.1 = field_cache_index_ st) ∧
  (∀ e, e ∈ field_cache_set_ st ↔ ∃ r, r ∈ l ∧ cache_period r.1 = field_cache_index_ st ∧ r.2 = e).

Lemma elem_of_snoc {A} (x y : A) l : x ∈ l ++ [y] ↔ x ∈ l ∨ x = y.
Proof. by rewrite elem_of_app, list_elem_of_singleton. Qed.

(** The three branches: a new period, the period of the cache, an old one. *)
Lemma record_newer l t2 e st : field_cache_index_ st < cache_period t2 → cache_inv l st →
  ¬ Exists (shadows (t2, e)) l ∧ cache_inv (l ++ [(t2, e)]) (set_cache (cache_period t2) {[ e ]} st).
Proof.
  intros Hlt (Hnn & Hmax & _ & _). split.
  - intros [r [Hr [?|[? _]]]]%Exists_exists; specialize (Hmax r Hr); simpl in *; lia.
  - unfold cache_inv. simpl. setoid_rewrite elem_of_snoc. split; [lia|]. split; [|split].
    + intros r [Hr| ->]; [specialize (Hmax r Hr); lia|done].
    + right. exists (t2, e). by split; [right|].
    + intros e'. rewrite elem_of_singleton. split; [intros ->; exists (t2, e); by split; [right|]|].
      intros (r & [Hr| ->] & Hp & <-); [specialize (Hmax r Hr); lia|done].
Qed.

Lemma record_same l t2 e st : cache_period t2 = field_cache_index_ st → cache_inv l st →
  (e ∈ field_cache_set_ st ↔ Exists (shadows (t2, e)) l) ∧
  cache_inv (l ++ [(t2, e)]) (set_cache (cache_period t2) ({[ e ]} ∪ field_cache_set_ st) st).
Proof.
  intros Heq (Hnn & Hmax & _ & Hset). split.
  - rewrite Hset, Exists_exists. split; intros (r & Hr & Hs); exists r; (split; [done|]).
    + destruct Hs as [Hp He]. right. simpl. split; [lia|done].
    + specialize (Hmax r Hr). destruct Hs as [?|[? ?]]; simpl in *; [lia|]. split; [lia|done].
  - unfold cache_inv. simpl. rewrite Heq. setoid_rewrite elem_of_snoc. split; [done|]. split; [|split].
    + intros r [Hr| ->]; [by apply Hmax|simpl; lia].
    + right. exists (t2, e). by split; [right|].
    + intros e'. rewrite elem_of_union, elem_of_singleton, Hset. split.
      * intros [->|(r & ? & ?)]; [exists (t2, e); by split; [right|]|exists r; by split; [left|]].
      * intros (r & [Hr| ->] & Hp & <-); [right; eauto|by left].
Qed.

Lemma record_older l t2 e st : cache_period t2 < field_cache_index_ st → 0 <= cache_period t2 →
  cache_inv l st → Exists (shadows (t2, e)) l ∧ cache_inv (l ++ [(t2, e)]) st.
Proof.
  intros Hlt H0 (Hnn & Hmax & Hat & Hset). destruct Hat as [?|(r0 & Hr0 & Hp0)]; [lia|]. split.
  - apply Exists_exists. exists r0. split; [done|left]. simpl. lia.
  - unfold cache_inv. setoid_rewrite elem_of_snoc. split; [done|]. split; [|split].
    + intros r [Hr| ->]; [by apply Hmax|simpl; lia].
    + right. exists r0. auto.
    + intros e'. rewrite Hset. split; [intros (r & ? & ?); exists r; by split; [left|]|].
      intros (r & [Hr| ->] & Hp & He); [by exists r|simpl in Hp; lia].
Qed.

Lemma set_cache_same st : set_cache (field_cache_index_ st) (field_cache_set_ st) st = st.
Proof. by destruct st. Qed.

Lemma record_one l t2 e st : 0 <= cache_period t2 → cache_inv l st →
  (CanRecordDataForT2 t2 e st).1 = bool_decide (¬ Exists (shadows (t2, e)) l) ∧
  cache_inv (l ++ [(t2, e)]) (CanRecordDataForT2 t2 e st).2.
Proof.
  intros H0 Hinv. unfold CanRecordDataForT2. fold (cache_period t2).
  destruct (Z.ltb_spec (field_cache_index_ st) (cache_period t2)) as [Hlt|Hge]; simpl.
  { destruct (record_newer l t2 e st Hlt Hinv). by rewrite bool_decide_true. }
  destruct (Z.eqb_spec (cache_period t2) (field_cache_index_ st)) as [Heq|Hne]; simpl.
  - destruct (record_same l t2 e st Heq Hinv) as [Hs Hi]. case_bool_decide as Hin; simpl.
    + rewrite bool_decide_false by (rewrite <- Hs; auto). split; [done|].
      assert ({[ e ]} ∪ field_cache_set_ st = field_cache_set_ st) as Hu by set_solver.
      by rewrite Hu, Heq, set_cache_same in Hi.
    + rewrite bool_decide_true by (by rewrite <- Hs). done.
  - destruct (record_older l t2 e st ltac:(lia) H0 Hinv). by rewrite bool_decide_false by auto.
Qed.
End cache.

(** A call of [FieldNamesTableInsert]. *)
Record field_request := { fr_ts : Z; fr_prefix : string; fr_name : string; fr_val : string; fr_ttl : Z }.
Definition fr_table (r : field_request) : string := fr_prefix r +:+ fr_name r.
Definition fr_key (r : field_request) : Z * string :=
  (T2_of (fr_ts r), fr_table r +:+ ":" +:+ fr_val r).

(** The requests that no earlier one shadows. *)
Fixpoint unshadowed (before : list (Z * string)) (l : list field_request) : list field_request :=
  match l with
  | [] => []
  | r :: l' => (if decide (Exists (shadows (fr_key r)) before) then [] else [r]) ++
               unshadowed (before ++ [fr_key r]) l'
  end.

Section field_names.
Context `{Environment, DoubleFormat, JsonWriter} (h : DbHandler).

Definition insert_field (st : db_state) (r : field_request) : db_state :=
  FieldNamesTableInsert h (fr_ts r) (fr_prefix r) (fr_name r) (fr_val r) (fr_ttl r) st.
Definition field_sample (r : field_request) : ColList :=
  let attribs := field_attribs h (fr_table r) (fr_val r) in
  stat_sample (fr_ts r) FieldNames "fields" (field_tags h (fr_table r)) attribs (field_unm attribs) (fr_ttl r).

Lemma cache_period_nonneg ts : 0 <= cache_period (T2_of ts).
Proof. unfold cache_period, T2_of. apply Z.shiftr_nonneg. unfold u32. by apply Z.mod_pos_bound. Qed.

Lemma cache_inv_add l c st : cache_inv l (add_inserted c st) ↔ cache_inv l st.
Proof. done. Qed.
Lemma record_inserted t2 e st : inserted (CanRecordDataForT2 t2 e st).2 = inserted st.
Proof. unfold CanRecordDataForT2. by repeat case_match. Qed.

(** C23.  Of any sequence of field names, those are inserted that no earlier
    one shadows: an entry is inserted once in every cache period, and not at
    all once a name of a later period came; in their order, and nothing else. *)
Theorem field_names_once l st : disable_all_writes_ h = false →
  field_cache_index_ st = 0 → field_cache_set_ st = ∅ →
  inserted (foldl insert_field st l) = inserted st ++ (field_sample <$> unshadowed [] l).
Proof.
  intros Hw Hi Hs.
  assert (cache_inv [] st) as Hinv.
  { unfold cache_inv. rewrite Hi, Hs. split; [done|]. split; [set_solver|]. split; [by left|set_solver]. }
  clear Hi Hs. revert st Hinv. generalize ([] : list (Z * string)) as before.
  induction l as [|r l IH]; intros before st Hinv; simpl; [by rewrite app_nil_r|].
  unfold insert_field at 2, FieldNamesTableInsert. fold (fr_table r).
  change (CanRecordDataForT2 (T2_of (fr_ts r)) (fr_table r +:+ ":" +:+ fr_val r) st)
    with (CanRecordDataForT2 (fr_key r).1 (fr_key r).2 st).
  assert (0 <= cache_period (fr_key r).1) as Hpos by apply cache_period_nonneg.
  destruct (fr_key r) as [t2 e] eqn:Ek. cbn [fst snd] in *.
  destruct (record_one before t2 e st Hpos Hinv) as [Hrec Hinv'].
  pose proof (record_inserted t2 e st) as Hins.
  destruct (CanRecordDataForT2 t2 e st) as [b st']. cbn [fst snd] in *. subst b.
  case_bool_decide as Hsh.
  - rewrite decide_False by done. unfold StatTableWrite, InsertIntoDb. rewrite Hw. simpl snd.
    rewrite (IH (before ++ [(t2, e)])) by done. simpl. by rewrite Hins, <- (assoc_L (++)).
  - destruct (decide (Exists (shadows (t2, e)) before)) as [_|?]; [|done]. rewrite (IH (before ++ [(t2, e)])) by done. by rewrite Hins.
Qed.
End field_names.

(** ** Reading samples back *)

Section read_back.

(** The entries of [StatsSelect] an attribute is meant to be read as. *)
Definition attrib_entries (a : string * Var) : list StatEntry :=
  match a.2 with
  | VarString s => [entry a.1 (SvString s)]
  | VarU64 n => [entry a.1 (SvU64 n)]
  | VarDouble d => [entry a.1 (SvDouble d)]
  | VarList l => [entry a.1 (SvString (String.concat "; " l))]
  | VarMap m => ((λ p, entry (a.1 +:+ "." +:+ p.1) (SvString p.2)) <$> entries m) ++
                [entry a.1 (SvString (map_text (entries m)))]
  | VarInvalid => []
  end.

(** No embedded zero characters, and numbers of 64 bits. *)
Definition no_zero (s : string) : bool := negb (has_char "000"%char s).
Definition readable (a : string * Var) : bool :=
  no_zero a.1 && (size a.1 + 2 <=? npos) &&
  match a.2 with
  | VarString s => no_zero s
  | VarU64 n => (0 <=? n) && (n <? 2 ^ 64)
  | VarList l => forallb no_zero l
  | VarMap m => forallb (λ p, no_zero p.1 && no_zero p.2) (entries m)
  | VarDouble _ | VarInvalid => true
  end.

Lemma no_zero_c_str s : no_zero s = true → c_str s = s.
Proof. intros Hs%negb_true_iff. by apply c_str_id. Qed.

(** The suffix of a name is taken off again. *)
Lemma last_char_suffixed k c : last_char (k +:+ String "|" (String c EmptyString)) = Some c.
Proof.
  unfold last_char. rewrite CppString.length_app. simpl.
  replace (String.length k + 2 - 1)%nat with (S (String.length k)) by lia.
  induction k as [|a k IH]; [done|]. exact IH.
Qed.
Lemma substr_suffixed k c : size k + 2 <= npos →
  substr (k +:+ String "|" (String c EmptyString)) 0
    (u64 (size (k +:+ String "|" (String c EmptyString)) - 2)) = Some k.
Proof.
  intros Hk. rewrite size_app. pose proof (size_nonneg k).
  change (size (String "|" (String c EmptyString))) with 2. rewrite Z.add_simpl_r.
  rewrite u64_small; [apply substr_take|]. unfold is_u64, npos in *. lia.
Qed.

Lemma mapM_c_str l : forallb no_zero l = true →
  mapM json_string ((λ e, JString (c_str e)) <$> l) = Some l.
Proof.
  induction l as [|s l IH]; [done|]. intros [Hs Hl]%andb_true_iff. rewrite fmap_cons.
  cbn [mapM json_string mbind option_bind]. by rewrite (IH Hl), (no_zero_c_str s Hs).
Qed.
Lemma mapM_members l : forallb (λ p : string * string, no_zero p.1 && no_zero p.2) l = true →
  mapM string_member ((λ p, (c_str p.1, JString (c_str p.2))) <$> l) = Some l.
Proof.
  induction l as [|[k s] l IH]; [done|]. intros [[Hk Hs]%andb_true_iff Hl]%andb_true_iff.
  rewrite fmap_cons. cbn [mapM mbind option_bind]. rewrite (IH Hl).
  unfold string_member. simpl in *. by rewrite (no_zero_c_str k Hk), (no_zero_c_str s Hs).
Qed.

Lemma attrib_member_read a m : readable a = true → attrib_member a = Some m →
  stat_member m = Some (attrib_entries a).
Proof.
  destruct a as [k v]. unfold readable, attrib_member, attrib_entries. simpl.
  intros [[Hk Hz]%andb_true_iff Hv]%andb_true_iff Hm. apply Z.leb_le in Hz.
  assert (∀ c, c ≠ "000"%char → c_str (k +:+ String "|" (String c EmptyString)) = k +:+ String "|" (String c EmptyString)) as Hc.
  { intros c Hc. apply c_str_id. rewrite has_char_app. apply negb_true_iff in Hk. rewrite Hk. simpl.
    by destruct (Ascii.eqb_spec c "000"). }
  unfold stat_member. destruct v as [|n|s|d|l|mp]; simplify_eq; simpl in *;
    rewrite Hc, last_char_suffixed, substr_suffixed by done; simpl.
  - by rewrite Hv.
  - by rewrite no_zero_c_str.
  - done.
  - by rewrite mapM_c_str.
  - by rewrite mapM_members.
Qed.

Lemma attrib_invalid a : attrib_member a = None → attrib_entries a = [].
Proof. destruct a as [k []]; simpl; done. Qed.

Lemma attribs_read l : forallb readable l = true →
  stat_entries (omap attrib_member l) = Some (concat (attrib_entries <$> l)).
Proof.
  unfold stat_entries. induction l as [|a l IH]; [done|]. intros [Ha Hl]%andb_true_iff.
  specialize (IH Hl). apply fmap_Some in IH as (es & Hes & Hc). rewrite fmap_cons.
  change (omap attrib_member (a :: l)) with
    (match attrib_member a with Some y => y :: omap attrib_member l | None => omap attrib_member l end).
  destruct (attrib_member a) as [m|] eqn:E.
  - cbn [mapM mbind option_bind]. rewrite (attrib_member_read a m Ha E), Hes. cbn. by rewrite Hc.
  - rewrite Hes. cbn. by rewrite (attrib_invalid a E), Hc.
Qed.

Lemma at_end_last {A} (l : list A) : at_end l 1 = last l.
Proof. unfold at_end. rewrite last_lookup. destruct l; [done|]. simpl. by rewrite Nat.sub_0_r. Qed.

Context `{Environment, DoubleFormat, JsonWriter, JsonParser, Digests, SubValOrder, StatHash}.

(** C16.  A sample that is inserted is read back by a query of its StatTable:
    the column, its names the clustering columns and its last value the JSON
    text, gives a unit with the time of the sample, and loading the unit gives
    the aggregation exactly the attributes of the sample, with their types. *)
Theorem stat_sample_read_back ts statName statAttr tags attribs unm ttl tname toc unroll from_time end_time
    rk st si col stats out :
  let c := stat_sample ts statName statAttr tags attribs unm ttl in
  is_stat_table_query tname = true → 0 <= ts < 2 ^ 55 → from_time <= ts <= end_time →
  DbQuery.name col = take 3 (col_name c) → last (DbQuery.value col) = last (col_value c) →
  Document_Parse (write (JObject (attribs_json attribs))) = Some (JObject (attribs_json attribs)) →
  forallb readable (entries attribs) = true →
  ∃ r, cb_column tname toc unroll from_time end_time rk (T2_of ts) st si col = Some (Some r) ∧
    timestamp r = ts ∧
    stat_row stats r out = load stats (Some unm) ts (concat (attrib_entries <$> entries attribs)) out.
Proof.
  intros c Ht Hts Hw Hn Hv Hp Hr.
  destruct (u32_row ts Hts) as [Hrow Hoff]. destruct (timestamp_joined ts Hts) as [Hj _].
  assert (TIMESTAMP_FROM_T2T1 (T2_of ts) (T1_of ts) = ts) as Htime by (unfold T2_of, T1_of; by rewrite Hrow, Hoff).
  exists {| timestamp := ts;
            info := [DbString (write (JObject (attribs_json attribs))); DbUuid unm] |}.
  split; [|split; [done|]].
  - change (last (col_value c)) with (Some (DbString (write (JObject (attribs_json attribs))))) in Hv.
    change (take 3 (col_name c)) with
      [DbString (tc_name (columns_of_tags tags)); DbU32 (T1_of ts); DbUuid unm] in Hn.
    unfold cb_column, column_t1, column_info. rewrite Ht, at_end_last, Hv, Hn.
    cbn [at_end length Nat.ltb Nat.leb Nat.sub lookup list_lookup mbind option_bind as_u32].
    rewrite Htime. destruct (Z.ltb_spec ts from_time); [lia|].
    by destruct (Z.ltb_spec end_time ts); [lia|].
  - unfold stat_row, get_stattable_info. cbn [info lookup list_lookup mbind option_bind]. rewrite Hp.
    unfold attribs_json. by rewrite (attribs_read _ Hr).
Qed.
End read_back.

(** ** Tags are stored where a condition looks for them *)

Section tags.
Context `{DoubleFormat}.

(** A tag that has no column of its own. *)
Definition in_tag_list (k : string) : bool :=
  negb ((k =? STATS_NAME_FIELD)%string || (k =? STATS_SOURCE_FIELD)%string ||
        ends_with k STATS_KEY_FIELD || ends_with k STATS_PROXY_FIELD).

Lemma own_column_None c k v : own_column c k v = None ↔ in_tag_list k = true.
Proof. unfold own_column, in_tag_list. by repeat case_match. Qed.
Lemma own_column_tags c k v c' : own_column c k v = Some c' → tc_tags c' = tc_tags c.
Proof. unfold own_column. repeat case_match; intros [= <-]; done. Qed.

Definition tag_index (n : string) : nat := Z.to_nat (djb_hash n mod NUM_STATS_TAGS_FIELD).
(** The text of a tag is in the list its name selects. *)
Definition holds (t : string * string) (c : tag_columns) : Prop :=
  ∃ l, tc_tags c !! tag_index t.1 = Some l ∧ t.1 +:+ "=" +:+ t.2 ∈ l.
Definition four (c : tag_columns) : Prop := length (tc_tags c) = 4%nat.

Lemma tag_index_lt n : (tag_index n < 4)%nat.
Proof.
  unfold tag_index, NUM_STATS_TAGS_FIELD. pose proof (Z.mod_pos_bound (djb_hash n) 4). lia.
Qed.

Lemma push_tag_four c t : four c → four (push_tag c t).
Proof. unfold four. simpl. by rewrite length_alter. Qed.
Lemma push_tag_keeps c t t' : holds t c → holds t (push_tag c t').
Proof.
  intros (l & Hl & Hin). unfold holds. simpl. fold (tag_index t'.1).
  destruct (decide (tag_index t'.1 = tag_index t.1)) as [->|Hne].
  - rewrite list_lookup_alter_eq, Hl. simpl. eexists. split; [done|]. set_solver.
  - rewrite list_lookup_alter_ne by done. eauto.
Qed.
Lemma push_tag_holds c t : four c → holds t (push_tag c t).
Proof.
  intros Hf. unfold holds. simpl. fold (tag_index t.1). rewrite list_lookup_alter_eq.
  destruct (lookup_lt_is_Some_2 (tc_tags c) (tag_index t.1)) as [l ->].
  { unfold four in Hf. rewrite Hf. apply tag_index_lt. }
  simpl. eexists. split; [done|]. set_solver.
Qed.

(** A step keeps the lists four, and what they hold. *)
Definition keeps {A} (f : tag_columns → A → tag_columns) : Prop :=
  ∀ c x, four c → four (f c x) ∧ ∀ t, holds t c → holds t (f c x).
Lemma keeps_foldl {A} (f : tag_columns → A → tag_columns) l c : keeps f → four c →
  four (foldl f c l) ∧ ∀ t, holds t c → holds t (foldl f c l).
Proof.
  intros Hk. revert c. induction l as [|x l IH]; intros c Hc; simpl; [done|].
  destruct (Hk c x Hc) as [Hf Hh]. destruct (IH _ Hf) as [Hf' Hh']. auto.
Qed.
Lemma holds_foldl {A} (f : tag_columns → A → tag_columns) l c x t : keeps f → four c → x ∈ l →
  (∀ c, four c → holds t (f c x)) → holds t (foldl f c l).
Proof.
  intros Hk Hc Hin Hx. revert c Hc. induction Hin as [x l|x y l Hin IH]; intros c Hc; simpl.
  - apply (keeps_foldl f l); [done|by apply Hk|by apply Hx].
  - apply IH; [done|by apply Hk].
Qed.

Lemma push_tag_step : keeps push_tag.
Proof. intros c x Hc. split; [by apply push_tag_four|]. intros t. apply push_tag_keeps. Qed.
Lemma second_tag_step : keeps second_tag.
Proof.
  intros c x Hc. unfold second_tag. destruct (own_column c x.1 x.2) as [c'|] eqn:E.
  - apply own_column_tags in E. unfold four, holds. by rewrite E.
  - destruct (push_tag_step c (x.1, show_var x.2) Hc) as [Hf Hh].
    destruct (keeps_foldl push_tag (value_tags x.1 x.2) _ push_tag_step Hf) as [Hf' Hh']. auto.
Qed.
Lemma first_tag_step : keeps first_tag.
Proof.
  intros c x Hc. unfold first_tag. destruct (own_column c x.1 x.2.1) as [c'|] eqn:E.
  - apply own_column_tags in E.
    destruct (keeps_foldl second_tag (entries x.2.2) c' second_tag_step) as [Hf Hh].
    { unfold four. by rewrite E. }
    split; [done|]. intros t Ht. apply Hh. unfold holds. by rewrite E.
  - destruct (is_valid x.2.1); [|done].
    destruct (keeps_foldl push_tag (value_tags x.1 x.2.1) c push_tag_step Hc) as [Hf Hh].
    destruct (keeps_foldl second_tag (entries x.2.2) _ second_tag_step Hf) as [Hf' Hh']. auto.
Qed.

Lemma second_tag_holds c k v t : four c → in_tag_list k = true → t ∈ value_tags k v →
  holds t (second_tag c (k, v)).
Proof.
  intros Hc Hk Ht. unfold second_tag. rewrite (proj2 (own_column_None _ _ _) Hk). simpl.
  eapply holds_foldl; [apply push_tag_step|by apply push_tag_four|exact Ht|].
  intros c' Hc'. by apply push_tag_holds.
Qed.

(** The tags of an entry that go to the lists. *)
Definition listed (k : string) (v : Var) (am : AttribMap) (t : string * string) : Prop :=
  (in_tag_list k = true ∧ t ∈ value_tags k v) ∨
  (∃ k2 v2, am !! k2 = Some v2 ∧ in_tag_list k2 = true ∧ t ∈ value_tags k2 v2).

Lemma first_tag_holds c k v am t : four c → is_valid v = true → listed k v am t →
  holds t (first_tag c (k, (v, am))).
Proof.
  intros Hc Hv Ht. unfold first_tag. simpl.
  assert (∀ c, four c → (∃ k2 v2, am !! k2 = Some v2 ∧ in_tag_list k2 = true ∧ t ∈ value_tags k2 v2) →
    holds t (foldl second_tag c (entries am))) as H2.
  { intros c' Hc' (k2 & v2 & Ham & Hk2 & Hin). eapply (holds_foldl _ _ _ (k2, v2));
      [apply second_tag_step|done|by apply elem_of_entries|]. intros c'' Hc''. by apply second_tag_holds. }
  destruct (own_column c k v) as [c'|] eqn:E.
  - destruct Ht as [[Hk _]|Ht].
    + apply (own_column_None c k v) in Hk. congruence.
    + apply H2; [|done]. apply own_column_tags in E. unfold four. by rewrite E.
  - rewrite Hv. destruct (keeps_foldl push_tag (value_tags k v) c push_tag_step Hc) as [Hf Hh].
    destruct Ht as [[Hk Ht]|Ht]; [|by apply H2].
    apply keeps_foldl; [apply second_tag_step|done|].
    eapply holds_foldl; [apply push_tag_step|done|exact Ht|]. intros c' Hc'. by apply push_tag_holds.
Qed.

Lemma concat_elem sep x l : x ∈ l → ∃ pre post, String.concat sep l = pre +:+ x +:+ post.
Proof.
  intros Hin. induction Hin as [x l|x y l Hin (pre & post & IH)].
  - exists EmptyString. destruct l as [|z l]; [exists EmptyString|exists (sep +:+ String.concat sep (z :: l))]; [|done].
    symmetry. apply (append_empty_r x).
  - destruct l as [|z l]; [by apply not_elem_of_nil in Hin|].
    exists (y +:+ sep +:+ pre), post. change (String.concat sep (y :: z :: l)) with (y +:+ sep +:+ String.concat sep (z :: l)).
    rewrite IH. by rewrite !append_assoc_string.
Qed.

Context `{Environment, JsonWriter}.

(** The text of every tag of a sample, [name=value], is part of the tag
    column that the name's hash selects: the column a condition of a query on
    that name asks, as [WhereQuery.tag_term] selects it by the same hash.  The
    tag columns are the last four of a stored sample. *)
Theorem tags_stored ts statName statAttr attribs_tag attribs unm ttl k v am n t :
  let c := stat_sample ts statName statAttr attribs_tag attribs unm ttl in
  let idx := djb_hash n mod NUM_STATS_TAGS_FIELD in
  (k, (v, am)) ∈ attribs_tag → is_valid v = true → listed k v am (n, t) →
  length (col_name c) = 10%nat ∧
  stats_index_columns !! (STATS_TAGS_FIELD +:+ pretty idx) = Some ("column" +:+ pretty (7 + idx)) ∧
  ∃ pre post, col_name c !! Z.to_nat (7 + idx - 1) = Some (DbString (pre +:+ (n +:+ "=" +:+ t) +:+ post)).
Proof.
  intros c idx Hin Hv Hl.
  assert (four no_tags) as H4 by done.
  assert (holds (n, t) (columns_of_tags attribs_tag)) as (l & Hidx & Htext).
  { unfold columns_of_tags. eapply holds_foldl; [apply first_tag_step|done|exact Hin|].
    intros c' Hc'. by apply first_tag_holds. }
  destruct (keeps_foldl first_tag attribs_tag no_tags first_tag_step H4) as [Hf _].
  fold (columns_of_tags attribs_tag) in Hf. unfold four in Hf.
  assert (0 <= idx < 4) as Hr by (apply Z.mod_pos_bound; done).
  assert (col_name c !! (6 + tag_index n)%nat = Some (DbString (PrependT2 (T2_of ts) (join ";" l)))) as Hcol.
  { unfold c, stat_sample, stat_column, col_name. rewrite lookup_app_r by (simpl; lia).
    change (length _) with 6%nat. replace (6 + tag_index n - 6)%nat with (tag_index n) by lia.
    rewrite list_lookup_fmap. cbn [fst] in Hidx. by rewrite Hidx. }
  split; [|split].
  - unfold c, stat_sample, stat_column, col_name. rewrite List.length_app, length_fmap, Hf. done.
  - clear -Hr. assert (idx = 0 ∨ idx = 1 ∨ idx = 2 ∨ idx = 3) as [-> | [-> | [-> | ->]]] by lia; by vm_compute.
  - destruct (concat_elem ";" _ _ Htext) as (pre & post & Hc).
    exists (pretty (T2_of ts) +:+ ":" +:+ pre), post.
    replace (Z.to_nat (7 + idx - 1)) with (6 + tag_index n)%nat by (unfold tag_index; fold idx; lia).
    rewrite Hcol. unfold PrependT2, join. rewrite Hc. by rewrite !append_assoc_string.
Qed.
End tags.

(** ** Reading messages back *)

Section messages_back.
Context `{DbToString} (table : string).

(** A column of a unit without the object id. *)
Definition column_value (inf : list DbDataValue) (i : nat) : option (string * DbDataValue) :=
  '(q, v, _) ← get_query_column_value table inf i EmptyString; Some (q, v).

Lemma get_column_value inf i o :
  get_query_column_value table inf i o = None ∧ column_value inf i = None ∨
  ∃ q v o', get_query_column_value table inf i o = Some (q, v, o') ∧ column_value inf i = Some (q, v).
Proof.
  unfold column_value, get_query_column_value.
  destruct (msg_columns !! i) as [[[c q] ix]|]; simpl; [|by left].
  destruct (inf !! i) as [v|]; simpl; [|by left]. right.
  destruct (ix && negb (bool_decide (v = DbBlank))); [|by eauto].
  destruct (starts_with q OBJECT_TYPE_NAME_PFX); eauto 6.
Qed.

Lemma column_value_name inf i q v : column_value inf i = Some (q, v) →
  (λ c, c.1.2) <$> msg_columns !! i = Some q.
Proof.
  unfold column_value, get_query_column_value.
  destruct (msg_columns !! i) as [[[c q'] ix]|]; simpl; [|done].
  destruct (inf !! i) as [w|]; simpl; [|done]. repeat case_match; intros; by simplify_eq/=.
Qed.

Lemma column_value_defined inf i : (i < length inf)%nat → (i < 22)%nat → is_Some (column_value inf i).
Proof.
  intros Hi H22. destruct (lookup_lt_is_Some_2 inf i Hi) as [v Hv].
  destruct (lookup_lt_is_Some_2 msg_columns i) as [c Hc]; [done|].
  destruct (get_column_value inf i EmptyString) as [[Hn _]|(q & w & o & _ & ->)]; [|eauto].
  unfold get_query_column_value in Hn. rewrite Hc, Hv in Hn. destruct c as [[c q] ix]. simpl in Hn.
  repeat case_match; done.
Qed.

Lemma query_column_inj i j q : (λ c, c.1.2) <$> msg_columns !! i = Some q →
  (λ c, c.1.2) <$> msg_columns !! j = Some q → i = j.
Proof.
  rewrite <- !list_lookup_fmap. apply NoDup_lookup.
  apply (bool_decide_eq_true_1 (NoDup ((λ c, c.1.2) <$> msg_columns))). by vm_compute.
Qed.

(** The columns of a unit by name. *)
Definition columns_read (r : query_result_unit_t) (m : gmap string DbDataValue) : Prop :=
  ∀ i q v, column_value (info r) i = Some (q, v) → (i < length (info r))%nat →
    m !! q = Some (if (q =? TIMESTAMP)%string then DbU64 (timestamp r) else v).
Lemma unit_columns_lookup r : (length (info r) <= 22)%nat →
  ∃ m id, unit_columns table r = Some (m, id) ∧ columns_read r m.
Proof.
  intros Hlen. unfold unit_columns.
  assert (∀ n, (n <= length (info r))%nat → ∃ m id,
    foldl (λ acc i, '(m, object_id) ← acc;
           '(query_column, value, object_id) ← get_query_column_value table (info r) i object_id;
           let value := if (query_column =? TIMESTAMP)%string then DbU64 (timestamp r) else value in
           Some (map_insert_new query_column value m, object_id)) (Some (∅, EmptyString)) (seq 0 n) = Some (m, id) ∧
    (∀ i q v, column_value (info r) i = Some (q, v) →
      m !! q = if decide (i < n)%nat
               then Some (if (q =? TIMESTAMP)%string then DbU64 (timestamp r) else v) else None)) as Hn.
  { induction n as [|n IH]; intros Hn.
    - exists ∅, EmptyString. split; [done|]. intros i q v _. by rewrite lookup_empty.
    - destruct IH as (m & id & Hf & Hm); [lia|]. rewrite seq_S, foldl_snoc, Hf. simpl.
      destruct (get_column_value (info r) n id) as [[_ Hd]|(q & v & id' & -> & Hv)].
      { destruct (column_value_defined (info r) n) as [? ?]; [lia..|congruence]. }
      eexists _, id'. split; [done|]. intros i q' v' Hv'. rewrite lookup_map_insert_new.
      destruct (decide (q = q')) as [<-|Hne].
      + assert (i = n) as -> by (eapply query_column_inj; by eapply column_value_name).
        rewrite Hv in Hv'. injection Hv' as <-. rewrite (Hm _ _ _ Hv), !decide_False, decide_True by lia. done.
      + rewrite (Hm _ _ _ Hv'). assert (i ≠ n) by congruence.
        destruct (decide (i < n)%nat); [rewrite decide_True by lia|rewrite decide_False by lia]; done. }
  destruct (Hn (length (info r)) (le_n _)) as (m & id & Hf & Hm). exists m, id. split; [done|].
  intros i q v Hv Hi. rewrite (Hm i q v Hv). by rewrite decide_True.
Qed.

(** A prefix up to the first colon is taken off. *)
Lemma erase_prefixed p s : has_char ":"%char p = false → size p < 2 ^ 63 → size s <= npos →
  erase_prefix (p +:+ ":" +:+ s) = s.
Proof.
  intros Hp Hl Hs. unfold erase_prefix. pose proof (size_nonneg p).
  assert (find (p +:+ ":" +:+ s) ":" 0 = size p) as ->.
  { unfold find. change (":" +:+ s) with (String ":" s). rewrite find_at_first; [|done|]; unfold size in *; lia. }
  rewrite u64_small by (unfold is_u64; lia).
  rewrite <- append_assoc_string. replace (size p + 1) with (size (p +:+ ":")) by (by rewrite size_app).
  by rewrite substr_drop.
Qed.

Lemma digits_no_colon s : all_digits s = true → has_char ":"%char s = false.
Proof.
  induction s as [|c s IH]; [done|]. simpl. intros [Hc Hs]%andb_true_iff. rewrite IH by done.
  rewrite orb_false_r. destruct (Ascii.eqb_spec c ":"); [by subst|done].
Qed.

Lemma erase_PrependT2 T2 s : is_u64 T2 → size s <= npos → erase_prefix (PrependT2 T2 s) = s.
Proof.
  intros HT Hs. pose proof (pretty_length T2 HT). destruct HT.
  apply erase_prefixed; [apply digits_no_colon; by apply all_digits_pretty|lia|done].
Qed.

Context (Hstr : ∀ s, DbDataValueToString (DbString s) = s).

Lemma column_value_indexed inf i c q T2 s : msg_columns !! i = Some (c, q, true) →
  inf !! i = Some (DbString (PrependT2 T2 s)) → is_u64 T2 → size s <= npos →
  column_value inf i =
  Some (q, DbString (if starts_with q OBJECT_TYPE_NAME_PFX then erase_prefix s else s)).
Proof.
  intros Hc Hi HT Hs. unfold column_value, get_query_column_value. rewrite Hc, Hi. simpl.
  rewrite Hstr, erase_PrependT2 by done. by destruct (starts_with q OBJECT_TYPE_NAME_PFX).
Qed.
Lemma column_value_plain inf i c q ix v : msg_columns !! i = Some (c, q, ix) → inf !! i = Some v →
  ix = false ∨ v = DbBlank → column_value inf i = Some (q, v).
Proof.
  intros Hc Hi Hp. unfold column_value, get_query_column_value. rewrite Hc, Hi. simpl.
  destruct Hp as [-> | ->]; [done|]. by rewrite bool_decide_true, andb_false_r.
Qed.

(** What the database returns for a stored value: texts, identifiers and blanks
    as they were stored, a number as some number. *)
Definition returned (stored read : DbDataValue) : Prop :=
  match stored with DbString _ | DbUuid _ | DbBlank => read = stored | _ => True end.

Context `{Environment}.
(** The columns of a stored message in the order of the schema. *)
Definition schema_order (c : ColList) : list DbDataValue := rowkey c ++ col_name c ++ col_value c.

Lemma object_columns_length T2 names : length (object_columns_of T2 names) = 6%nat.
Proof.
  unfold object_columns_of. rewrite List.length_app, length_fmap, length_take, length_replicate.
  change (Z.to_nat MSG_TABLE_MAX_OBJECTS_PER_MSG) with 6%nat. lia.
Qed.
Lemma object_columns_lookup T2 names i : (i < 6)%nat → object_columns_of T2 names !! i =
  Some (match names !! i with Some n => DbString (PrependT2 T2 n) | None => DbBlank end).
Proof.
  intros Hi. unfold object_columns_of. change (Z.to_nat MSG_TABLE_MAX_OBJECTS_PER_MSG) with 6%nat.
  destruct (names !! i) as [n|] eqn:E.
  - pose proof (lookup_lt_Some _ _ _ E). rewrite lookup_app_l by (rewrite length_fmap, length_take; lia).
    by rewrite list_lookup_fmap, lookup_take_lt, E.
  - apply lookup_ge_None in E. rewrite lookup_app_r; rewrite length_fmap, length_take; [|lia].
    apply lookup_replicate. split; [done|lia].
Qed.

Lemma T2_of_u64 ts : is_u64 (T2_of ts).
Proof. unfold T2_of, u32, is_u64. pose proof (Z.mod_pos_bound (Z.shiftr ts RowTimeInBits) (2 ^ 32)). lia. Qed.

Lemma schema_order_layout h vmsg object_names part :
  let hd := header vmsg in
  let T2 := T2_of (hd_Timestamp hd) in
  ∃ a b ip pid level seq type, schema_order (message_column h vmsg object_names part) =
    [a; b; DbU32 (T1_of (hd_Timestamp hd)); DbUuid (vm_unm vmsg); DbString (PrependT2 T2 (hd_Source hd));
     DbString (PrependT2 T2 (message_type vmsg)); DbString (PrependT2 T2 (hd_Module hd))] ++
    object_columns_of T2 object_names ++
    [ip; pid; DbString (hd_Category hd); level; DbString (hd_NodeType hd); DbString (hd_InstanceId hd); seq; type;
     DbString (ExtractMessage vmsg)].
Proof.
  eexists _, _, _, _, _, _, _. unfold schema_order, message_column. cbn [rowkey col_name col_value app].
  by rewrite <- (assoc_L (++)).
Qed.

(** Reading a text behind its T2 prefix, and a column without an index. *)
Section columns.
Context (stored : list DbDataValue) (r : query_result_unit_t) (m : gmap string DbDataValue).
Context (Hret : Forall2 returned stored (info r)) (Hm : columns_read r m).

Lemma returned_at i v : stored !! i = Some v → returned v v →
  match v with DbString _ | DbUuid _ | DbBlank => info r !! i = Some v | _ => True end.
Proof.
  intros Hi _. destruct (Forall2_lookup_l _ _ _ _ _ Hret Hi) as (w & Hw & Hv).
  destruct v; simpl in Hv; subst; done.
Qed.

Lemma read_indexed T2 i n q s : msg_columns !! i = Some (n, q, true) → (q =? TIMESTAMP)%string = false →
  stored !! i = Some (DbString (PrependT2 T2 s)) → is_u64 T2 → size s <= npos →
  m !! q = Some (DbString (if starts_with q OBJECT_TYPE_NAME_PFX then erase_prefix s else s)).
Proof.
  intros Hn Hq Hi HT Hs. pose proof (returned_at _ _ Hi eq_refl) as Hv. simpl in Hv.
  rewrite (Hm i q _ (column_value_indexed _ _ _ _ _ _ Hn Hv HT Hs)) by (by eapply lookup_lt_Some).
  by rewrite Hq.
Qed.

Lemma read_plain i n q ix v : msg_columns !! i = Some (n, q, ix) → (q =? TIMESTAMP)%string = false →
  ix = false ∨ v = DbBlank → info r !! i = Some v → m !! q = Some v.
Proof.
  intros Hn Hq Hp Hv. rewrite (Hm i q v) by (by eapply column_value_plain || by eapply lookup_lt_Some).
  by rewrite Hq.
Qed.

(** The object names, which start at the column 7. *)
Lemma read_object T2 object_names i : (i < 6)%nat → is_u64 T2 → Forall (λ s, size s <= npos) object_names →
  stored !! (7 + i)%nat =
    Some (match object_names !! i with Some n => DbString (PrependT2 T2 n) | None => DbBlank end) →
  m !! (OBJECT_TYPE_NAME_PFX +:+ pretty (i + 1)%nat) =
    Some (match object_names !! i with Some n => DbString (erase_prefix n) | None => DbBlank end).
Proof.
  intros Hi HT Hs Ho.
  assert (∃ n, msg_columns !! (7 + i)%nat = Some (n, OBJECT_TYPE_NAME_PFX +:+ pretty (i + 1)%nat, true)) as (n & Hn).
  { assert (i = 0 ∨ i = 1 ∨ i = 2 ∨ i = 3 ∨ i = 4 ∨ i = 5)%nat as Hc by lia.
    destruct Hc as [-> | [-> | [-> | [-> | [-> | ->]]]]]; by eexists. }
  destruct (object_names !! i) as [nm|] eqn:En.
  - rewrite Forall_forall in Hs.
    rewrite (read_indexed T2 _ _ _ nm Hn) by (done || apply Hs; by eapply list_elem_of_lookup_2).
    by rewrite starts_with_app.
  - apply (read_plain _ _ _ _ _ Hn); [done|by right|]. by apply (returned_at _ _ Ho).
Qed.
End columns.

(** The database answers with the clustering key of a row, and its other cells in
    the ascending order of their column names. *)
Definition name_before (a b : string * DbDataValue) : Prop := String.leb a.1 b.1 = true.
#[export] Instance name_before_dec a b : Decision (name_before a b) := bool_eq_dec _ _.
Definition database_values (c : ColList) : list DbDataValue :=
  (merge_sort name_before (zip (drop 4 msg_columns).*1.*1 (drop 2 (col_name c) ++ col_value c))).*2.

Lemma Forall2_lookups {A B} (P : A → B → Prop) l k idx ys : Forall2 P l k → mapM (λ i : nat, l !! i) idx = Some ys →
  ∃ zs, mapM (λ i : nat, k !! i) idx = Some zs ∧ Forall2 P ys zs.
Proof.
  intros Hl. revert ys. induction idx as [|i idx IH]; intros ys; simpl.
  { intros [= <-]. by exists []. }
  intros (y & Hy & (ys' & Hys & [= <-])%bind_Some)%bind_Some.
  destruct (Forall2_lookup_l _ _ _ _ _ Hl Hy) as (z & -> & Hz). destruct (IH _ Hys) as (zs & Hzs & ?).
  exists (z :: zs). simpl. rewrite Hzs. split; [done|by constructor].
Qed.
Lemma returned_refl l : Forall2 returned l l.
Proof. induction l as [|[]]; constructor; try done; assumption. Qed.

(** [message_table_query_get_row] puts the cells back in the order of the schema. *)
Lemma six_columns T2 names : ∃ o1 o2 o3 o4 o5 o6, object_columns_of T2 names = [o1; o2; o3; o4; o5; o6].
Proof.
  pose proof (object_columns_length T2 names) as Hl.
  destruct (object_columns_of _ _) as [|o1 [|o2 [|o3 [|o4 [|o5 [|o6 [|]]]]]]]; try done. by exists o1, o2, o3, o4, o5, o6.
Qed.
Lemma database_values_lookup h vmsg object_names part :
  let c := message_column h vmsg object_names part in
  mapM (λ i, database_values c !! i) [10; 11; 12; 13; 14; 15; 16; 0; 1; 2; 3; 4; 5; 6; 7; 8; 9; 17]%nat =
  Some (drop 2 (col_name c) ++ col_value c).
Proof.
  intros c. destruct (six_columns (T2_of (hd_Timestamp (header vmsg))) object_names) as (o1 & o2 & o3 & o4 & o5 & o6 & Ho).
  subst c. unfold database_values, message_column. cbn [col_name col_value]. rewrite Ho. cbn [app drop].
  generalize (ip_column (hd_IPAddress (header vmsg))) as v1.
  generalize (match hd_Pid (header vmsg) with Some p => DbU32 (u32 p) | None => DbBlank end) as v2.
  generalize (PrependT2 (T2_of (hd_Timestamp (header vmsg))) (hd_Source (header vmsg))) as v3.
  generalize (PrependT2 (T2_of (hd_Timestamp (header vmsg))) (message_type vmsg)) as v4.
  generalize (PrependT2 (T2_of (hd_Timestamp (header vmsg))) (hd_Module (header vmsg))) as v5.
  generalize (u32 (hd_Level (header vmsg))) as v6. generalize (u32 (hd_SequenceNum (header vmsg))) as v7.
  generalize (u8 (hd_Type (header vmsg))) as v8. intros. vm_compute. reflexivity.
Qed.
Lemma get_row_schema_order h vmsg object_names part col :
  let c := message_column h vmsg object_names part in
  DbQuery.name col = take 2 (col_name c) → Forall2 returned (database_values c) (DbQuery.value col) →
  ∃ inf, message_table_query_get_row (rowkey c) col = Some inf ∧ Forall2 returned (schema_order c) inf.
Proof.
  intros c Hn Hv. destruct (Forall2_lookups _ _ _ _ _ Hv (database_values_lookup h vmsg object_names part)) as (v & Hm & Hr).
  exists (rowkey c ++ take 2 (col_name c) ++ v). split.
  - unfold message_table_query_get_row. rewrite Hn, Hm. done.
  - unfold schema_order. rewrite <- (take_drop 2 (col_name c)) at 1. rewrite <- (assoc_L (++)).
    repeat apply Forall2_app; [apply returned_refl..|exact Hr].
Qed.

(** The unit the engine's row callback makes of the column of a message. *)
Lemma message_unit h vmsg object_names part col unroll from_time end_time :
  let c := message_column h vmsg object_names part in
  let ts := hd_Timestamp (header vmsg) in
  is_stat_table_query table = false → is_session_query table = false → is_flow_query table = false →
  0 <= ts < 2 ^ 55 → from_time <= ts <= end_time →
  DbQuery.name col = take 2 (col_name c) → Forall2 returned (database_values c) (DbQuery.value col) →
  ∃ inf, cb table true unroll from_time end_time (rowkey c) (RowOk [col]) =
      Some {| cb_units := [{| timestamp := ts; info := inf |}]; cb_error := false |} ∧
    Forall2 returned (schema_order c) inf.
Proof.
  intros c ts Hst Hse Hfl Hts Hw Hn Hv. destruct (get_row_schema_order h vmsg object_names part col Hn Hv) as (inf & Hi & Hr).
  exists inf. split; [|exact Hr]. destruct (u32_row ts Hts) as [Hrow Hoff]. destruct (timestamp_joined ts Hts) as [Hj _].
  assert (TIMESTAMP_FROM_T2T1 (T2_of ts) (T1_of ts) = ts) as Htime by (unfold T2_of, T1_of; by rewrite Hrow, Hoff).
  unfold cb. rewrite Hse, Hfl. change (rowkey c !! 0%nat ≫= as_u32) with (Some (T2_of ts)).
  cbn [orb mbind option_bind mapM]. unfold cb_column, column_t1, column_info. rewrite Hst, Hse, Hfl, Hn.
  fold c in Hi. rewrite Hi. change (at_end (take 2 (col_name c)) 2 ≫= as_u32) with (Some (T1_of ts)).
  cbn [orb mbind option_bind]. rewrite Htime. destruct (Z.ltb_spec ts from_time); [lia|].
  by destruct (Z.ltb_spec end_time ts); [lia|].
Qed.

(** C17.  A message that is inserted is read back by a query of messages or of
    its objects: from the row the database has of it (its cells in the order of
    their column names), the engine's row callback makes one unit, and the columns
    of the unit are the time, the identifier, the source, the type, the module, the
    category, the node type, the instance and the text of the message, and as the
    [i]-th object the id of its [i]-th object name, for the first six; the others
    are blank. *)
Theorem message_read_back h vmsg object_names part col unroll from_time end_time :
  let c := message_column h vmsg object_names part in
  let hd := header vmsg in
  is_stat_table_query table = false → is_session_query table = false → is_flow_query table = false →
  0 <= hd_Timestamp hd < 2 ^ 55 → from_time <= hd_Timestamp hd <= end_time →
  DbQuery.name col = take 2 (col_name c) → Forall2 returned (database_values c) (DbQuery.value col) →
  Forall (λ s, size s <= npos) ([hd_Source hd; message_type vmsg; hd_Module hd] ++ object_names) →
  ∃ r m id, cb table true unroll from_time end_time (rowkey c) (RowOk [col]) =
      Some {| cb_units := [r]; cb_error := false |} ∧
    timestamp r = hd_Timestamp hd ∧ unit_columns table r = Some (m, id) ∧
    m !! TIMESTAMP = Some (DbU64 (hd_Timestamp hd)) ∧ m !! UUID_KEY = Some (DbUuid (vm_unm vmsg)) ∧
    m !! SOURCE = Some (DbString (hd_Source hd)) ∧ m !! MESSAGE_TYPE = Some (DbString (message_type vmsg)) ∧
    m !! MODULE = Some (DbString (hd_Module hd)) ∧ m !! "Category"%string = Some (DbString (hd_Category hd)) ∧
    m !! "NodeType"%string = Some (DbString (hd_NodeType hd)) ∧
    m !! "InstanceId"%string = Some (DbString (hd_InstanceId hd)) ∧
    m !! DATA = Some (DbString (ExtractMessage vmsg)) ∧
    ∀ i, (i < 6)%nat → m !! (OBJECT_TYPE_NAME_PFX +:+ pretty (i + 1)%nat) =
      Some (match object_names !! i with Some n => DbString (erase_prefix n) | None => DbBlank end).
Proof.
  intros c hd Hst Hse Hfl Hts Hw Hn Hv Hsz. pose proof (T2_of_u64 (hd_Timestamp hd)) as HT.
  destruct (message_unit h vmsg object_names part col unroll from_time end_time Hst Hse Hfl Hts Hw Hn Hv) as (inf & Hcb & Hret).
  destruct (schema_order_layout h vmsg object_names part) as (a & b & ip & pid & level & seq & type & Hso).
  fold hd in Hso. fold c in Hso, Hret. set (T2 := T2_of (hd_Timestamp hd)) in *. rewrite Hso in Hret.
  set (r := {| timestamp := hd_Timestamp hd; info := inf |}). change inf with (info r) in Hret.
  assert (length (info r) = 22%nat) as Hr.
  { by rewrite <- (Forall2_length _ _ _ Hret), !List.length_app, object_columns_length. }
  destruct (unit_columns_lookup r) as (m & id & Hm & Hcol); [lia|].
  exists r, m, id. split; [exact Hcb|]. split; [done|]. split; [exact Hm|].
  rewrite Forall_app, !Forall_cons in Hsz. destruct Hsz as [(Hs1 & Hs2 & Hs3 & _) Hs4].
  assert (∀ k n q v, msg_columns !! (13 + k)%nat = Some (n, q, false) → (q =? TIMESTAMP)%string = false →
    [ip; pid; DbString (hd_Category hd); level; DbString (hd_NodeType hd); DbString (hd_InstanceId hd); seq; type;
     DbString (ExtractMessage vmsg)] !! k = Some (DbString v) → m !! q = Some (DbString v)) as Hplain.
  { intros k n q v Hc Hq Hi. apply (read_plain r m Hcol _ n q false _ Hc Hq); [by left|].
    apply (returned_at _ r Hret _ (DbString v)); [|done]. rewrite lookup_app_r by (simpl; lia).
    rewrite lookup_app_r, object_columns_length by (rewrite object_columns_length; simpl; lia).
    replace (13 + k - _ - 6)%nat with k by (simpl; lia). exact Hi. }
  split_and!.
  - destruct (column_value_defined (info r) 0) as [[q v] Hv0]; [lia..|].
    pose proof (column_value_name _ _ _ _ Hv0) as Hq. simpl in Hq. injection Hq as <-.
    rewrite (Hcol _ _ _ Hv0) by lia. by rewrite String.eqb_refl.
  - apply (read_plain r m Hcol 3 "column2" _ false); [done|done|by left|].
    by apply (returned_at _ r Hret 3 (DbUuid _)).
  - by apply (read_indexed _ r m Hret Hcol T2 4 "column3" SOURCE (hd_Source hd)).
  - by apply (read_indexed _ r m Hret Hcol T2 5 "column4" MESSAGE_TYPE (message_type vmsg)).
  - by apply (read_indexed _ r m Hret Hcol T2 6 "column5" MODULE (hd_Module hd)).
  - by apply (Hplain 2%nat "column14"%string).
  - by apply (Hplain 4%nat "column16"%string).
  - by apply (Hplain 5%nat "column17"%string).
  - by apply (Hplain 8%nat "value"%string).
  - intros i Hi. apply (read_object _ r m Hret Hcol T2); [done..|]. rewrite lookup_app_r by (simpl; lia).
    replace (7 + i - _)%nat with i by (simpl; lia).
    rewrite lookup_app_l by (by rewrite object_columns_length). by apply object_columns_lookup.
Qed.
End messages_back.

(** ** Examples *)

Module HandlerExamples.
#[local] Existing Instance PostExamples.double_format.
#[local] Existing Instance StatExamples.order.
#[local] Existing Instance StatExamples.digests.
#[local] Existing Instance StatExamples.hash.
#[local] Existing Instance SelectExamples.db_to_string.

Definition environment : Environment := {|
  Db_AddColumn _ _ := true; umn_gen_ n := Z.of_nat n; gen_partition_no_ n := Z.of_nat (n mod 8);
  name_generator s := size s; IpAddress_from_string _ := None
|}.
#[local] Existing Instance environment.
Definition handler : DbHandler := {|
  disable_all_writes_ := false; disable_statistics_writes_ := false; disable_messages_writes_ := false;
  col_name_ := "collector"; ttl_map_ _ := Some 48 |}.
Definition fresh : db_state := {|
  field_cache_index_ := 0; field_cache_set_ := ∅; uuids_drawn := 0; partitions_drawn := 0; inserted := [] |}.

(** A sample with an attribute of every type. *)
Definition attribs : AttribMap := list_to_map [
  ("name", VarString "vr1"); ("if.bytes", VarU64 7); ("if.load", VarDouble (S754_zero false));
  ("if.errors", VarList ["crc"; "len"]); ("if.tags", VarMap {[ "site" := "a" ]})]%string.
Definition tags : TagMap := [
  ("name", (VarString "vr1", {[ "if.kind" := VarString "tap" ]})); ("if.queue", (VarU64 3, ∅))]%string.

(** A writer of flat objects, and a parser that knows one text. *)
Definition write_value (v : json) : string :=
  match v with JString s => quoted s | JInt n => pretty n | _ => "0" end.
Definition writer : JsonWriter := {|
  write v := match v with
             | JObject l => "{" +:+ String.concat "," ((λ p, quoted p.1 +:+ ":" +:+ write_value p.2) <$> l) +:+ "}"
             | v => write_value v
             end |}.
#[local] Existing Instance writer.
Definition parser : JsonParser := {|
  Document_Parse text :=
    if (text =? write (JObject (attribs_json attribs)))%string then Some (JObject (attribs_json attribs)) else None |}.
#[local] Existing Instance parser.

Definition now : Z := 1600000000123456.
Definition requests : list field_request :=
  (λ r, {| fr_ts := r.1; fr_prefix := "MessageTable"; fr_name := ":Source"; fr_val := r.2; fr_ttl := 100 |}) <$>
    [(now, "a"); (now + 5, "b"); (now + 9000000, "a"); (now + 900000000, "a"); (now, "b")]%string.
Lemma field_names_once_witness :
  length (unshadowed [] requests) = 3%nat ∧
  inserted (foldl (insert_field handler) fresh requests) =
  inserted fresh ++ (field_sample handler <$> unshadowed [] requests).
Proof. split; [by vm_compute|]. by apply (field_names_once handler requests fresh). Defined.

Definition stored : ColList := stat_sample now "Vif" "if" tags attribs 77 100.
Definition stored_col : NewCol :=
  {| DbQuery.name := take 3 (col_name stored); DbQuery.value := drop 3 (col_name stored) ++ col_value stored |}.
Lemma stat_sample_read_back_witness :
  ∃ r, cb_column "StatTable.Vif.if" false false (now - 10) (now + 10) [] (T2_of now) 0 0 stored_col = Some (Some r) ∧
    timestamp r = now ∧
    stat_row StatExamples.select r [] =
    load StatExamples.select (Some 77) now (concat (attrib_entries <$> entries attribs)) [].
Proof.
  apply (stat_sample_read_back now "Vif" "if" tags attribs 77 100);
    [by vm_compute|split; vm_compute; congruence|split; vm_compute; congruence|done|done|by vm_compute|by vm_compute].
Defined.

Lemma tags_stored_witness :
  length (col_name stored) = 10%nat ∧
  stats_index_columns !! (STATS_TAGS_FIELD +:+ pretty (djb_hash "if.kind" mod NUM_STATS_TAGS_FIELD)) =
    Some ("column" +:+ pretty (7 + djb_hash "if.kind" mod NUM_STATS_TAGS_FIELD)) ∧
  ∃ pre post, col_name stored !! Z.to_nat (7 + djb_hash "if.kind" mod NUM_STATS_TAGS_FIELD - 1) =
    Some (DbString (pre +:+ ("if.kind" +:+ "=" +:+ "tap") +:+ post)).
Proof.
  apply (tags_stored now "Vif" "if" tags attribs 77 100 "name" (VarString "vr1")
    {[ "if.kind"%string := VarString "tap" ]} "if.kind" "tap"); [by left|done|].
  right. exists "if.kind"%string, (VarString "tap"). split; [done|]. split; [done|by left].
Defined.

Definition vmsg : VizMsg := {|
  header := {| hd_Timestamp := now; hd_Source := "host"; hd_Module := "agent"; hd_IPAddress := None;
               hd_Pid := Some 12; hd_Category := "c"; hd_Level := 7; hd_NodeType := "Compute";
               hd_InstanceId := "0"; hd_SequenceNum := 3; hd_Type := 1; hd_Hints := 0 |};
  message_type := "VRouterLog"; vm_unm := 5; ExtractMessage := "<xml/>" |}.
Definition message_of_database : NewCol :=
  let c := message_column handler vmsg ["ObjectVRouter:host"%string] 3 in
  {| DbQuery.name := take 2 (col_name c); DbQuery.value := database_values c |}.
Lemma text_shown s : DbDataValueToString (DbString s) = s.
Proof. done. Qed.

Lemma message_read_back_witness :
  ∃ r m id, cb "ObjectVRouter" true false (now - 10) (now + 10)
      (rowkey (message_column handler vmsg ["ObjectVRouter:host"%string] 3)) (RowOk [message_of_database]) =
      Some {| cb_units := [r]; cb_error := false |} ∧
    timestamp r = now ∧ unit_columns "ObjectVRouter" r = Some (m, id) ∧
    m !! TIMESTAMP = Some (DbU64 now) ∧ m !! UUID_KEY = Some (DbUuid 5) ∧
    m !! SOURCE = Some (DbString "host") ∧ m !! MESSAGE_TYPE = Some (DbString "VRouterLog") ∧
    m !! MODULE = Some (DbString "agent") ∧ m !! "Category"%string = Some (DbString "c") ∧
    m !! "NodeType"%string = Some (DbString "Compute") ∧ m !! "InstanceId"%string = Some (DbString "0") ∧
    m !! DATA = Some (DbString "<xml/>") ∧
    ∀ i, (i < 6)%nat → m !! (OBJECT_TYPE_NAME_PFX +:+ pretty (i + 1)%nat) =
      Some (match ["ObjectVRouter:host"%string] !! i with
            | Some n => DbString (erase_prefix n) | None => DbBlank end).
Proof.
  apply (message_read_back "ObjectVRouter" text_shown handler vmsg ["ObjectVRouter:host"%string] 3
    message_of_database); [done|done|done|split; vm_compute; congruence|split; vm_compute; congruence|done| |].
  - apply returned_refl.
  - by repeat constructor.
Defined.
End HandlerExamples.
