(* ===== verification/SessionTable.v ===== *)
(** * Flow sessions: the collector's session table

    [contrail-collector/db_handler.cc] ([SessionTableInsert] and what it
    calls), [vizd_table_desc.cc] ([session_msg2type_map]).  A session sample is
    an XML node: its fields become columns of the session table, one row for
    every aggregate of the sample, whose sessions are written as a JSON object.
    The last part reads the rows and the JSON back with the engine's
    definitions. *)
From Stdlib Require Import Ascii.
From stdpp Require Import base tactics list strings pretty gmap.
From Stdlib Require Import ZArith Lia SpecFloat.
From S2P Require Import Prelude.
From S2P Require Import CppString.
From S2P Require Import VizConstants.
From S2P Require Import QueryTypes.
From S2P Require Import Json.
From S2P Require Import AnalyticsQuery.
From S2P Require Import DbQuery.
From S2P Require Import PostProcessing.
From S2P Require Import StatsSelect.
From S2P Require Import WhereQuery.
From S2P Require Import SelectQuery.
From S2P Require Import StatWalker.
From S2P Require Import DbHandler.
From S2P Require Import Xml.
From S2P Require Import DomStats.
Import Tables.
Local Open Scope Z_scope.

Definition UNKNOWN : string := "__UNKNOWN__".

#[export] Instance DbDataValue_inhabited : Inhabited DbDataValue := populate DbBlank.

(** ** Fields *)

(** [SessionRecordFields] by its numbers, besides those of [VizConstants]. *)
Definition SESSION_T2 : nat := 0.
Definition SESSION_PARTITION_NO : nat := 1.
Definition SESSION_IS_SI : nat := 2.
Definition SESSION_IS_CLIENT_SESSION : nat := 3.
Definition SESSION_PROTOCOL : nat := 4.
Definition SESSION_SPORT : nat := 5.
Definition SESSION_IP : nat := 23.
Definition SESSION_VN : nat := 24.
Definition SESSION_REMOTE_VN : nat := 25.
Definition SESSION_VROUTER : nat := 26.
Definition SESSION_MIN : nat := SESSION_PROTOCOL.
Definition SESSION_MAX : nat := 37.

(** The types of [session_msg2type_map]. *)
Inductive field_type := Unsigned8Type | Unsigned16Type | Unsigned64Type | TextType | InetType.

(** [session_msg2type_map]: the field and the type of a name of a message. *)
Definition session_msg2type_map : gmap string (nat * field_type) := list_to_map [
  ("is_client_session", (3, Unsigned8Type)); ("is_si", (2, Unsigned8Type));
  ("protocol", (4, Unsigned16Type)); ("server_port", (5, Unsigned16Type));
  ("deployment", (8, TextType)); ("tier", (9, TextType)); ("application", (10, TextType));
  ("site", (11, TextType)); ("labels", (12, TextType)); ("custom_tags", (13, TextType));
  ("remote_deployment", (14, TextType)); ("remote_tier", (15, TextType));
  ("remote_application", (16, TextType)); ("remote_site", (17, TextType));
  ("remote_labels", (18, TextType)); ("remote_custom_tags", (19, TextType));
  ("security_policy_rule", (21, TextType)); ("remote_prefix", (20, TextType)); ("vmi", (22, TextType));
  ("local_ip", (23, TextType)); ("vrouter_ip", (27, InetType)); ("vn", (24, TextType));
  ("remote_vn", (25, TextType)); ("sampled_forward_bytes", (28, Unsigned64Type));
  ("sampled_forward_pkts", (29, Unsigned64Type)); ("sampled_reverse_bytes", (30, Unsigned64Type));
  ("sampled_reverse_pkts", (31, Unsigned64Type)); ("logged_forward_bytes", (32, Unsigned64Type));
  ("logged_forward_pkts", (33, Unsigned64Type)); ("logged_reverse_bytes", (34, Unsigned64Type));
  ("logged_reverse_pkts", (35, Unsigned64Type))]%string%nat.

#[global] Opaque session_msg2type_map.

(** [default_col_values]. *)
Definition default_col_values : list DbDataValue :=
  [DbU32 0; DbU8 0; DbU8 0; DbU8 0; DbU16 0; DbU16 0; DbU32 0; DbUuid 0] ++
  repeat (DbString UNKNOWN) 18 ++ [DbString EmptyString; DbIpAddress false 0] ++
  repeat (DbU64 0) 8 ++ [DbString EmptyString].

(** The names of [flow.sandesh], which is outside the repository, and which
    fields of a flow are numbers; [stringToInteger] for the narrow types: the
    number it leaves in its argument. *)
Class FlowConstants := {
  SERVICE_PORT : string; PROTOCOL : string; LOCAL_IP : string; PORT : string; IP : string;
  SessionFlowInfoField2Type : gmap string bool
}.
Class StringToNarrow := {
  string_to_u8 : string → Z; string_to_u16 : string → Z; string_to_i16 : string → Z
}.

(** [SessionTableDbStats]. *)
Record SessionTableDbStats := {
  num_messages : Z; num_writes : Z; num_samples : Z; curr_json_size : Z
}.
(** The state a sample changes, and [thrown] after an exception. *)
Record session_state := { ss_db : db_state; ss_stats : SessionTableDbStats; thrown : bool }.

(** ** The JSON of the sessions *)

Section jsonify.
Context `{XmlForms, FlowConstants, StringToInteger}.

Definition is_flow_info (fname : string) : bool :=
  (fname =? "forward_flow_info")%string || (fname =? "reverse_flow_info")%string.
(** A field of a flow; [None]: the assertion on its name fails. *)
Definition flow_info_member (finfo : xml_node) : option (string * json) :=
  let nm := name (Some finfo) in
  let value := child_value (Some finfo) in
  is_number ← SessionFlowInfoField2Type !! nm;
  Some (c_str nm, if (is_number : bool) then JInt (stringToInteger value).1 else JString (c_str value)).
Definition session_member (field : xml_node) : option (string * json) :=
  let fname := name (Some field) in
  if is_flow_info fname then
    l ← mapM flow_info_member (children (child (Some field) "SessionFlowInfo"));
    Some (c_str fname, JObject l)
  else
    let fvalue := child_value (Some field) in
    let '(val, ok) := stringToInteger fvalue in
    Some (c_str fname, if (ok : bool) then JInt val else JString (c_str fvalue)).

(** The key of a session, and the loop over keys and sessions. *)
Definition ip_port_key (ip_port : xml_node) : string :=
  child_value (child (Some ip_port) PORT) +:+ ":" +:+ child_value (child (Some ip_port) IP).
Fixpoint session_map_members (l : list xml_node) : option (list (string * json)) :=
  match l with
  | [] => Some []
  | [ip_port] => Some [(c_str (ip_port_key ip_port), JObject [])]
  | ip_port :: session :: l' =>
      fields ← mapM session_member (children (Some session));
      rest ← session_map_members l';
      Some ((c_str (ip_port_key ip_port), JObject fields) :: rest)
  end.

Context `{JsonWriter}.
(** [JsonifySessionMap]. *)
Definition JsonifySessionMap (root : handle) : option string :=
  (λ l, write (JObject l)) <$> session_map_members (children root).
End jsonify.

(** ** Rows *)

Section rows.
Context `{Environment} (h : DbHandler).

Definition is_blank (v : DbDataValue) : bool := match v with DbBlank => true | _ => false end.
(** A column name of [PopulateSessionTable]. *)
Definition session_column_name (t2 : Z) (svalues : list DbDataValue) (sfield : nat) : DbDataValue :=
  let v := svalues !!! sfield in
  if is_blank v then
    if session_column_indexed sfield then DbString (pretty t2 +:+ ":" +:+ UNKNOWN)
    else default_col_values !!! sfield
  else v.
Definition session_row (t2 : Z) (svalues : list DbDataValue) : ColList := {|
  cfname := SESSION_TABLE;
  rowkey := (λ f, svalues !!! f) <$> [SESSION_T2; SESSION_PARTITION_NO; SESSION_IS_SI; SESSION_IS_CLIENT_SESSION];
  col_name := session_column_name t2 svalues <$> seq SESSION_MIN (SESSION_MAX - 1 - SESSION_MIN);
  col_value := [svalues !!! SESSION_MAP]; col_ttl := GetTtl h FLOWDATA_TTL |}.
(** [PopulateSessionTable]. *)
Definition PopulateSessionTable (t2 : Z) (svalues : list DbDataValue) (st : db_state) : db_state :=
  (InsertIntoDb h (session_row t2 svalues) st).2.
End rows.

(** ** Samples *)

Section samples.
Context `{Environment, XmlForms, FlowConstants, StringToInteger, StringToNarrow, JsonWriter, DoubleFormat}.
Context (h : DbHandler).

(** The fields [SessionSampleAdd] stores behind their T2: of the texts these,
    and every set. *)
Definition t2_prefixed (field : nat) : bool :=
  bool_decide (field ∈ [8; 9; 10; 11; 14; 15; 16; 17; 20; 21; 22; SESSION_VN; SESSION_REMOTE_VN]%nat).
Definition set_text (T2 : Z) (sfield : handle) : string :=
  PrependT2 T2 (join ";" ((λ e, unescaped (Some e)) <$> children (child sfield "set"))).

(** The value of a field of the sample. *)
Definition field_value (T2 : Z) (sfield : handle) (field : nat) (ty : field_type) : DbDataValue :=
  if (attribute_value sfield "type" =? "set")%string then DbString (set_text T2 sfield)
  else
    let text := child_value sfield in
    match ty with
    | Unsigned8Type => DbU8 (string_to_u8 text)
    | Unsigned16Type => DbU16 (string_to_u16 text)
    | Unsigned64Type => DbU64 (stringToInteger text).1
    | TextType =>
        let val := unescaped sfield in
        DbString (if t2_prefixed field then PrependT2 T2 val else val)
    | InetType =>
        match IpAddress_from_string text with
        | Some (v6, a) => DbIpAddress v6 a
        | None => DbIpAddress false 0
        end
    end.

(** One field of the sample: the values, and the node of the aggregates. *)
Definition sample_field (T2 : Z) (acc : list DbDataValue * handle) (n : xml_node) : list DbDataValue * handle :=
  let sfield := Some n in
  match session_msg2type_map !! name sfield with
  | Some (field, ty) => (<[field := field_value T2 sfield field ty]> acc.1, acc.2)
  | None =>
      if (attribute_value sfield "type" =? "map")%string && (name sfield =? "sess_agg_info")%string
      then (acc.1, child sfield "map") else acc
  end.

(** The values all rows of a sample share, and the node of the aggregates. *)
Definition header_values (hd : SandeshHeader) : list DbDataValue :=
  <[SESSION_VROUTER := DbString (hd_Source hd)]>
    (<[SESSION_T1 := DbU32 (T1_of (hd_Timestamp hd))]>
       (<[SESSION_T2 := DbU32 (T2_of (hd_Timestamp hd))]> (replicate SESSION_MAX DbBlank))).
Definition sample_values (session_sample : handle) (hd : SandeshHeader) : list DbDataValue * handle :=
  foldl (sample_field (T2_of (hd_Timestamp hd))) (header_values hd, None) (children session_sample).

(** Counters of the statistics: [samples] is added as a [uint64_t]. *)
Definition count_sessions (samples size : Z) (s : SessionTableDbStats) : SessionTableDbStats := {|
  num_messages := num_messages s; num_writes := num_writes s;
  num_samples := u64 (num_samples s + samples); curr_json_size := u64 (curr_json_size s + size) |}.
Definition count_write (s : SessionTableDbStats) : SessionTableDbStats := {|
  num_messages := num_messages s; num_writes := u64 (num_writes s + 1);
  num_samples := num_samples s; curr_json_size := curr_json_size s |}.
Definition count_message (s : SessionTableDbStats) : SessionTableDbStats := {|
  num_messages := u64 (num_messages s + 1); num_writes := num_writes s;
  num_samples := num_samples s; curr_json_size := curr_json_size s |}.

(** One field of an aggregate; [None]: an assertion fails. *)
Definition agg_field (acc : option (list DbDataValue * SessionTableDbStats)) (n : xml_node)
  : option (list DbDataValue * SessionTableDbStats) :=
  '(values, stats) ← acc;
  let agg_info := Some n in
  if (attribute_value agg_info "type" =? "map")%string then
    let samples := string_to_i16 (attribute_value (child agg_info "map") "size") in
    session_map ← JsonifySessionMap (child agg_info "map");
    Some (<[SESSION_MAP := DbString session_map]> values, count_sessions samples (size session_map) stats)
  else
    match session_msg2type_map !! name agg_info with
    | Some (field, _) =>
        Some (<[field := DbU64 (stringToInteger (child_value agg_info)).1]> values, stats)
    | None => Some (values, stats)
    end.

(** The fields of the key of an aggregate, with what is drawn for the row. *)
Definition aggregate_key (T2 : Z) (ip_port_proto : xml_node) (uuid part : Z) (values : list DbDataValue)
  : list DbDataValue :=
  let n := Some ip_port_proto in
  <[SESSION_IP := DbString (PrependT2 T2 (child_value (child n LOCAL_IP)))]>
    (<[SESSION_PARTITION_NO := DbU8 part]>
       (<[SESSION_UUID := DbUuid uuid]>
          (<[SESSION_PROTOCOL := DbU16 (string_to_u16 (child_value (child n PROTOCOL)))]>
             (<[SESSION_SPORT := DbU16 (string_to_u16 (child_value (child n SERVICE_PORT)))]> values)))).

(** The loop over the aggregates, keys and values in turn: every one inserts a
    row.  The values are those of the aggregate before it where neither its key
    nor its fields set them. *)
Definition insert_aggregate (T2 : Z) (ip_port_proto : xml_node) (sess_agg_info : handle)
    (acc : list DbDataValue * session_state) : option (list DbDataValue * session_state) :=
  let '(values, ss) := acc in
  let st := ss_db ss in
  let values := aggregate_key T2 ip_port_proto (umn_gen_ (uuids_drawn st)) (gen_partition_no_ (partitions_drawn st)) values in
  '(values, stats) ← foldl agg_field (Some (values, ss_stats ss)) (children sess_agg_info);
  Some (values, {| ss_db := PopulateSessionTable h T2 values (draw 1 1 st);
                   ss_stats := count_write stats; thrown := false |}).
Fixpoint aggregate_loop (T2 : Z) (l : list xml_node) (acc : list DbDataValue * session_state)
  : option (list DbDataValue * session_state) :=
  match l with
  | [] => Some acc
  | [k] => insert_aggregate T2 k None acc
  | k :: v :: l' => acc ← insert_aggregate T2 k (Some v) acc; aggregate_loop T2 l' acc
  end.

(** A field recorded as a field name; a value that is not a text is an exception
    of [boost::get]. *)
Definition session_field_name (ts : Z) (field_name : string) (field : nat) (values : list DbDataValue)
    (ss : session_state) : session_state :=
  if thrown ss then ss
  else match values !!! field with
       | DbString val =>
           {| ss_db := FieldNamesTableInsert h ts SESSION_TABLE field_name val (GetTtl h FLOWDATA_TTL) (ss_db ss);
              ss_stats := ss_stats ss; thrown := false |}
       | _ => {| ss_db := ss_db ss; ss_stats := ss_stats ss; thrown := true |}
       end.

(** [SessionSampleAdd]; [None]: an assertion fails. *)
Definition SessionSampleAdd (session_sample : handle) (hd : SandeshHeader) (ss : session_state)
  : option session_state :=
  let ts := hd_Timestamp hd in
  let '(values, agg_node) := sample_values session_sample hd in
  '(values, ss) ← aggregate_loop (T2_of ts) (children agg_node) (values, ss);
  let ss := session_field_name ts ":vrouter" SESSION_VROUTER values ss in
  let ss := session_field_name ts ":vn" SESSION_VN values ss in
  let ss := session_field_name ts ":remote_vn" SESSION_REMOTE_VN values ss in
  Some (if thrown ss then ss
        else {| ss_db := ss_db ss; ss_stats := count_message (ss_stats ss); thrown := false |}).

(** [SessionTableInsert]: the samples of the message; an exception ends it. *)
Definition session_samples (parent : handle) : list handle :=
  match child parent "session_data" with
  | None => []
  | Some n =>
      let session_data := Some n in
      if (attribute_value session_data "type" =? "list")%string
      then Some <$> children (child session_data "list") else [first_child session_data]
  end.
Definition SessionTableInsert (parent : handle) (hd : SandeshHeader) (ss : session_state)
  : option session_state :=
  foldl (λ acc sample, ss ← acc; if thrown ss then Some ss else SessionSampleAdd sample hd ss)
    (Some ss) (session_samples parent).
End samples.

(** ** The rows of a sample *)

Section sample_rows.
Context `{Environment, XmlForms, FlowConstants, StringToInteger, StringToNarrow, JsonWriter, DoubleFormat}.
Context (h : DbHandler).

(** The fields a sample has for all its rows. *)
Definition shared_fields : list nat :=
  [SESSION_T2; SESSION_IS_SI; SESSION_IS_CLIENT_SESSION; SESSION_T1; 8; 9; 10; 11; 12; 13; 14; 15; 16;
   17; 18; 19; 20; 21; 22; SESSION_VN; SESSION_REMOTE_VN; SESSION_VROUTER; 27]%nat.
(** The fields of the aggregates are counters. *)
Definition counter_field (n : xml_node) : bool :=
  (attribute_value (Some n) "type" =? "map")%string ||
  match session_msg2type_map !! node_name n with
  | Some (field, _) => (28 <=? field)%nat && (field <? 36)%nat
  | None => true
  end.
Fixpoint aggregate_fields (l : list xml_node) : list (list xml_node) :=
  match l with [] => [] | [_] => [[]] | _ :: v :: l' => node_children v :: aggregate_fields l' end.
Definition counters_only (agg_node : handle) : bool :=
  forallb (forallb counter_field) (aggregate_fields (children agg_node)).

(** The values of a row with its identifier and partition. *)
Definition row_values (base values : list DbDataValue) (uuid part : Z) : Prop :=
  length values = SESSION_MAX ∧ values !! SESSION_UUID = Some (DbUuid uuid) ∧
  values !! SESSION_PARTITION_NO = Some (DbU8 part) ∧ ∀ f, f ∈ shared_fields → values !! f = base !! f.
Definition aggregates (l : list xml_node) : nat := length (aggregate_fields l).

Definition same_but (p : nat → bool) (base values : list DbDataValue) : Prop :=
  length values = length base ∧ ∀ f, p f = false → values !! f = base !! f.
Lemma same_but_insert p base values f v : same_but p base values → p f = true →
  same_but p base (<[f := v]> values).
Proof.
  intros [Hl Hs] Hf. split; [by rewrite length_insert|]. intros f' Hf'.
  rewrite list_lookup_insert_ne by congruence. by apply Hs.
Qed.

(** What an aggregate's own fields change. *)
Definition own_field (f : nat) : bool := (28 <=? f)%nat.
Definition key_field (f : nat) : bool :=
  own_field f || bool_decide (f ∈ [SESSION_IP; SESSION_PARTITION_NO; SESSION_UUID; SESSION_PROTOCOL; SESSION_SPORT]).

Lemma agg_fields_own base l values stats values' stats' : same_but own_field base values →
  forallb counter_field l = true →
  foldl agg_field (Some (values, stats)) l = Some (values', stats') → same_but own_field base values'.
Proof.
  revert values stats. induction l as [|n l IH]; intros values stats Hs; [by intros _ [= <- _]|].
  intros [Hn Hl]%andb_true_iff. cbn [foldl].
  destruct (agg_field (Some (values, stats)) n) as [[v1 s1]|] eqn:E.
  2: { by rewrite foldl_None. }
  apply IH; [|done]. unfold agg_field in E. cbn [mbind option_bind] in E. unfold counter_field in Hn.
  destruct (attribute_value (Some n) "type" =? "map")%string.
  - apply bind_Some in E as (m & _ & [= <- _]). by apply same_but_insert.
  - cbn [orb] in Hn. change (name (Some n)) with (node_name n) in E.
    destruct (session_msg2type_map !! node_name n) as [[field ty]|]; injection E as <- _; [|done].
    reflect_bools. apply same_but_insert; [done|]. unfold own_field. by apply Nat.leb_le, Nat.leb_le.
Qed.

Lemma shared_not_key f : f ∈ shared_fields → own_field f = false ∧ key_field f = false.
Proof.
  assert (forallb (λ f, negb (own_field f) && negb (key_field f)) shared_fields = true) as Hall by by vm_compute.
  rewrite forallb_forall in Hall. intros Hf%list_elem_of_In%Hall. by reflect_bools.
Qed.

Lemma aggregate_row T2 k v acc acc' base : disable_all_writes_ h = false →
  length acc.1 = SESSION_MAX → (∀ f, f ∈ shared_fields → acc.1 !! f = base !! f) →
  forallb counter_field (children v) = true →
  insert_aggregate h T2 k v acc = Some acc' →
  row_values base acc'.1 (umn_gen_ (uuids_drawn (ss_db acc.2))) (gen_partition_no_ (partitions_drawn (ss_db acc.2))) ∧
  inserted (ss_db acc'.2) = inserted (ss_db acc.2) ++ [session_row h T2 acc'.1] ∧
  uuids_drawn (ss_db acc'.2) = S (uuids_drawn (ss_db acc.2)) ∧
  partitions_drawn (ss_db acc'.2) = S (partitions_drawn (ss_db acc.2)) ∧ thrown acc'.2 = false.
Proof.
  intros Hw Hlen Hb Hc. destruct acc as [values ss]. unfold insert_aggregate. cbn [fst snd] in *.
  set (st := ss_db ss). set (kv := aggregate_key _ _ _ _ _). destruct (foldl _ _ _) as [[vs stats]|] eqn:E; [|done].
  intros [= <-]. cbn [fst snd ss_db thrown].
  assert (same_but own_field kv vs) as [Hl Hsame] by (eapply agg_fields_own; [|exact Hc|exact E]; done).
  assert (length kv = SESSION_MAX) as Hk by (unfold kv, aggregate_key; by rewrite !length_insert).
  split; [|split; [|split; [|split]]].
  - split; [by rewrite Hl|]. rewrite !Hsame by done. unfold kv, aggregate_key.
    split; [|split].
    + do 2 rewrite list_lookup_insert_ne by done. apply list_lookup_insert_eq. rewrite !length_insert, Hlen. by apply Nat.ltb_lt.
    + rewrite list_lookup_insert_ne by done. apply list_lookup_insert_eq. rewrite !length_insert, Hlen. by apply Nat.ltb_lt.
    + intros f Hf. rewrite <- Hb by done.
      destruct (shared_not_key f Hf) as [Hf1 Hf2].
      rewrite Hsame by done. unfold key_field in Hf2. rewrite Hf1 in Hf2. apply bool_decide_eq_false in Hf2.
      rewrite !not_elem_of_cons in Hf2. destruct Hf2 as (? & ? & ? & ? & ? & _).
      unfold kv, aggregate_key. by rewrite !list_lookup_insert_ne by done.
  - unfold PopulateSessionTable, InsertIntoDb. by rewrite Hw.
  - unfold PopulateSessionTable, InsertIntoDb. rewrite Hw. simpl. unfold st. lia.
  - unfold PopulateSessionTable, InsertIntoDb. rewrite Hw. simpl. unfold st. lia.
  - done.
Qed.

Lemma aggregate_rows T2 base l acc acc' : disable_all_writes_ h = false →
  length acc.1 = SESSION_MAX → (∀ f, f ∈ shared_fields → acc.1 !! f = base !! f) →
  forallb (forallb counter_field) (aggregate_fields l) = true →
  aggregate_loop h T2 l acc = Some acc' →
  ∃ vs, length vs = aggregates l ∧
    inserted (ss_db acc'.2) = inserted (ss_db acc.2) ++ (session_row h T2 <$> vs) ∧
    (thrown acc.2 = false → thrown acc'.2 = false) ∧ (∀ f, f ∈ shared_fields → acc'.1 !! f = base !! f) ∧
    ∀ i v, vs !! i = Some v →
      row_values base v (umn_gen_ (uuids_drawn (ss_db acc.2) + i)) (gen_partition_no_ (partitions_drawn (ss_db acc.2) + i)).
Proof.
  intros Hw. revert acc. induction l as [|k|k v l IH] using pairs_ind; intros acc Hlen Hb Hc.
  - intros [= <-]. exists []. split; [done|]. split; [by rewrite app_nil_r|]. split_and!; done.
  - intros Hi. cbn [aggregate_loop] in Hi.
    destruct (aggregate_row T2 k None acc acc' base Hw Hlen Hb eq_refl Hi) as (Hr & Hins & Hu & Hp & Ht).
    exists [acc'.1]. split; [done|]. split; [done|]. split; [done|]. split; [apply Hr|].
    intros [|i] v; [|done]. intros [= <-]. by rewrite !Nat.add_0_r.
  - cbn [aggregate_loop]. intros (acc1 & Hi & Hl)%bind_Some. cbn [aggregate_fields forallb] in Hc. reflect_bools.
    destruct (aggregate_row T2 k (Some v) acc acc1 base Hw Hlen Hb ltac:(done) Hi) as (Hr & Hins & Hu & Hp & Ht).
    destruct (IH acc1) as (vs & Hvl & Hvi & Hvt & Hvb & Hvr); [apply Hr|apply Hr|done|exact Hl|].
    exists (acc1.1 :: vs). split; [unfold aggregates; simpl; by rewrite Hvl|]. split; [by rewrite Hvi, Hins, <- (assoc_L (++))|].
    split; [by intros _; apply Hvt|]. split; [done|].
    intros [|i] w; simpl.
    + intros [= <-]. by rewrite !Nat.add_0_r.
    + intros Hv. specialize (Hvr i w Hv). rewrite Hu, Hp in Hvr. by rewrite !Nat.add_succ_r.
Qed.

Lemma sample_values_length sample hd : length (sample_values sample hd).1 = SESSION_MAX.
Proof.
  unfold sample_values.
  assert (length (header_values hd, @None xml_node).1 = SESSION_MAX) as Hl by done.
  revert Hl. generalize (header_values hd, @None xml_node) as acc. induction (children sample) as [|n l IH]; intros acc Hl; [done|].
  cbn [foldl]. apply IH. unfold sample_field. destruct (session_msg2type_map !! _) as [[field ty]|].
  - cbn [fst]. by rewrite length_insert.
  - by destruct (_ && _).
Qed.

(** Recording field names inserts statistics only. *)
Lemma field_name_grows ts pre nm val ttl st : disable_all_writes_ h = false →
  ∃ names, inserted (FieldNamesTableInsert h ts pre nm val ttl st) = inserted st ++ names ∧
    Forall (λ c, cfname c = STATS_TABLE) names.
Proof.
  intros Hw. unfold FieldNamesTableInsert. pose proof (record_inserted (T2_of ts) ((pre +:+ nm) +:+ ":" +:+ val) st) as Hr.
  destruct (CanRecordDataForT2 _ _ st) as [[|] st']; cbn [snd] in Hr.
  - unfold StatTableWrite, InsertIntoDb. rewrite Hw. cbn [snd add_inserted inserted]. rewrite Hr.
    eexists. split; [done|]. by constructor.
  - exists []. by rewrite Hr, app_nil_r.
Qed.
Lemma session_field_stats ts nm f values ss : ss_stats (session_field_name h ts nm f values ss) = ss_stats ss.
Proof. unfold session_field_name. destruct (thrown ss); [done|]. by destruct (values !!! f). Qed.
Lemma session_field_thrown ts nm f values ss : thrown ss = true →
  thrown (session_field_name h ts nm f values ss) = true.
Proof. intros Ht. unfold session_field_name. by rewrite Ht. Qed.
Lemma session_field_blank ts nm f values ss : values !! f = Some DbBlank →
  thrown (session_field_name h ts nm f values ss) = true.
Proof.
  intros Hf%list_lookup_total_correct. unfold session_field_name. destruct (thrown ss) eqn:E; [done|].
  by rewrite Hf.
Qed.

Lemma agg_fields_messages l acc values stats : foldl agg_field (Some acc) l = Some (values, stats) →
  num_messages stats = num_messages acc.2.
Proof.
  revert acc. induction l as [|n l IH]; intros acc; [by intros [= ->]|]. cbn [foldl].
  destruct (agg_field (Some acc) n) as [acc1|] eqn:E; [|by rewrite foldl_None].
  intros ->%IH. destruct acc as [v s]. unfold agg_field in E. cbn [mbind option_bind] in E. case_match.
  - by apply bind_Some in E as (m & _ & [= <-]).
  - destruct (session_msg2type_map !! _) as [[]|]; by injection E as <-.
Qed.
Lemma insert_aggregate_messages T2 k v acc acc' : insert_aggregate h T2 k v acc = Some acc' →
  num_messages (ss_stats acc'.2) = num_messages (ss_stats acc.2).
Proof.
  destruct acc as [values ss]. unfold insert_aggregate. intros ([v1 stats] & Hf & [= <-])%bind_Some.
  by apply agg_fields_messages in Hf.
Qed.
Lemma aggregate_loop_messages T2 l acc acc' : aggregate_loop h T2 l acc = Some acc' →
  num_messages (ss_stats acc'.2) = num_messages (ss_stats acc.2).
Proof.
  revert acc. induction l as [|k|k v l IH] using pairs_ind; intros acc; cbn [aggregate_loop].
  - by intros [= ->].
  - apply insert_aggregate_messages.
  - intros (acc1 & Hi%insert_aggregate_messages & ->%IH)%bind_Some. done.
Qed.

Lemma session_field_grows ts nm f values ss : disable_all_writes_ h = false →
  ∃ names, inserted (ss_db (session_field_name h ts nm f values ss)) = inserted (ss_db ss) ++ names ∧
    Forall (λ c, cfname c = STATS_TABLE) names.
Proof.
  intros Hw. unfold session_field_name. destruct (thrown ss); [exists []; by rewrite app_nil_r|].
  destruct (values !!! f); try (exists []; by rewrite app_nil_r). by apply field_name_grows.
Qed.

Lemma sample_rows sample hd ss ss' :
  let base := sample_values sample hd in
  disable_all_writes_ h = false → counters_only base.2 = true →
  SessionSampleAdd h sample hd ss = Some ss' →
  ∃ vs names, length vs = aggregates (children base.2) ∧
    inserted (ss_db ss') = inserted (ss_db ss) ++ (session_row h (T2_of (hd_Timestamp hd)) <$> vs) ++ names ∧
    Forall (λ c, cfname c = STATS_TABLE) names ∧
    ∀ i v, vs !! i = Some v →
      row_values base.1 v (umn_gen_ (uuids_drawn (ss_db ss) + i)) (gen_partition_no_ (partitions_drawn (ss_db ss) + i)).
Proof.
  intros base Hw Hc. unfold SessionSampleAdd. subst base. pose proof (sample_values_length sample hd) as Hlen.
  destruct (sample_values sample hd) as [values agg]. cbn [fst snd] in *.
  intros ([v1 ss1] & Hl & Hs)%bind_Some. injection Hs as Hs.
  destruct (aggregate_rows _ values _ (values, ss) (v1, ss1) Hw Hlen ltac:(done) Hc Hl) as (vs & Hvl & Hvi & _ & _ & Hvr).
  cbn [fst snd] in *.
  set (ts := hd_Timestamp hd) in *.
  destruct (session_field_grows ts ":vrouter" SESSION_VROUTER v1 ss1 Hw) as (n1 & Hn1 & Hf1).
  set (ss2 := session_field_name h ts ":vrouter" _ _ _) in *.
  destruct (session_field_grows ts ":vn" SESSION_VN v1 ss2 Hw) as (n2 & Hn2 & Hf2).
  set (ss3 := session_field_name h ts ":vn" _ _ _) in *.
  destruct (session_field_grows ts ":remote_vn" SESSION_REMOTE_VN v1 ss3 Hw) as (n3 & Hn3 & Hf3).
  set (ss4 := session_field_name h ts ":remote_vn" _ _ _) in *.
  exists vs, (n1 ++ n2 ++ n3). split; [done|]. split; [|split; [by rewrite !Forall_app|done]].
  assert (inserted (ss_db ss') = inserted (ss_db ss4)) as -> by (rewrite <- Hs; by destruct (thrown ss4)).
  by rewrite Hn3, Hn2, Hn1, Hvi, <- !(assoc_L (++)).
Qed.

(** A session sample inserts one row for every aggregate it has and after
    them nothing but field names: every row has its own identifier and
    partition, the next ones drawn, and in the fields that are not the
    aggregate's the values of the sample. *)
Theorem session_rows_inserted sample hd ss ss' :
  let base := sample_values sample hd in
  disable_all_writes_ h = false → counters_only base.2 = true →
  SessionSampleAdd h sample hd ss = Some ss' →
  ∃ vs names, length vs = aggregates (children base.2) ∧
    inserted (ss_db ss') = inserted (ss_db ss) ++ (session_row h (T2_of (hd_Timestamp hd)) <$> vs) ++ names ∧
    Forall (λ c, cfname c = STATS_TABLE) names ∧
    ∀ i v, vs !! i = Some v →
      row_values base.1 v (umn_gen_ (uuids_drawn (ss_db ss) + i)) (gen_partition_no_ (partitions_drawn (ss_db ss) + i)).
Proof. apply sample_rows. Qed.

(** When a sample has no virtual network, or no remote one, recording its
    field names ends with an exception of [boost::get] after its rows are
    inserted: the message is not counted, and no further sample of it is
    handled. *)
Theorem session_vn_missing sample hd ss ss' :
  let base := sample_values sample hd in
  disable_all_writes_ h = false → thrown ss = false → counters_only base.2 = true →
  SessionSampleAdd h sample hd ss = Some ss' →
  base.1 !! SESSION_VN = Some DbBlank ∨ base.1 !! SESSION_REMOTE_VN = Some DbBlank →
  thrown ss' = true ∧ num_messages (ss_stats ss') = num_messages (ss_stats ss) ∧
  (length (inserted (ss_db ss)) + aggregates (children base.2) <= length (inserted (ss_db ss')))%nat.
Proof.
  intros base Hw Ht Hc Ha Hb. destruct (sample_rows sample hd ss ss' Hw Hc Ha) as (vs & names & Hvl & Hvi & _).
  subst base. unfold SessionSampleAdd in Ha. pose proof (sample_values_length sample hd) as Hlen.
  destruct (sample_values sample hd) as [values agg]. cbn [fst snd] in *.
  apply bind_Some in Ha as ([v1 ss1] & Hl & Hs). injection Hs as Hs.
  destruct (aggregate_rows _ values _ (values, ss) (v1, ss1) Hw Hlen ltac:(done) Hc Hl) as (_ & _ & _ & _ & Hsh & _).
  pose proof (aggregate_loop_messages _ _ _ _ Hl) as Hm. cbn [fst snd] in *.
  assert (thrown ss' = true ∧ ss_stats ss' = ss_stats ss1) as [Ht' Hst].
  { set (ts := hd_Timestamp hd) in *. set (ss2 := session_field_name h ts ":vrouter" _ _ _) in *.
    set (ss3 := session_field_name h ts ":vn" _ _ _) in *. set (ss4 := session_field_name h ts ":remote_vn" _ _ _) in *.
    assert (thrown ss4 = true) as Hth.
    { destruct Hb as [Hb|Hb].
      - rewrite <- Hsh in Hb by (apply (bool_decide_unpack (SESSION_VN ∈ shared_fields)); by vm_compute).
        apply session_field_thrown. by apply session_field_blank.
      - rewrite <- Hsh in Hb by (apply (bool_decide_unpack (SESSION_REMOTE_VN ∈ shared_fields)); by vm_compute).
        by apply session_field_blank. }
    rewrite Hth in Hs. subst ss'. split; [done|]. unfold ss4, ss3, ss2. by rewrite !session_field_stats. }
  split; [done|]. split; [by rewrite Hst|]. rewrite Hvi, !List.length_app, length_fmap. lia.
Qed.
End sample_rows.

(** ** Reading the sessions back *)

Section sessions_back.
Context `{XmlForms, FlowConstants, StringToInteger}.

(** The sessions of an aggregate, each with its key and its fields. *)
Fixpoint sessions (l : list xml_node) : list (xml_node * list xml_node) :=
  match l with
  | [] => []
  | [k] => [(k, [])]
  | k :: v :: l' => (k, node_children v) :: sessions l'
  end.

(** The entries a session is meant to be read as. *)
Definition number_or_text (number : bool) (value : string) : SubVal :=
  if number then SvU64 (stringToInteger value).1 else SvString value.
Definition flow_info_entry (prefix : string) (finfo : xml_node) : StatEntry :=
  entry (prefix +:+ node_name finfo)
    (number_or_text (default false (SessionFlowInfoField2Type !! node_name finfo)) (child_value (Some finfo))).
Definition flow_infos (field : xml_node) : list xml_node := children (child (Some field) "SessionFlowInfo").
Definition field_entries (field : xml_node) : list StatEntry :=
  let fname := node_name field in
  let value := child_value (Some field) in
  if is_flow_info fname then
    flow_info_entry (if (fname =? "forward_flow_info")%string then "forward_" else "reverse_") <$> flow_infos field
  else [entry fname (number_or_text (stringToInteger value).2 value)].
Definition session_port (k : xml_node) : string := child_value (child (Some k) PORT).
Definition session_ip (k : xml_node) : string := child_value (child (Some k) IP).
Definition session_entries (s : xml_node * list xml_node) : list StatEntry :=
  [entry "client_port" (SvU64 (stringToInteger (session_port s.1)).1);
   entry "remote_ip" (SvString (session_ip s.1))] ++ concat (field_entries <$> s.2).

(** No embedded zero characters, and a port without a colon. *)
Definition plain_node (n : xml_node) : bool := no_zero (node_name n) && no_zero (child_value (Some n)).
Definition plain_key (k : xml_node) : bool :=
  negb (has_char ":"%char (session_port k)) && no_zero (ip_port_key k) && (size (ip_port_key k) <? npos).
Definition plain_session (s : xml_node * list xml_node) : bool :=
  plain_key s.1 && forallb (λ f, plain_node f && forallb plain_node (flow_infos f)) s.2.

Lemma number_entry nm value : json_entry EmptyString (nm, JInt (stringToInteger value).1) =
  Some (entry nm (SvU64 (stringToInteger value).1)).
Proof.
  unfold json_entry. cbn [fst snd]. destruct (stringToInteger_range value).
  by rewrite (proj2 (Z.leb_le _ _)), (proj2 (Z.ltb_lt _ _)) by lia.
Qed.
Lemma number_entry_prefix p nm value : json_entry p (nm, JInt (stringToInteger value).1) =
  Some (entry (p +:+ nm) (SvU64 (stringToInteger value).1)).
Proof.
  unfold json_entry. cbn [fst snd]. destruct (stringToInteger_range value).
  by rewrite (proj2 (Z.leb_le _ _)), (proj2 (Z.ltb_lt _ _)) by lia.
Qed.

Lemma mapM_read {A B C} (f : A → option B) (g : B → option C) (k : A → C) l ms :
  (∀ x m, x ∈ l → f x = Some m → g m = Some (k x)) → mapM f l = Some ms → mapM g ms = Some (k <$> l).
Proof.
  revert ms. induction l as [|x l IH]; intros ms Hl; [by intros [= <-]|]. cbn [mapM].
  intros (m & Hm & (ms' & Hms & [= <-])%bind_Some)%bind_Some. cbn [mapM].
  rewrite (Hl x m) by (done || by left). cbn [mbind option_bind].
  rewrite (IH ms') by (done || (intros; apply Hl; [by right|done])). done.
Qed.

Lemma flow_info_read p finfo m : plain_node finfo = true → flow_info_member finfo = Some m →
  json_entry p m = Some (flow_info_entry p finfo).
Proof.
  intros [Hn Hv]%andb_true_iff. unfold flow_info_member, flow_info_entry. change (name (Some finfo)) with (node_name finfo).
  intros (b & Hb & [= <-])%bind_Some. rewrite Hb. rewrite !no_zero_c_str by done.
  destruct b; [apply number_entry_prefix|done].
Qed.

Lemma session_member_read f m : plain_node f = true → forallb plain_node (flow_infos f) = true →
  session_member f = Some m → parse_member m = Some (field_entries f).
Proof.
  intros [Hn Hv]%andb_true_iff Hf. unfold session_member, field_entries.
  change (name (Some f)) with (node_name f).
  destruct (is_flow_info (node_name f)) eqn:Ei.
  - intros (l & Hl & [= <-])%bind_Some. unfold parse_member. cbn [fst snd]. rewrite no_zero_c_str by done.
    apply (mapM_read flow_info_member _ (flow_info_entry
      (if (node_name f =? "forward_flow_info")%string then "forward_" else "reverse_")) (flow_infos f)); [|done].
    intros x y Hx. apply flow_info_read. rewrite forallb_forall in Hf. by apply Hf, list_elem_of_In.
  - destruct (stringToInteger (child_value (Some f))) as [val ok] eqn:Es. intros [= <-].
    unfold parse_member. cbn [fst snd]. rewrite !no_zero_c_str by done.
    pose proof (number_entry (node_name f) (child_value (Some f))) as He. rewrite Es in He. cbn [fst] in He.
    unfold number_or_text. rewrite Es. destruct ok; cbn [fst snd]; [by rewrite He|done].
Qed.

Lemma ip_port_read k : plain_key k = true → ip_port_entries (c_str (ip_port_key k)) =
  Some [entry "client_port" (SvU64 (stringToInteger (session_port k)).1);
        entry "remote_ip" (SvString (session_ip k))].
Proof.
  unfold plain_key. intros [[Hp%negb_true_iff Hz]%andb_true_iff Hs%Z.ltb_lt]%andb_true_iff.
  rewrite no_zero_c_str by done. unfold ip_port_entries, ip_port_key in *.
  fold (session_port k) in *. fold (session_ip k) in *. set (p := session_port k) in *. set (ip := session_ip k) in *.
  rewrite !size_app in Hs. change (size ":") with 1 in Hs. pose proof (size_nonneg p). pose proof (size_nonneg ip).
  assert (find (p +:+ ":" +:+ ip) ":"%char 0 = size p) as ->.
  { unfold find. change (":" +:+ ip) with (String ":"%char ip). rewrite find_at_first; [lia|done|lia]. }
  rewrite substr_take. cbn [mbind option_bind].
  rewrite u64_small by (unfold is_u64, npos in *; lia).
  replace (size p + 1) with (size (p +:+ ":")) by (by rewrite size_app).
  rewrite <- append_assoc_string, substr_drop by lia. done.
Qed.

Lemma fields_read l ms : forallb (λ f, plain_node f && forallb plain_node (flow_infos f)) l = true →
  mapM session_member l = Some ms → parse_json (JObject ms) = Some (concat (field_entries <$> l)).
Proof.
  intros Hl Hm. unfold parse_json. rewrite (mapM_read session_member _ field_entries l ms); [done| |done].
  intros x m Hx. rewrite forallb_forall in Hl. apply list_elem_of_In in Hx. specialize (Hl x Hx).
  apply andb_true_iff in Hl as [? ?]. by apply session_member_read.
Qed.

(** What the engine makes of the members, and what it is meant to make. *)
Lemma members_read st dir flow temp l ms : forallb plain_session (sessions l) = true →
  session_map_members l = Some ms →
  mapM (unrolled_entries flow dir st temp) ms =
  Some ((λ s, flow_entries flow st dir (session_entries s ++ temp)) <$> sessions l).
Proof.
  revert ms. induction l as [|k|k v l IH] using pairs_ind; intros ms; cbn [sessions session_map_members forallb].
  - by intros _ [= <-].
  - intros Hp [= <-]. reflect_bools. unfold plain_session in *. cbn [fst snd] in *. reflect_bools.
    cbn [mapM]. unfold unrolled_entries. cbn [fst snd]. by rewrite ip_port_read.
  - intros Hp (fs & Hf & (rest & Hr & [= <-])%bind_Some)%bind_Some. reflect_bools.
    match goal with H : plain_session _ = true |- _ => unfold plain_session in H; cbn [fst snd] in H end. reflect_bools.
    cbn [mapM]. rewrite (IH rest) by done. unfold unrolled_entries. cbn [fst snd].
    rewrite ip_port_read by done. cbn [mbind option_bind].
    rewrite (fields_read (node_children v)) by done. done.
Qed.

Context `{JsonWriter, JsonParser, Digests, SubValOrder, StatHash, TextForms, UuidFormat}.

Lemma foldl_mapM {A B S} (f : A → option B) (g : B → S → option S) l bs s :
  mapM f l = Some bs →
  foldl (λ acc x, s ← acc; b ← f x; g b s) (Some s) l = foldl (λ acc b, s ← acc; g b s) (Some s) bs.
Proof.
  revert bs s. induction l as [|x l IH]; intros bs s; [by intros [= <-]|]. cbn [mapM].
  intros (b & Hb & (bs' & Hbs & [= <-])%bind_Some)%bind_Some. cbn [foldl mbind option_bind]. rewrite Hb.
  cbn [mbind option_bind]. destruct (g b s) as [s'|]; [by apply IH|].
  by rewrite !foldl_None.
Qed.

(** C22.  The sessions of an aggregate survive the JSON they are stored in:
    reading a session row with its sessions unrolled loads for every session
    the collector received exactly one row, in order, with the port and the
    address of its key and every field of it and of its flows under their
    names, numbers as numbers. *)
Theorem session_map_read_back root text stats flow direction_ing r st u temp out :
  JsonifySessionMap root = Some text → Document_Parse text = JObject <$> session_map_members (children root) →
  forallb plain_session (sessions (children root)) = true →
  session_type_of r = Some st → unroll_loop (info r) 2 0 None [] = Some (u, temp, DbString text) →
  unrolled_row stats flow direction_ing r out =
  foldl (λ acc s, out ← acc; load stats u (timestamp r) (flow_entries flow st direction_ing (session_entries s ++ temp)) out)
    (Some out) (sessions (children root)).
Proof.
  unfold JsonifySessionMap. intros (ms & Hms & ->)%fmap_Some Hp Hs Hst Hu. rewrite Hms in Hp.
  unfold unrolled_row. rewrite Hst, Hu. cbn [mbind option_bind]. rewrite Hp. cbn [fmap option_fmap option_map].
  rewrite (foldl_mapM (unrolled_entries flow direction_ing st temp) (λ attribs, load stats u (timestamp r) attribs)
    ms _ out (members_read st direction_ing flow temp _ ms Hs Hms)).
  by rewrite foldl_fmap.
Qed.
End sessions_back.

(** ** Reading a row back *)

Section row_back.
Context `{TextForms, UuidFormat} (t2 : Z) (svalues : list DbDataValue).

(** The column of a stored row as the database returns it: the clustering
    columns, the others in the alphabetical order of their names ([column10] to
    [column32], [column5] to [column9]), and the value. *)
Definition fetched (c : ColList) : NewCol := {|
  DbQuery.name := take 4 (col_name c);
  DbQuery.value := drop 9 (col_name c) ++ take 5 (drop 4 (col_name c)) ++ col_value c |}.

Abbreviation cell := (session_column_name t2 svalues).
Definition convertible (v : DbDataValue) : bool := match v with DbBlank | DbBlob _ => false | _ => true end.

Lemma convert_defined v f : convertible v = true → (f < 36)%nat → is_Some (convert_attribute v f).
Proof.
  intros Hv Hf. assert (is_Some (session_query_columns !! f)) as [n Hn] by (by apply lookup_lt_is_Some_2).
  unfold convert_attribute. rewrite Hn. destruct v; try done; try (by eexists). by case_match; eexists.
Qed.

Lemma cell_convertible f : Forall (λ v, match v with DbBlob _ => false | _ => true end = true) svalues →
  length svalues = SESSION_MAX → (f < 36)%nat → convertible (cell f) = true.
Proof.
  intros Hb Hl Hf. unfold session_column_name.
  destruct (lookup_lt_is_Some_2 svalues f) as [v Hv]; [rewrite Hl; unfold SESSION_MAX; lia|].
  rewrite (list_lookup_total_correct _ _ _ Hv). rewrite Forall_forall in Hb.
  specialize (Hb v (list_elem_of_lookup_2 _ _ _ Hv)). destruct v; try done. simpl.
  destruct (session_column_indexed f); [done|].
  assert (forallb (λ f, convertible (default_col_values !!! f)) (seq 0 36) = true) as Hd by by vm_compute.
  rewrite forallb_forall in Hd. apply Hd, in_seq. lia.
Qed.

(** What is read of the column of a field. *)
Definition entries_of (f : nat) : list StatEntry := default [] (convert_attribute (cell f) f).

(** Columns that hold the cells of their fields are all read. *)
Lemma convert_cells fs idx : (∀ i f, fs !! i = Some f → SessionCassTableColumns !! (idx + i)%nat = Some f) →
  (∀ f, f ∈ fs → is_Some (convert_attribute (cell f) f)) →
  convert_columns (cell <$> fs) idx = Some (concat (entries_of <$> fs)).
Proof.
  revert idx. induction fs as [|f fs IH]; intros idx Hi Hc; [done|].
  rewrite !fmap_cons. cbn [convert_columns]. pose proof (Hi 0%nat f eq_refl) as Hf. rewrite Nat.add_0_r in Hf. rewrite Hf.
  destruct (Hc f ltac:(by left)) as [fes Hfes]. cbn [mbind option_bind].
  unfold entries_of at 1. rewrite Hfes. rewrite (IH (S idx)); [done| |].
  { intros i f' Hf'. specialize (Hi (S i) f' Hf'). by rewrite Nat.add_succ_r in Hi. }
  intros f' Hf'. apply Hc. by right.
Qed.

(** Each field is read under its own name. *)
Lemma entries_named f e : e ∈ entries_of f → session_query_columns !! f = Some (se_name e).
Proof.
  unfold entries_of, convert_attribute. destruct (session_query_columns !! f) as [n|];
    destruct (cell f); simpl; repeat case_match; simpl; rewrite ?elem_of_cons, ?elem_of_nil;
    try done; intros [->|[]]; done.
Qed.
Lemma name_of_field f f' n : session_query_columns !! f = Some n → session_query_columns !! f' = Some n → f = f'.
Proof. apply NoDup_lookup. apply (bool_decide_eq_true_1 (NoDup session_query_columns)). by vm_compute. Qed.
Lemma filter_same f n : session_query_columns !! f = Some n → filter (λ e, se_name e = n) (entries_of f) = entries_of f.
Proof.
  intros Hf. assert (Forall (λ e, se_name e = n) (entries_of f)) as Hall.
  { apply Forall_forall. intros e He%entries_named. rewrite Hf in He. by injection He. }
  induction Hall as [|e l He _ IH]; [done|]. by rewrite filter_cons_True, IH.
Qed.
Lemma filter_other f f' n : f ≠ f' → session_query_columns !! f = Some n →
  filter (λ e, se_name e = n) (entries_of f') = [].
Proof.
  intros Hne Hf. assert (Forall (λ e, se_name e ≠ n) (entries_of f')) as Hall.
  { apply Forall_forall. intros e He%entries_named Hn. apply Hne. eapply name_of_field; [done|by rewrite He, Hn]. }
  induction Hall as [|e l He _ IH]; [done|]. by rewrite filter_cons_False.
Qed.
Lemma filter_field fs f n : NoDup fs → f ∈ fs → session_query_columns !! f = Some n →
  filter (λ e, se_name e = n) (concat (entries_of <$> fs)) = entries_of f.
Proof.
  intros Hnd Hf Hn. induction Hnd as [|f' fs Hf' Hnd IH]; [by apply elem_of_nil in Hf|].
  rewrite fmap_cons. cbn [concat]. rewrite filter_app. apply elem_of_cons in Hf as [<-|Hf].
  - rewrite (filter_same _ _ Hn). rewrite <- (app_nil_r (entries_of f)) at 2. f_equal. clear IH Hnd.
    induction fs as [|g fs IH]; [done|]. rewrite fmap_cons. cbn [concat]. rewrite filter_app.
    apply not_elem_of_cons in Hf' as [Hg Hfs]. by rewrite (filter_other f g) , IH.
  - rewrite (filter_other f f') by (done || by intros ->). by apply IH.
Qed.

Definition fields_before : list nat := [2; 3; 4; 5]%nat.
Definition fields_after : list nat := (seq 13 23 ++ seq 8 5)%nat.

Lemma session_loop_time t1 u l a : session_loop (t1 :: DbUuid u :: l) 6 None a = session_loop l 8 (Some u) a.
Proof. done. Qed.

(** The fields that are read as attributes. *)
Definition session_attributes : list nat := fields_before ++ fields_after.

Lemma row_loop h u si st :
  Forall (λ v, match v with DbBlob _ => false | _ => true end = true) svalues → length svalues = SESSION_MAX →
  svalues !! SESSION_IS_SI = Some (DbU8 si) → svalues !! SESSION_IS_CLIENT_SESSION = Some (DbU8 st) →
  svalues !! SESSION_UUID = Some (DbUuid u) →
  let c := fetched (session_row h t2 svalues) in
  session_loop ([DbU8 si; DbU8 st] ++ take 4 (DbQuery.name c) ++
                take (length (DbQuery.value c) - 1) (DbQuery.value c)) 2 None [] =
  Some (Some u, concat (entries_of <$> session_attributes)).
Proof.
  intros Hb Hl Hsi Hst Hu c.
  assert (cell 2 = DbU8 si) as H2 by (unfold session_column_name; by rewrite (list_lookup_total_correct _ _ _ Hsi)).
  assert (cell 3 = DbU8 st) as H3 by (unfold session_column_name; by rewrite (list_lookup_total_correct _ _ _ Hst)).
  assert (cell 7 = DbUuid u) as H7 by (unfold session_column_name; by rewrite (list_lookup_total_correct _ _ _ Hu)).
  assert ([DbU8 si; DbU8 st] ++ take 4 (DbQuery.name c) ++ take (length (DbQuery.value c) - 1) (DbQuery.value c) =
    (cell <$> fields_before) ++ cell 6%nat :: DbUuid u :: (cell <$> fields_after)) as ->.
  { rewrite <- H2, <- H3, <- H7. reflexivity. }
  assert (∀ f, f ∈ session_attributes → is_Some (convert_attribute (cell f) f)) as Hc.
  { intros f Hf. assert (f < 36)%nat by (unfold session_attributes, fields_before, fields_after in Hf;
      rewrite !elem_of_app, !elem_of_seq, !elem_of_cons, elem_of_nil in Hf; lia).
    by apply convert_defined; [apply cell_convertible|]. }
  unfold session_attributes in Hc. setoid_rewrite elem_of_app in Hc.
  pose proof (convert_cells fields_before 2) as He1. pose proof (convert_cells fields_after 8) as He2.
  rewrite session_loop_columns by (simpl; unfold SESSION_T1, SESSION_UUID; lia). rewrite He1; [|clear He1 He2|auto].
  2:{ intros i f Hi. pose proof (lookup_lt_Some _ _ _ Hi) as Hlt. simpl in Hlt.
      by do 4 (destruct i as [|i]; [exact Hi|]). }
  cbn [mbind option_bind]. rewrite length_fmap. change (2 + length fields_before)%nat with 6%nat.
  rewrite app_nil_l, session_loop_time, <- (app_nil_r (cell <$> fields_after)).
  rewrite session_loop_columns by (unfold SESSION_T1, SESSION_UUID; lia). rewrite He2; [|clear He1 He2|auto].
  - cbn [mbind option_bind session_loop]. unfold session_attributes. by rewrite fmap_app, concat_app.
  - intros i f Hi. unfold SessionCassTableColumns. rewrite (lookup_app_r (seq 0 8)) by (simpl; lia).
    rewrite (assoc_L (++)). rewrite length_seq. replace (8 + i - 8)%nat with i by lia.
    rewrite lookup_app_l by (by eapply lookup_lt_Some). exact Hi.
Qed.

(** What a field holds, and what is read of it: a text of an indexed column
    without its prefix, another text unless it is empty, a number as 64 bits, the
    textual form of an address or an identifier; and the default of the field when
    the sample does not have it. *)
Inductive cell_reads (f : nat) : DbDataValue → option SubVal → Prop :=
  | reads_indexed s : session_column_indexed f = true →
      has_char "010"%char s = false → has_char "013"%char s = false →
      cell_reads f (DbString (PrependT2 t2 s)) (Some (SvString s))
  | reads_text s : session_column_indexed f = false → s ≠ EmptyString →
      cell_reads f (DbString s) (Some (SvString s))
  | reads_empty : session_column_indexed f = false → cell_reads f (DbString EmptyString) None
  | reads_number v n : v ∈ [DbU64 n; DbU32 n; DbU16 n; DbU8 n] → cell_reads f v (Some (SvU64 n))
  | reads_double d : cell_reads f (DbDouble d) (Some (SvDouble d))
  | reads_uuid u : cell_reads f (DbUuid u) (Some (SvString (uuid_to_string u)))
  | reads_address v6 a : cell_reads f (DbIpAddress v6 a) (Some (SvString (address_to_string v6 a)))
  | reads_unknown : session_column_indexed f = true → cell_reads f DbBlank (Some (SvString UNKNOWN))
  | reads_no_number : f ∈ [SESSION_PROTOCOL; SESSION_SPORT] ++ seq 28 8 → cell_reads f DbBlank (Some (SvU64 0))
  | reads_no_vrouter : f = 26%nat → cell_reads f DbBlank None
  | reads_no_vrouter_ip : f = 27%nat → cell_reads f DbBlank (Some (SvString (address_to_string false 0))).

Lemma prepended_not_empty s : (PrependT2 t2 s =? EmptyString)%string = false.
Proof. apply string_eqb_false. unfold PrependT2. by destruct (pretty t2). Qed.

Lemma cell_reads_spec f n v x : 0 <= t2 → session_query_columns !! f = Some n →
  svalues !! f = Some v → cell_reads f v x → entries_of f = option_list (entry n <$> x).
Proof.
  intros Ht2 Hn Hv Hx. unfold entries_of, session_column_name. rewrite (list_lookup_total_correct _ _ _ Hv).
  unfold convert_attribute.
  destruct Hx as [s Hi H10 H13|s Hi He|Hi|v m Hm|d|u|v6 a|Hi|Hf| -> | ->]; cbn [is_blank].
  - rewrite prepended_not_empty, Hi, Hn. cbn. unfold PrependT2. by rewrite strip_t2_prefixed.
  - rewrite (string_eqb_false _ _ He), Hi, Hn. done.
  - done.
  - rewrite !elem_of_cons, elem_of_nil in Hm. by destruct Hm as [-> |[-> |[-> |[-> |[]]]]]; cbn [is_blank]; rewrite Hn.
  - by rewrite Hn.
  - by rewrite Hn.
  - by rewrite Hn.
  - rewrite Hi. change (pretty t2 +:+ ":" +:+ UNKNOWN) with (PrependT2 t2 UNKNOWN).
    rewrite prepended_not_empty, Hn. cbn. unfold PrependT2. by rewrite strip_t2_prefixed.
  - apply list_elem_of_In in Hf. repeat (destruct Hf as [<-|Hf]; [by rewrite Hn|]). destruct Hf.
  - done.
  - by rewrite Hn.
Qed.

(** C21.  A session row that is inserted is fetched by a query of sessions: the
    unit of its column has the time of the sample, and reading it gives the
    identifier of the row and every attribute exactly once under its name: the texts
    of the indexed columns without their prefix (they hold no line break), the router
    and its address, the ports, the kind of the session and the counters, the
    default for what the sample does not have, and no attribute besides. *)
Theorem session_row_read_back h ts u si st tname toc from_time end_time :
  is_session_query tname = true → 0 <= ts < 2 ^ 55 → from_time <= ts <= end_time → t2 = T2_of ts →
  Forall (λ v, match v with DbBlob _ => false | _ => true end = true) svalues → length svalues = SESSION_MAX →
  svalues !! SESSION_T2 = Some (DbU32 t2) → svalues !! SESSION_T1 = Some (DbU32 (T1_of ts)) →
  svalues !! SESSION_IS_SI = Some (DbU8 si) → svalues !! SESSION_IS_CLIENT_SESSION = Some (DbU8 st) →
  svalues !! SESSION_UUID = Some (DbUuid u) →
  let c := session_row h t2 svalues in
  ∃ r attribs, cb tname toc false from_time end_time (rowkey c) (RowOk [fetched c]) =
      Some {| cb_units := [r]; cb_error := false |} ∧
    timestamp r = ts ∧ session_loop (info r) 2 None [] = Some (Some u, attribs) ∧
    (∀ f n v x, f ∈ session_attributes → session_query_columns !! f = Some n → svalues !! f = Some v →
       cell_reads f v x → filter (λ e, se_name e = n) attribs = option_list (entry n <$> x)) ∧
    ∀ e, e ∈ attribs → ∃ f, f ∈ session_attributes ∧ session_query_columns !! f = Some (se_name e).
Proof.
  intros Ht Hts Hw Ht2 Hb Hl H2 H1 Hsi Hst Hu c.
  pose proof (row_loop h u si st Hb Hl Hsi Hst Hu) as Hloop. cbv zeta in Hloop. fold c in Hloop.
  assert (cell 6 = DbU32 (T1_of ts)) as H6 by (unfold session_column_name; by rewrite (list_lookup_total_correct _ _ _ H1)).
  destruct (u32_row ts Hts) as [Hrow Hoff].
  assert (TIMESTAMP_FROM_T2T1 t2 (T1_of ts) = ts) as Htime.
  { destruct (timestamp_joined ts Hts) as [Hj _]. by rewrite Ht2; unfold T2_of, T1_of; rewrite Hrow, Hoff. }
  eexists {| timestamp := ts; info := _ |}, _. split; [|split; [done|]; split; [exact Hloop|split]].
  - assert (is_stat_table_query tname = false) as Hns.
    { unfold is_session_query in Ht. apply orb_true_iff in Ht as [Ht%String.eqb_eq|Ht%String.eqb_eq]; by subst tname. }
    assert (rowkey c !! 0%nat = Some (DbU32 t2) ∧ rowkey c !! 3%nat = Some (DbU8 st) ∧ rowkey c !! 2%nat = Some (DbU8 si))
      as (Hk0 & Hk3 & Hk2).
    { unfold c, session_row. cbn [rowkey]. rewrite !list_lookup_fmap. simpl.
      by rewrite (list_lookup_total_correct _ _ _ H2), (list_lookup_total_correct _ _ _ Hst), (list_lookup_total_correct _ _ _ Hsi). }
    unfold cb. rewrite Hk0, Hk3, Hk2, Ht. cbn [orb mbind option_bind as_u32 as_u8 mapM fst snd].
    assert (DbQuery.name (fetched c) = [cell 4; cell 5; DbU32 (T1_of ts); cell 7]%nat) as Hn by (by rewrite <- H6).
    unfold cb_column, column_t1, column_info. rewrite Hns, Ht, Hn. cbn [orb mapM mbind option_bind lookup list_lookup as_u32 take].
    rewrite Htime. destruct (Z.ltb_spec ts from_time); [lia|]. destruct (Z.ltb_spec end_time ts); [lia|]. done.
  - intros f n v x Hf Hn Hv Hx. rewrite (filter_field _ f n) by (done || by apply (bool_decide_eq_true_1 (NoDup session_attributes)); vm_compute).
    apply (cell_reads_spec f n v x); [|done..]. rewrite Ht2. unfold T2_of, u32. by apply Z.mod_pos_bound.
  - intros e He%list_elem_of_In%in_concat. destruct He as (es & (f & -> & Hf)%list_elem_of_In%list_elem_of_fmap & He).
    exists f. split; [done|]. by apply entries_named, list_elem_of_In.
Qed.
End row_back.

(** ** Examples *)

Module SessionExamples.
#[local] Existing Instance HandlerExamples.environment.
#[local] Existing Instance PostExamples.double_format.
#[local] Existing Instance ConcreteStringToInteger.instance.
#[local] Existing Instance SelectExamples.text.
#[local] Existing Instance SelectExamples.uuid_format.
#[local] Existing Instance StatExamples.order.
#[local] Existing Instance StatExamples.digests.
#[local] Existing Instance StatExamples.hash.

Definition forms : XmlForms := {| xml_print n := node_name n; unescapeXMLControlChars s := s |}.
#[local] Existing Instance forms.
Definition flow_constants : FlowConstants := {|
  SERVICE_PORT := "service_port"; PROTOCOL := "protocol"; LOCAL_IP := "local_ip"; PORT := "port"; IP := "ip";
  SessionFlowInfoField2Type := list_to_map [("flow_uuid", false); ("setup_time", true)]%string |}.
#[local] Existing Instance flow_constants.
Definition narrow : StringToNarrow := {|
  string_to_u8 s := u8 (strtoul s); string_to_u16 s := u16 (strtoul s); string_to_i16 s := strtoul s |}.
#[local] Existing Instance narrow.
Definition writer : JsonWriter := {|
  write v := match v with JObject l => "{" +:+ String.concat "," (fst <$> l) +:+ "}" | _ => "0" end |}.
#[local] Existing Instance writer.

Definition leaf (nm value : string) : xml_node := XmlElement nm [("type", "string")]%string [XmlText value].
Definition key (port ip : string) : xml_node :=
  XmlElement "SessionIpPort" [] [leaf "port" port; leaf "ip" ip].
Definition session (setup : string) : xml_node :=
  XmlElement "SessionInfo" [] [
    XmlElement "forward_flow_info" [] [XmlElement "SessionFlowInfo" [] [leaf "flow_uuid" "f-1"; leaf "setup_time" setup]];
    leaf "vm" "vm1"; leaf "sampled_bytes" "12"].
Definition session_map : xml_node :=
  XmlElement "map" [("size", "2")]%string [key "5000" "10.0.0.2"; session "77"; key "5001" "::1"; session "78"].
Definition aggregate_of (port : string) : xml_node :=
  XmlElement "SessionIpPortProtocol" [] [leaf "service_port" port; leaf "protocol" "6"; leaf "local_ip" "10.0.0.1"].
Definition aggregate_nodes : list xml_node := [
  aggregate_of "80";
  XmlElement "SessionAggInfo" [] [leaf "sampled_forward_bytes" "100"; leaf "state" "up";
    XmlElement "sessionMap" [("type", "map")]%string [session_map]];
  aggregate_of "443"; XmlElement "SessionAggInfo" [] [leaf "sampled_reverse_bytes" "7"]].
Definition sample_of_session (fields : list xml_node) : xml_node :=
  XmlElement "SessionEndpoint" [] (fields ++ [leaf "is_si" "0"; leaf "is_client_session" "1"; leaf "site" "paris";
    XmlElement "sess_agg_info" [("type", "map")]%string [XmlElement "map" [] aggregate_nodes]]).
Definition networks : list xml_node := [leaf "vn" "blue"; leaf "remote_vn" "red"].
Definition hd : SandeshHeader := header HandlerExamples.vmsg.
Definition no_stats : SessionTableDbStats := {| num_messages := 0; num_writes := 0; num_samples := 0; curr_json_size := 0 |}.
Definition fresh : session_state := {| ss_db := HandlerExamples.fresh; ss_stats := no_stats; thrown := false |}.
Definition handled (fields : list xml_node) : session_state :=
  default fresh (SessionSampleAdd HandlerExamples.handler (Some (sample_of_session fields)) hd fresh).
Lemma handled_some fields : is_Some (SessionSampleAdd HandlerExamples.handler (Some (sample_of_session fields)) hd fresh) →
  SessionSampleAdd HandlerExamples.handler (Some (sample_of_session fields)) hd fresh = Some (handled fields).
Proof. unfold handled. by intros [x ->]. Qed.

Lemma session_rows_inserted_witness :
  counters_only (sample_values (Some (sample_of_session networks)) hd).2 = true ∧
  ∃ vs names, length vs = 2%nat ∧
    inserted (ss_db (handled networks)) =
      [] ++ (session_row HandlerExamples.handler (T2_of (hd_Timestamp hd)) <$> vs) ++ names ∧
    Forall (λ c, cfname c = STATS_TABLE) names ∧
    ∀ i v, vs !! i = Some v →
      row_values (sample_values (Some (sample_of_session networks)) hd).1 v (umn_gen_ (0 + i)) (gen_partition_no_ (0 + i)).
Proof.
  split; [by vm_compute|].
  apply (session_rows_inserted HandlerExamples.handler (Some (sample_of_session networks)) hd fresh (handled networks));
    [done|by vm_compute|apply handled_some; vm_compute; by eexists].
Defined.

Lemma session_vn_missing_witness :
  thrown (handled []) = true ∧ num_messages (ss_stats (handled [])) = 0 ∧
  (0 + 2 <= length (inserted (ss_db (handled []))))%nat.
Proof.
  apply (session_vn_missing HandlerExamples.handler (Some (sample_of_session [])) hd fresh (handled []));
    [done|done|by vm_compute|apply handled_some; vm_compute; by eexists|left; by vm_compute].
Defined.

(** A parser that knows the text of the sessions. *)
Definition map_text : string := default EmptyString (JsonifySessionMap (Some session_map)).
Definition map_json : json := JObject (default [] (session_map_members (children (Some session_map)))).
Definition parser : JsonParser := {|
  Document_Parse text := if (text =? map_text)%string then Some map_json else None |}.
#[local] Existing Instance parser.
Definition unit_of_sessions : query_result_unit_t := {| timestamp := 1600000000123456; info :=
  [DbU8 0; DbU8 1; DbU16 6; DbU16 80; DbU32 5; DbUuid 77] ++ repeat (DbString "5:web") 15 ++
  repeat (DbU64 9) 8 ++ repeat (DbString "5:x") 5 ++ [DbString map_text] |}.
Definition unrolled : option Z * list StatEntry :=
  match unroll_loop (info unit_of_sessions) 2 0 None [] with Some (u, l, _) => (u, l) | None => (None, []) end.
Lemma session_map_read_back_witness :
  length (concat (session_entries <$> sessions (children (Some session_map)))) = 12%nat ∧
  unrolled_row StatExamples.select false 0 unit_of_sessions [] =
  foldl (λ acc s, out ← acc; load StatExamples.select unrolled.1 1600000000123456
                               (flow_entries false 1 0 (session_entries s ++ unrolled.2)) out)
    (Some []) (sessions (children (Some session_map))).
Proof.
  split; [by vm_compute|].
  apply (session_map_read_back (Some session_map) map_text StatExamples.select false 0 unit_of_sessions 1
    unrolled.1 unrolled.2 []); by vm_compute.
Defined.

Definition stored_values : list DbDataValue :=
  match inserted (ss_db (handled networks)) with
  | c :: _ => rowkey c ++ col_name c ++ col_value c
  | [] => []
  end.
Lemma session_row_read_back_witness :
  ∃ r attribs, cb SESSION_SERIES_TABLE false false (HandlerExamples.now - 5) (HandlerExamples.now + 5)
      (rowkey (session_row HandlerExamples.handler (T2_of HandlerExamples.now) stored_values))
      (RowOk [fetched (session_row HandlerExamples.handler (T2_of HandlerExamples.now) stored_values)]) =
      Some {| cb_units := [r]; cb_error := false |} ∧
    timestamp r = HandlerExamples.now ∧ session_loop (info r) 2 None [] = Some (Some 0, attribs) ∧
    (∀ f n v x, f ∈ session_attributes → session_query_columns !! f = Some n → stored_values !! f = Some v →
       cell_reads (T2_of HandlerExamples.now) f v x →
       filter (λ e, se_name e = n) attribs = option_list (entry n <$> x)) ∧
    ∀ e, e ∈ attribs → ∃ f, f ∈ session_attributes ∧ session_query_columns !! f = Some (se_name e).
Proof.
  apply (session_row_read_back (T2_of HandlerExamples.now) stored_values HandlerExamples.handler HandlerExamples.now 0 0 1);
    [by vm_compute|split; vm_compute; congruence|split; vm_compute; congruence|done| |by vm_compute..].
  apply Forall_forall. intros v Hv%list_elem_of_In.
  assert (forallb (λ v, match v with DbBlob _ => false | _ => true end) stored_values = true) as Hall by by vm_compute.
  rewrite forallb_forall in Hall. by apply Hall.
Defined.
End SessionExamples.
