(* ===== verification/RuleEngine.v ===== *)
(** * The rule engine of the collector

    [contrail-collector/ruleeng.cc]: what is done with a message.  A UVE is
    published to Redis and Kafka; then, unless the message is dropped, the
    objects it names are recorded, the message itself, its statistics and its
    sessions.  The calls of the publisher are a list of events; the walkers are
    those of [DomStats]. *)
From Stdlib Require Import Ascii.
From stdpp Require Import base tactics list strings pretty gmap.
From Stdlib Require Import ZArith Lia SpecFloat.
From S2P Require Import Prelude.
From S2P Require Import CppString.
From S2P Require Import VizConstants.
From S2P Require Import QueryTypes.
From S2P Require Import Json.
From S2P Require Import AnalyticsQuery.
From S2P Require Import PostProcessing.
From S2P Require Import StatsSelect.
From S2P Require Import WhereQuery.
From S2P Require Import SelectQuery.
From S2P Require Import StatWalker.
From S2P Require Import DbHandler.
From S2P Require Import Xml.
From S2P Require Import DomStats.
From S2P Require Import SessionTable.
Local Open Scope Z_scope.

(** [g_sandesh_constants] of the sandesh library: bits of the hints. *)
Class SandeshHints := { SANDESH_KEY_HINT : Z; SANDESH_SYNC_HINT : Z }.
Definition has_hint (hd : SandeshHeader) (hint : Z) : bool := negb (Z.land (hd_Hints hd) hint =? 0).

(** The generator a UVE comes from, and the calls of [OpServerProxy]. *)
Record uve_source := {
  us_type : string; us_source : string; us_node_type : string; us_module : string; us_instance : string
}.
Inductive osp_call :=
  | UVEUpdate (src : uve_source) (attr table barekey message : string) (seq : Z) (agg : string) (ts : Z)
      (is_alarm : bool)
  | UVEDelete (src : uve_source) (key : string) (seq : Z) (is_alarm : bool)
  | UVENotif (src : uve_source) (table barekey : string) (value : gmap string (string * xml_node)) (deleted : bool).

(** ** Removing identifiers *)

(** [remove_identifier], which changes the document in place: the attribute is
    taken off every node below. *)
Fixpoint without_identifier (n : xml_node) : xml_node :=
  match n with
  | XmlText s => XmlText s
  | XmlElement s a l => XmlElement s (remove_first "identifier" a) (without_identifier <$> l)
  end.
Definition remove_identifier (parent : xml_node) : xml_node :=
  match parent with
  | XmlText s => XmlText s
  | XmlElement s a l => XmlElement s a (without_identifier <$> l)
  end.

(** ** Objects *)

Section objects.
Context `{XmlForms, Environment, DoubleFormat, JsonWriter} (h : DbHandler) (vmsg : VizMsg).

(** One child of a node: its value is added to those of its table. *)
Definition add_key (keymap : gmap string string) (n : xml_node) : gmap string string :=
  let node := Some n in
  let table := attribute_value node "key" in
  let nodetype := attribute_value node "type" in
  if negb (table =? EmptyString)%string && negb (nodetype =? EmptyString)%string then
    let rk := unescaped node in
    match keymap !! table with
    | Some tempstr => <[table := tempstr +:+ ":" +:+ rk]> keymap
    | None => <[table := rk]> keymap
    end
  else keymap.
Definition keymap_of (l : list xml_node) : gmap string string := foldl add_key ∅ l.

Definition insert_object (ts : Z) (acc : db_state * list string) (e : string * string) : db_state * list string :=
  (ObjectTableInsert h e.1 e.2 ts vmsg acc.1, acc.2 ++ [e.1 +:+ ":" +:+ e.2]).
(** [DomObjectWalk]: the objects of the node, then those below its children. *)
Fixpoint DomObjectWalk (ts : Z) (parent : xml_node) (acc : db_state * list string) : db_state * list string :=
  match parent with
  | XmlText _ => acc
  | XmlElement _ _ l =>
      let acc := foldl (insert_object ts) acc (entries (keymap_of l)) in
      foldl (λ acc node, DomObjectWalk ts node acc) acc l
  end.

(** ** Statistics of a message *)

Context `{Strtod}.

(** The function the walker hands its samples to. *)
Definition insert_sample (ts : Z) (statName : string) (s : sample) (st : db_state) : db_state :=
  StatTableInsert h ts statName (sm_attr s) (sm_tags s) (sm_attribs s) st.
Definition index_tags (nkey source : Var) : gmap string TagVal :=
  map_insert_new STAT_OBJECTID_FIELD (no_prefix nkey) {[ STAT_SOURCE_FIELD := no_prefix source ]}.

(** The key of the samples of an object log: the last child of that name, or
    the source. *)
Definition object_log_key (object : handle) (source : string) : Var :=
  foldl (λ nkey n, if (node_name n =? STAT_OBJECTID_FIELD)%string then ParseNode (Some n) else nkey)
    (VarString source) (children object).

Context `{SandeshTypes, CollectorSandeshTypes, SandeshHints}.

(** [handle_object_log]; [None]: an assertion of the walker fails. *)
Definition walk_stats_of (ts : Z) (object : handle) (m1 : gmap string TagVal) (acc : option db_state) (n : xml_node)
  : option db_state :=
  st ← acc;
  match attribute (Some n) "tags" with
  | Some _ => snd <$> DomTopStatWalker (insert_sample ts (name object)) object (Some n) m1 st
  | None => Some st
  end.
Definition handle_object_log (parent : xml_node) (acc : db_state * list string)
  : option (db_state * list string) :=
  let hd := header vmsg in
  if negb (has_hint hd SANDESH_KEY_HINT) then Some acc
  else
    let ts := hd_Timestamp hd in
    let acc := DomObjectWalk ts parent acc in
    if hd_Type hd =? ST_UVE then Some acc
    else
      let object := Some parent in
      let m1 := index_tags (object_log_key object (hd_Source hd)) (VarString (hd_Source hd)) in
      st ← foldl (walk_stats_of ts object m1) (Some acc.1) (children object);
      Some (st, acc.2).

(** ** UVEs *)

Definition is_uve (hd : SandeshHeader) : bool := (hd_Type hd =? ST_UVE) || (hd_Type hd =? ST_ALARM).
(** The structure of a UVE message. *)
Definition uve_object (parent : handle) : handle := first_child (child parent "data").
Definition deletes (n : xml_node) : bool :=
  (node_name n =? "deleted")%string && (child_value (Some n) =? "true")%string.

(** [handle_uve_statistics]: its loop ends at a child that marks the UVE as
    deleted. *)
Fixpoint uve_stats_loop (hd : SandeshHeader) (object : handle) (l : list xml_node) (st : db_state) : option db_state :=
  match l with
  | [] => Some st
  | n :: l' =>
      let node := Some n in
      if negb (attribute_value node "key" =? EmptyString)%string then uve_stats_loop hd object l' st
      else if deletes n then Some st
      else match attribute node "tags" with
           | Some _ =>
               if has_hint hd SANDESH_SYNC_HINT then uve_stats_loop hd object l' st
               else
                 let m1 := index_tags (ParseNode (child object STAT_OBJECTID_FIELD)) (VarString (hd_Source hd)) in
                 st ← snd <$> DomTopStatWalker (insert_sample (hd_Timestamp hd) (name object)) object node m1 st;
                 uve_stats_loop hd object l' st
           | None => uve_stats_loop hd object l' st
           end
  end.
Definition handle_uve_statistics (parent : handle) (st : db_state) : option db_state :=
  let hd := header vmsg in
  if is_uve hd then
    match parent with
    | None => Some st
    | Some _ => uve_stats_loop hd (uve_object parent) (children (uve_object parent)) st
    end
  else Some st.
End objects.

(** ** Publishing a UVE *)

Section publish.
Context `{XmlForms, SandeshTypes} (hd : SandeshHeader).

(** What the first loop over the children finds. *)
Record uve_key := { uk_table : string; uk_barekey : string; uk_name : string; uk_deleted : bool }.
Definition scan_child (k : uve_key) (n : xml_node) : uve_key :=
  let node := Some n in
  let tempstr := attribute_value node "key" in
  let rk := unescaped node in
  let '(table, barekey) :=
    if (tempstr =? EmptyString)%string then (uk_table k, uk_barekey k)
    else if negb (uk_barekey k =? EmptyString)%string then (uk_table k, uk_barekey k +:+ ":" +:+ rk)
    else (tempstr, uk_barekey k +:+ rk) in
  {| uk_table := table; uk_barekey := barekey;
     uk_name := if (name node =? "proxy")%string then uk_name k +:+ "-" +:+ child_value node else uk_name k;
     uk_deleted := uk_deleted k || deletes n |}.
Definition uve_key_of (object : handle) : uve_key :=
  foldl scan_child {| uk_table := EmptyString; uk_barekey := EmptyString; uk_name := name object; uk_deleted := false |}
    (children object).

(** The attributes that are published, all children but the keys. *)
Definition is_key (n : xml_node) : bool := negb (attribute_value (Some n) "key" =? EmptyString)%string.
Definition uve_source_of (type : string) : uve_source := {|
  us_type := type; us_source := hd_Source hd; us_node_type := hd_NodeType hd; us_module := hd_Module hd;
  us_instance := hd_InstanceId hd |}.
Definition agg_type (n : xml_node) : string :=
  let t := attribute_value (Some n) "aggtype" in if (t =? EmptyString)%string then "None" else t.
Definition publish_attr (k : uve_key) (acc : gmap string (string * xml_node) * list osp_call) (n : xml_node)
  : gmap string (string * xml_node) * list osp_call :=
  if is_key n then acc
  else
    let ostr := xml_print n in
    (map_insert_new (name (Some n)) (ostr, n) acc.1,
     acc.2 ++ [UVEUpdate (uve_source_of (uk_name k)) (name (Some n)) (uk_table k) (uk_barekey k) ostr
                 (i32 (hd_SequenceNum hd)) (agg_type n) (hd_Timestamp hd) (hd_Type hd =? ST_ALARM)]).

(** [handle_uve_publish]: the value it returns and the calls it makes. *)
Definition handle_uve_publish (parent : handle) : bool * list osp_call :=
  if is_uve hd then
    match parent with
    | None => (false, [])
    | Some _ =>
        let object := uve_object parent in
        let k := uve_key_of object in
        let src := uve_source_of (uk_name k) in
        if (uk_table k =? EmptyString)%string then (false, [])
        else if uk_deleted k then
          (true, [UVEDelete src (uk_table k +:+ ":" +:+ uk_barekey k) (i32 (hd_SequenceNum hd)) (hd_Type hd =? ST_ALARM);
                  UVENotif src (uk_table k) (uk_barekey k) ∅ true])
        else
          let '(vmap, calls) := foldl (publish_attr k) (∅, []) (children object) in
          (true, calls ++ [UVENotif src (uk_table k) (uk_barekey k) vmap false])
    end
  else (true, []).
End publish.

(** ** A message *)

Section execute.
Context `{XmlForms, Environment, DoubleFormat, JsonWriter, Strtod, SandeshTypes, CollectorSandeshTypes, SandeshHints,
          FlowConstants, StringToInteger, StringToNarrow}.

(** The levels [DropMessage] compares with. *)
Record watermarks := {
  wm_use_db_write_options : bool; wm_drop : Z; wm_disk : Z; wm_compaction : Z
}.
Definition dropped (w : watermarks) (hd : SandeshHeader) : bool :=
  DropMessage (wm_use_db_write_options w) (wm_drop w) (wm_disk w) (wm_compaction w) hd.

Record engine_state := { es_session : session_state; es_calls : list osp_call }.
Definition set_db (st : db_state) (ss : session_state) : session_state := {|
  ss_db := st; ss_stats := ss_stats ss; thrown := thrown ss |}.

(** [handle_session_object]. *)
Definition handle_session_object (h : DbHandler) (parent : handle) (hd : SandeshHeader) (ss : session_state)
  : option session_state :=
  if hd_Type hd =? ST_SESSION then SessionTableInsert h parent hd ss else Some ss.

(** [rule_execute], up to the rules; [None]: an assertion fails. *)
Definition store_message (h : DbHandler) (uveproc : bool) (vmsg : VizMsg) (parent : xml_node) (ss : session_state)
  : option session_state :=
  let hd := header vmsg in
  '(st, object_names) ← handle_object_log h vmsg parent (ss_db ss, []);
  let st := MessageTableInsert h vmsg object_names st in
  st ← (if uveproc then handle_uve_statistics h vmsg (Some parent) st else Some st);
  handle_session_object h (Some parent) hd (set_db st ss).
Definition rule_execute (vmsg : VizMsg) (node : xml_node) (uveproc : bool) (db : option DbHandler) (w : watermarks)
    (es : engine_state) : option engine_state :=
  let parent := remove_identifier node in
  let calls := es_calls es ++ (if uveproc then (handle_uve_publish (header vmsg) (Some parent)).2 else []) in
  match db with
  | Some h =>
      if dropped w (header vmsg) then Some {| es_session := es_session es; es_calls := calls |}
      else ss ← store_message h uveproc vmsg parent (es_session es);
           Some {| es_session := ss; es_calls := calls |}
  | None => Some {| es_session := es_session es; es_calls := calls |}
  end.
End execute.

(** ** What is recorded of a message *)

Section recorded.
Context `{XmlForms, Environment, DoubleFormat, JsonWriter} (h : DbHandler) (vmsg : VizMsg).

(** The values the children of a node have for a table. *)
Definition key_value (t : string) (n : xml_node) : option string :=
  if (attribute_value (Some n) "key" =? t)%string && negb (t =? EmptyString)%string &&
     negb (attribute_value (Some n) "type" =? EmptyString)%string
  then Some (unescaped (Some n)) else None.
Definition key_values (t : string) (l : list xml_node) : list string := omap (key_value t) l.
Definition joined (vs : list string) : option string :=
  match vs with [] => None | _ => Some (String.concat ":" vs) end.

Lemma concat_snoc sep vs v : vs ≠ [] → String.concat sep (vs ++ [v]) = String.concat sep vs +:+ sep +:+ v.
Proof.
  intros Hv. induction vs as [|w vs IH]; [done|]. destruct vs as [|w' vs]; [done|].
  change (String.concat sep ((w :: w' :: vs) ++ [v])) with (w +:+ sep +:+ String.concat sep ((w' :: vs) ++ [v])).
  rewrite IH by done. change (String.concat sep (w :: w' :: vs)) with (w +:+ sep +:+ String.concat sep (w' :: vs)).
  by rewrite !append_assoc_string.
Qed.
Lemma joined_snoc vs v : joined (vs ++ [v]) =
  Some (match joined vs with Some s => s +:+ ":" +:+ v | None => v end).
Proof.
  destruct vs as [|w vs]; [done|]. unfold joined at 2. simpl app.
  change (joined (w :: vs ++ [v])) with (Some (String.concat ":" ((w :: vs) ++ [v]))). by rewrite concat_snoc.
Qed.

Lemma add_key_lookup m n t : add_key m n !! t =
  match key_value t n with
  | Some v => Some (match m !! t with Some s => s +:+ ":" +:+ v | None => v end)
  | None => m !! t
  end.
Proof.
  unfold add_key, key_value. set (table := attribute_value (Some n) "key").
  destruct (String.eqb_spec table t) as [<-|Hne].
  - destruct (table =? EmptyString)%string; [done|]. simpl.
    destruct (attribute_value (Some n) "type" =? EmptyString)%string; [done|]. simpl.
    destruct (m !! table); by rewrite lookup_insert_eq.
  - simpl. destruct (_ && _); [|done]. destruct (m !! table); by rewrite lookup_insert_ne.
Qed.

Lemma keymap_lookup l t : keymap_of l !! t = joined (key_values t l).
Proof.
  unfold keymap_of. induction l as [|n l IH] using rev_ind; [cbn [foldl]; by rewrite lookup_empty|].
  rewrite foldl_snoc, add_key_lookup, IH. unfold key_values. rewrite omap_app.
  change (omap (key_value t) [n]) with (match key_value t n with Some y => [y] | None => [] end).
  destruct (key_value t n) as [v|]; [by rewrite joined_snoc|by rewrite app_nil_r].
Qed.

(** The objects of a message: for every node, before those below it, the
    tables of its children with their values. *)
Fixpoint objects_of (parent : xml_node) : list (string * string) :=
  match parent with
  | XmlText _ => []
  | XmlElement _ _ l => entries (keymap_of l) ++ concat (objects_of <$> l)
  end.
Definition object_name (e : string * string) : string := e.1 +:+ ":" +:+ e.2.

Lemma object_walk ts parent acc : DomObjectWalk h vmsg ts parent acc = foldl (insert_object h vmsg ts) acc (objects_of parent).
Proof.
  revert acc. induction parent as [s|s a l IH] using xml_node_ind'; intros acc; [done|].
  cbn [DomObjectWalk objects_of]. rewrite foldl_app. generalize (foldl (insert_object h vmsg ts) acc (entries (keymap_of l))).
  clear acc. induction IH as [|c l Hc _ IHl]; intros acc; [done|]. rewrite fmap_cons. simpl. by rewrite foldl_app, Hc, IHl.
Qed.

Lemma object_walk_names ts l acc : (foldl (insert_object h vmsg ts) acc l).2 = acc.2 ++ (object_name <$> l).
Proof.
  revert acc. induction l as [|e l IH]; intros acc; simpl; [by rewrite app_nil_r|].
  rewrite IH. simpl. by rewrite <- (assoc_L (++)).
Qed.
Lemma object_walk_db ts l acc : (foldl (insert_object h vmsg ts) acc l).1 =
  foldl (λ st e, ObjectTableInsert h e.1 e.2 ts vmsg st) acc.1 l.
Proof. revert acc. induction l as [|e l IH]; intros acc; [done|]. simpl. by rewrite IH. Qed.

(** The objects of a message are recorded one by one, those of a node
    before those below it, in the order of their tables: a table a child of the
    node names in its key has the values of all such children, in order and
    joined by colons, and the names handed on are those of the objects. *)
Theorem objects_recorded ts parent st names :
  DomObjectWalk h vmsg ts parent (st, names) =
    (foldl (λ st e, ObjectTableInsert h e.1 e.2 ts vmsg st) st (objects_of parent),
     names ++ (object_name <$> objects_of parent)) ∧
  ∀ l t, keymap_of l !! t = joined (key_values t l).
Proof.
  split; [|apply keymap_lookup]. rewrite object_walk.
  pose proof (object_walk_db ts (objects_of parent) (st, names)) as Hd.
  pose proof (object_walk_names ts (objects_of parent) (st, names)) as Hn.
  destruct (foldl _ _ _). simpl in *. by subst.
Qed.
End recorded.

(** ** Statistics of a message *)

Section statistics.
Context `{XmlForms, Environment, DoubleFormat, JsonWriter, Strtod, SandeshTypes, CollectorSandeshTypes, SandeshHints}.
Context (h : DbHandler) (vmsg : VizMsg).

Definition annotated (n : xml_node) : bool := match attribute (Some n) "tags" with Some _ => true | None => false end.
(** The samples of some children of a message, and inserting them. *)
Definition stats_of (object : xml_node) (m1 : gmap string TagVal) (l : list xml_node) : list sample :=
  concat ((λ n, node_samples (Some object) (Some n) m1) <$> l).
Definition insert_stats (ts : Z) (object : xml_node) (st : db_state) (l : list sample) : db_state :=
  insert_samples (insert_sample h ts (node_name object)) st l.

Lemma insert_stats_app ts object st l1 l2 :
  insert_stats ts object st (l1 ++ l2) = insert_stats ts object (insert_stats ts object st l1) l2.
Proof. unfold insert_stats. by rewrite insert_samples_app. Qed.

Lemma walk_stats_done ts object m1 l st : dotless object = true → (∀ n, n ∈ l → n ∈ node_children object) →
  foldl (walk_stats_of h ts (Some object) m1) (Some st) l =
  Some (insert_stats ts object st (stats_of object m1 (List.filter annotated l))).
Proof.
  intros Hd. revert st. induction l as [|n l IH]; intros st Hl; [done|]. cbn [foldl List.filter].
  unfold walk_stats_of at 2. cbn [mbind option_bind]. unfold annotated at 1.
  destruct (attribute (Some n) "tags"); [|apply IH; intros; apply Hl; by right].
  rewrite top_walk by (done || (apply Hl; by left)). cbn [fmap option_fmap option_map snd].
  rewrite IH by (intros; apply Hl; by right). unfold stats_of. rewrite fmap_cons. cbn [concat].
  by rewrite insert_stats_app.
Qed.

(** The annotated children of a UVE up to the mark of deletion. *)
Fixpoint live_stats (l : list xml_node) : list xml_node :=
  match l with
  | [] => []
  | n :: l' =>
      if is_key n then live_stats l' else if deletes n then []
      else if annotated n then n :: live_stats l' else live_stats l'
  end.
Definition uve_tags (object : xml_node) : gmap string TagVal :=
  index_tags (ParseNode (child (Some object) STAT_OBJECTID_FIELD)) (VarString (hd_Source (header vmsg))).

Lemma uve_stats_done object l st : dotless object = true → (∀ n, n ∈ l → n ∈ node_children object) →
  uve_stats_loop h (header vmsg) (Some object) l st =
  Some (if has_hint (header vmsg) SANDESH_SYNC_HINT then st
        else insert_stats (hd_Timestamp (header vmsg)) object st (stats_of object (uve_tags object) (live_stats l))).
Proof.
  intros Hd. revert st. induction l as [|n l IH]; intros st Hl; [by destruct (has_hint _ _)|].
  assert (∀ x, x ∈ l → x ∈ node_children object) as Hl' by (intros; apply Hl; by right).
  cbn [uve_stats_loop live_stats]. unfold is_key. destruct (negb _); [by apply IH|].
  destruct (deletes n); [by destruct (has_hint _ _)|]. unfold annotated.
  destruct (attribute (Some n) "tags"); [|by apply IH].
  destruct (has_hint (header vmsg) SANDESH_SYNC_HINT) eqn:Es; [rewrite IH by done; by rewrite ?Es|].
  rewrite top_walk by (done || (apply Hl; by left)). cbn [fmap option_fmap option_map snd mbind option_bind].
  rewrite IH by done. unfold stats_of. rewrite fmap_cons. cbn [concat]. by rewrite insert_stats_app.
Qed.

Lemma dotless_descend h' k c : dotless_of h' = true → child h' k = Some c → dotless c = true.
Proof. intros Hd [Hc _]%child_Some. by apply (dotless_children h'). Qed.
Lemma uve_object_dotless parent o : dotless parent = true → uve_object (Some parent) = Some o → dotless o = true.
Proof.
  unfold uve_object. intros Hd Ho. destruct (child (Some parent) "data") as [c|] eqn:Ec; [|done].
  apply head_elem in Ho. apply (dotless_children (Some c)); [|done]. by apply (dotless_descend (Some parent) "data").
Qed.

Lemma object_log_done parent st names : dotless parent = true →
  handle_object_log h vmsg parent (st, names) =
    (if negb (has_hint (header vmsg) SANDESH_KEY_HINT) then Some (st, names)
     else let walked := DomObjectWalk h vmsg (hd_Timestamp (header vmsg)) parent (st, names) in
       if hd_Type (header vmsg) =? ST_UVE then Some walked
       else Some (insert_stats (hd_Timestamp (header vmsg)) parent walked.1
                    (stats_of parent
                      (index_tags (object_log_key (Some parent) (hd_Source (header vmsg))) (VarString (hd_Source (header vmsg))))
                      (List.filter annotated (node_children parent))), walked.2)).
Proof.
  intros Hd. unfold handle_object_log. destruct (negb _); [done|]. cbv zeta. destruct (hd_Type _ =? ST_UVE); [done|].
  change (children (Some parent)) with (node_children parent). by rewrite walk_stats_done.
Qed.
Lemma uve_statistics_done parent st : dotless parent = true →
  handle_uve_statistics h vmsg (Some parent) st =
    (if is_uve (header vmsg) then
       match uve_object (Some parent) with
       | Some o => Some (if has_hint (header vmsg) SANDESH_SYNC_HINT then st
                         else insert_stats (hd_Timestamp (header vmsg)) o st
                                (stats_of o (uve_tags o) (live_stats (node_children o))))
       | None => Some st
       end
     else Some st).
Proof.
  intros Hd. unfold handle_uve_statistics. destruct (is_uve _); [|done].
  destruct (uve_object (Some parent)) as [o|] eqn:Eo; [|done].
  rewrite (uve_stats_done o); [done|by apply (uve_object_dotless parent)|done].
Qed.

(** The statistics of a message: of a message of another type than a UVE
    every annotated child is walked, of a UVE those before a mark of deletion,
    unless the message is a synchronisation; for each exactly the samples of
    its nested structures are inserted, in order, and no assertion of the
    walker fails. *)
Theorem message_statistics parent st names : dotless parent = true →
  handle_object_log h vmsg parent (st, names) =
    (if negb (has_hint (header vmsg) SANDESH_KEY_HINT) then Some (st, names)
     else let walked := DomObjectWalk h vmsg (hd_Timestamp (header vmsg)) parent (st, names) in
       if hd_Type (header vmsg) =? ST_UVE then Some walked
       else Some (insert_stats (hd_Timestamp (header vmsg)) parent walked.1
                    (stats_of parent
                      (index_tags (object_log_key (Some parent) (hd_Source (header vmsg))) (VarString (hd_Source (header vmsg))))
                      (List.filter annotated (node_children parent))), walked.2)) ∧
  handle_uve_statistics h vmsg (Some parent) st =
    (if is_uve (header vmsg) then
       match uve_object (Some parent) with
       | Some o => Some (if has_hint (header vmsg) SANDESH_SYNC_HINT then st
                         else insert_stats (hd_Timestamp (header vmsg)) o st
                                (stats_of o (uve_tags o) (live_stats (node_children o))))
       | None => Some st
       end
     else Some st).
Proof. intros Hd. split; [by apply object_log_done|by apply uve_statistics_done]. Qed.
End statistics.

(** ** What is published of a UVE *)

Section published.
Context `{XmlForms, SandeshTypes} (hd : SandeshHeader).

Definition key_children (o : xml_node) : list xml_node := List.filter is_key (node_children o).
Definition attr_children (o : xml_node) : list xml_node := List.filter (λ n, negb (is_key n)) (node_children o).
Definition key_texts (l : list xml_node) : list string := (λ n, unescaped (Some n)) <$> List.filter is_key l.
(** The name of a UVE with its proxies. *)
Definition add_proxy (s : string) (n : xml_node) : string :=
  if (node_name n =? "proxy")%string then s +:+ "-" +:+ child_value (Some n) else s.
Definition uve_name (o : xml_node) : string := foldl add_proxy (node_name o) (node_children o).
Definition add_text (s t : string) : string := s +:+ ":" +:+ t.

Lemma concat_foldl t ts : String.concat ":" (t :: ts) = foldl add_text t ts.
Proof.
  induction ts as [|u ts IH] using rev_ind; [done|].
  rewrite foldl_snoc, <- IH. change (t :: ts ++ [u]) with ((t :: ts) ++ [u]). by rewrite concat_snoc.
Qed.

Lemma scan_name l k : uk_name (foldl scan_child k l) = foldl add_proxy (uk_name k) l.
Proof.
  revert k. induction l as [|n l IH]; intros k; [done|]. cbn [foldl]. rewrite IH. f_equal.
  unfold scan_child, add_proxy. change (name (Some n)) with (node_name n). by repeat case_match.
Qed.
Lemma scan_deleted l k : uk_deleted (foldl scan_child k l) = uk_deleted k || existsb deletes l.
Proof.
  revert k. induction l as [|n l IH]; intros k; cbn [foldl existsb]; [by rewrite orb_false_r|]. rewrite IH.
  unfold scan_child. by repeat case_match; simpl; rewrite orb_assoc.
Qed.
Lemma scan_nonempty l k : uk_barekey k ≠ EmptyString →
  uk_table (foldl scan_child k l) = uk_table k ∧
  uk_barekey (foldl scan_child k l) = foldl add_text (uk_barekey k) (key_texts l).
Proof.
  revert k. induction l as [|n l IH]; intros k Hk; [done|]. cbn [foldl].
  unfold key_texts. cbn [List.filter]. unfold is_key at 1.
  assert (uk_table (scan_child k n) = uk_table k ∧ uk_barekey (scan_child k n) =
    if negb (attribute_value (Some n) "key" =? EmptyString)%string then add_text (uk_barekey k) (unescaped (Some n))
    else uk_barekey k) as [Ht Hb].
  { unfold scan_child. rewrite (string_eqb_false _ _ Hk). by destruct (attribute_value _ _ =? _)%string. }
  destruct (IH (scan_child k n)) as [Ht' Hb'].
  { rewrite Hb. destruct (negb _); [|done]. unfold add_text. by destruct (uk_barekey k). }
  rewrite Ht', Hb', Ht, Hb. split; [done|]. by destruct (negb _).
Qed.
Lemma scan_keys l k n rest : uk_barekey k = EmptyString → List.filter is_key l = n :: rest →
  unescaped (Some n) ≠ EmptyString →
  uk_table (foldl scan_child k l) = attribute_value (Some n) "key" ∧
  uk_barekey (foldl scan_child k l) = String.concat ":" (key_texts l).
Proof.
  revert k. induction l as [|m l IH]; intros k Hk; [done|]. cbn [foldl]. unfold key_texts. cbn [List.filter].
  destruct (is_key m) eqn:Em.
  - intros [= -> Hr] Hn. rewrite fmap_cons, concat_foldl. unfold is_key in Em. apply negb_true_iff in Em.
    assert (uk_table (scan_child k n) = attribute_value (Some n) "key" ∧ uk_barekey (scan_child k n) = unescaped (Some n)) as [Ht Hb].
    { unfold scan_child. by rewrite Em, Hk. }
    destruct (scan_nonempty l (scan_child k n)) as [Ht' Hb']; [by rewrite Hb|]. by rewrite Ht', Hb', Ht, Hb.
  - intros Hr Hn. apply IH; [|done|done]. unfold is_key in Em. apply negb_false_iff in Em.
    unfold scan_child. by rewrite Em.
Qed.

(** The attributes handed to the notification; of two with one name the
    first. *)
Definition attr_map (l : list xml_node) : gmap string (string * xml_node) :=
  list_to_map ((λ n, (node_name n, (xml_print n, n))) <$> l).
Definition update_of (table barekey : string) (src : uve_source) (n : xml_node) : osp_call :=
  UVEUpdate src (node_name n) table barekey (xml_print n) (i32 (hd_SequenceNum hd)) (agg_type n)
    (hd_Timestamp hd) (hd_Type hd =? ST_ALARM).

Lemma insert_new_union {A} k (v : A) m m' : map_insert_new k v m ∪ m' = m ∪ <[k := v]> m'.
Proof.
  apply map_eq. intros j. rewrite !lookup_union, lookup_map_insert_new.
  destruct (decide (k = j)) as [<-|Hne]; [rewrite lookup_insert_eq|rewrite lookup_insert_ne by done; done].
  by destruct (m !! k), (m' !! k).
Qed.
Lemma publish_fold k l m calls : foldl (publish_attr hd k) (m, calls) l =
  (m ∪ attr_map (List.filter (λ n, negb (is_key n)) l),
   calls ++ (update_of (uk_table k) (uk_barekey k) (uve_source_of hd (uk_name k)) <$> List.filter (λ n, negb (is_key n)) l)).
Proof.
  revert m calls. induction l as [|n l IH]; intros m calls; cbn [foldl List.filter].
  { unfold attr_map. simpl. by rewrite (right_id_L ∅ (∪)), app_nil_r. }
  unfold publish_attr at 2. destruct (is_key n); cbn [negb fst snd]; [apply IH|].
  rewrite IH. f_equal.
  - unfold attr_map. rewrite fmap_cons. cbn [list_to_map]. by rewrite insert_new_union.
  - rewrite fmap_cons. by rewrite <- (assoc_L (++)).
Qed.

(** C20.  A UVE whose first key is not empty is published under the table of
    that key and the values of all its keys joined by colons: a deleted one by
    one deletion and a notification, another one by an update for every child
    that is not a key, in order, and a notification with their values. *)
Theorem uve_published parent o k rest : is_uve hd = true → uve_object (Some parent) = Some o →
  key_children o = k :: rest → unescaped (Some k) ≠ EmptyString →
  let table := attribute_value (Some k) "key" in
  let barekey := String.concat ":" (key_texts (node_children o)) in
  let src := uve_source_of hd (uve_name o) in
  handle_uve_publish hd (Some parent) =
  (true, if existsb deletes (node_children o) then
           [UVEDelete src (table +:+ ":" +:+ barekey) (i32 (hd_SequenceNum hd)) (hd_Type hd =? ST_ALARM);
            UVENotif src table barekey ∅ true]
         else (update_of table barekey src <$> attr_children o) ++
              [UVENotif src table barekey (attr_map (attr_children o)) false]).
Proof.
  intros Hu Ho Hk Hn table barekey src. unfold handle_uve_publish. rewrite Hu, Ho.
  set (key := uve_key_of (Some o)).
  destruct (scan_keys (node_children o) {| uk_table := EmptyString; uk_barekey := EmptyString;
    uk_name := name (Some o); uk_deleted := false |} k rest eq_refl Hk Hn) as [Ht Hb].
  pose proof (scan_name (node_children o) {| uk_table := EmptyString; uk_barekey := EmptyString;
    uk_name := name (Some o); uk_deleted := false |}) as Hnm.
  pose proof (scan_deleted (node_children o) {| uk_table := EmptyString; uk_barekey := EmptyString;
    uk_name := name (Some o); uk_deleted := false |}) as Hdel.
  change (foldl scan_child _ (node_children o)) with key in Ht, Hb, Hnm, Hdel.
  cbn [uk_deleted uk_name orb] in Hdel, Hnm. change (foldl add_proxy (name (Some o)) (node_children o)) with (uve_name o) in Hnm.
  assert ((uk_table key =? EmptyString)%string = false) as Hne.
  { rewrite Ht. assert (is_key k = true) as Hik.
    { assert (k ∈ key_children o) as Hin by (rewrite Hk; by left).
      apply list_elem_of_In, filter_In in Hin. by destruct Hin. }
    unfold is_key in Hik. by apply negb_true_iff. }
  rewrite Hne, Hdel. destruct (existsb deletes (node_children o)).
  - by rewrite Ht, Hb, Hnm.
  - change (children (Some o)) with (node_children o). rewrite publish_fold, (left_id_L ∅ (∪)). simpl.
    by rewrite Ht, Hb, Hnm.
Qed.
End published.

(** ** What a message inserts *)

Section stored.
Context `{XmlForms, Environment, DoubleFormat, JsonWriter, Strtod, SandeshTypes, CollectorSandeshTypes, SandeshHints,
          FlowConstants, StringToInteger, StringToNarrow}.
Context (h : DbHandler).

(** Insertions into the tables [P]. *)
Definition grows (P : string → Prop) (st st' : db_state) : Prop :=
  ∃ l, inserted st' = inserted st ++ l ∧ Forall (λ c, P (cfname c)) l.
#[export] Instance grows_preorder P : PreOrder (grows P).
Proof.
  split.
  - intros st. exists []. by rewrite app_nil_r.
  - intros st1 st2 st3 (l1 & H1' & P1) (l2 & H2' & P2). exists (l1 ++ l2).
    by rewrite H2', H1', <- (assoc_L (++)), Forall_app.
Qed.
(** Not the table of messages. *)
Definition other_table (t : string) : Prop := t ≠ COLLECTOR_GLOBAL_TABLE.

Lemma grows_insert c st : other_table (cfname c) → grows other_table st (InsertIntoDb h c st).2.
Proof.
  intros Hc. unfold InsertIntoDb. destruct (disable_all_writes_ h); [reflexivity|].
  exists [c]. split; [done|by constructor].
Qed.
Lemma grows_same st st' : inserted st' = inserted st → grows other_table st st'.
Proof. intros He. exists []. by rewrite app_nil_r, He. Qed.
Lemma grows_fold {A} (f : db_state → A → db_state) l st :
  (∀ st x, grows other_table st (f st x)) → grows other_table st (foldl f st l).
Proof. intros Hf. revert st. induction l as [|x l IH]; intros st; [reflexivity|]. simpl. etrans; [apply Hf|apply IH]. Qed.

Lemma grows_stat_write ts n a tags at' u ttl st : grows other_table st (StatTableWrite h ts n a tags at' u ttl st).
Proof. by apply grows_insert. Qed.
Lemma grows_field ts p n v ttl st : grows other_table st (FieldNamesTableInsert h ts p n v ttl st).
Proof.
  unfold FieldNamesTableInsert. pose proof (record_inserted (T2_of ts) ((p +:+ n) +:+ ":" +:+ v) st) as Hr.
  destruct (CanRecordDataForT2 _ _ st) as [[|] st']; cbn [snd] in Hr; [|by apply grows_same].
  etrans; [by apply grows_same|apply grows_stat_write].
Qed.
Lemma grows_stat ts n a tags at' st : grows other_table st (StatTableInsert h ts n a tags at' st).
Proof.
  unfold StatTableInsert. destruct (_ || _); [reflexivity|]. unfold StatTableInsertTtl.
  etrans; [|apply grows_stat_write]. etrans; [|apply grows_fold].
  - destruct (negb _); [|reflexivity]. etrans; [|apply grows_field]. by apply grows_same.
  - intros st' [k [v m]]. unfold tag_field. cbn [fst snd]. destruct v; try reflexivity.
    destruct (_ =? _)%string; [reflexivity|apply grows_field].
Qed.
Lemma grows_object t k ts vmsg st : grows other_table st (ObjectTableInsert h t k ts vmsg st).
Proof.
  unfold ObjectTableInsert. destruct (_ || _); [reflexivity|].
  pose proof (grows_insert (object_value_column h t k (message_type vmsg) ts) st) as Hi.
  destruct (InsertIntoDb _ _ st) as [[|] st']; cbn [snd] in Hi; [|by apply Hi].
  repeat (etrans; [|apply grows_field]). by apply Hi.
Qed.
Lemma grows_samples ts o l st : grows other_table st (insert_stats h ts o st l).
Proof. apply grows_fold. intros st' s. apply grows_stat. Qed.
Lemma grows_session_field ts n f vs ss : grows other_table (ss_db ss) (ss_db (session_field_name h ts n f vs ss)).
Proof.
  unfold session_field_name. destruct (thrown ss); [reflexivity|].
  destruct (vs !!! f); try reflexivity. apply grows_field.
Qed.
Lemma grows_aggregate T2 k v acc acc' : insert_aggregate h T2 k v acc = Some acc' →
  grows other_table (ss_db acc.2) (ss_db acc'.2).
Proof.
  destruct acc as [vs ss]. unfold insert_aggregate. intros ([v1 stats] & _ & [= <-])%bind_Some. cbn [snd ss_db].
  etrans; [|by apply grows_insert]. by apply grows_same.
Qed.
Lemma grows_aggregates T2 l acc acc' : aggregate_loop h T2 l acc = Some acc' →
  grows other_table (ss_db acc.2) (ss_db acc'.2).
Proof.
  revert acc. induction l as [|k|k v l IH] using pairs_ind; intros acc; cbn [aggregate_loop].
  - by intros [= ->].
  - apply grows_aggregate.
  - intros (acc1 & Hi & Hl)%bind_Some. etrans; [by eapply grows_aggregate|by apply IH].
Qed.
Lemma grows_session_sample s hd ss ss' : SessionSampleAdd h s hd ss = Some ss' → grows other_table (ss_db ss) (ss_db ss').
Proof.
  unfold SessionSampleAdd. destruct (sample_values s hd) as [vs agg]. intros ([v1 ss1] & Hl & Hs)%bind_Some.
  apply grows_aggregates in Hl. cbn [snd] in Hl. injection Hs as <-.
  etrans; [exact Hl|]. transitivity (ss_db (session_field_name h (hd_Timestamp hd) ":remote_vn" SESSION_REMOTE_VN v1
    (session_field_name h (hd_Timestamp hd) ":vn" SESSION_VN v1
       (session_field_name h (hd_Timestamp hd) ":vrouter" SESSION_VROUTER v1 ss1)))).
  - do 2 (etrans; [|apply grows_session_field]). apply grows_session_field.
  - by destruct (thrown _).
Qed.
Lemma grows_session p hd ss ss' : SessionTableInsert h p hd ss = Some ss' → grows other_table (ss_db ss) (ss_db ss').
Proof.
  unfold SessionTableInsert. revert ss. induction (session_samples p) as [|s l IH]; intros ss; cbn [foldl]; [by intros [= ->]|].
  cbn [mbind option_bind]. destruct (thrown ss); [apply IH|].
  destruct (SessionSampleAdd h s hd ss) as [ss1|] eqn:E; [|by rewrite foldl_None].
  intros Hl. etrans; [by eapply grows_session_sample|by apply IH].
Qed.

Lemma grows_walk ts vmsg l st : grows other_table st (foldl (λ st e, ObjectTableInsert h e.1 e.2 ts vmsg st) st l).
Proof. apply grows_fold. intros st' e. apply grows_object. Qed.

(** Inserting a message: its column and field names, or nothing. *)
Lemma message_insert vmsg names st :
  if AllowMessageTableInsert h (header vmsg) then
    ∃ part after, inserted (MessageTableInsert h vmsg names st) =
      inserted st ++ message_column h vmsg names part :: after ∧ Forall (λ c, other_table (cfname c)) after
  else MessageTableInsert h vmsg names st = st.
Proof.
  unfold MessageTableInsert. destruct (AllowMessageTableInsert h (header vmsg)) eqn:Ea; [|done].
  assert (disable_all_writes_ h = false) as Hw by (unfold AllowMessageTableInsert in Ea; by reflect_bools).
  set (st1 := MessageTableOnlyInsert h vmsg names st). set (part := gen_partition_no_ (partitions_drawn st)).
  assert (inserted st1 = inserted st ++ [message_column h vmsg names part]) as Hin.
  { unfold st1, MessageTableOnlyInsert, InsertIntoDb. by rewrite Hw. }
  match goal with |- context [inserted ?t = _] => set (st2 := t) end.
  assert (grows other_table st1 st2) as (l & Hl & Hp).
  { unfold st2. destruct (_ || _); [|reflexivity].
    destruct (hd_Category _ =? _)%string; repeat (etrans; [|apply grows_field]); reflexivity. }
  exists part, l. by rewrite Hl, Hin, <- (assoc_L (++)).
Qed.

Lemma remove_first_identifier_dotless n : dotless n = true → dotless (without_identifier n) = true.
Proof.
  induction n as [s|s a l IH] using xml_node_ind'; [done|]. simpl. intros [Hs Hl]%andb_true_iff.
  rewrite Hs. simpl. apply forallb_forall. intros c Hc%list_elem_of_In%list_elem_of_fmap.
  destruct Hc as (c' & -> & Hc'). rewrite Forall_forall in IH. apply IH; [done|].
  rewrite forallb_forall in Hl. by apply Hl, list_elem_of_In.
Qed.
Lemma remove_identifier_dotless n : dotless n = true → dotless (remove_identifier n) = true.
Proof. destruct n as [s|s a l]; [done|]. apply (remove_first_identifier_dotless (XmlElement s a l)). Qed.

(** The object names a message is stored with. *)
Definition stored_names (vmsg : VizMsg) (parent : xml_node) : list string :=
  if has_hint (header vmsg) SANDESH_KEY_HINT then object_name <$> objects_of parent else [].

Lemma object_log_grows vmsg parent st : dotless parent = true →
  ∃ st', handle_object_log h vmsg parent (st, []) = Some (st', stored_names vmsg parent) ∧ grows other_table st st'.
Proof.
  intros Hd. rewrite object_log_done by done. unfold stored_names.
  destruct (has_hint _ _); simpl; [|exists st; by split].
  rewrite object_walk.
  pose proof (object_walk_names h vmsg (hd_Timestamp (header vmsg)) (objects_of parent) (st, [])) as Hn.
  pose proof (object_walk_db h vmsg (hd_Timestamp (header vmsg)) (objects_of parent) (st, [])) as Hdb.
  pose proof (grows_walk (hd_Timestamp (header vmsg)) vmsg (objects_of parent) st) as Hg.
  destruct (foldl _ _ _) as [st1 names]. simpl in *. subst. destruct (hd_Type _ =? ST_UVE).
  - by eexists.
  - eexists. split; [done|]. etrans; [exact Hg|apply grows_samples].
Qed.
Lemma uve_statistics_grows vmsg parent st : dotless parent = true →
  ∃ st', handle_uve_statistics h vmsg (Some parent) st = Some st' ∧ grows other_table st st'.
Proof.
  intros Hd. rewrite uve_statistics_done by done. destruct (is_uve _); [|by exists st].
  destruct (uve_object _) as [o|]; [|by exists st]. eexists. split; [done|].
  destruct (has_hint _ _); [reflexivity|apply grows_samples].
Qed.

(** C18.  A message that is not dropped, is neither a flow nor a session, and whose
    writes are not disabled is stored exactly once, with the names of the objects
    recorded for it; other messages are not stored in the table of messages.
    Everything else inserted for a message goes to the other tables.  A dropped
    message inserts nothing.  A UVE is published either way, before the test for
    dropping. *)
Theorem message_stored_once vmsg node uveproc w es es' : dotless node = true →
  rule_execute vmsg node uveproc (Some h) w es = Some es' →
  es_calls es' = es_calls es ++
    (if uveproc then (handle_uve_publish (header vmsg) (Some (remove_identifier node))).2 else []) ∧
  let names := stored_names vmsg (remove_identifier node) in
  let st := ss_db (es_session es) in let st' := ss_db (es_session es') in
  if dropped w (header vmsg) then es_session es' = es_session es
  else if disable_messages_writes_ h || disable_all_writes_ h ||
          (hd_Type (header vmsg) =? ST_FLOW) || (hd_Type (header vmsg) =? ST_SESSION) then grows other_table st st'
  else
    ∃ before part after, inserted st' = inserted st ++ before ++ message_column h vmsg names part :: after ∧
      Forall (λ c, other_table (cfname c)) (before ++ after).
Proof.
  intros Hd%remove_identifier_dotless. unfold rule_execute. destruct (dropped w (header vmsg)).
  { by intros [= <-]. }
  set (parent := remove_identifier node) in *. intros (ss & Hs & [= <-])%bind_Some. cbn [es_calls es_session]. split; [done|].
  cbv zeta. unfold store_message in Hs.
  destruct (object_log_grows vmsg parent (ss_db (es_session es)) Hd) as (st1 & Ho & (l1 & Hl1 & Hp1)).
  rewrite Ho in Hs. cbn [mbind option_bind] in Hs.
  pose proof (message_insert vmsg (stored_names vmsg parent) st1) as Hm.
  set (st2 := MessageTableInsert h vmsg (stored_names vmsg parent) st1) in *.
  assert (∃ st3, (if uveproc then handle_uve_statistics h vmsg (Some parent) st2 else Some st2) = Some st3 ∧
    grows other_table st2 st3) as (st3 & Hu & Hg3).
  { destruct uveproc; [by apply uve_statistics_grows|by exists st2]. }
  rewrite Hu in Hs. cbn [mbind option_bind] in Hs.
  assert (grows other_table st3 (ss_db ss)) as Hg4.
  { unfold handle_session_object in Hs. destruct (_ =? ST_SESSION); [by apply grows_session in Hs|].
    by injection Hs as <-. }
  assert (grows other_table st2 (ss_db ss)) as (l2 & Hl2 & Hp2) by (by etrans).
  assert (disable_messages_writes_ h || disable_all_writes_ h || (hd_Type (header vmsg) =? ST_FLOW) ||
    (hd_Type (header vmsg) =? ST_SESSION) = negb (AllowMessageTableInsert h (header vmsg))) as ->
    by (unfold AllowMessageTableInsert; by rewrite !negb_andb, !negb_involutive).
  destruct (AllowMessageTableInsert h (header vmsg)); cbn [negb].
  - destruct Hm as (part & after & Hm & Hpa). exists l1, part, (after ++ l2). split; [|by rewrite !Forall_app].
    by rewrite Hl2, Hm, Hl1, <- !(assoc_L (++)).
  - rewrite Hm in Hl2. exists (l1 ++ l2). split; [by rewrite Hl2, Hl1, <- (assoc_L (++))|by rewrite Forall_app].
Qed.
End stored.

(** ** Examples *)

Module RuleExamples.
#[local] Existing Instance WhereExamples.to_double.
#[local] Existing Instance HandlerExamples.environment.
#[local] Existing Instance PostExamples.double_format.
#[local] Existing Instance ConcreteStringToInteger.instance.
#[local] Existing Instance DomExamples.forms.
#[local] Existing Instance SessionExamples.flow_constants.
#[local] Existing Instance SessionExamples.narrow.
#[local] Existing Instance SessionExamples.writer.
#[local] Existing Instance SelectExamples.types.
Definition collector_types : CollectorSandeshTypes := {| ST_SYSLOG := 8; ST_FLOW := 2; ST_SESSION := 12 |}.
#[local] Existing Instance collector_types.
Definition hints : SandeshHints := {| SANDESH_KEY_HINT := 1; SANDESH_SYNC_HINT := 4 |}.
#[local] Existing Instance hints.

Definition message (type : Z) : VizMsg := {|
  header := {| hd_Timestamp := HandlerExamples.now; hd_Source := "host"; hd_Module := "agent"; hd_IPAddress := None;
               hd_Pid := None; hd_Category := EmptyString; hd_Level := 3; hd_NodeType := "Compute";
               hd_InstanceId := "0"; hd_SequenceNum := 3; hd_Type := type; hd_Hints := 1 |};
  message_type := "VrouterStats"; vm_unm := 5; ExtractMessage := "<xml/>" |}.
Definition keyed (key nm value : string) : xml_node :=
  XmlElement nm [("type", "string"); ("key", key); ("identifier", "1")]%string [XmlText value].
(** An object log with statistics, and the same as a UVE. *)
Definition object_log : xml_node :=
  XmlElement "VrouterObject" [] [keyed "ObjectVRouter" "name" "vr1"; keyed "ObjectVRouter" "part" "p"; DomExamples.if_stats].
Definition uve : xml_node :=
  XmlElement "UveVrouter" [] [XmlElement "data" [] [XmlElement "VrouterAgent" []
    [keyed "ObjectVRouter" "name" "vr1"; DomExamples.field "string" "state" "up"; DomExamples.if_stats]]].
Definition low : watermarks := {| wm_use_db_write_options := false; wm_drop := 8; wm_disk := 8; wm_compaction := 8 |}.
Definition start : engine_state := {| es_session := SessionExamples.fresh; es_calls := [] |}.
Definition after (type : Z) (node : xml_node) : engine_state :=
  default start (rule_execute (message type) node true (Some HandlerExamples.handler) low start).

Lemma message_statistics_witness :
  length (List.filter annotated (node_children object_log)) = 1%nat ∧
  handle_object_log HandlerExamples.handler (message 4) object_log (HandlerExamples.fresh, []) =
    Some (let walked := DomObjectWalk HandlerExamples.handler (message 4) HandlerExamples.now object_log (HandlerExamples.fresh, []) in
          (insert_stats HandlerExamples.handler HandlerExamples.now object_log walked.1
            (stats_of object_log (index_tags (VarString "vr1") (VarString "host")) [DomExamples.if_stats]), walked.2)).
Proof.
  split; [by vm_compute|].
  exact (proj1 (message_statistics HandlerExamples.handler (message 4) object_log HandlerExamples.fresh [] eq_refl)).
Defined.

Lemma uve_published_witness :
  (handle_uve_publish (header (message 6)) (Some uve)).1 = true ∧
  handle_uve_publish (header (message 6)) (Some uve) =
  (true, [update_of (header (message 6)) "ObjectVRouter" "vr1" (uve_source_of (header (message 6)) "VrouterAgent")
            (DomExamples.field "string" "state" "up");
          update_of (header (message 6)) "ObjectVRouter" "vr1" (uve_source_of (header (message 6)) "VrouterAgent")
            DomExamples.if_stats;
          UVENotif (uve_source_of (header (message 6)) "VrouterAgent") "ObjectVRouter" "vr1"
            (attr_map [DomExamples.field "string" "state" "up"; DomExamples.if_stats]) false]).
Proof.
  split; [by vm_compute|].
  exact (uve_published (header (message 6)) uve
    (XmlElement "VrouterAgent" [] [keyed "ObjectVRouter" "name" "vr1"; DomExamples.field "string" "state" "up"; DomExamples.if_stats])
    (keyed "ObjectVRouter" "name" "vr1") [] eq_refl eq_refl eq_refl ltac:(discriminate)).
Defined.

Lemma message_stored_once_witness :
  length (inserted (ss_db (es_session (after 4 object_log)))) = 20%nat ∧
  ∃ before part after', inserted (ss_db (es_session (after 4 object_log))) =
    [] ++ before ++ message_column HandlerExamples.handler (message 4) ["ObjectVRouter:vr1:p"%string] part :: after' ∧
    Forall (λ c, other_table (cfname c)) (before ++ after').
Proof.
  assert (rule_execute (message 4) object_log true (Some HandlerExamples.handler) low start = Some (after 4 object_log)) as He.
  { vm_cast_no_check (eq_refl (Some (after 4 object_log))). }
  split; [by vm_compute|].
  exact (proj2 (message_stored_once HandlerExamples.handler (message 4) object_log true low start _ eq_refl He)).
Defined.
End RuleExamples.
