(* ===== verification/UserDefinedCounters.v ===== *)
(** * User-defined counters of the collector

    [contrail-collector/usrdef_counters.cc] and, of [parser_util.cc],
    [SearchPattern].  The configuration names patterns; messages that match a
    pattern are counted under its name.  A configuration document is applied
    by refreshing the counters it names and deleting the others. *)
From Stdlib Require Import Ascii.
From stdpp Require Import base tactics list strings gmap sets.
From Stdlib Require Import ZArith Lia SpecFloat.
From S2P Require Import Prelude.
From S2P Require Import CppString.
From S2P Require Import Json.
From S2P Require Import PostProcessing.
From S2P Require Import StatWalker.
Local Open Scope Z_scope.

(** ** Searching a pattern *)

(** [regex_search] of boost: where the first match in a text begins and ends;
    [again] are the flags of a search that continues another one. *)
Class RegexSearch := {
  regex_search : string → bool → string → option (nat * nat);
  regex_search_bounds p again text b e : regex_search p again text = Some (b, e) →
    (b <= e)%nat ∧ (e <= String.length text)%nat
}.

Section search.
Context `{RegexSearch}.
Definition drop_string (n : nat) (s : string) : string := String.substring n (String.length s - n) s.

(** The loop of [SearchPattern]: it goes on at the end of the match.  [None]:
    the fuel ends. *)
Fixpoint search_loop (fuel : nat) (exp : string) (again : bool) (text : string) (cnt : Z) : option Z :=
  match fuel with
  | O => None
  | S fuel =>
      match regex_search exp again text with
      | Some (_, e) => search_loop fuel exp true (drop_string e text) (u32 (cnt + 1))
      | None => Some cnt
      end
  end.
Definition SearchPattern (fuel : nat) (exp text : string) : option Z := search_loop fuel exp false text 0.

(** No match of the pattern ends where its search begins. *)
Definition advances (exp : string) : Prop :=
  ∀ again text b e, regex_search exp again text = Some (b, e) → (0 < e)%nat.

Lemma substring_length n m s : (n + m <= String.length s)%nat → String.length (String.substring n m s) = m.
Proof.
  revert n m. induction s as [|c s IH]; intros n m; simpl.
  - intros ?. assert (n = 0 ∧ m = 0)%nat as [-> ->] by lia. done.
  - destruct n as [|n]; [|intros; apply IH; lia]. destruct m as [|m]; [done|]. intros ?. simpl. f_equal. apply IH. lia.
Qed.

Lemma search_ends fuel exp again text cnt : advances exp → (String.length text < fuel)%nat →
  is_Some (search_loop fuel exp again text cnt).
Proof.
  intros Ha. revert again text cnt. induction fuel as [|fuel IH]; intros again text cnt Hf; [lia|]. cbn [search_loop].
  destruct (regex_search exp again text) as [[b e]|] eqn:E; [|done].
  apply IH. pose proof (Ha _ _ _ _ E). destruct (regex_search_bounds _ _ _ _ _ E) as [_ He].
  unfold drop_string. rewrite substring_length by lia. lia.
Qed.

Lemma drop_string_0 s : drop_string 0 s = s.
Proof. unfold drop_string. rewrite Nat.sub_0_r. apply substring_all. Qed.

Lemma search_stuck fuel exp again text cnt b b' : regex_search exp again text = Some (b, 0%nat) →
  regex_search exp true text = Some (b', 0%nat) → search_loop fuel exp again text cnt = None.
Proof.
  revert again cnt b. induction fuel as [|fuel IH]; intros again cnt b Hs Ht; [done|].
  cbn [search_loop]. rewrite Hs, drop_string_0. by apply (IH true _ b').
Qed.
End search.

(** ** The configuration *)

(** [UserDefinedCounterData]: its name is its key in the map, and its regular
    expression the one its pattern compiles to. *)
Record UserDefinedCounterData := { refreshed_ : bool; regexp_str_ : string }.
(** The UVEs sent about a counter. *)
Inductive udc_uve := CounterDeleted (name : string) | CounterEvent (name : string).
Record counters := { config_ : gmap string UserDefinedCounterData; sent : list udc_uve }.
Definition set_config (m : gmap string UserDefinedCounterData) (c : counters) : counters :=
  {| config_ := m; sent := sent c |}.

Section config.
Context `{Regex}.

(** [AddConfig]; a pattern that does not compile is an exception. *)
Definition AddConfig (name pattern : string) (c : counters) : outcome counters :=
  match config_ c !! name with
  | Some d =>
      if (pattern =? regexp_str_ d)%string then
        Done (set_config (<[name := {| refreshed_ := true; regexp_str_ := regexp_str_ d |}]> (config_ c)) c)
      else if regex_compiles pattern then
        Done (set_config (<[name := {| refreshed_ := true; regexp_str_ := pattern |}]> (config_ c)) c)
      else Stopped
  | None =>
      if regex_compiles pattern then
        Done (set_config (<[name := {| refreshed_ := true; regexp_str_ := pattern |}]> (config_ c)) c)
      else Stopped
  end.

(** One step of the loop that deletes the counters which are not refreshed;
    [IsRefreshed] takes the mark off. *)
Definition sweep_one (c : counters) (e : string * UserDefinedCounterData) : counters :=
  if refreshed_ e.2
  then set_config (<[e.1 := {| refreshed_ := false; regexp_str_ := regexp_str_ e.2 |}]> (config_ c)) c
  else {| config_ := delete e.1 (config_ c); sent := sent c ++ [CounterDeleted e.1] |}.
Definition sweep (c : counters) : counters := foldl sweep_one c (entries (config_ c)).

(** One element of the list: left out without a name or a pattern. *)
Definition add_stat (c : counters) (v : json) : outcome counters :=
  if negb (IsObject v) then Done c
  else
    has_name ← HasMember v "name"; has_pattern ← HasMember v "pattern";
    if negb (has_name && has_pattern) then Done c
    else
      name ← (member v "name" ≫= GetString); pattern ← (member v "pattern" ≫= GetString);
      AddConfig (c_str name) (c_str pattern) c.

(** [UDCHandler]. *)
Definition UDCHandler (jdoc : json) (add_change : bool) (c : counters) : outcome counters :=
  if negb add_change then Done c
  else if negb (IsObject jdoc) then Done c
  else
    has ← HasMember jdoc "global_system_config";
    if negb has then Done c
    else
      gsc ← member jdoc "global_system_config";
      has ← HasMember gsc "user_defined_log_statistics";
      if negb has then Done (sweep c)
      else
        stats ← member gsc "user_defined_log_statistics";
        if negb (IsObject stats) then Done c
        else
          has ← HasMember stats "statlist";
          if negb has then Done c
          else
            statlist ← member stats "statlist";
            if negb (IsArray statlist) then Done c
            else
              l ← elements statlist;
              c ← fold_outcome add_stat c l;
              Done (sweep c).

(** [MatchFilter]: the words a text adds; [None]: the search of a pattern does
    not end. *)
Context `{RegexSearch}.
Definition match_one (fuel : nat) (text : string) (acc : option (counters * gset string))
    (e : string * UserDefinedCounterData) : option (counters * gset string) :=
  '(c, w) ← acc;
  cnt ← SearchPattern fuel (regexp_str_ e.2) text;
  if cnt =? 0 then Some (c, w)
  else Some ({| config_ := config_ c; sent := sent c ++ [CounterEvent e.1] |}, {[ e.1 ]} ∪ w).
Definition MatchFilter (fuel : nat) (text : string) (w : gset string) (c : counters) : option (counters * gset string) :=
  foldl (match_one fuel text) (Some (c, w)) (entries (config_ c)).

(** [FindByName] and [GetUDCConfig]. *)
Definition FindByName (name : string) (c : counters) : bool := bool_decide (is_Some (config_ c !! name)).
Definition GetUDCConfig (c : counters) : list (string * string) := (λ e, (e.1, regexp_str_ e.2)) <$> entries (config_ c).
End config.

(** ** Applying a configuration *)

Section apply.
Context `{Regex}.

(** A document with the list of statistics [l], names and patterns. *)
Definition stat_object (p : string * string) : json := JObject [("name", JString p.1); ("pattern", JString p.2)]%string.
Definition config_document (l : list (string * string)) : json :=
  JObject [("global_system_config", JObject [("user_defined_log_statistics",
    JObject [("statlist", JArray (stat_object <$> l))])])]%string.
(** A document without statistics. *)
Definition empty_document : json := JObject [("global_system_config", JObject [])]%string.

(** The last pattern a list gives a name. *)
Definition pattern_of (name : string) (l : list (string * string)) : option string :=
  snd <$> last (List.filter (λ p, (p.1 =? name)%string) l).
(** Between two documents no counter is marked. *)
Definition unmarked (c : counters) : Prop := ∀ n d, config_ c !! n = Some d → refreshed_ d = false.

(** Sweeping keeps the marked counters and takes their marks. *)
Lemma sweep_entries l c : NoDup l.*1 → (∀ n d, (n, d) ∈ l → config_ c !! n = Some d) →
  (∀ n, config_ (foldl sweep_one c l) !! n =
    match List.find (λ e, (e.1 =? n)%string) l with
    | Some (_, d) => if refreshed_ d then Some {| refreshed_ := false; regexp_str_ := regexp_str_ d |} else None
    | None => config_ c !! n
    end) ∧
  sent (foldl sweep_one c l) =
    sent c ++ ((λ e : string * UserDefinedCounterData, CounterDeleted e.1) <$> List.filter (λ e, negb (refreshed_ e.2)) l).
Proof.
  revert c. induction l as [|[n d] l IH]; intros c Hnd Hin; [split; [done|by rewrite app_nil_r]|].
  cbn [foldl]. apply NoDup_cons in Hnd as [Hn Hnd].
  assert (∀ n', n' ≠ n → config_ (sweep_one c (n, d)) !! n' = config_ c !! n') as Hother.
  { intros n' Hne. unfold sweep_one. cbn [fst snd]. destruct (refreshed_ d); simpl; [by rewrite lookup_insert_ne|by rewrite lookup_delete_ne]. }
  assert (∀ n', n' ∈ l.*1 → n' ≠ n) as Hl by (intros n' Hn' ->; done).
  destruct (IH (sweep_one c (n, d)) Hnd) as [Hm Hs].
  { intros n' d' Hin'. rewrite Hother; [apply Hin; by right|]. apply Hl. by apply (list_elem_of_fmap_2 fst l (n', d')). }
  split.
  - intros n'. rewrite Hm. cbn [List.find fst]. destruct (String.eqb_spec n n') as [<-|Hne].
    + destruct (List.find _ l) as [[n'' d'']|] eqn:Ef.
      * apply List.find_some in Ef as [Hi He]. cbn [fst] in He. apply String.eqb_eq in He. subst n''. exfalso. apply Hn.
        apply list_elem_of_In in Hi. by apply (list_elem_of_fmap_2 fst l (n, d'')).
      * unfold sweep_one. cbn [fst snd]. destruct (refreshed_ d); simpl; [by rewrite lookup_insert_eq|by rewrite lookup_delete_eq].
    + destruct (List.find _ l) as [[]|]; [done|]. by rewrite Hother.
  - rewrite Hs. unfold sweep_one. cbn [fst snd List.filter]. destruct (refreshed_ d); cbn [negb sent set_config]; [done|].
    rewrite fmap_cons. by rewrite <- (assoc_L (++)).
Qed.

Lemma entries_keys {A} (m : gmap string A) : NoDup (entries m).*1.
Proof. rewrite <- (entries_perm m). apply NoDup_fst_map_to_list. Qed.
Lemma entries_find {A} (m : gmap string A) n :
  List.find (λ e, (e.1 =? n)%string) (entries m) = pair n <$> m !! n.
Proof.
  destruct (List.find _ (entries m)) as [[n' x]|] eqn:Ef.
  - apply List.find_some in Ef as [Hi He]. cbn [fst] in He. apply String.eqb_eq in He. subst n'.
    apply list_elem_of_In, elem_of_entries in Hi. by rewrite Hi.
  - destruct (m !! n) as [x|] eqn:Em; [|done]. exfalso. apply elem_of_entries, list_elem_of_In in Em.
    apply (List.find_none _ _ Ef) in Em. cbn [fst] in Em. by rewrite String.eqb_refl in Em.
Qed.

Lemma sweep_lookup c n : config_ (sweep c) !! n =
  d ← config_ c !! n; if refreshed_ d then Some {| refreshed_ := false; regexp_str_ := regexp_str_ d |} else None.
Proof.
  destruct (sweep_entries (entries (config_ c)) c (entries_keys _)) as [Hm _].
  { intros ??. by rewrite elem_of_entries. }
  unfold sweep. rewrite Hm, entries_find. by destruct (config_ c !! n).
Qed.
Lemma sweep_sent c : ∃ ns, sent (sweep c) = sent c ++ (CounterDeleted <$> ns) ∧ NoDup ns ∧
  ∀ n, n ∈ ns ↔ ∃ d, config_ c !! n = Some d ∧ refreshed_ d = false.
Proof.
  destruct (sweep_entries (entries (config_ c)) c (entries_keys _)) as [_ Hs].
  { intros ??. by rewrite elem_of_entries. }
  exists (List.filter (λ e : string * UserDefinedCounterData, negb (refreshed_ e.2)) (entries (config_ c))).*1.
  split; [|split].
  - unfold sweep. rewrite Hs. by rewrite <- list_fmap_compose.
  - clear Hs. pose proof (entries_keys (config_ c)) as Hnd. induction (entries (config_ c)) as [|e l IH]; [constructor|].
    apply NoDup_cons in Hnd as [Hn Hnd]. cbn [List.filter]. destruct (negb (refreshed_ e.2)); [|by apply IH].
    rewrite fmap_cons. constructor; [|by apply IH]. intros (x & Hx & Hin)%list_elem_of_fmap. apply Hn.
    apply list_elem_of_In, filter_In in Hin as [Hin _]. rewrite Hx. apply list_elem_of_fmap_2. by apply list_elem_of_In.
  - intros n. rewrite list_elem_of_fmap. split.
    + intros ([n' d] & -> & Hin). apply list_elem_of_In, filter_In in Hin as [Hin Hr].
      apply list_elem_of_In, elem_of_entries in Hin. exists d. split; [done|]. by apply negb_true_iff.
    + intros (d & Hd & Hr). exists (n, d). split; [done|]. apply list_elem_of_In, filter_In.
      split; [by apply list_elem_of_In, elem_of_entries|]. cbn [snd]. by rewrite Hr.
Qed.

Lemma AddConfig_done name pattern c : regex_compiles pattern = true →
  AddConfig name pattern c =
  Done (set_config (<[name := {| refreshed_ := true; regexp_str_ := pattern |}]> (config_ c)) c).
Proof.
  intros Hp. unfold AddConfig. rewrite Hp. destruct (config_ c !! name) as [d|]; [|done].
  by destruct (String.eqb_spec pattern (regexp_str_ d)) as [->|].
Qed.

Definition valid_stat (p : string * string) : Prop :=
  c_str p.1 = p.1 ∧ c_str p.2 = p.2 ∧ regex_compiles p.2 = true.
Lemma add_stat_done p c : valid_stat p → add_stat c (stat_object p) =
  Done (set_config (<[p.1 := {| refreshed_ := true; regexp_str_ := p.2 |}]> (config_ c)) c).
Proof.
  intros (Hn & Hp & Hc). transitivity (AddConfig (c_str p.1) (c_str p.2) c); [done|].
  rewrite Hn, Hp. by apply AddConfig_done.
Qed.

Lemma pattern_of_snoc n l p : pattern_of n (l ++ [p]) = if (p.1 =? n)%string then Some p.2 else pattern_of n l.
Proof.
  unfold pattern_of. rewrite List.filter_app. simpl. destruct (p.1 =? n)%string; [by rewrite last_snoc|].
  by rewrite app_nil_r.
Qed.

Lemma fold_outcome_app {A S} (f : S → A → outcome S) l1 l2 s :
  fold_outcome f s (l1 ++ l2) = s ← fold_outcome f s l1; fold_outcome f s l2.
Proof. revert s. induction l1 as [|x l1 IH]; intros s; [done|]. simpl. destruct (f s x); simpl; auto. Qed.

Lemma add_stats_done l c : Forall valid_stat l → ∃ c', fold_outcome add_stat c (stat_object <$> l) = Done c' ∧
  sent c' = sent c ∧
  ∀ n, config_ c' !! n = match pattern_of n l with
                         | Some p => Some {| refreshed_ := true; regexp_str_ := p |} | None => config_ c !! n end.
Proof.
  induction l as [|p l IH] using rev_ind; [by exists c|]. rewrite Forall_app, Forall_singleton. intros [Hl Hp].
  destruct (IH Hl) as (c' & Hc' & Hs & Hm). rewrite fmap_app, fold_outcome_app, Hc'. cbn [mbind outcome_bind].
  eexists. split; [change (stat_object <$> [p]) with [stat_object p]; cbn [fold_outcome]; by rewrite (add_stat_done p c' Hp)|]. split; [done|]. intros n. rewrite pattern_of_snoc. simpl.
  destruct (String.eqb_spec p.1 n) as [<-|Hne]; [by rewrite lookup_insert_eq|by rewrite lookup_insert_ne].
Qed.

(** Applying a configuration document leaves exactly the counters it
    names, each with the last pattern it gives the name, and reports as deleted
    exactly those that were there and are not named; a document without
    statistics deletes all of them.  The marks are off again afterwards, so
    that the next document is applied in the same way. *)
Theorem config_applied l c : unmarked c → Forall valid_stat l →
  ∃ c' ns, UDCHandler (config_document l) true c = Done c' ∧ unmarked c' ∧
    (∀ n, regexp_str_ <$> config_ c' !! n = pattern_of n l) ∧
    sent c' = sent c ++ (CounterDeleted <$> ns) ∧ NoDup ns ∧
    (∀ n, n ∈ ns ↔ is_Some (config_ c !! n) ∧ pattern_of n l = None) ∧
    ∃ c'', UDCHandler empty_document true c = Done c'' ∧ config_ c'' = ∅.
Proof.
  intros Hu Hl. destruct (add_stats_done l c Hl) as (c1 & Hc1 & Hs1 & Hm1).
  destruct (sweep_sent c1) as (ns & Hs & Hnd & Hns). exists (sweep c1), ns.
  split; [|split; [|split; [|split; [by rewrite Hs, Hs1|split; [done|split]]]]].
  - transitivity (c ← fold_outcome add_stat c (stat_object <$> l); Done (sweep c)); [done|]. by rewrite Hc1.
  - intros n d. rewrite sweep_lookup. intros (d' & _ & Hd)%bind_Some. destruct (refreshed_ d'); by simplify_eq.
  - intros n. rewrite sweep_lookup, Hm1. destruct (pattern_of n l); [done|].
    destruct (config_ c !! n) as [d|] eqn:E; [|done]. simpl. by rewrite (Hu n d E).
  - intros n. rewrite Hns, Hm1. destruct (pattern_of n l).
    + split; [intros (d & [= <-] & Hd); done|by intros [_ ?]].
    + split; [intros (d & -> & _); by split|]. intros [[d Hd] _]. exists d. split; [done|]. by apply (Hu n).
  - exists (sweep c). split; [done|]. apply map_eq. intros n. rewrite sweep_lookup, lookup_empty.
    destruct (config_ c !! n) as [d|] eqn:E; [|done]. simpl. by rewrite (Hu n d E).
Qed.
End apply.

(** ** Matching a text *)

Section matching.
Context `{RegexSearch}.

Lemma match_entries fuel text l c w : Forall (λ e, advances (regexp_str_ e.2)) l → (String.length text < fuel)%nat →
  ∃ ns, foldl (match_one fuel text) (Some (c, w)) l =
    Some ({| config_ := config_ c; sent := sent c ++ (CounterEvent <$> ns) |}, list_to_set ns ∪ w) ∧
    ∀ n, n ∈ ns ↔ ∃ d cnt, (n, d) ∈ l ∧ SearchPattern fuel (regexp_str_ d) text = Some cnt ∧ cnt ≠ 0.
Proof.
  intros Ha Hf. revert c w. induction Ha as [|[n d] l He _ IH]; intros c w.
  - exists []. split; [|intros ?; split; [by intros ?%elem_of_nil|intros (? & ? & ?%elem_of_nil & _); done]].
    simpl. rewrite app_nil_r, (left_id_L ∅ (∪)). by destruct c.
  - cbn [foldl]. destruct (search_ends fuel (regexp_str_ d) false text 0 He Hf) as [cnt Hc].
    change (SearchPattern fuel (regexp_str_ d) text = Some cnt) in Hc.
    unfold match_one at 2. cbn [mbind option_bind snd fst]. rewrite Hc. cbn [mbind option_bind].
    destruct (Z.eqb_spec cnt 0) as [->|Hne].
    + destruct (IH c w) as (ns & Hns & Hin). exists ns. split; [done|]. intros n'. rewrite Hin. split.
      * intros (d' & cnt & ? & ?). exists d', cnt. split; [by right|done].
      * intros (d' & cnt & [[= -> ->]|Hi]%elem_of_cons & Hs & Hz); [congruence|eauto].
    + destruct (IH {| config_ := config_ c; sent := sent c ++ [CounterEvent n] |} ({[ n ]} ∪ w)) as (ns & Hns & Hin).
      exists (n :: ns). split.
      * rewrite Hns. cbn [config_ sent]. rewrite fmap_cons, <- (assoc_L (++)). do 2 f_equal. set_solver.
      * intros n'. rewrite elem_of_cons, Hin. split.
        -- intros [->|(d' & cnt' & ? & ?)]; [exists d, cnt; split; [by left|done]|exists d', cnt'; split; [by right|done]].
        -- intros (d' & cnt' & [[= -> ->]|Hi]%elem_of_cons & Hs & Hz); [by left|right; eauto].
Qed.

(** The search of a pattern counts its matches and ends when every match
    makes the search advance; a pattern that matches the empty string where the
    search stands never ends, whatever the fuel.  When all patterns advance,
    [MatchFilter] reports an event for exactly the counters whose pattern
    occurs in the text and adds their names to the words. *)
Theorem match_filter_ends text w c :
  (∀ fuel exp b b', regex_search exp false text = Some (b, 0%nat) → regex_search exp true text = Some (b', 0%nat) →
     SearchPattern fuel exp text = None) ∧
  ((∀ n d, config_ c !! n = Some d → advances (regexp_str_ d)) →
   ∃ fuel ns, MatchFilter fuel text w c =
     Some ({| config_ := config_ c; sent := sent c ++ (CounterEvent <$> ns) |}, list_to_set ns ∪ w) ∧
     ∀ n, n ∈ ns ↔ ∃ d cnt, config_ c !! n = Some d ∧ SearchPattern fuel (regexp_str_ d) text = Some cnt ∧ cnt ≠ 0).
Proof.
  split; [intros fuel exp b b'; apply search_stuck|]. intros Ha. exists (S (String.length text)).
  destruct (match_entries (S (String.length text)) text (entries (config_ c)) c w) as (ns & Hm & Hns); [|lia|].
  - apply Forall_forall. intros [n d] Hin%elem_of_entries. by apply (Ha n).
  - exists ns. split; [done|]. intros n. rewrite Hns. by setoid_rewrite elem_of_entries.
Qed.
End matching.

(** ** Examples *)

Module CounterExamples.
(** Patterns that are plain texts of one character, and one that matches the
    empty string. *)
Definition regex : Regex := {| regex_compiles p := negb (p =? "(")%string; regex_match p s := (p =? s)%string |}.
#[local] Existing Instance regex.
Definition find_char (p : string) (again : bool) (text : string) : option (nat * nat) :=
  match p with
  | String a EmptyString =>
      (λ i, (i, S i)) <$> String.index 0 p text
  | _ => Some (0%nat, 0%nat)
  end.
Lemma find_char_bounds p again text b e : find_char p again text = Some (b, e) →
  (b <= e)%nat ∧ (e <= String.length text)%nat.
Proof.
  unfold find_char. destruct p as [|a [|? ?]]; [intros [= <- <-]; lia| |intros [= <- <-]; lia].
  destruct (String.index 0 (String a EmptyString) text) as [i|] eqn:Ei; [|done]. intros [= <- <-].
  split; [lia|]. apply String.index_correct1 in Ei.
  destruct (le_lt_dec (S i) (String.length text)) as [|Hlt]; [done|]. exfalso. revert Ei.
  assert (String.substring i (String.length (String a EmptyString)) text = EmptyString ∨ (i < String.length text)%nat) as [->|?]; [|done|lia].
  clear Hlt. revert i. induction text as [|c text IH]; intros i; [left; by destruct i|].
  destruct i as [|i]; [right; simpl; lia|]. destruct (IH i) as [Hs|Hs]; [by left|right; simpl; lia].
Qed.
Definition searcher : RegexSearch := {| regex_search := find_char; regex_search_bounds := find_char_bounds |}.
#[local] Existing Instance searcher.

Definition old : counters := {|
  config_ := <["drops"%string := {| refreshed_ := false; regexp_str_ := "d" |}]>
    {["errors"%string := {| refreshed_ := false; regexp_str_ := "e" |}]};
  sent := [] |}.
Lemma old_lookup n d : config_ old !! n = Some d →
  refreshed_ d = false ∧ (regexp_str_ d = "d"%string ∨ regexp_str_ d = "e"%string).
Proof.
  unfold old. cbn [config_]. intros [[<- <-]|[_ [_ <-]%lookup_singleton_Some]]%lookup_insert_Some; auto.
Qed.
Definition stats : list (string * string) := [("errors", "x"); ("new", "n"); ("errors", "y")]%string.
Lemma old_unmarked : unmarked old.
Proof. by intros n d [? _]%old_lookup. Qed.
Lemma config_applied_witness :
  pattern_of "errors" stats = Some "y"%string ∧
  ∃ c' ns, UDCHandler (config_document stats) true old = Done c' ∧ unmarked c' ∧
    (∀ n, regexp_str_ <$> config_ c' !! n = pattern_of n stats) ∧
    sent c' = [] ++ (CounterDeleted <$> ns) ∧ NoDup ns ∧
    (∀ n, n ∈ ns ↔ is_Some (config_ old !! n) ∧ pattern_of n stats = None) ∧
    ∃ c'', UDCHandler empty_document true old = Done c'' ∧ config_ c'' = ∅.
Proof.
  split; [by vm_compute|]. apply (config_applied stats old old_unmarked). by repeat constructor.
Defined.

Lemma match_filter_ends_witness :
  (∀ fuel, SearchPattern fuel "()" "ab" = None) ∧
  ∃ fuel ns, MatchFilter fuel "red" ∅ old =
    Some ({| config_ := config_ old; sent := [] ++ (CounterEvent <$> ns) |}, list_to_set ns ∪ ∅) ∧
    ∀ n, n ∈ ns ↔ ∃ d cnt, config_ old !! n = Some d ∧ SearchPattern fuel (regexp_str_ d) "red" = Some cnt ∧ cnt ≠ 0.
Proof.
  split.
  - intros fuel. exact (proj1 (match_filter_ends "ab" ∅ old) fuel "()"%string 0%nat 0%nat eq_refl eq_refl).
  - apply (proj2 (match_filter_ends "red" ∅ old)). intros n d Hn again text b e Hs.
    apply old_lookup in Hn as [_ Hd].
    cbn [regex_search searcher] in Hs. unfold find_char in Hs.
    destruct Hd as [Hd|Hd]; rewrite Hd in Hs; apply fmap_Some in Hs as (i & _ & [= _ ->]); lia.
Defined.
End CounterExamples.
