(* ===== verification/SyslogNetworks.v ===== *)
(** * Networks of the sites that send structured syslog messages

    Of [contrail-collector/structured_syslog_config.cc] and
    [structured_syslog_config.h] the networks: a configuration gives the address
    ranges of the sites in a VPN, which are kept in a vector sorted by their
    first address, and the site a destination address belongs to is looked up
    in them.  Of several ranges with the address the smallest one counts. *)
From Stdlib Require Import Ascii.
From stdpp Require Import base tactics list strings gmap pretty sorting.
From Stdlib Require Import ZArith Lia Sorted Permutation.
From S2P Require Import Prelude.
From S2P Require Import CppString.
Local Open Scope Z_scope.

(** ** Addresses *)

(** [%d] of [sscanf], which reads a [long] and stores an [int]. *)
Fixpoint skip_digits (s : string) : string :=
  match s with
  | String c s' => if is_digit c then skip_digits s' else s
  | EmptyString => EmptyString
  end.
Definition scan_int (s : string) : option (Z * string) :=
  let s := skip_spaces s in
  let '(neg, s) := match s with
                   | String "-"%char s' => (true, s')
                   | String "+"%char s' => (false, s')
                   | _ => (false, s)
                   end in
  match s with
  | String c _ =>
      if is_digit c then
        let v := digits_val s 0 in
        Some (i32 (Z.max (- 2 ^ 63) (Z.min (2 ^ 63 - 1) (if neg : bool then - v else v))), skip_digits s)
      else None
  | EmptyString => None
  end.
Definition scan_dot (s : string) : option string :=
  match s with String "."%char s' => Some s' | _ => None end.

(** [IPToUInt]. *)
Definition scan_ip (s : string) : option (Z * Z * Z * Z) :=
  '(a, s) ← scan_int s; s ← scan_dot s;
  '(b, s) ← scan_int s; s ← scan_dot s;
  '(c, s) ← scan_int s; s ← scan_dot s;
  '(d, _) ← scan_int s; Some (a, b, c, d).
Definition IPToUInt (ip : string) : Z :=
  match scan_ip (c_str ip) with
  | Some (a, b, c, d) =>
      Z.lor (Z.lor (Z.lor (u32 (Z.shiftl a 24)) (u32 (Z.shiftl b 16))) (u32 (Z.shiftl c 8))) (u32 d)
  | None => 0
  end.

(** [split_into_vector]: a [getline] loop, so that an empty piece at the end is
    left out. *)
Fixpoint pieces (str : string) (delimiter : ascii) : string * list string :=
  match str with
  | EmptyString => (EmptyString, [])
  | String a s =>
      let '(p, l) := pieces s delimiter in
      if (a =? delimiter)%char then (EmptyString, p :: l) else (String a p, l)
  end.
Definition split_into_vector (str : string) (delimiter : ascii) : list string :=
  let l := (pieces str delimiter).1 :: (pieces str delimiter).2 in
  match last l with Some EmptyString => removelast l | _ => l end.

(** ** Networks *)

Record IPNetwork := { address_begin : Z; address_end : Z; net_id : string }.
Definition IPNetwork_ltb (a b : IPNetwork) : bool := address_begin a <? address_begin b.
Abbreviation IPNetworks := (list IPNetwork).
Abbreviation IPNetworks_map := (gmap string IPNetworks).

(** [std::upper_bound] of a sorted vector, and [insert] at a position. *)
Fixpoint upper_bound {A} (ltb : A → A → bool) (l : list A) (v : A) : nat :=
  match l with
  | [] => 0
  | x :: l' => if ltb v x then 0 else S (upper_bound ltb l' v)
  end.
Definition vector_insert {A} (n : nat) (x : A) (l : list A) : list A := take n l ++ x :: drop n l.

(** [AddNetwork]. *)
Definition UINT32_MAX : Z := 2 ^ 32 - 1.
Definition network_of (network mask location : string) : IPNetwork :=
  let mask_addr := IPToUInt mask in
  let net_lower := Z.land (IPToUInt network) mask_addr in
  {| address_begin := net_lower; address_end := Z.lor net_lower (Z.lxor mask_addr UINT32_MAX);
     net_id := location |}.
Definition add_network (net : IPNetwork) (l : option IPNetworks) : IPNetworks :=
  match l with
  | Some l => vector_insert (upper_bound IPNetwork_ltb l net) net l
  | None => [net]
  end.
Definition AddNetwork (key network mask location : string) (m : IPNetworks_map) : IPNetworks_map :=
  <[key := add_network (network_of network mask location) (m !! key)]> m.

(** [RefreshNetworksMap]: the indexes of the networks of the location, and the
    loop that erases them, the last one first. *)
Definition of_location (location : string) (n : IPNetwork) : bool := (location =? net_id n)%string.
Fixpoint indexes_to_be_deleted (location : string) (i : nat) (l : IPNetworks) : list nat :=
  match l with
  | [] => []
  | n :: l' => (if of_location location n then [i] else []) ++ indexes_to_be_deleted location (S i) l'
  end.
Definition refresh_networks (location : string) (l : IPNetworks) : IPNetworks :=
  foldr delete l (indexes_to_be_deleted location 0 l).
Definition RefreshNetworksMap (location : string) (m : IPNetworks_map) : IPNetworks_map :=
  refresh_networks location <$> m.

(** [FindNetwork]: the loop from the last network that begins at the address or
    before it down to the first, with the network found and its range. *)
Definition net_range (n : IPNetwork) : Z := u32 (address_end n - address_begin n).
Definition contains (addr : Z) (n : IPNetwork) : bool :=
  (address_begin n <=? addr) && (addr <=? address_end n).
Definition find_step (addr : Z) (src_location : string) (acc : IPNetwork * Z) (n : IPNetwork) : IPNetwork * Z :=
  if contains addr n then
    if net_range n <? acc.2 then
      if negb (net_id n =? src_location)%string then (n, net_range n) else acc
    else acc
  else acc.
Definition unknown_network : IPNetwork := {| address_begin := 0; address_end := 0; net_id := EmptyString |}.
Definition FindNetwork (ip key src_location : string) (m : IPNetworks_map) : string :=
  let addr := IPToUInt ip in
  match m !! key with
  | Some l =>
      let idx := upper_bound IPNetwork_ltb l {| address_begin := addr; address_end := 0; net_id := ip |} in
      if (idx <=? length l)%nat && negb (idx =? 0)%nat then
        net_id (foldl (find_step addr src_location) (unknown_network, UINT32_MAX) (reverse (take idx l))).1
      else EmptyString
  | None => EmptyString
  end.

(** ** Networks stay sorted *)

Definition begins_before (a b : IPNetwork) : Prop := address_begin a <= address_begin b.
Abbreviation networks_sorted := (StronglySorted begins_before).
Definition map_sorted (m : IPNetworks_map) : Prop := map_Forall (λ _ l, networks_sorted l) m.

Lemma upper_bound_split v l : networks_sorted l →
  let idx := upper_bound IPNetwork_ltb l v in
  (idx <= length l)%nat ∧ Forall (λ x, begins_before x v) (take idx l) ∧
  Forall (λ x, address_begin v < address_begin x) (drop idx l).
Proof.
  induction 1 as [|x l Hs IH Hx]; [done|]. cbn [upper_bound].
  destruct (IPNetwork_ltb v x) eqn:E; unfold IPNetwork_ltb in E; reflect_bools.
  - split; [cbn; lia|]. split; [constructor|]. constructor; [done|].
    eapply Forall_impl; [exact Hx|]. unfold begins_before. intros y ?; cbn in *; lia.
  - destruct IH as (Hl & Hb & Ha). split; [cbn; lia|]. split; [|done]. constructor; [done|exact Hb].
Qed.

Lemma vector_insert_perm {A} n (x : A) l : Permutation (vector_insert n x l) (x :: l).
Proof. unfold vector_insert. by rewrite <- Permutation_middle, take_drop. Qed.

Lemma add_network_perm net l : Permutation (add_network net l) (net :: default [] l).
Proof. destruct l; [apply vector_insert_perm|done]. Qed.

Lemma add_network_sorted net l : networks_sorted (default [] l) → networks_sorted (add_network net l).
Proof.
  destruct l as [l|]; simpl; [|by repeat constructor].
  intros Hs. destruct (upper_bound_split net l Hs) as (_ & Hb & Ha). unfold vector_insert.
  set (idx := upper_bound _ _ _) in *. rewrite <- (take_drop idx l) in Hs.
  apply StronglySorted_app in Hs as (Hm & Ht & Hd). apply StronglySorted_app. split_and!; [|done|].
  - intros x1 x2 H1 [->|H2]%elem_of_cons; [by eapply Forall_forall in Hb|by apply Hm].
  - constructor; [done|]. eapply Forall_impl; [exact Ha|]. unfold begins_before. intros x ?; cbn in *; lia.
Qed.

Lemma StronglySorted_filter_list {A} (R : A → A → Prop) (P : A → Prop) `{∀ x, Decision (P x)} l :
  StronglySorted R l → StronglySorted R (filter P l).
Proof.
  induction 1 as [|x l Hs IH Hx]; [constructor|]. rewrite filter_cons. case_decide; [|done].
  constructor; [done|]. apply Forall_forall. intros y [_ Hy]%list_elem_of_filter. by eapply Forall_forall in Hx.
Qed.

(** The erasing loop keeps the networks of other locations. *)
Lemma erase_from location pre l :
  foldr delete (pre ++ l) (indexes_to_be_deleted location (length pre) l) =
  pre ++ filter (λ n, location ≠ net_id n) l.
Proof.
  revert pre. induction l as [|n l IH]; intros pre; [done|]. cbn [indexes_to_be_deleted].
  specialize (IH (pre ++ [n])). rewrite List.length_app, Nat.add_1_r, <- !(assoc_L (++)) in IH.
  cbn [app] in IH. rewrite filter_cons. unfold of_location.
  destruct (String.eqb_spec location (net_id n)) as [->|Hn]; cbn [app foldr].
  - rewrite decide_False by (intros Hne; by apply Hne). rewrite IH, delete_middle. done.
  - rewrite decide_True by done. exact IH.
Qed.
Lemma refresh_filter location l : refresh_networks location l = filter (λ n, location ≠ net_id n) l.
Proof. exact (erase_from location [] l). Qed.

Lemma AddNetwork_sorted key n mask location m : map_sorted m → map_sorted (AddNetwork key n mask location m).
Proof.
  intros Hm. apply map_Forall_insert_2; [|done]. apply add_network_sorted.
  destruct (m !! key) as [l|] eqn:E; [by apply (Hm key)|constructor].
Qed.
Lemma RefreshNetworksMap_sorted location m : map_sorted m → map_sorted (RefreshNetworksMap location m).
Proof.
  intros Hm. apply map_Forall_fmap. intros k l Hl. cbn. rewrite refresh_filter.
  by apply StronglySorted_filter_list, (Hm k).
Qed.

(** ** The network found *)

Lemma filter_none_kept {A} (P : A → Prop) `{∀ x, Decision (P x)} l : Forall (λ x, ¬ P x) l → filter P l = [].
Proof. induction 1 as [|x l Hx _ IH]; [done|]. by rewrite filter_cons, decide_False. Qed.

(** What the lookup chooses from: the networks with the address that are not of
    the source's own location. *)
Definition eligible (addr : Z) (src_location : string) (n : IPNetwork) : Prop :=
  contains addr n = true ∧ net_id n ≠ src_location.
#[export] Instance eligible_dec addr src n : Decision (eligible addr src n).
Proof. unfold eligible. apply _. Defined.

(** The first network of the smallest range below a bound. *)
Definition smallest (l : IPNetworks) (bound : Z) (r : option IPNetwork) : Prop :=
  match r with
  | None => ∀ n, n ∈ l → bound <= net_range n
  | Some n => n ∈ l ∧ net_range n < bound ∧ ∀ n', n' ∈ l → net_range n <= net_range n'
  end.

Lemma find_step_spec addr src acc n :
  find_step addr src acc n = if decide (eligible addr src n ∧ net_range n < acc.2) then (n, net_range n) else acc.
Proof.
  unfold find_step. case_decide as Hd.
  - destruct Hd as [[-> Hs] Hr]. rewrite (proj2 (Z.ltb_lt _ _) Hr).
    by destruct (String.eqb_spec (net_id n) src).
  - destruct (contains addr n) eqn:Ec; [|done]. destruct (Z.ltb_spec (net_range n) acc.2); [|done].
    destruct (String.eqb_spec (net_id n) src); [done|]. by destruct Hd.
Qed.

Lemma find_fold addr src l found bound : ∃ r, smallest (filter (eligible addr src) l) bound r ∧
  foldl (find_step addr src) (found, bound) l =
  match r with Some n => (n, net_range n) | None => (found, bound) end.
Proof.
  induction l as [|x l (r & Hr & E)] using rev_ind.
  - exists None. split; [by intros n ?%not_elem_of_nil|done].
  - rewrite foldl_snoc, E, find_step_spec, filter_app, filter_cons, filter_nil. clear E.
    destruct (decide (eligible addr src x)) as [He|He]; [|exists r; rewrite app_nil_r; split; [done|by rewrite decide_False by naive_solver]].
    destruct r as [n|]; cbn [smallest snd] in *.
    + destruct Hr as (Hn & Hb & Hmin). destruct (decide (net_range x < net_range n)).
      * exists (Some x). rewrite decide_True by done. split; [|done]. split; [set_solver|]. split; [lia|].
        intros n' [Hn'|Hn'%list_elem_of_singleton]%elem_of_app; [specialize (Hmin _ Hn'); lia|by subst].
      * exists (Some n). rewrite decide_False by naive_solver. split; [|done]. split; [set_solver|]. split; [done|].
        intros n' [Hn'|Hn'%list_elem_of_singleton]%elem_of_app; [by apply Hmin|subst; lia].
    + destruct (decide (net_range x < bound)).
      * exists (Some x). rewrite decide_True by done. split; [|done]. split; [set_solver|]. split; [done|].
        intros n' [Hn'|Hn'%list_elem_of_singleton]%elem_of_app; [specialize (Hr _ Hn'); lia|by subst].
      * exists None. rewrite decide_False by naive_solver. split; [|done].
        intros n' [Hn'|Hn'%list_elem_of_singleton]%elem_of_app; [by apply Hr|subst; lia].
Qed.

Lemma smallest_perm l l' bound r : Permutation l l' → smallest l bound r → smallest l' bound r.
Proof.
  intros Hp. destruct r as [n|]; cbn [smallest].
  - intros (Hn & Hb & Hm). rewrite <- Hp at 1. split_and!; [done|done|]. intros n' Hn'. apply Hm. by rewrite Hp.
  - intros Hm n Hn. apply Hm. by rewrite Hp.
Qed.

(** Only networks that begin after the address are left out by the search. *)
Lemma FindNetwork_smallest ip key src m : map_sorted m → ∃ r,
  smallest (filter (eligible (IPToUInt ip) src) (default [] (m !! key))) UINT32_MAX r ∧
  FindNetwork ip key src m = match r with Some n => net_id n | None => EmptyString end.
Proof.
  intros Hm. unfold FindNetwork. destruct (m !! key) as [l|] eqn:E; cbn [default from_option id];
    [|exists None; split; [by intros n ?%not_elem_of_nil|done]].
  set (v := {| address_begin := IPToUInt ip; address_end := 0; net_id := ip |}).
  destruct (upper_bound_split v l (Hm key l E)) as (Hle & _ & Ha). cbn zeta.
  set (idx := upper_bound IPNetwork_ltb l v) in *.
  assert (filter (eligible (IPToUInt ip) src) l = filter (eligible (IPToUInt ip) src) (take idx l)) as ->.
  { rewrite <- (take_drop idx l) at 1. rewrite filter_app. rewrite <- (app_nil_r (filter _ (take idx l))) at 2. f_equal.
    apply filter_none_kept. eapply Forall_impl; [exact Ha|]. intros n Hn [Hc _].
    unfold contains in Hc. reflect_bools. cbn in Hn. lia. }
  destruct (Nat.leb_spec idx (length l)); [|lia]. cbn [andb].
  destruct (Nat.eqb_spec idx 0) as [->|]; cbn [negb]; [exists None; split; [by intros n ?%not_elem_of_nil|done]|].
  destruct (find_fold (IPToUInt ip) src (reverse (take idx l)) unknown_network UINT32_MAX) as (r & Hr & ->).
  exists r. split; [|by destruct r]. eapply smallest_perm; [|exact Hr]. by rewrite reverse_Permutation.
Qed.

(** ** Addresses in dotted notation *)

Lemma digits_val_app s t acc : all_digits s = true →
  match t with String c _ => is_digit c = false | EmptyString => True end →
  digits_val (s +:+ t) acc = digits_val s acc ∧ skip_digits (s +:+ t) = t.
Proof.
  intros Hs Ht. revert acc Hs. induction s as [|c s IH]; intros acc.
  - intros _. destruct t as [|c t]; [done|]. simpl. by rewrite Ht.
  - cbn [all_digits]. intros [Hc Hs]%andb_true_iff. simpl. rewrite Hc. by apply IH.
Qed.

Lemma pretty_nonempty n : 0 <= n → pretty n ≠ EmptyString.
Proof.
  intros Hn E. pose proof (digits_val_pretty n Hn) as H0. rewrite E in H0. cbn in H0. subst n. by vm_compute in E.
Qed.

Lemma scan_int_pretty n t : 0 <= n < 2 ^ 31 →
  match t with String c _ => is_digit c = false | EmptyString => True end →
  scan_int (pretty n +:+ t) = Some (n, t).
Proof.
  intros Hn Ht. pose proof (all_digits_pretty n ltac:(lia)) as Hd.
  destruct (digits_val_app (pretty n) t 0 Hd Ht) as [Hv Hr]. rewrite digits_val_pretty in Hv by lia.
  destruct (pretty n) as [|c s] eqn:E.
  { by apply pretty_nonempty in E; [|lia]. }
  cbn [all_digits] in Hd. apply andb_true_iff in Hd as [Hc Hs].
  destruct (digit_not_space_sign c Hc) as (Hsp & Hm & Hp).
  unfold scan_int. cbn [String.append] in *. change (String c s +:+ t) with (String c (s +:+ t)) in *.
  cbn [skip_spaces]. rewrite Hsp.
  assert (match String c (s +:+ t) with
    | String "-"%char s' => (true, s') | String "+"%char s' => (false, s') | _ => (false, String c (s +:+ t)) end
    = (false, String c (s +:+ t))) as ->.
  { destruct c as [[] [] [] [] [] [] [] []]; try done; congruence. }
  rewrite Hc, Hv, Hr. do 2 f_equal. unfold i32. rewrite Z.min_r, Z.max_r by lia. rewrite Z.mod_small; lia.
Qed.

(** An address of 32 bits in dotted notation. *)
Definition byte_of (x : Z) (i : Z) : Z := x / 2 ^ (8 * i) mod 2 ^ 8.
Definition dotted_ip (x : Z) : string :=
  pretty (byte_of x 3) +:+ String "." (pretty (byte_of x 2) +:+ String "." (pretty (byte_of x 1) +:+ String "." (pretty (byte_of x 0)))).

Lemma bit_above d k n : 0 <= d < 2 ^ k → 0 <= k <= n → Z.testbit d n = false.
Proof.
  intros Hd Hn. rewrite Z.testbit_odd, Z.shiftr_div_pow2, Z.div_small; [done| |lia].
  split; [lia|]. apply Z.lt_le_trans with (2 ^ k); [lia|apply Z.pow_le_mono_r; lia].
Qed.
Lemma lor_low x k d : 0 <= k → 0 <= d < 2 ^ k → Z.lor (x * 2 ^ k) d = x * 2 ^ k + d.
Proof.
  intros Hk Hd. assert (Z.land (x * 2 ^ k) d = 0) as Hl.
  { rewrite <- Z.shiftl_mul_pow2 by done. apply Z.bits_inj'. intros n Hn.
    rewrite Z.land_spec, Z.bits_0, Z.shiftl_spec by done. destruct (Z.ltb_spec n k).
    - by rewrite Z.testbit_neg_r by lia.
    - rewrite (bit_above d k n) by lia. apply andb_false_r. }
  rewrite <- Z.lxor_lor by done. symmetry. by apply Z.add_nocarry_lxor.
Qed.

Lemma string_app_nil s : s +:+ EmptyString = s.
Proof. induction s as [|c s IH]; [done|]. exact (f_equal (String c) IH). Qed.

Lemma all_digits_c_str s t : all_digits s = true → c_str (s +:+ t) = s +:+ c_str t.
Proof.
  induction s as [|c s IH]; [done|]. cbn [all_digits]. intros [Hc Hs]%andb_true_iff.
  change (String c s +:+ t) with (String c (s +:+ t)). cbn [c_str].
  destruct (Nat.eqb_spec (nat_of_ascii c) 0) as [E|]; [|by rewrite IH].
  unfold is_digit in Hc. rewrite E in Hc. done.
Qed.

Lemma byte_bounds x i : 0 <= byte_of x i < 2 ^ 8.
Proof. apply Z.mod_pos_bound. lia. Qed.

Lemma IPToUInt_dotted x : is_u32 x → IPToUInt (dotted_ip x) = x.
Proof.
  intros Hx. unfold IPToUInt, dotted_ip.
  pose proof (byte_bounds x 3). pose proof (byte_bounds x 2). pose proof (byte_bounds x 1). pose proof (byte_bounds x 0).
  assert (c_str (dotted_ip x) = dotted_ip x) as Hc.
  { unfold dotted_ip. do 3 (rewrite all_digits_c_str by (apply all_digits_pretty; lia); f_equal; cbn [c_str nat_of_ascii]; f_equal).
    rewrite <- (string_app_nil (pretty (byte_of x 0))).
    rewrite all_digits_c_str by (apply all_digits_pretty; lia). done. }
  fold (dotted_ip x). rewrite Hc. unfold scan_ip, dotted_ip.
  rewrite scan_int_pretty by (done || lia). cbn [mbind option_bind scan_dot].
  rewrite scan_int_pretty by (done || lia). cbn [mbind option_bind scan_dot].
  rewrite scan_int_pretty by (done || lia). cbn [mbind option_bind scan_dot].
  rewrite <- (string_app_nil (pretty (byte_of x 0))).
  rewrite scan_int_pretty by (done || lia). cbn [mbind option_bind].
  rewrite !Z.shiftl_mul_pow2 by lia. rewrite !u32_small by (unfold is_u32; lia).
  rewrite (lor_low (byte_of x 3) 24 (byte_of x 2 * 2 ^ 16)) by lia.
  replace (byte_of x 3 * 2 ^ 24 + byte_of x 2 * 2 ^ 16) with ((byte_of x 3 * 2 ^ 8 + byte_of x 2) * 2 ^ 16) by lia.
  rewrite lor_low by lia.
  replace ((byte_of x 3 * 2 ^ 8 + byte_of x 2) * 2 ^ 16 + byte_of x 1 * 2 ^ 8)
    with ((byte_of x 3 * 2 ^ 16 + byte_of x 2 * 2 ^ 8 + byte_of x 1) * 2 ^ 8) by lia.
  rewrite lor_low by lia. unfold byte_of, is_u32 in *. cbn [Z.mul Pos.mul].
  change (2 ^ 8) with 256 in *. change (2 ^ 16) with 65536 in *. change (2 ^ 24) with 16777216 in *. 
  change (2 ^ 0) with 1. change (2 ^ 32) with 4294967296 in *.
  Z.to_euclidean_division_equations. lia.
Qed.

(** ** Networks by their prefix *)

(** The mask that leaves [k] bits to the hosts. *)
Definition netmask (k : Z) : Z := 2 ^ 32 - 2 ^ k.

Lemma netmask_bits k n : 0 <= k <= 32 → 0 <= n →
  Z.testbit (netmask k) n = (k <=? n) && (n <? 32).
Proof.
  intros Hk Hn. assert (netmask k = Z.shiftl (Z.ones (32 - k)) k) as ->.
  { unfold netmask. rewrite Z.shiftl_mul_pow2, Z.ones_equiv by lia.
    assert (2 ^ 32 = 2 ^ (32 - k) * 2 ^ k) as -> by (rewrite <- Z.pow_add_r by lia; f_equal; lia). unfold Z.pred. ring. }
  rewrite Z.shiftl_spec by done. destruct (Z.leb_spec k n).
  - rewrite Z.testbit_ones by lia. destruct (Z.leb_spec 0 (n - k)); [|lia].
    destruct (Z.ltb_spec n 32), (Z.ltb_spec (n - k) (32 - k)); done || lia.
  - by rewrite Z.testbit_neg_r by lia.
Qed.

Lemma land_netmask x k : is_u32 x → 0 <= k <= 32 → Z.land x (netmask k) = x / 2 ^ k * 2 ^ k.
Proof.
  intros Hx Hk. rewrite <- Z.shiftr_div_pow2, <- Z.shiftl_mul_pow2 by lia.
  apply Z.bits_inj'. intros n Hn. rewrite Z.land_spec, netmask_bits, Z.shiftl_spec by done.
  destruct (Z.leb_spec k n).
  - rewrite Z.shiftr_spec by lia. replace (n - k + k) with n by lia.
    cbn [andb]. destruct (Z.ltb_spec n 32); [by rewrite andb_true_r|].
    rewrite (bit_above x 32 n) by (done || lia). done.
  - rewrite (Z.testbit_neg_r _ (n - k)) by lia. apply andb_false_r.
Qed.

Lemma netmask_hosts k : 0 <= k <= 32 → Z.lxor (netmask k) UINT32_MAX = 2 ^ k - 1.
Proof.
  intros Hk. replace (2 ^ k - 1) with (Z.ones k) by (rewrite Z.ones_equiv; lia).
  change UINT32_MAX with (Z.ones 32). apply Z.bits_inj'. intros n Hn.
  rewrite Z.lxor_spec, netmask_bits, !Z.testbit_ones by lia.
  destruct (Z.leb_spec 0 n), (Z.leb_spec k n), (Z.ltb_spec n 32), (Z.ltb_spec n k); done || lia.
Qed.

Lemma network_of_prefix base k location : is_u32 base → 0 <= k <= 32 →
  network_of (dotted_ip base) (dotted_ip (netmask k)) location =
  {| address_begin := base / 2 ^ k * 2 ^ k; address_end := base / 2 ^ k * 2 ^ k + (2 ^ k - 1);
     net_id := location |}.
Proof.
  intros Hb Hk. assert (0 < 2 ^ k <= 2 ^ 32) as Hp by (split; [lia|apply Z.pow_le_mono_r; lia]).
  unfold network_of. rewrite !IPToUInt_dotted by (done || unfold is_u32, netmask; lia).
  rewrite land_netmask, netmask_hosts, lor_low by (done || lia). done.
Qed.

(** A network as it is written: its base, the bits left to its hosts and its
    location. *)
Record prefix := { px_base : Z; px_bits : Z; px_location : string }.
Definition prefix_valid (p : prefix) : Prop := is_u32 (px_base p) ∧ 0 <= px_bits p <= 32.
Definition prefix_network (p : prefix) : IPNetwork :=
  network_of (dotted_ip (px_base p)) (dotted_ip (netmask (px_bits p))) (px_location p).
(** It has the address, and is not the source's own. *)
Definition in_prefix (addr : Z) (src : string) (p : prefix) : Prop :=
  px_base p / 2 ^ px_bits p = addr / 2 ^ px_bits p ∧ px_location p ≠ src.
#[export] Instance in_prefix_dec addr src p : Decision (in_prefix addr src p).
Proof. unfold in_prefix. apply _. Defined.

Lemma eligible_prefix addr src p : prefix_valid p → is_u32 addr →
  eligible addr src (prefix_network p) ↔ in_prefix addr src p.
Proof.
  intros [Hb Hk] Ha. unfold eligible, in_prefix, prefix_network, contains. rewrite network_of_prefix by done. cbn.
  assert (0 < 2 ^ px_bits p) as Hp by (apply Z.pow_pos_nonneg; lia).
  rewrite andb_true_iff, !Z.leb_le. apply and_iff_compat_r.
  pose proof (Z.div_mod addr (2 ^ px_bits p) ltac:(lia)). pose proof (Z.mod_pos_bound addr _ Hp). split; [nia|].
  intros ->. nia.
Qed.

Lemma prefix_range p : prefix_valid p → net_range (prefix_network p) = 2 ^ px_bits p - 1.
Proof.
  intros [Hb Hk]. unfold net_range, prefix_network. rewrite network_of_prefix by done. cbn.
  assert (0 < 2 ^ px_bits p <= 2 ^ 32) by (split; [lia|apply Z.pow_le_mono_r; lia]).
  rewrite u32_small; [lia|unfold is_u32; lia].
Qed.

Definition AddPrefix (key : string) (m : IPNetworks_map) (p : prefix) : IPNetworks_map :=
  AddNetwork key (dotted_ip (px_base p)) (dotted_ip (netmask (px_bits p))) (px_location p) m.

Lemma AddPrefixes key l m : map_sorted m →
  map_sorted (foldl (AddPrefix key) m l) ∧
  Permutation (default [] (foldl (AddPrefix key) m l !! key)) (default [] (m !! key) ++ (prefix_network <$> l)).
Proof.
  intros Hm. induction l as [|p l [IHs IHp]] using rev_ind; [by rewrite app_nil_r|].
  rewrite foldl_snoc. unfold AddPrefix at 1 3. split; [by apply AddNetwork_sorted|].
  unfold AddNetwork. rewrite lookup_insert_eq. cbn [default from_option id].
  rewrite add_network_perm, IHp, fmap_app. rewrite (assoc_L (++)). apply Permutation_cons_append.
Qed.

(** C30.  Whatever networks are added, in whatever order, the site found for an
    address is that of the network with the longest prefix of the address,
    leaving out the networks of the source's own site; a network of all
    addresses is never found. *)
Theorem longest_prefix_found key l addr src : Forall prefix_valid l → is_u32 addr →
  let m := foldl (AddPrefix key) ∅ l in
  let matching := filter (λ p, in_prefix addr src p ∧ px_bits p < 32) l in
  (matching = [] ∧ FindNetwork (dotted_ip addr) key src m = EmptyString) ∨
  (∃ p, p ∈ matching ∧ FindNetwork (dotted_ip addr) key src m = px_location p ∧
        ∀ p', p' ∈ matching → px_bits p <= px_bits p').
Proof.
  intros Hl Ha. cbn zeta. destruct (AddPrefixes key l ∅ (map_Forall_empty _)) as [Hs Hp].
  destruct (FindNetwork_smallest (dotted_ip addr) key src _ Hs) as (r & Hr & ->).
  rewrite IPToUInt_dotted in Hr by done. apply (smallest_perm _ (filter (eligible addr src) (prefix_network <$> l))) in Hr;
    [|by rewrite Hp]. clear Hs Hp. rewrite Forall_forall in Hl.
  assert (∀ p, p ∈ l → net_range (prefix_network p) < UINT32_MAX ↔ px_bits p < 32) as Hrange.
  { intros p Hin. destruct (Hl p Hin) as [_ Hk]. rewrite prefix_range by auto. change UINT32_MAX with (2 ^ 32 - 1).
    rewrite <- Z.sub_lt_mono_r. symmetry. apply Z.pow_lt_mono_r_iff; lia. }
  destruct r as [n|]; cbn [smallest] in Hr.
  - right. destruct Hr as ([He (p & -> & Hin)%list_elem_of_fmap]%list_elem_of_filter & Hb & Hmin).
    exists p. split_and!.
    + apply list_elem_of_filter. split; [|done]. split; [apply eligible_prefix; auto|by apply Hrange].
    + unfold prefix_network. destruct (Hl p Hin). by rewrite network_of_prefix.
    + intros p' [[Hp' _] Hin']%list_elem_of_filter.
      specialize (Hmin (prefix_network p')). rewrite !prefix_range in Hmin by auto.
      destruct (Hl p Hin) as [_ Hk]. destruct (Hl p' Hin') as [_ Hk'].
      apply (Z.pow_le_mono_r_iff 2); [lia..|]. enough (2 ^ px_bits p - 1 <= 2 ^ px_bits p' - 1) by lia.
      apply Hmin, list_elem_of_filter. split; [apply eligible_prefix; auto|]. by apply list_elem_of_fmap_2.
  - left. split; [|done]. apply filter_none_kept, Forall_forall. intros p Hin [Hp Hk].
    apply Hrange in Hk; [|done]. specialize (Hr (prefix_network p)).
    enough (UINT32_MAX <= net_range (prefix_network p)) by lia.
    apply Hr, list_elem_of_filter. split; [apply eligible_prefix; auto|]. by apply list_elem_of_fmap_2.
Qed.

(** ** Examples *)

Module NetworkExamples.
Definition site (base bits : Z) (location : string) : prefix := {| px_base := base; px_bits := bits; px_location := location |}.
(** 10.0.0.0/8 of the hub, 10.1.0.0/16 and 10.1.2.0/24 of two sites. *)
Definition sites : list prefix := [site 167838208 8 "branch"; site 167772160 24 "hub"; site 167837696 16 "campus"].
Lemma longest_prefix_found_witness :
  let m := foldl (AddPrefix "vpn") ∅ sites in
  FindNetwork "10.1.2.3" "vpn" "hub" m = "branch"%string ∧ FindNetwork "10.1.2.3" "vpn" "branch" m = "campus"%string ∧
  ∃ p, p ∈ filter (λ p, in_prefix 167838211 "hub" p ∧ px_bits p < 32) sites ∧
       FindNetwork (dotted_ip 167838211) "vpn" "hub" m = px_location p.
Proof.
  cbn zeta. split; [vm_compute; reflexivity|]. split; [vm_compute; reflexivity|].
  destruct (longest_prefix_found "vpn" sites 167838211 "hub") as [[H _]|(p & Hp & Hf & _)].
  - repeat constructor; vm_compute; congruence.
  - split; vm_compute; congruence.
  - vm_compute in H. discriminate.
  - exists p. split; [exact Hp|exact Hf].
Defined.
End NetworkExamples.
