(* ===== verification/SyslogConfig.v ===== *)
(** * The configuration of structured syslog messages

    [contrail-collector/structured_syslog_config.cc] and its header, besides
    the networks of [SyslogNetworks]: records of host names, tenants,
    applications, messages and SLA profiles, which configuration documents add,
    change and delete, and the traffic counters of the active sessions, whose
    number is limited.  The flags [refreshed_] of the records are set and never
    read, and a record is kept under its name. *)
From Stdlib Require Import Ascii.
From stdpp Require Import base tactics list strings gmap pretty sorting.
From Stdlib Require Import ZArith Lia Sorted Permutation SpecFloat.
From S2P Require Import Prelude.
From S2P Require Import CppString.
From S2P Require Import Json.
From S2P Require Import PostProcessing.
From S2P Require Import StatsSelect.
From S2P Require Import StatWalker.
From S2P Require Import UserDefinedCounters.
From S2P Require Import SyslogNetworks.
Local Open Scope Z_scope.

(** ** Records *)

Record HostnameRecord := {
  hr_name : string; hr_hostaddr : string; hr_tenant : string; hr_location : string;
  hr_device : string; hr_tags : string; hr_linkmap : gmap string string
}.
Record TenantRecord := {
  tr_name : string; tr_tenantaddr : string; tr_tenant : string; tr_tags : string;
  tr_dscpmap_ipv4 : gmap string string; tr_dscpmap_ipv6 : gmap string string
}.
Record ApplicationRecord := {
  ar_name : string; ar_app_category : string; ar_app_subcategory : string; ar_app_groups : string;
  ar_app_risk : string; ar_app_service_tags : string
}.
Record MessageConfig := {
  mc_name : string; mc_tags : list string; mc_ints : list string;
  process_and_store : bool; forward : bool; process_before_forward : bool;
  process_and_summarize : bool; process_and_summarize_user : bool
}.
Record SlaProfileRecord := { sr_name : string; sr_sla_params : string }.

(** [StructuredSyslogConfig]; the applications of a tenant are records of the
    same members. *)
Record config := {
  hostname_records_ : gmap string HostnameRecord;
  tenant_records_ : gmap string TenantRecord;
  application_records_ : gmap string ApplicationRecord;
  tenant_application_records_ : gmap string ApplicationRecord;
  message_configs_ : gmap string MessageConfig;
  sla_profile_records_ : gmap string SlaProfileRecord;
  networks_map_ : IPNetworks_map;
  session_config_map_ : gmap string (gmap string Z);
  activeSessionConfigMapLIMIT : Z
}.
Definition empty_config (limit : Z) : config := {|
  hostname_records_ := ∅; tenant_records_ := ∅; application_records_ := ∅; tenant_application_records_ := ∅;
  message_configs_ := ∅; sla_profile_records_ := ∅; networks_map_ := ∅; session_config_map_ := ∅;
  activeSessionConfigMapLIMIT := limit |}.

(** The components, changed one at a time. *)
Definition set_hostnames (m : gmap string HostnameRecord) (c : config) : config := {|
  hostname_records_ := m; tenant_records_ := tenant_records_ c; application_records_ := application_records_ c;
  tenant_application_records_ := tenant_application_records_ c; message_configs_ := message_configs_ c;
  sla_profile_records_ := sla_profile_records_ c; networks_map_ := networks_map_ c;
  session_config_map_ := session_config_map_ c; activeSessionConfigMapLIMIT := activeSessionConfigMapLIMIT c |}.
Definition set_tenants (m : gmap string TenantRecord) (c : config) : config := {|
  hostname_records_ := hostname_records_ c; tenant_records_ := m; application_records_ := application_records_ c;
  tenant_application_records_ := tenant_application_records_ c; message_configs_ := message_configs_ c;
  sla_profile_records_ := sla_profile_records_ c; networks_map_ := networks_map_ c;
  session_config_map_ := session_config_map_ c; activeSessionConfigMapLIMIT := activeSessionConfigMapLIMIT c |}.
Definition set_applications (m m' : gmap string ApplicationRecord) (c : config) : config := {|
  hostname_records_ := hostname_records_ c; tenant_records_ := tenant_records_ c; application_records_ := m;
  tenant_application_records_ := m'; message_configs_ := message_configs_ c;
  sla_profile_records_ := sla_profile_records_ c; networks_map_ := networks_map_ c;
  session_config_map_ := session_config_map_ c; activeSessionConfigMapLIMIT := activeSessionConfigMapLIMIT c |}.
Definition set_messages (m : gmap string MessageConfig) (c : config) : config := {|
  hostname_records_ := hostname_records_ c; tenant_records_ := tenant_records_ c;
  application_records_ := application_records_ c; tenant_application_records_ := tenant_application_records_ c;
  message_configs_ := m; sla_profile_records_ := sla_profile_records_ c; networks_map_ := networks_map_ c;
  session_config_map_ := session_config_map_ c; activeSessionConfigMapLIMIT := activeSessionConfigMapLIMIT c |}.
Definition set_slas (m : gmap string SlaProfileRecord) (c : config) : config := {|
  hostname_records_ := hostname_records_ c; tenant_records_ := tenant_records_ c;
  application_records_ := application_records_ c; tenant_application_records_ := tenant_application_records_ c;
  message_configs_ := message_configs_ c; sla_profile_records_ := m; networks_map_ := networks_map_ c;
  session_config_map_ := session_config_map_ c; activeSessionConfigMapLIMIT := activeSessionConfigMapLIMIT c |}.
Definition set_networks (m : IPNetworks_map) (c : config) : config := {|
  hostname_records_ := hostname_records_ c; tenant_records_ := tenant_records_ c;
  application_records_ := application_records_ c; tenant_application_records_ := tenant_application_records_ c;
  message_configs_ := message_configs_ c; sla_profile_records_ := sla_profile_records_ c; networks_map_ := m;
  session_config_map_ := session_config_map_ c; activeSessionConfigMapLIMIT := activeSessionConfigMapLIMIT c |}.
Definition set_sessions (m : gmap string (gmap string Z)) (c : config) : config := {|
  hostname_records_ := hostname_records_ c; tenant_records_ := tenant_records_ c;
  application_records_ := application_records_ c; tenant_application_records_ := tenant_application_records_ c;
  message_configs_ := message_configs_ c; sla_profile_records_ := sla_profile_records_ c;
  networks_map_ := networks_map_ c; session_config_map_ := m;
  activeSessionConfigMapLIMIT := activeSessionConfigMapLIMIT c |}.

(** ** Sessions *)

(** [AddSyslogSessionCounter], [RemoveSyslogSessionCounter] with the number of
    counters removed, and [FetchSyslogSessionCounters]. *)
Definition AddSyslogSessionCounter (key : string) (counters : gmap string Z) (c : config) : bool * config :=
  match session_config_map_ c !! key with
  | Some _ => (true, set_sessions (<[key := counters]> (session_config_map_ c)) c)
  | None =>
      if activeSessionConfigMapLIMIT c <=? Z.of_nat (base.size (session_config_map_ c)) then (false, c)
      else (true, set_sessions (<[key := counters]> (session_config_map_ c)) c)
  end.
Definition RemoveSyslogSessionCounter (key : string) (c : config) : Z * config :=
  (match session_config_map_ c !! key with Some _ => 1 | None => 0 end,
   set_sessions (delete key (session_config_map_ c)) c).
Definition FetchSyslogSessionCounters (key : string) (c : config) : option (gmap string Z) :=
  session_config_map_ c !! key.

(** ** Adding records *)

(** The classes' [Refresh], which keeps the name. *)
Definition AddHostnameRecord (r : HostnameRecord) (c : config) : config :=
  set_hostnames
    (<[hr_name r :=
         match hostname_records_ c !! hr_name r with
         | Some old => {| hr_name := hr_name old; hr_hostaddr := hr_hostaddr r; hr_tenant := hr_tenant r;
                          hr_location := hr_location r; hr_device := hr_device r; hr_tags := hr_tags r;
                          hr_linkmap := hr_linkmap r |}
         | None => r
         end]> (hostname_records_ c)) c.
Definition AddTenantRecord (r : TenantRecord) (c : config) : config :=
  set_tenants
    (<[tr_name r :=
         match tenant_records_ c !! tr_name r with
         | Some old => {| tr_name := tr_name old; tr_tenantaddr := tr_tenantaddr r; tr_tenant := tr_tenant r;
                          tr_tags := tr_tags r; tr_dscpmap_ipv4 := tr_dscpmap_ipv4 r;
                          tr_dscpmap_ipv6 := tr_dscpmap_ipv6 r |}
         | None => r
         end]> (tenant_records_ c)) c.
Definition refresh_application (r : ApplicationRecord) (m : gmap string ApplicationRecord)
  : gmap string ApplicationRecord :=
  <[ar_name r :=
      match m !! ar_name r with
      | Some old => {| ar_name := ar_name old; ar_app_category := ar_app_category r;
                       ar_app_subcategory := ar_app_subcategory r; ar_app_groups := ar_app_groups r;
                       ar_app_risk := ar_app_risk r; ar_app_service_tags := ar_app_service_tags r |}
      | None => r
      end]> m.
Definition AddApplicationRecord (r : ApplicationRecord) (c : config) : config :=
  set_applications (refresh_application r (application_records_ c)) (tenant_application_records_ c) c.
Definition AddTenantApplicationRecord (r : ApplicationRecord) (c : config) : config :=
  set_applications (application_records_ c) (refresh_application r (tenant_application_records_ c)) c.
Definition AddSlaProfileRecord (name sla_params : string) (c : config) : config :=
  set_slas
    (<[name := {| sr_name := match sla_profile_records_ c !! name with Some old => sr_name old | None => name end;
                  sr_sla_params := sla_params |}]> (sla_profile_records_ c)) c.
(** [MessageConfig::Refresh] leaves [process_before_forward_] as it was. *)
Definition AddMessageConfig (name : string) (tags ints : list string) (store : bool) (forward_action : string)
    (summarize summarize_user : bool) (c : config) : config :=
  let processed := (forward_action =? "forward-processed")%string in
  let old := message_configs_ c !! name in
  set_messages
    (<[name := {| mc_name := match old with Some old => mc_name old | None => name end;
                  mc_tags := tags; mc_ints := ints; process_and_store := store;
                  forward := (forward_action =? "forward-unprocessed")%string || processed;
                  process_before_forward := match old with Some old => process_before_forward old | None => processed end;
                  process_and_summarize := summarize; process_and_summarize_user := summarize_user |}]>
       (message_configs_ c)) c.

(** ** Documents *)

(** A member that is a string, empty when it is missing, and a boolean. *)
Definition string_of (v : json) : outcome string := s ← GetString v; Done (c_str s).
Definition member_string (v : json) (k : string) : outcome string := m ← member v k; string_of m.
Definition optional_string (v : json) (k : string) : outcome string :=
  has ← HasMember v k; if (has : bool) then member_string v k else Done EmptyString.
Definition GetBool (v : json) : outcome bool := match v with JBool b => Done b | _ => Stopped end.
Definition optional_bool (v : json) (k : string) : outcome bool :=
  has ← HasMember v k; if (has : bool) then m ← member v k; GetBool m else Done false.

(** The name of a record: the last part of its [fq_name]. *)
Definition last_name (fq_name : json) : outcome string :=
  l ← elements fq_name; v ← stop_unless (last l); string_of v.
Definition record_name (v : json) : outcome string :=
  has ← HasMember v "fq_name"; if (has : bool) then fq ← member v "fq_name"; last_name fq else Done EmptyString.
Definition tenant_part (v : json) : outcome string :=
  fq ← member v "fq_name"; l ← elements fq; t ← stop_unless (l !! 1%nat); string_of t.

(** The pairs of an array, of which the first with a key counts. *)
Definition add_pair (f : json → outcome (string * string)) (m : gmap string string) (v : json)
  : outcome (gmap string string) :=
  p ← f v; Done (map_insert_new p.1 p.2 m).
Definition link_pair (v : json) : outcome (string * string) :=
  underlay ← member_string v "underlay"; link_type ← member_string v "link_type";
  traffic_destination ← member_string v "traffic_destination"; link_metadata ← member_string v "metadata";
  overlay ← member_string v "overlay";
  Done (overlay, underlay +:+ "@" +:+ link_type +:+ "@" +:+ traffic_destination +:+ "@" +:+ link_metadata).
Definition dscp_pair (v : json) : outcome (string * string) :=
  value ← member_string v "dscp_value"; code ← member_string v "alias_code"; Done (value, code).
(** An array below a member, if there is that member. *)
Definition optional_array (v : json) (k field : string) : outcome (option (list json)) :=
  has ← HasMember v k;
  if (has : bool) then m ← member v k; a ← member m field; l ← elements a; Done (Some l) else Done None.
Definition optional_strings (v : json) (k : string) : outcome (list string) :=
  l ← optional_array v k "field_names"; for_each string_of (default [] l).

(** The networks of a LAN segment; a range without its mask is read outside of
    the vector of its parts. *)
Definition add_range (key location : string) (m : IPNetworks_map) (range : string) : outcome IPNetworks_map :=
  let ip_and_subnet := split_into_vector range "/" in
  ip ← stop_unless (ip_and_subnet !! 0%nat); subnet ← stop_unless (ip_and_subnet !! 1%nat);
  Done (AddNetwork key ip subnet location m).
Definition add_segment (tenant location : string) (m : IPNetworks_map) (v : json) : outcome IPNetworks_map :=
  vpn ← member_string v "vpn"; network_ranges ← member_string v "network_ranges";
  fold_outcome (add_range (tenant +:+ "::" +:+ vpn) location) m (split_into_vector network_ranges ",").

(** [location_exists]. *)
Definition location_known (location : string) (c : config) : bool :=
  existsb (λ e, (location =? hr_location e.2)%string) (entries (hostname_records_ c)).
Definition add_segments (tenant location : string) (segments : list json) (c : config) : outcome config :=
  let m := if location_known location c then RefreshNetworksMap location (networks_map_ c) else networks_map_ c in
  m ← fold_outcome (add_segment tenant location) m segments; Done (set_networks m c).

(** The record of a document with the member [k], [None] without one. *)
Definition document_record (jdoc : json) (k : string) : outcome (option json) :=
  if negb (IsObject jdoc) then Done None
  else has ← HasMember jdoc k; if (has : bool) then r ← member jdoc k; Done (Some r) else Done None.

(** [HostnameRecordsHandler]. *)
Definition hostname_of (hr : json) : outcome HostnameRecord :=
  name ← record_name hr;
  hostaddr ← optional_string hr "structured_syslog_hostaddr";
  tenant ← optional_string hr "structured_syslog_tenant";
  location ← optional_string hr "structured_syslog_location";
  device ← optional_string hr "structured_syslog_device";
  tags ← optional_string hr "structured_syslog_hostname_tags";
  links ← optional_array hr "structured_syslog_linkmap" "links";
  linkmap ← fold_outcome (add_pair link_pair) ∅ (default [] links);
  Done {| hr_name := name; hr_hostaddr := hostaddr; hr_tenant := tenant; hr_location := location;
          hr_device := device; hr_tags := tags; hr_linkmap := linkmap |}.
Definition delete_hostname (name location : string) (c : config) : config :=
  match hostname_records_ c !! name with
  | Some r =>
      let c := if (hr_location r =? EmptyString)%string then c
               else set_networks (RefreshNetworksMap location (networks_map_ c)) c in
      set_hostnames (delete name (hostname_records_ c)) c
  | None => c
  end.
Definition HostnameRecordsHandler (jdoc : json) (add_update : bool) (c : config) : outcome config :=
  hr ← document_record jdoc "structured_syslog_hostname_record";
  match hr with
  | None => Done c
  | Some hr =>
      r ← hostname_of hr;
      segments ← optional_array hr "structured_syslog_lan_segment_list" "LANSegmentList";
      c ← match segments with Some l => add_segments (hr_tenant r) (hr_location r) l c | None => Done c end;
      Done (if add_update then AddHostnameRecord r c else delete_hostname (hr_name r) (hr_location r) c)
  end.

(** [TenantRecordsHandler]; both lists are asserted before either is read. *)
Definition dscp_lists (hr : json) : outcome (list json * list json) :=
  has ← HasMember hr "structured_syslog_dscpmap";
  if (has : bool) then
    m ← member hr "structured_syslog_dscpmap";
    a4 ← member m "dscpListIPv4"; a6 ← member m "dscpListIPv6";
    l6 ← elements a6; l4 ← elements a4; Done (l4, l6)
  else Done ([], []).
Definition tenant_of (hr : json) : outcome TenantRecord :=
  name ← record_name hr;
  tenantaddr ← optional_string hr "structured_syslog_tenantaddr";
  tenant ← optional_string hr "structured_syslog_tenant";
  tags ← optional_string hr "structured_syslog_tenant_tags";
  lists ← dscp_lists hr;
  ipv4 ← fold_outcome (add_pair dscp_pair) ∅ lists.1; ipv6 ← fold_outcome (add_pair dscp_pair) ∅ lists.2;
  Done {| tr_name := name; tr_tenantaddr := tenantaddr; tr_tenant := tenant; tr_tags := tags;
          tr_dscpmap_ipv4 := ipv4; tr_dscpmap_ipv6 := ipv6 |}.
Definition TenantRecordsHandler (jdoc : json) (add_update : bool) (c : config) : outcome config :=
  hr ← document_record jdoc "structured_syslog_tenant_record";
  match hr with
  | None => Done c
  | Some hr =>
      r ← tenant_of hr;
      Done (if add_update then AddTenantRecord r c else set_tenants (delete (tr_name r) (tenant_records_ c)) c)
  end.

(** [ApplicationRecordsHandler]. *)
Definition application_of (ar : json) : outcome ApplicationRecord :=
  name ← record_name ar;
  category ← optional_string ar "structured_syslog_app_category";
  subcategory ← optional_string ar "structured_syslog_app_subcategory";
  groups ← optional_string ar "structured_syslog_app_groups";
  risk ← optional_string ar "structured_syslog_app_risk";
  service_tags ← optional_string ar "structured_syslog_app_service_tags";
  Done {| ar_name := name; ar_app_category := category; ar_app_subcategory := subcategory; ar_app_groups := groups;
          ar_app_risk := risk; ar_app_service_tags := service_tags |}.
Definition rename_application (name : string) (r : ApplicationRecord) : ApplicationRecord := {|
  ar_name := name; ar_app_category := ar_app_category r; ar_app_subcategory := ar_app_subcategory r;
  ar_app_groups := ar_app_groups r; ar_app_risk := ar_app_risk r; ar_app_service_tags := ar_app_service_tags r |}.
Definition ApplicationRecordsHandler (jdoc : json) (add_update : bool) (c : config) : outcome config :=
  ar ← document_record jdoc "structured_syslog_application_record";
  match ar with
  | None => Done c
  | Some ar =>
      r ← application_of ar;
      tenant_name ← tenant_part ar;
      Done (if (tenant_name =? "default-global-analytics-config")%string then
              if add_update then AddApplicationRecord r c
              else set_applications (delete (ar_name r) (application_records_ c)) (tenant_application_records_ c) c
            else
              let r := rename_application (tenant_name +:+ "/" +:+ ar_name r) r in
              if add_update then AddTenantApplicationRecord r c
              else set_applications (application_records_ c) (delete (ar_name r) (tenant_application_records_ c)) c)
  end.

(** [MessageConfigsHandler]. *)
Definition MessageConfigsHandler (jdoc : json) (add_update : bool) (c : config) : outcome config :=
  hr ← document_record jdoc "structured_syslog_message";
  match hr with
  | None => Done c
  | Some hr =>
      name ← record_name hr;
      tags ← optional_strings hr "structured_syslog_message_tagged_fields";
      ints ← optional_strings hr "structured_syslog_message_integer_fields";
      forward ← optional_string hr "structured_syslog_message_forward";
      store ← optional_bool hr "structured_syslog_message_process_and_store";
      summarize ← optional_bool hr "structured_syslog_message_process_and_summarize";
      summarize_user ← optional_bool hr "structured_syslog_message_process_and_summarize_user";
      Done (if add_update then AddMessageConfig name tags ints store forward summarize summarize_user c
            else set_messages (delete name (message_configs_ c)) c)
  end.

(** [SlaProfileRecordsHandler]. *)
Definition sla_name (slar : json) : outcome string :=
  has ← HasMember slar "fq_name";
  if (has : bool) then name ← record_name slar; tenant_name ← tenant_part slar; Done (tenant_name +:+ "/" +:+ name)
  else Done EmptyString.
Definition SlaProfileRecordsHandler (jdoc : json) (add_update : bool) (c : config) : outcome config :=
  slar ← document_record jdoc "structured_syslog_sla_profile";
  match slar with
  | None => Done c
  | Some slar =>
      slarec_name ← sla_name slar;
      sla_params ← optional_string slar "structured_syslog_sla_params";
      Done (if add_update then AddSlaProfileRecord slarec_name sla_params c
            else set_slas (delete slarec_name (sla_profile_records_ c)) c)
  end.

(** [ReceiveConfig]. *)
Definition ReceiveConfig (jdoc : json) (add_change : bool) (c : config) : outcome config :=
  c ← HostnameRecordsHandler jdoc add_change c;
  c ← TenantRecordsHandler jdoc add_change c;
  c ← ApplicationRecordsHandler jdoc add_change c;
  c ← MessageConfigsHandler jdoc add_change c;
  SlaProfileRecordsHandler jdoc add_change c.

(** ** Looking records up *)

Definition GetHostnameRecord (name : string) (c : config) : option HostnameRecord := hostname_records_ c !! name.
Definition GetTenantRecord (name : string) (c : config) : option TenantRecord := tenant_records_ c !! name.
Definition GetApplicationRecord (name : string) (c : config) : option ApplicationRecord := application_records_ c !! name.
Definition GetTenantApplicationRecord (name : string) (c : config) : option ApplicationRecord :=
  tenant_application_records_ c !! name.
Definition GetSlaProfileRecord (name : string) (c : config) : option SlaProfileRecord := sla_profile_records_ c !! name.

(** [GetMessageConfig]: the record of the name, or of the longest pattern found
    in it. *)
Section messages.
Context `{Regex, RegexSearch}.
Definition pattern_found (name : string) (mc : MessageConfig) : bool :=
  regex_compiles (mc_name mc) && bool_decide (is_Some (regex_search (mc_name mc) false name)).
Definition match_step (name : string) (match_ : option MessageConfig) (mc : MessageConfig) : option MessageConfig :=
  if pattern_found name mc then
    match match_ with
    | None => Some mc
    | Some m => if (String.length (mc_name m) <? String.length (mc_name mc))%nat then Some mc else match_
    end
  else match_.
Definition GetMessageConfig (name : string) (c : config) : option MessageConfig :=
  match message_configs_ c !! name with
  | Some mc => Some mc
  | None => foldl (match_step name) None (snd <$> entries (message_configs_ c))
  end.
End messages.

(** ** Networks of the configuration *)

(** Adding the ranges of the segments: what is added, by key. *)
Definition range_network (location range : string) : outcome IPNetwork :=
  let ip_and_subnet := split_into_vector range "/" in
  ip ← stop_unless (ip_and_subnet !! 0%nat); subnet ← stop_unless (ip_and_subnet !! 1%nat);
  Done (network_of ip subnet location).
Definition segment_networks (tenant location : string) (v : json) : outcome (list (string * IPNetwork)) :=
  vpn ← member_string v "vpn"; network_ranges ← member_string v "network_ranges";
  nets ← for_each (range_network location) (split_into_vector network_ranges ",");
  Done ((λ n : IPNetwork, (tenant +:+ "::" +:+ vpn, n)) <$> (nets : list IPNetwork)).
Definition segments_networks (tenant location : string) (l : list json) : outcome (list (string * IPNetwork)) :=
  ls ← for_each (segment_networks tenant location) l; Done (concat (ls : list (list (string * IPNetwork)))).

Definition networks_at (m : IPNetworks_map) (key : string) : IPNetworks := default [] (m !! key).
(** The networks of a key among those added. *)
Definition at_key (key : string) (l : list (string * IPNetwork)) : IPNetworks :=
  snd <$> filter (λ e, e.1 = key) l.
(** A map with networks added to another one. *)
Definition added (m m' : IPNetworks_map) (l : list (string * IPNetwork)) : Prop :=
  (map_sorted m → map_sorted m') ∧ ∀ key, Permutation (networks_at m' key) (networks_at m key ++ at_key key l).

Lemma added_nil m : added m m [].
Proof. split; [done|]. intros key. unfold at_key. by rewrite filter_nil, app_nil_r. Qed.

Lemma added_trans m m' m'' l l' : added m m' l → added m' m'' l' → added m m'' (l ++ l').
Proof.
  intros [Hs Hp] [Hs' Hp']. split; [auto|]. intros key. unfold at_key in *.
  by rewrite Hp', Hp, filter_app, fmap_app, (assoc_L (++)).
Qed.

Lemma added_network key ip subnet location m :
  added m (AddNetwork key ip subnet location m) [(key, network_of ip subnet location)].
Proof.
  split; [apply AddNetwork_sorted|]. intros k. unfold AddNetwork, networks_at, at_key. rewrite filter_cons, filter_nil. cbn [fst].
  destruct (decide (key = k)) as [->|Hk].
  - rewrite lookup_insert_eq. cbn [default from_option id fmap list_fmap snd]. rewrite add_network_perm. apply Permutation_cons_append.
  - by rewrite lookup_insert_ne, app_nil_r by done.
Qed.

Lemma add_ranges key location l m m' : fold_outcome (add_range key location) m l = Done m' →
  ∃ nets, for_each (range_network location) l = Done nets ∧ added m m' ((λ n, (key, n)) <$> nets).
Proof.
  revert m. induction l as [|r l IH]; intros m; cbn [fold_outcome for_each].
  - intros [= ->]. exists []. split; [done|apply added_nil].
  - intros H. outcome_inv H. unfold add_range in Ha. outcome_inv Ha. injection Ha as <-.
    destruct (IH _ H) as (nets & E & Hadd). assert (range_network location r = Done (network_of a0 a1 location)) as ->.
    { unfold range_network. cbn zeta. by rewrite Ha0; cbn [mbind outcome_bind]; rewrite Ha1. }
    cbn [mbind outcome_bind]. rewrite E. cbn [mbind outcome_bind]. eexists. split; [done|]. rewrite fmap_cons.
    eapply (added_trans _ _ _ [_]); [apply added_network|done].
Qed.

Lemma add_segments_networks tenant location l m m' : fold_outcome (add_segment tenant location) m l = Done m' →
  ∃ nets, segments_networks tenant location l = Done nets ∧ added m m' nets.
Proof.
  unfold segments_networks. revert m. induction l as [|v l IH]; intros m; cbn [fold_outcome for_each].
  - intros [= ->]. exists []. split; [done|apply added_nil].
  - intros H. outcome_inv H. unfold add_segment in Ha. outcome_inv Ha.
    apply add_ranges in Ha as (nets & E & Hadd). destruct (IH _ H) as (nets' & E' & Hadd'). apply bind_done in E' as (ls & Els & [= <-]).
    assert (segment_networks tenant location v = Done ((λ n, (tenant +:+ "::" +:+ a0, n)) <$> nets)) as ->.
    { unfold segment_networks. rewrite Ha0. cbn [mbind outcome_bind]. rewrite Ha1. cbn [mbind outcome_bind].
      by rewrite E. }
    cbn [mbind outcome_bind]. rewrite Els. cbn [mbind outcome_bind]. eexists. split; [done|]. cbn [concat]. by eapply added_trans.
Qed.

(** The networks of a location are dropped from every key. *)
Lemma refresh_networks_at location m key :
  networks_at (RefreshNetworksMap location m) key = filter (λ n, location ≠ net_id n) (networks_at m key).
Proof.
  unfold networks_at, RefreshNetworksMap. rewrite lookup_fmap. destruct (m !! key) as [l|]; cbn; [|done].
  apply refresh_filter.
Qed.

Lemma location_known_spec location c :
  location_known location c = true ↔ ∃ k r, hostname_records_ c !! k = Some r ∧ hr_location r = location.
Proof.
  unfold location_known. rewrite existsb_exists. split.
  - intros ([k r] & Hin & ->%String.eqb_eq). exists k, r. split; [|done]. apply list_elem_of_In in Hin. by apply elem_of_entries.
  - intros (k & r & Hk & <-). exists (k, r). split; [|by apply String.eqb_refl]. by apply list_elem_of_In, elem_of_entries.
Qed.

Lemma add_hostname_known r c : location_known (hr_location r) (AddHostnameRecord r c) = true.
Proof.
  apply location_known_spec. unfold AddHostnameRecord. cbn [hostname_records_ set_hostnames].
  eexists (hr_name r), _. rewrite lookup_insert_eq. split; [done|]. by case_match.
Qed.

(** Receiving the record of a host with LAN segments replaces the networks
    of its location, when the location is known from a record, and otherwise
    adds to them: afterwards every VPN has its networks of other locations and,
    of this one, those of the segments; the lists stay sorted and the location
    is known, so that the next document replaces them. *)
Theorem hostname_networks jdoc hr r segments c c' :
  document_record jdoc "structured_syslog_hostname_record" = Done (Some hr) → hostname_of hr = Done r →
  optional_array hr "structured_syslog_lan_segment_list" "LANSegmentList" = Done (Some segments) →
  HostnameRecordsHandler jdoc true c = Done c' →
  (map_sorted (networks_map_ c) → map_sorted (networks_map_ c')) ∧ location_known (hr_location r) c' = true ∧
  ∃ nets, segments_networks (hr_tenant r) (hr_location r) segments = Done nets ∧
    ∀ key, Permutation (networks_at (networks_map_ c') key)
      ((if location_known (hr_location r) c
        then filter (λ n, hr_location r ≠ net_id n) (networks_at (networks_map_ c) key)
        else networks_at (networks_map_ c) key) ++ at_key key nets).
Proof.
  intros Hd Hr Hs. unfold HostnameRecordsHandler. rewrite Hd. cbn [mbind outcome_bind]. rewrite Hr. cbn [mbind outcome_bind].
  rewrite Hs. cbn [mbind outcome_bind]. intros H. outcome_inv H. injection H as <-.
  unfold add_segments in Ha. outcome_inv Ha. injection Ha as <-.
  apply add_segments_networks in Ha0 as (nets & E & Hsort & Hp).
  split_and!; [|apply add_hostname_known|].
  - intros Hm. apply Hsort. case_match; [by apply RefreshNetworksMap_sorted|done].
  - exists nets. split; [done|]. intros key. cbn [networks_map_ AddHostnameRecord set_hostnames set_networks].
    rewrite Hp. apply Permutation_app_tail. case_match; [by rewrite refresh_networks_at|done].
Qed.

(** ** Configurations that are received *)

(** The documents, each added or deleted. *)
Definition receive_all (docs : list (json * bool)) (c : config) : outcome config :=
  fold_outcome (λ c d, ReceiveConfig d.1 d.2 c) c docs.

(** Handlers other than that of host names leave the networks. *)
Lemma hostnames_sorted jdoc add c c' : HostnameRecordsHandler jdoc add c = Done c' →
  map_sorted (networks_map_ c) → map_sorted (networks_map_ c').
Proof.
  intros H Hm. unfold HostnameRecordsHandler in H. outcome_inv H. destruct a as [hr|]; [|by injection H as <-].
  outcome_inv H. injection H as <-.
  assert (map_sorted (networks_map_ a1)) as Hm1.
  { destruct a0 as [l|]; [|by injection Ha2 as <-]. unfold add_segments in Ha2. outcome_inv Ha2. injection Ha2 as <-.
    apply add_segments_networks in Ha3 as (nets & _ & Hs & _). apply Hs.
    case_match; [by apply RefreshNetworksMap_sorted|done]. }
  destruct add; cbn iota; [done|]. unfold delete_hostname.
  destruct (hostname_records_ a1 !! hr_name a) as [r|]; [|done]. cbn [networks_map_ set_hostnames].
  destruct (hr_location r =? EmptyString)%string; [done|]. by apply RefreshNetworksMap_sorted.
Qed.

Lemma other_networks jdoc add c c' :
  (TenantRecordsHandler jdoc add c = Done c' ∨ ApplicationRecordsHandler jdoc add c = Done c' ∨
   MessageConfigsHandler jdoc add c = Done c' ∨ SlaProfileRecordsHandler jdoc add c = Done c') →
  networks_map_ c' = networks_map_ c.
Proof.
  intros [H|[H|[H|H]]].
  - unfold TenantRecordsHandler in H. outcome_inv H. destruct a; outcome_inv H; injection H as <-; by repeat case_match.
  - unfold ApplicationRecordsHandler in H. outcome_inv H. destruct a; outcome_inv H; injection H as <-; by repeat case_match.
  - unfold MessageConfigsHandler in H. outcome_inv H. destruct a; outcome_inv H; injection H as <-; by repeat case_match.
  - unfold SlaProfileRecordsHandler in H. outcome_inv H. destruct a; outcome_inv H; injection H as <-; by repeat case_match.
Qed.

Lemma receive_sorted jdoc add c c' : ReceiveConfig jdoc add c = Done c' →
  map_sorted (networks_map_ c) → map_sorted (networks_map_ c').
Proof.
  unfold ReceiveConfig. intros H Hm. outcome_inv H. apply hostnames_sorted in Ha; [|done].
  rewrite (other_networks _ _ _ _ (or_intror (or_intror (or_intror H)))).
  rewrite (other_networks _ _ _ _ (or_intror (or_intror (or_introl Ha2)))).
  rewrite (other_networks _ _ _ _ (or_intror (or_introl Ha1))).
  by rewrite (other_networks _ _ _ _ (or_introl Ha0)).
Qed.

(** Whatever documents have been received, the networks of every VPN are
    sorted, and a lookup gives the location of a smallest range with the address
    among all networks of the VPN that are not of the source's location. *)
Theorem networks_found docs limit c ip key src : receive_all docs (empty_config limit) = Done c →
  map_sorted (networks_map_ c) ∧
  ∃ r, smallest (filter (eligible (IPToUInt ip) src) (networks_at (networks_map_ c) key)) UINT32_MAX r ∧
       FindNetwork ip key src (networks_map_ c) = match r with Some n => net_id n | None => EmptyString end.
Proof.
  intros H. enough (map_sorted (networks_map_ c)) as Hm by (split; [done|by apply FindNetwork_smallest]).
  assert (map_sorted (networks_map_ (empty_config limit))) as H0 by apply map_Forall_empty.
  revert H H0. unfold receive_all. generalize (empty_config limit) as c0.
  induction docs as [|d docs IH]; intros c0 H H0; cbn [fold_outcome] in H; [by injection H as <-|].
  outcome_inv H. eapply IH; [done|]. by eapply receive_sorted.
Qed.

(** ** Sessions are limited *)

Inductive session_op := OpAdd (key : string) (counters : gmap string Z) | OpRemove (key : string).
Definition session_step (c : config) (o : session_op) : config :=
  match o with
  | OpAdd key counters => (AddSyslogSessionCounter key counters c).2
  | OpRemove key => (RemoveSyslogSessionCounter key c).2
  end.

Lemma session_step_limit c o : 
  activeSessionConfigMapLIMIT (session_step c o) = activeSessionConfigMapLIMIT c ∧
  (Z.of_nat (base.size (session_config_map_ c)) <= activeSessionConfigMapLIMIT c →
   Z.of_nat (base.size (session_config_map_ (session_step c o))) <= activeSessionConfigMapLIMIT c).
Proof.
  destruct o as [key counters|key]; cbn [session_step].
  - unfold AddSyslogSessionCounter. destruct (session_config_map_ c !! key) eqn:E.
    + split; [done|]. cbn [snd session_config_map_ set_sessions]. by rewrite map_size_insert_Some by eauto.
    + destruct (Z.leb_spec (activeSessionConfigMapLIMIT c) (Z.of_nat (base.size (session_config_map_ c)))); [done|].
      split; [done|]. cbn [snd session_config_map_ set_sessions]. rewrite map_size_insert_None by done. lia.
  - split; [done|]. cbn [snd RemoveSyslogSessionCounter session_config_map_ set_sessions].
    rewrite map_size_delete. intros ?. destruct (session_config_map_ c !! key); simpl; lia.
Qed.

(** The number of sessions with counters never exceeds the limit; a
    session is refused exactly when it is new and the limit is reached, and
    otherwise its counters are those fetched next. *)
Theorem sessions_limited ops limit key counters : 0 <= limit →
  let c := foldl session_step (empty_config limit) ops in
  Z.of_nat (base.size (session_config_map_ c)) <= limit ∧
  ((AddSyslogSessionCounter key counters c).1 = false ↔
     FetchSyslogSessionCounters key c = None ∧ Z.of_nat (base.size (session_config_map_ c)) = limit) ∧
  ((AddSyslogSessionCounter key counters c).1 = true →
     FetchSyslogSessionCounters key (AddSyslogSessionCounter key counters c).2 = Some counters).
Proof.
  intros Hl. cbn zeta.
  assert (activeSessionConfigMapLIMIT (foldl session_step (empty_config limit) ops) = limit ∧
          Z.of_nat (base.size (session_config_map_ (foldl session_step (empty_config limit) ops))) <= limit) as [HL HS].
  { induction ops as [|o ops [IHl IHs]] using rev_ind; [by split|]. rewrite foldl_snoc.
    destruct (session_step_limit (foldl session_step (empty_config limit) ops) o) as [-> Hs].
    rewrite IHl in *. auto. }
  generalize dependent (foldl session_step (empty_config limit) ops). intros c HL HS. split; [done|].
  unfold AddSyslogSessionCounter, FetchSyslogSessionCounters. rewrite HL.
  destruct (session_config_map_ c !! key) eqn:E; cbn [fst snd].
  - split; [split; [done|by intros [? _]]|]. intros _. cbn [session_config_map_ set_sessions]. by rewrite lookup_insert_eq.
  - destruct (Z.leb_spec limit (Z.of_nat (base.size (session_config_map_ c)))); cbn [fst snd].
    + split; [split; [intros _; split; [done|lia]|done]|done].
    + split; [split; [done|intros [_ ?]; lia]|]. intros _. cbn [session_config_map_ set_sessions]. by rewrite lookup_insert_eq.
Qed.

(** ** The configuration of a message *)

Section chosen.
Context `{Regex, RegexSearch}.

(** The longest pattern found so far. *)
Definition longest (name : string) (l : list MessageConfig) (r : option MessageConfig) : Prop :=
  match r with
  | None => ∀ mc, mc ∈ l → pattern_found name mc = false
  | Some m => m ∈ l ∧ pattern_found name m = true ∧
      ∀ mc, mc ∈ l → pattern_found name mc = true → (String.length (mc_name mc) <= String.length (mc_name m))%nat
  end.

Lemma match_longest name l : longest name l (foldl (match_step name) None l).
Proof.
  induction l as [|x l IH] using rev_ind; [by intros mc ?%not_elem_of_nil|]. rewrite foldl_snoc.
  unfold match_step at 1. destruct (pattern_found name x) eqn:Ex.
  - destruct (foldl (match_step name) None l) as [m|]; cbn [longest] in *.
    + destruct IH as (Hm & Hf & Hl). destruct (Nat.ltb_spec (String.length (mc_name m)) (String.length (mc_name x))).
      * split; [set_solver|]. split; [done|].
        intros mc [Hmc| ->%list_elem_of_singleton]%elem_of_app Hf'; [specialize (Hl _ Hmc Hf'); lia|done].
      * split; [set_solver|]. split; [done|].
        intros mc [Hmc| ->%list_elem_of_singleton]%elem_of_app Hf'; [by apply Hl|done].
    + split; [set_solver|]. split; [done|].
      intros mc [Hmc| ->%list_elem_of_singleton]%elem_of_app Hf'; [by rewrite (IH _ Hmc) in Hf'|done].
  - destruct (foldl (match_step name) None l) as [m|]; cbn [longest] in *.
    + destruct IH as (Hm & Hf & Hl). split; [set_solver|]. split; [done|].
      intros mc [Hmc| ->%list_elem_of_singleton]%elem_of_app Hf'; [by apply Hl|congruence].
    + intros mc [Hmc| ->%list_elem_of_singleton]%elem_of_app; [by apply IH|done].
Qed.

(** A message is handled by the configuration of exactly its tag, or else
    by one with the longest name among the patterns found in the tag; without
    either it has none. *)
Theorem message_config_chosen name c :
  match message_configs_ c !! name with
  | Some mc => GetMessageConfig name c = Some mc
  | None => longest name (snd <$> entries (message_configs_ c)) (GetMessageConfig name c) ∧
            ∀ mc, mc ∈ (snd <$> entries (message_configs_ c)) ↔ ∃ k, message_configs_ c !! k = Some mc
  end.
Proof.
  unfold GetMessageConfig. destruct (message_configs_ c !! name); [done|]. split; [apply match_longest|].
  intros mc. split.
  - intros ([k v] & -> & Hin)%list_elem_of_fmap. exists k. by apply elem_of_entries.
  - intros [k Hk]. apply list_elem_of_fmap. exists (k, mc). split; [done|]. by apply elem_of_entries.
Qed.
End chosen.

(** ** Examples *)

Module ConfigExamples.
Definition segment (vpn ranges : string) : json := JObject [("vpn", JString vpn); ("network_ranges", JString ranges)]%string.
Definition host_record (name location : string) (segments : list json) : json := JObject [
  ("fq_name", JArray [JString "default"; JString name]); ("structured_syslog_tenant", JString "acme");
  ("structured_syslog_location", JString location);
  ("structured_syslog_lan_segment_list", JObject [("LANSegmentList", JArray segments)])]%string.
Definition host_document (name location : string) (segments : list json) : json :=
  JObject [("structured_syslog_hostname_record", host_record name location segments)]%string.
Definition first_document : json :=
  host_document "gw1" "branch" [segment "red" "10.1.0.0/255.255.0.0,10.2.0.0/255.255.0.0"]%string.
Definition second_document : json := host_document "gw1" "branch" [segment "red" "10.3.0.0/255.255.0.0"]%string.
Definition after_first : config :=
  match ReceiveConfig first_document true (empty_config 2) with Done c => c | _ => empty_config 0 end.
Definition after_second : config :=
  match HostnameRecordsHandler second_document true after_first with Done c => c | _ => empty_config 0 end.
Definition second_host : HostnameRecord :=
  match hostname_of (host_record "gw1" "branch" [segment "red" "10.3.0.0/255.255.0.0"]%string) with
  | Done r => r
  | _ => {| hr_name := EmptyString; hr_hostaddr := EmptyString; hr_tenant := EmptyString; hr_location := EmptyString;
            hr_device := EmptyString; hr_tags := EmptyString; hr_linkmap := ∅ |}
  end.

Lemma hostname_networks_witness :
  net_id <$> networks_at (networks_map_ after_first) "acme::red" = ["branch"; "branch"]%string ∧
  net_id <$> networks_at (networks_map_ after_second) "acme::red" = ["branch"]%string ∧
  (map_sorted (networks_map_ after_first) → map_sorted (networks_map_ after_second)) ∧
  location_known "branch" after_second = true.
Proof.
  split; [vm_compute; reflexivity|]. split; [vm_compute; reflexivity|].
  destruct (hostname_networks second_document (host_record "gw1" "branch" [segment "red" "10.3.0.0/255.255.0.0"]%string)
              second_host [segment "red" "10.3.0.0/255.255.0.0"]%string after_first after_second) as (Hs & Hk & _);
    [vm_compute; reflexivity..|].
  split; [exact Hs|exact Hk].
Defined.

Lemma networks_found_witness :
  FindNetwork "10.2.0.9" "acme::red" "hub" (networks_map_ after_first) = "branch"%string ∧
  ∃ r, smallest (filter (eligible (IPToUInt "10.2.0.9") "hub") (networks_at (networks_map_ after_first) "acme::red")) UINT32_MAX r.
Proof.
  split; [vm_compute; reflexivity|].
  destruct (networks_found [(first_document, true)] 2 after_first "10.2.0.9" "acme::red" "hub") as (_ & r & Hr & _);
    [vm_compute; reflexivity|].
  exists r. exact Hr.
Defined.

Definition counters_of_bytes (n : Z) : gmap string Z := {[ "total-bytes"%string := n ]}.
Lemma sessions_limited_witness :
  let c := foldl session_step (empty_config 2) [OpAdd "a" (counters_of_bytes 1); OpAdd "b" (counters_of_bytes 2);
             OpAdd "c" (counters_of_bytes 3); OpRemove "a"; OpAdd "d" (counters_of_bytes 4)] in
  (AddSyslogSessionCounter "e" (counters_of_bytes 5) c).1 = false ∧ Z.of_nat (base.size (session_config_map_ c)) <= 2.
Proof.
  cbn zeta. split; [vm_compute; reflexivity|].
  destruct (sessions_limited [OpAdd "a" (counters_of_bytes 1); OpAdd "b" (counters_of_bytes 2);
             OpAdd "c" (counters_of_bytes 3); OpRemove "a"; OpAdd "d" (counters_of_bytes 4)] 2 "e" (counters_of_bytes 5))
    as [H _]; [lia|]. exact H.
Defined.
End ConfigExamples.
