(* ===== verification/SyslogFields.v ===== *)
(** * Syslog messages: their fields and the messages made of them

    Of [contrail-collector/syslog_collector.cc] and [syslog_collector.h] what the
    parser of plain and of structured syslog share: the map of the fields the
    grammar found, the time, facility and severity added to it, and the message
    a plain syslog line becomes.  The grammar itself is written with the
    combinators of Boost.Spirit, the calendar is that of Boost.DateTime: neither
    is part of this repository. *)
From Stdlib Require Import Ascii.
From stdpp Require Import base tactics list strings gmap pretty.
From Stdlib Require Import ZArith Lia.
From S2P Require Import Prelude.
From S2P Require Import CppString.
From S2P Require Import Json.
From S2P Require Import StatsSelect.
Local Open Scope Z_scope.

(** ** Fields *)

(** An [int64_t]. *)
Definition i64 (z : Z) : Z := (z + 2 ^ 63) mod 2 ^ 64 - 2 ^ 63.
Definition is_i64 (z : Z) : Prop := - 2 ^ 63 <= z < 2 ^ 63.

Lemma i64_small z : is_i64 z → i64 z = z.
Proof. unfold is_i64, i64. intros H. rewrite Z.mod_small; lia. Qed.
Lemma i64_bound z : is_i64 (i64 z).
Proof. unfold is_i64, i64. pose proof (Z.mod_pos_bound (z + 2 ^ 63) (2 ^ 64)). lia. Qed.
Lemma i64_u64 z : is_i64 z → i64 (u64 z) = z.
Proof.
  intros H. unfold i64, u64. rewrite Zplus_mod_idemp_l. by apply i64_small.
Qed.

(** [SyslogParser::Holder].  The constructor from a string leaves [i_val] as it
    is: whatever the memory has there. *)
Inductive dtype := int_type | str_type.
Record Holder := { h_key : string; h_type : dtype; h_i_val : Z; h_s_val : string }.
Class Indeterminate := { indeterminate : string → Z }.

Abbreviation syslog_m_t := (gmap string Holder).

Section fields.
Context {ind : Indeterminate}.

Definition Holder_str (k v : string) : Holder :=
  {| h_key := k; h_type := str_type; h_i_val := indeterminate k; h_s_val := v |}.
Definition Holder_int (k : string) (v : Z) : Holder :=
  {| h_key := k; h_type := int_type; h_i_val := v; h_s_val := EmptyString |}.

(** [v.insert] of a field, which keeps the one that is there. *)
Definition insert_str (k s : string) (v : syslog_m_t) : syslog_m_t := map_insert_new k (Holder_str k s) v.
Definition insert_int (k : string) (i : Z) (v : syslog_m_t) : syslog_m_t := map_insert_new k (Holder_int k i) v.

(** [GetMapVals] and [GetMapVal]. *)
Definition GetMapVals (v : syslog_m_t) (key def : string) : string :=
  match v !! key with Some h => h_s_val h | None => def end.
Definition GetMapVal (v : syslog_m_t) (key : string) (def : Z) : Z :=
  match v !! key with Some h => h_i_val h | None => def end.

(** ** Time, facility and severity *)

(** Times in microseconds since the epoch, the calendar and the clocks: a date
    or a duration that is none is an exception. *)
Record tm := { tm_year : Z; tm_mon : Z; tm_mday : Z; tm_hour : Z; tm_min : Z; tm_sec : Z }.
Class DateTime := {
  local_time : Z; universal_time : Z; to_tm : Z → tm;
  ptime : Z → Z → Z → Z → Z → Z → Z → option Z;
  duration_from_string : string → option Z
}.
Context {dt : DateTime}.

(** [GetTimestamp]; the last part of the time is in microseconds. *)
Definition GetTimestamp (v : syslog_m_t) : outcome Z :=
  let pt_tm := to_tm local_time in
  p ← stop_unless (ptime (GetMapVal v "year" (tm_year pt_tm + 1900)) (GetMapVal v "month" (tm_mon pt_tm))
        (GetMapVal v "day" (tm_mday pt_tm)) (GetMapVal v "hour" (tm_hour pt_tm))
        (GetMapVal v "min" (tm_min pt_tm)) (GetMapVal v "sec" (tm_sec pt_tm)) (GetMapVal v "msec" 0 * 1000));
  if GetMapVal v "year" 0 =? 0 then Done (p - (local_time - universal_time))
  else
    let tz := GetMapVals v "tz" "+0:00" in
    t ← stop_unless (substr tz 1 npos);
    diff ← stop_unless (duration_from_string t);
    sign ← stop_unless (substr tz 0 1);
    Done (if (sign =? "-")%string then p + diff else p - diff).

Definition severity_of (fs : Z) : Z := Z.land fs 7.
Definition facility_of (fs : Z) : Z := Z.shiftr fs 3.
(** [GetFacilitySeverity]. *)
Definition GetFacilitySeverity (v : syslog_m_t) : Z * Z :=
  let fs := i32 (GetMapVal v "facsev" 0) in (facility_of fs, severity_of fs).

(** [PostParsing]. *)
Definition PostParsing (v : syslog_m_t) : outcome syslog_m_t :=
  timestamp ← GetTimestamp v;
  let v := insert_int "timestamp" timestamp v in
  let '(f, s) := GetFacilitySeverity v in
  Done (insert_int "severity" s (insert_int "facility" f v)).

(** ** The message of a plain syslog line *)

Definition facilitynames_ : list string :=
  ["auth"; "authpriv"; "cron"; "daemon"; "ftp"; "kern"; "lpr"; "mail"; "mark"; "news"; "security"; "syslog";
   "user"; "uucp"; "local0"; "local1"; "local2"; "local3"; "local4"; "local5"; "local6"; "local7"]%string.
(** [GetSyslogFacilityName], whose argument is unsigned. *)
Definition GetSyslogFacilityName (f : Z) : string :=
  if f <? Z.of_nat (length facilitynames_) then default EmptyString (facilitynames_ !! Z.to_nat f) else EmptyString.

(** [EscapeXmlTags]; a character with its high bit set becomes its number. *)
Definition escape_char (c : ascii) : string :=
  if (c =? "&")%char then "&amp;"%string
  else if (c =? "039")%char then "&apos;"%string
  else if (c =? "<")%char then "&lt;"%string
  else if (c =? ">")%char then "&gt;"%string
  else if (nat_of_ascii c <? 128)%nat then String c EmptyString
  else ("&#" +:+ to_decimal (Z.of_nat (nat_of_ascii c)) +:+ ";")%string.
Fixpoint EscapeXmlTags (text : string) : string :=
  match text with EmptyString => EmptyString | String c s => escape_char c +:+ EscapeXmlTags s end.

Definition GetMsgBody (v : syslog_m_t) : string := EscapeXmlTags (GetMapVals v "body" EmptyString).
Definition GetModule (v : syslog_m_t) : string := GetMapVals v "prog" "UNKNOWN".
Definition GetFacility (v : syslog_m_t) : string := GetSyslogFacilityName (u64 (GetMapVal v "facility" 0)).
Definition GetPID (v : syslog_m_t) : Z := i32 (GetMapVal v "pid" (-1)).

(** What [MakeSandesh] sets of the header, and the message it hands to the
    generator of the address. *)
Record syslog_header := {
  sh_Timestamp : Z; sh_Module : string; sh_Source : string; sh_Level : Z; sh_Category : string;
  sh_IPAddress : string; sh_Pid : option Z
}.
Record syslog_msg := { sg_header : syslog_header; sg_text : string; sg_keyword_doc : string }.
Definition MakeSandesh (v : syslog_m_t) : string * syslog_msg :=
  let ip := GetMapVals v "ip" EmptyString in
  let pid := GetPID v in
  let body := EscapeXmlTags (GetMapVals v "body" EmptyString) in
  (ip, {| sg_header := {| sh_Timestamp := GetMapVal v "timestamp" 0; sh_Module := GetModule v;
            sh_Source := GetMapVals v "hostname" ip; sh_Level := i32 (GetMapVal v "severity" 0);
            sh_Category := GetFacility v; sh_IPAddress := ip; sh_Pid := if 0 <=? pid then Some pid else None |};
          sg_text := "<Syslog>" +:+ body +:+ "</Syslog>"; sg_keyword_doc := body |}).

(** The grammar: the fields of a text it accepts. *)
Class SyslogGrammar := { parse_syslog : string → option syslog_m_t }.
Context {grammar : SyslogGrammar}.

(** The zeros at the end of a buffer are left out; one that has nothing else is
    read before its start. *)
Fixpoint trim_end (s : string) : option string :=
  match s with
  | EmptyString => None
  | String c s' =>
      match trim_end s' with
      | Some t => Some (String c t)
      | None => if (c =? "000")%char then None else Some (String c EmptyString)
      end
  end.

(** The generators, which are made when an address sends its first message, and
    the messages they received. *)
Record listeners := { genarators_ : gset string; received : list (string * syslog_msg) }.
Definition GetGenerator (ip : string) (l : listeners) : listeners :=
  {| genarators_ := {[ ip ]} ∪ genarators_ l; received := received l |}.
Definition receive (m : string * syslog_msg) (l : listeners) : listeners :=
  {| genarators_ := genarators_ l; received := received l ++ [m] |}.
(** [ClientParse]. *)
Definition ClientParse (ip data : string) (l : listeners) : outcome (bool * listeners) :=
  text ← stop_unless (trim_end data);
  match parse_syslog text with
  | Some v =>
      v ← PostParsing (insert_str "ip" ip v);
      let m := MakeSandesh v in
      Done (true, receive m (GetGenerator m.1 l))
  | None => Done (false, l)
  end.
End fields.

(** ** The text a message carries *)

(** The references of an XML reader that the escapes use. *)
Definition digits3 (a b c : ascii) : ascii :=
  ascii_of_nat (Z.to_nat (digit_val a * 100 + digit_val b * 10 + digit_val c)).
Fixpoint xml_decode (s : string) : string :=
  match s with
  | String "&" (String "a" (String "m" (String "p" (String ";" r)))) => String "&" (xml_decode r)
  | String "&" (String "a" (String "p" (String "o" (String "s" (String ";" r))))) => String "039" (xml_decode r)
  | String "&" (String "l" (String "t" (String ";" r))) => String "<" (xml_decode r)
  | String "&" (String "g" (String "t" (String ";" r))) => String ">" (xml_decode r)
  | String "&" (String "#" (String a (String b (String c (String ";" r))))) => String (digits3 a b c) (xml_decode r)
  | String a r => String a (xml_decode r)
  | EmptyString => EmptyString
  end.

(** What may stand between tags: no markup, and seven bits only. *)
Definition is_text (c : ascii) : bool :=
  negb (c =? "<")%char && negb (c =? ">")%char && negb (c =? "039")%char && (nat_of_ascii c <? 128)%nat.
Fixpoint all_text (s : string) : bool :=
  match s with EmptyString => true | String c s' => is_text c && all_text s' end.

Lemma all_text_app s t : all_text (s +:+ t) = all_text s && all_text t.
Proof. induction s as [|a s IH]; [done|]. change (is_text a && all_text (s +:+ t) = is_text a && all_text s && all_text t). by rewrite IH, andb_assoc. Qed.

Lemma decode_escape c r : xml_decode (escape_char c +:+ r) = String c (xml_decode r).
Proof. destruct c as [[] [] [] [] [] [] [] []]; reflexivity. Qed.
Lemma escape_text c : all_text (escape_char c) = true.
Proof. destruct c as [[] [] [] [] [] [] [] []]; vm_compute; reflexivity. Qed.

(** The text of a plain syslog message is well-formed character data, and
    an XML reader gets back what the sender wrote, whatever its bytes. *)
Theorem body_escaped body :
  all_text (EscapeXmlTags body) = true ∧ xml_decode (EscapeXmlTags body) = body.
Proof.
  induction body as [|c s [IHt IHd]]; [done|]. simpl. rewrite all_text_app, escape_text, IHt, decode_escape, IHd. done.
Qed.

(** The facility and the severity put together again are the number the sender wrote. *)
Lemma facility_severity fs : facility_of fs * 8 + severity_of fs = fs ∧ 0 <= severity_of fs < 8.
Proof.
  unfold facility_of, severity_of. rewrite Z.shiftr_div_pow2 by lia.
  change 7 with (Z.ones 3). rewrite Z.land_ones by lia.
  pose proof (Z.div_mod fs (2 ^ 3)). pose proof (Z.mod_pos_bound fs (2 ^ 3)). lia.
Qed.
