(* ===== verification/SyslogUve.v ===== *)
(** * Summaries of structured syslog messages

    Of [contrail-collector/structured_syslog_server.cc] the functions that make
    UVEs of a message ([StructuredSyslogUVESummarize] and what it calls): the
    traffic of sessions, from counters that grow while a session lasts, and the
    reports of the probes of a link.  A UVE is the type and the name of its
    record with its maps; the metrics of an entry are the members that are set.
    The coefficients of a link's score are computed with IEEE doubles. *)
From Stdlib Require Import Ascii.
From stdpp Require Import base tactics list strings gmap pretty.
From Stdlib Require Import ZArith Lia SpecFloat.
From S2P Require Import Prelude.
From S2P Require Import CppString.
From S2P Require Import StatsSelect.
From S2P Require Import UserDefinedCounters.
From S2P Require Import SyslogNetworks.
From S2P Require Import SyslogConfig.
From S2P Require Import SyslogFields.
Local Open Scope Z_scope.
#[local] Set Warnings "-register-all".

(** ** UVEs *)

Abbreviation metrics := (gmap string Z).
Inductive uve_type := SDWANMetrics | SDWANTenantMetrics | SDWANKPIMetrics.
Record uve := { uve_of : uve_type; uve_name : string; uve_maps : gmap string (gmap string metrics) }.

(** [set_x] of an unsigned member. *)
Definition set_metric (field : string) (x : Z) (m : metrics) : metrics := <[field := u64 x]> m.
(** A map of a record with the entries inserted into it; the first of a key counts. *)
Definition map_of (l : list (string * metrics)) : gmap string metrics :=
  foldl (λ m e, map_insert_new e.1 e.2 m) ∅ l.

(** [boost::iequals]. *)
Definition lower_char (c : ascii) : ascii :=
  let n := nat_of_ascii c in if (65 <=? n)%nat && (n <=? 90)%nat then ascii_of_nat (n + 32) else c.
Fixpoint lower (s : string) : string :=
  match s with EmptyString => EmptyString | String c s' => String (lower_char c) (lower s') end.
Definition iequals (s t : string) : bool := (lower s =? lower t)%string.

(** ** Names and keys *)

Section summaries.
Context {ind : Indeterminate}.

Definition known (v : syslog_m_t) (key : string) : string := GetMapVals v key "UNKNOWN".

Definition uvename (v : syslog_m_t) : string :=
  known v "tenant" +:+ "::" +:+ known v "location" +:+ "::" +:+ known v "device".
Definition tenantuvename (v : syslog_m_t) : string :=
  GetMapVals v "region" "DEFAULT" +:+ "::" +:+ GetMapVals v "OPCO" "DEFAULT" +:+ "::" +:+ known v "tenant".

(** The names of the nested application and of the application; the name of the
    service stands for them when both are unknown. *)
Definition app_names (v : syslog_m_t) : string * string :=
  let nested_appname := known v "nested-application" in
  let service_name := known v "service-name" in
  let appname := known v "application" in
  if iequals nested_appname "UNKNOWN" && iequals appname "UNKNOWN"
     && negb (iequals service_name "UNKNOWN") && negb (iequals service_name "None")
  then (service_name, service_name) else (nested_appname, appname).

(** [dscp_key] of the traffic of a session, and of a report on a link. *)
Definition dscp_key_traffic (dscp_alias_code dscp_value : string) : string :=
  if (dscp_value =? "UNKNOWN")%string then "UNKNOWN"
  else if (dscp_alias_code =? "UNKNOWN")%string then "DSCP-" +:+ dscp_value
  else dscp_alias_code.
Definition dscp_key_report (dscp_alias_code ip_dscp : string) : string :=
  if (ip_dscp =? "UNKNOWN")%string then "UNKNOWN"
  else if (dscp_alias_code =? "UNKNOWN")%string then "DSCP-" +:+ ip_dscp
  else "DSCP-" +:+ dscp_alias_code.

Definition tt_app_dept_info (traffic_type dscp_key : string) (v : syslog_m_t) : string :=
  traffic_type +:+ "(" +:+ (app_names v).1 +:+ "@" +:+ dscp_key +:+ ":" +:+ (app_names v).2
    +:+ "/" +:+ known v "app-category" +:+ ")" +:+ "::" +:+ known v "source-zone-name" +:+ "::".

Definition username (v : syslog_m_t) : string :=
  let username := known v "username" in
  if iequals username "unknown" then known v "source-address" else username.

(** A link: its name, and what the configuration says of it. *)
Record link := { lk_name : string; lk_underlay : string; lk_type : string; lk_destination : string; lk_metadata : string }.
Definition link_of (name suffix : string) (v : syslog_m_t) : link := {|
  lk_name := name; lk_underlay := known v ("underlay-" +:+ suffix); lk_type := known v ("link-type-" +:+ suffix);
  lk_destination := known v ("traffic-destination-" +:+ suffix); lk_metadata := known v ("metadata-" +:+ suffix)
|}.
Definition link_info (l : link) : string :=
  lk_name l +:+ "@" +:+ lk_underlay l +:+ "@" +:+ lk_type l +:+ "@" +:+ lk_destination l +:+ "@" +:+ lk_metadata l.
Definition linkmetric_key (l : link) (sla_profile traffic_type : string) : string :=
  link_info l +:+ "::" +:+ sla_profile +:+ "::" +:+ traffic_type.
Definition tenantmetric_key (v : syslog_m_t) (sla_profile traffic_type : string) (l : link) : string :=
  known v "location" +:+ "::" +:+ sla_profile +:+ "::" +:+ traffic_type +:+ "@" +:+ lk_destination l +:+ "@" +:+ lk_type l.

(** ** Names of networks *)

(** The rest of a longer string after a prefix. *)
Definition after_prefix (p s : string) : option string :=
  if (String.length p <? String.length s)%nat && starts_with s p then Some (drop_string (String.length p) s) else None.
Definition without_hub (s : string) : string := default s (after_prefix "hub-" s).
(** [get_VPNName] of a routing instance, and of a department. *)
Definition get_VPNName (routing_instance : string) : string :=
  match after_prefix "Default-reverse-" routing_instance with
  | Some r => without_hub r
  | None =>
  match after_prefix "Default-" routing_instance with
  | Some r => without_hub r
  | None =>
  match after_prefix "mpls-" routing_instance with
  | Some r => without_hub r
  | None =>
  match after_prefix "internet-" routing_instance with
  | Some r => without_hub r
  | None => routing_instance
  end end end end.
Definition get_VPNName_department (department network_segmentation tenant_name : string) : string :=
  if iequals network_segmentation "Disabled" || iequals department "Default"
  then tenant_name +:+ "_DefaultVPN" else department.

(** ** The traffic of a session *)

Definition is_close (v : syslog_m_t) : bool := (known v "tag" =? "APPTRACK_SESSION_CLOSE")%string.
Definition is_vol_update (v : syslog_m_t) : bool := (known v "tag" =? "APPTRACK_SESSION_VOL_UPDATE")%string.
(** [process_vol_update]. *)
Definition processes_vol (v : syslog_m_t) : bool := iequals (GetMapVals v "process-vol-update" "False") "True".
Definition sla_profile_of (v : syslog_m_t) : string := if processes_vol v then "DEFAULT" else known v "sla-profile".
Definition traffic_type_of (v : syslog_m_t) : string := if processes_vol v then "DEFAULT" else known v "active-probe-params".
Definition session_unique_key (v : syslog_m_t) : string := uvename v +:+ "::" +:+ GetMapVals v "session-id-32" "-1".

Record traffic := {
  total_bytes : Z; bytes_from_client : Z; bytes_from_server : Z; packets_from_client : Z; packets_from_server : Z
}.
Definition no_traffic : traffic := {|
  total_bytes := 0; bytes_from_client := 0; bytes_from_server := 0; packets_from_client := 0; packets_from_server := 0 |}.
Definition traffic_by (f : string → Z) : traffic := {|
  total_bytes := f "total-bytes"; bytes_from_client := f "bytes-from-client"; bytes_from_server := f "bytes-from-server";
  packets_from_client := f "packets-from-client"; packets_from_server := f "packets-from-server" |}%string.
(** The counters of a message, and those of the message before. *)
Definition curr_traffic (v : syslog_m_t) : traffic := traffic_by (λ k, GetMapVal v k 0).
Definition prev_traffic (m : gmap string Z) : traffic := traffic_by (λ k, i64 (default 0 (m !! k))).
Definition session_curr_traffic_counters (t : traffic) : gmap string Z :=
  list_to_map [("total-bytes", u64 (total_bytes t)); ("bytes-from-client", u64 (bytes_from_client t));
    ("bytes-from-server", u64 (bytes_from_server t)); ("packets-from-server", u64 (packets_from_server t));
    ("packets-from-client", u64 (packets_from_client t))]%string.
Definition diff_traffic (t p : traffic) : traffic := {|
  total_bytes := i64 (total_bytes t - total_bytes p);
  bytes_from_client := i64 (bytes_from_client t - bytes_from_client p);
  bytes_from_server := i64 (bytes_from_server t - bytes_from_server p);
  packets_from_client := i64 (packets_from_client t - packets_from_client p);
  packets_from_server := i64 (packets_from_server t - packets_from_server p) |}.

(** The traffic since the message before, with the counters that are kept for
    the next one; [None]: the message is rejected. *)
Definition session_traffic (v : syslog_m_t) (c : config) : option (traffic * config) :=
  let key := session_unique_key v in
  let curr := curr_traffic v in
  let session_prev := FetchSyslogSessionCounters key c in
  let prev := match session_prev with Some m => prev_traffic m | None => no_traffic end in
  let process_curr_counter :=
    match session_prev with
    | Some _ => negb ((total_bytes curr <? total_bytes prev) || (packets_from_client curr <? packets_from_client prev))
    | None => true
    end in
  let c := match session_prev with
           | Some _ => if is_close v then (RemoveSyslogSessionCounter key c).2 else c
           | None => c
           end in
  let '(addSessionCounter, c) :=
    if negb (is_close v) && processes_vol v && process_curr_counter
    then AddSyslogSessionCounter key (session_curr_traffic_counters curr) c else (true, c) in
  if addSessionCounter : bool
  then Some (if process_curr_counter : bool then diff_traffic curr prev else no_traffic, c) else None.

(** The record on the site the traffic goes to, when it is meant for a site, and
    whether the site is known ([is_site_traffic_destination]). *)
Definition is_site_traffic (v : syslog_m_t) : bool :=
  (is_close v || is_vol_update v) && iequals (known v "destination-zone-name") "trust".
Definition vpn_name (v : syslog_m_t) : string :=
  let routing_instance := known v "routing-instance" in
  if (routing_instance =? "UNKNOWN")%string
  then get_VPNName_department (known v "source-zone-name") (known v "network-segmentation") (known v "tenantaddr")
  else get_VPNName routing_instance.
(** [destination_site], empty when it is not known. *)
Definition destination_site (v : syslog_m_t) (c : config) : string :=
  if (vpn_name v =? known v "routing-instance")%string then EmptyString
  else FindNetwork (known v "destination-address") (known v "tenant" +:+ "::" +:+ vpn_name v) (known v "location") (networks_map_ c).
Definition site_known (v : syslog_m_t) (c : config) : bool :=
  negb (is_site_traffic v) || negb (destination_site v c =? EmptyString)%string.
Definition kpi_metrics (v : syslog_m_t) (d : traffic) : metrics :=
  if is_close v then set_metric "session_close_count" 1 ∅ else set_metric "bps" (total_bytes d) ∅.
Definition through_hub (v : syslog_m_t) : bool :=
  bool_decide (is_Some (String.index 0 (known v "destination-interface-name" +:+ ",") (known v "HUBS"))).
Definition kpi_uve (v : syslog_m_t) (d : traffic) (c : config) : uve := {|
  uve_of := SDWANKPIMetrics; uve_name := known v "location";
  uve_maps :=
    if is_site_traffic v then
      let site := destination_site v c in
      let key := if (site =? EmptyString)%string then "UNKNOWN"%string else site in
      {[ (if through_hub v then "kpi_metrics_greater_diff" else "kpi_metrics_lesser_diff")%string := map_of [(key, kpi_metrics v d)] ]}
    else ∅
|}.

(** The two links of a message with the bytes sent over the first and received
    over the second.  Traffic from a hub is told by where it goes. *)
Definition hub_destination (dest : string) (known_site : bool) : string :=
  if (dest =? "HUB")%string || (dest =? "EHUB")%string
  then dest +:+ (if known_site then "2S" else "2CBO")%string else dest.
Definition destination_link (v : syslog_m_t) (known_site : bool) : link :=
  let l := link_of (known v "destination-interface-name") "destination-interface-name" v in
  {| lk_name := lk_name l; lk_underlay := lk_underlay l; lk_type := lk_type l;
     lk_destination := hub_destination (lk_destination l) known_site; lk_metadata := lk_metadata l |}.
Definition link_bytes (v : syslog_m_t) (key : string) (diff : Z) : Z :=
  let b := GetMapVal v key (-1) in if (b <? 0) || processes_vol v then diff else b.
Definition links (v : syslog_m_t) (d : traffic) (known_site : bool) : link * link * Z * Z :=
  let link1_bytes := link_bytes v "uplink-tx-bytes" (bytes_from_client d) in
  let link2_bytes := link_bytes v "uplink-rx-bytes" (bytes_from_server d) in
  if is_close v || is_vol_update v then
    let link1 := destination_link v known_site in
    let link2 := if processes_vol v then "N/A"%string else GetMapVals v "uplink-incoming-interface-name" "N/A" in
    if iequals link2 "N/A" then (link1, link1, bytes_from_client d, bytes_from_server d)
    else (link1, link_of link2 "uplink-incoming-interface-name" v, link1_bytes, link2_bytes)
  else if processes_vol v then
    let link1 := link_of (known v "destination-interface-name") "destination-interface-name" v in
    (link1, link1, link1_bytes, link2_bytes)
  else (link_of (known v "last-destination-interface-name") "last-destination-interface-name" v,
        link_of (known v "last-incoming-interface-name") "last-incoming-interface-name" v, link1_bytes, link2_bytes).

(** The metrics: of the whole traffic, and of a link. *)
Definition set_session (v : syslog_m_t) (m : metrics) : metrics :=
  if is_close v then set_metric "session_count" 1 (set_metric "session_duration" (GetMapVal v "elapsed-time" 0) m) else m.
Definition traffic_metrics (v : syslog_m_t) (d : traffic) : metrics :=
  set_session v (set_metric "input_bytes" (bytes_from_server d) (set_metric "output_bytes" (bytes_from_client d)
    (set_metric "total_bytes" (total_bytes d) (set_metric "output_pkts" (packets_from_client d)
    (set_metric "input_pkts" (packets_from_server d)
    (set_metric "total_pkts" (i64 (packets_from_server d + packets_from_client d)) ∅)))))).
Definition link_metrics (v : syslog_m_t) (total input output : Z) : metrics :=
  set_session v (set_metric "output_bytes" output (set_metric "input_bytes" input (set_metric "total_bytes" total ∅))).

(** The entries the maps on links get: one when both links are the same.  The
    second entry of a key that is there is lost. *)
Definition link_entries (v : syslog_m_t) (l : link * link * Z * Z) : list (link * metrics) :=
  let '(link1, link2, link1_bytes, link2_bytes) := l in
  if (lk_name link1 =? lk_name link2)%string
  then [(link1, link_metrics v (i64 (link1_bytes + link2_bytes)) link2_bytes link1_bytes)]
  else [(link1, link_metrics v link1_bytes 0 link1_bytes); (link2, link_metrics v link2_bytes link2_bytes 0)].
Definition link_map (key : link → string) (l : list (link * metrics)) : gmap string metrics :=
  map_of ((λ e, (key e.1, e.2)) <$> l).
Definition user_map (name : string) (summarize_user : bool) (key : string) (m : metrics)
  : gmap string (gmap string metrics) :=
  if summarize_user then {[ name := map_of [(key, m)] ]} else ∅.

(** [StructuredSyslogUVESummarizeData]: the records in the order they are sent. *)
Definition traffic_info (v : syslog_m_t) : string :=
  tt_app_dept_info (traffic_type_of v) (dscp_key_traffic (known v "dscp-alias-code") (known v "dscp-value")) v.
Definition StructuredSyslogUVESummarizeData (v : syslog_m_t) (summarize_user : bool) (c : config) : list uve * config :=
  if negb (processes_vol v) && is_vol_update v then ([], c) else
  match session_traffic v c with
  | None => ([], c)
  | Some (d, c') =>
      let info := traffic_info v in
      let sla := sla_profile_of v in
      let tt := traffic_type_of v in
      let es := link_entries v (links v d (site_known v c')) in
      let sums := if is_close v || is_vol_update v
        then <["app_metrics_diff_sla"%string := map_of [(info +:+ sla, traffic_metrics v d)]]>
               (user_map "app_metrics_diff_user" summarize_user (info +:+ username v) (traffic_metrics v d))
        else ∅ in
      ([kpi_uve v d c';
        {| uve_of := SDWANMetrics; uve_name := uvename v;
           uve_maps := <["app_metrics_diff_link"%string := link_map (λ l, info +:+ link_info l) es]>
                       (<["link_metrics_diff_traffic_type"%string := link_map (λ l, linkmetric_key l sla tt) es]> sums) |};
        {| uve_of := SDWANTenantMetrics; uve_name := tenantuvename v;
           uve_maps := {[ "tenant_metrics_diff_sla"%string := link_map (tenantmetric_key v sla tt) es ]} |}], c')
  end.

(** ** Reports of the probes of a link *)

(** [calculate_link_score], with the arithmetic of [double]. *)
Definition prec : Z := 53.
Definition emax : Z := 1024.
Definition dbl (z : Z) : spec_float := binary_normalize prec emax z 0 false.
Definition decimal (m : positive) (e : Z) : spec_float := S754_finite false m e.
Definition d93_2 : spec_float := decimal 6558366957358285 (-46).
Definition d0_035 : spec_float := decimal 5044031582654956 (-57).
Definition d0_000007 : spec_float := decimal 8264141345021879 (-70).
Definition d4_5 : spec_float := decimal 5066549580791808 (-50).
Definition fadd := SFadd prec emax.
Definition fsub := SFsub prec emax.
Definition fmul := SFmul prec emax.
Definition fdiv := SFdiv prec emax.
(** The conversion to [int64_t]: the fraction is cut off. *)
Definition truncated (d : spec_float) : Z :=
  match d with
  | S754_finite s m e =>
      let a := if 0 <=? e then Zpos m * 2 ^ e else Zpos m / 2 ^ (- e) in if s : bool then - a else a
  | _ => 0
  end.
Definition or_default (factor dflt : Z) : Z := if factor =? 0 then dflt else factor.

Definition effective_latency (latency jitter latency_factor jitter_factor : Z) : spec_float :=
  let latency_ms := dbl (Z.quot latency 1000) in
  let jitter_ms := dbl (Z.quot jitter 1000) in
  fadd (fadd (fmul latency_ms (fdiv (dbl (or_default latency_factor 100)) (dbl 100)))
             (fmul (fdiv (dbl (or_default jitter_factor 200)) (dbl 100)) jitter_ms)) (dbl 10).
Definition r_factor (latency packet_loss jitter effective_latency_threshold latency_factor jitter_factor
    packet_loss_factor : Z) : spec_float :=
  let eff := effective_latency latency jitter latency_factor jitter_factor in
  let r := if SFltb eff (dbl (or_default effective_latency_threshold 160))
           then fsub d93_2 (fdiv eff (dbl 40))
           else fsub d93_2 (fdiv (fsub eff (dbl 120)) (dbl 10)) in
  fsub r (fdiv (dbl (i64 (packet_loss * or_default packet_loss_factor 250))) (dbl 100)).
Definition mean_opinion (r : spec_float) : spec_float :=
  if SFltb r (dbl 0) then dbl 1
  else if SFltb (dbl 0) r && SFltb r (dbl 100) then
    fadd (fadd (dbl 1) (fmul d0_035 r)) (fmul (fmul (fmul d0_000007 r) (fsub r (dbl 60))) (fsub (dbl 100) r))
  else d4_5.
Definition calculate_link_score (latency packet_loss jitter effective_latency_threshold latency_factor jitter_factor
    packet_loss_factor : Z) : spec_float :=
  fmul (mean_opinion (r_factor latency packet_loss jitter effective_latency_threshold latency_factor jitter_factor
                        packet_loss_factor)) (dbl 20).

(** The metrics of a report: a value that is missing, or the highest one, which
    a device sends when a probe fails, is not used. *)
Definition sent_value (x highest : Z) : bool := negb (x =? -1) && negb (x =? highest).
Definition set_sent (field : string) (x : Z) (m : metrics) : metrics :=
  if sent_value x 4294967295 then set_metric field x m else m.
Definition dial_metrics (v : syslog_m_t) : metrics :=
  let pkt_loss := GetMapVal v "pkt-loss" (-1) in
  let rtt := GetMapVal v "rtt" (-1) in
  let rtt_jitter := GetMapVal v "rtt-jitter" (-1) in
  let m := set_sent "ingress_jitter" (GetMapVal v "ingress-jitter" (-1))
             (set_sent "egress_jitter" (GetMapVal v "egress-jitter" (-1))
             (set_sent "rtt_jitter" rtt_jitter (set_sent "rtt" rtt ∅))) in
  if sent_value pkt_loss 255 then
    let pkt_loss := if 100 <? pkt_loss then 100 else pkt_loss in
    let m := set_metric "pkt_loss" pkt_loss m in
    if sent_value rtt 4294967295 && sent_value rtt_jitter 4294967295 && sent_value pkt_loss 255 then
      set_metric "score" (truncated (calculate_link_score (Z.quot rtt 2) pkt_loss rtt_jitter
        (GetMapVal v "effective-latency-threshold" 0) (GetMapVal v "latency-factor" 0)
        (GetMapVal v "jitter-factor" 0) (GetMapVal v "packet-loss-factor" 0))) m
    else m
  else m.

Definition probe_type (v : syslog_m_t) : string := known v "active-probe-params".
Definition report_info (v : syslog_m_t) (dscp_key : string) : string := tt_app_dept_info (probe_type v) dscp_key v.
Definition report_link (v : syslog_m_t) (interface : string) : link :=
  link_of (known v interface) "destination-interface-name" v.
Definition dial_tenant_key (v : syslog_m_t) : string :=
  known v "location" +:+ "::" +:+ known v "sla-profile" +:+ "::" +:+ probe_type v.
Definition link_key (v : syslog_m_t) (l : link) : string := linkmetric_key l (known v "sla-profile") (probe_type v).

(** [StructuredSyslogUVESummarizeAppQoePSMR]: passive metrics. *)
Definition StructuredSyslogUVESummarizeAppQoePSMR (v : syslog_m_t) (summarize_user : bool) : list uve :=
  let l := report_link v "destination-interface-name" in
  let info := report_info v (dscp_key_report (known v "dscp-alias-code") (known v "ip-dscp")) in
  let m := dial_metrics v in
  [{| uve_of := SDWANTenantMetrics; uve_name := tenantuvename v;
      uve_maps := {[ "tenant_metrics_dial_sla"%string := map_of [(dial_tenant_key v, m)] ]} |};
   {| uve_of := SDWANMetrics; uve_name := uvename v;
      uve_maps := <["app_metrics_dial_sla"%string := map_of [(info +:+ known v "sla-profile", m)]]>
        (<["app_metrics_dial_link"%string := map_of [(info +:+ link_info l, m)]]>
        (<["link_metrics_dial_traffic_type"%string := map_of [(link_key v l, m)]]>
        (user_map "app_metrics_dial_user" summarize_user (info +:+ username v) m))) |}].

(** [StructuredSyslogUVESummarizeAppQoeASMR]: active metrics. *)
Definition StructuredSyslogUVESummarizeAppQoeASMR (v : syslog_m_t) : list uve :=
  let l := report_link v "destination-interface-name" in
  let m := dial_metrics v in
  [{| uve_of := SDWANMetrics; uve_name := uvename v;
      uve_maps := {[ "link_metrics_dial_traffic_type"%string := map_of [(link_key v l, m)] ]} |};
   {| uve_of := SDWANTenantMetrics; uve_name := tenantuvename v;
      uve_maps := {[ "tenant_metrics_dial_sla"%string := map_of [(dial_tenant_key v, m)] ]} |}].

(** The records of an event, which differ in the link and the metrics. *)
Definition event_uves (v : syslog_m_t) (summarize_user : bool) (info : string) (l : link) (m : metrics)
    (users : gmap string (gmap string metrics)) : list uve :=
  [{| uve_of := SDWANMetrics; uve_name := uvename v;
      uve_maps := <["app_metrics_diff_sla"%string := map_of [(info +:+ known v "sla-profile", m)]]>
        (<["app_metrics_diff_link"%string := map_of [(info +:+ link_info l, m)]]>
        (<["link_metrics_diff_traffic_type"%string := map_of [(link_key v l, m)]]>
        (user_map "app_metrics_diff_user" summarize_user (info +:+ username v) m ∪ users))) |};
   {| uve_of := SDWANTenantMetrics; uve_name := tenantuvename v;
      uve_maps := {[ "tenant_metrics_diff_sla"%string :=
        map_of [(tenantmetric_key v (known v "sla-profile") (probe_type v) l, m)] ]} |}].

(** [StructuredSyslogUVESummarizeAppQoeBPS]: another path was selected.  The two
    fields of the service class are read the wrong way round. *)
Definition switch_metrics (v : syslog_m_t) : metrics :=
  if (2 <? GetMapVal v "elapsed-time" 0) && negb (iequals (known v "reason") "session close")
  then set_metric "session_switch_count" 1 ∅ else ∅.
Definition StructuredSyslogUVESummarizeAppQoeBPS (v : syslog_m_t) (summarize_user : bool) : list uve :=
  event_uves v summarize_user (report_info v (dscp_key_report (known v "ip-dscp") (known v "dscp-alias-code")))
    (report_link v "previous-interface") (switch_metrics v) ∅.

(** [StructuredSyslogUVESummarizeAppQoeSMV]: a violation begins or ends. *)
Definition set_if (b : bool) (field : string) (m : metrics) : metrics := if b then set_metric field 1 m else m.
Definition counted (v : syslog_m_t) (key : string) : bool := negb (GetMapVal v key 0 =? 0).
Definition violation_metrics (v : syslog_m_t) : option metrics :=
  let violation_reason := GetMapVal v "violation-reason" (-1) in
  if 0 <? violation_reason then
    Some (set_if (counted v "pkt-loss-violation-count") "pkt_loss_violation_count"
         (set_if (counted v "rtt-violation-count") "rtt_violation_count"
         (set_if (counted v "jitter-violation-count") "jitter_violation_count"
         (set_metric "sla_violation_count" 1 ∅))))
  else if violation_reason =? 0 then
    Some (set_metric "sla_violation_duration" (GetMapVal v "violation-duration" 0) ∅)
  else None.
Definition StructuredSyslogUVESummarizeAppQoeSMV (v : syslog_m_t) (summarize_user : bool) : list uve :=
  match violation_metrics v with
  | Some m =>
      event_uves v summarize_user (report_info v (dscp_key_report (known v "dscp-alias-code") (known v "ip-dscp")))
        (report_link v "destination-interface-name") m
        (if summarize_user then {[ "app_metrics_dial_user"%string := ∅ ]} else ∅)
  | None => []
  end.

(** [StructuredSyslogUVESummarize]. *)
Definition StructuredSyslogUVESummarize (v : syslog_m_t) (summarize_user : bool) (c : config) : list uve * config :=
  let tag := known v "tag" in
  if (tag =? "APPTRACK_SESSION_CLOSE")%string || (tag =? "APPTRACK_SESSION_VOL_UPDATE")%string
     || (tag =? "RT_FLOW_NEXTHOP_CHANGE")%string then StructuredSyslogUVESummarizeData v summarize_user c
  else if (tag =? "APPQOE_BEST_PATH_SELECTED")%string then (StructuredSyslogUVESummarizeAppQoeBPS v summarize_user, c)
  else if (tag =? "APPQOE_PASSIVE_SLA_METRIC_REPORT")%string || (tag =? "APPQOE_APP_PASSIVE_SLA_METRIC_REPORT")%string
  then (StructuredSyslogUVESummarizeAppQoePSMR v summarize_user, c)
  else if (tag =? "APPQOE_ACTIVE_SLA_METRIC_REPORT")%string then (StructuredSyslogUVESummarizeAppQoeASMR v, c)
  else if (tag =? "APPQOE_SLA_METRIC_VIOLATION")%string then (StructuredSyslogUVESummarizeAppQoeSMV v summarize_user, c)
  else ([], c).
End summaries.

(** ** What is reported of a session *)

Section telescope.
Context {ind : Indeterminate}.

(** The bytes the entries on links of the records report, and a counter of the
    message before. *)
Definition link_sum (field : string) (m : gmap string metrics) : Z :=
  map_fold (λ _ e acc, default 0 (e !! field) + acc) 0 m.
Definition bytes_in (field : string) (us : list uve) : Z :=
  foldr (λ u acc, match uve_of u with
                  | SDWANMetrics => link_sum field (default ∅ (uve_maps u !! "app_metrics_diff_link"%string))
                  | _ => 0
                  end + acc) 0 us.
Definition stored (key field : string) (c : config) : Z :=
  default 0 (session_config_map_ c !! key ≫= lookup field).

(** A run over messages, and what it reports of a session. *)
Fixpoint summarize_all (ms : list (syslog_m_t * bool)) (c : config) : list (string * list uve) * config :=
  match ms with
  | [] => ([], c)
  | (v, summarize_user) :: ms =>
      let '(us, c) := StructuredSyslogUVESummarize v summarize_user c in
      let '(outs, c) := summarize_all ms c in ((session_unique_key v, us) :: outs, c)
  end.
Definition reported (key field : string) (outs : list (string * list uve)) : Z :=
  foldr (λ o acc, (if decide (o.1 = key) then bytes_in field o.2 else 0) + acc) 0 outs.

(** The two directions: the member of an entry, the counter it comes from. *)
Inductive direction := Sent | Got.
Definition member_of (r : direction) : string := match r with Sent => "output_bytes" | Got => "input_bytes" end.
Definition counter_of (r : direction) : string := match r with Sent => "bytes-from-client" | Got => "bytes-from-server" end.
Definition bytes_of (r : direction) (t : traffic) : Z :=
  match r with Sent => bytes_from_client t | Got => bytes_from_server t end.

Lemma u64_congr a b : u64 a = u64 b ↔ (2 ^ 64 | a - b).
Proof.
  unfold u64. split.
  - intros H. exists (a / 2 ^ 64 - b / 2 ^ 64).
    pose proof (Z.div_mod a (2 ^ 64)). pose proof (Z.div_mod b (2 ^ 64)). lia.
  - intros [q Hq]. replace a with (b + q * 2 ^ 64) by lia. by apply Z.mod_add.
Qed.
Lemma u64_i64 z : u64 (i64 z) = u64 z.
Proof.
  apply u64_congr. exists (- ((z + 2 ^ 63) / 2 ^ 64)). unfold i64.
  pose proof (Z.div_mod (z + 2 ^ 63) (2 ^ 64)). lia.
Qed.
Lemma u64_u64 z : u64 (u64 z) = u64 z.
Proof. apply u64_small, u64_bound. Qed.

Lemma map_of_singleton k (m : metrics) : map_of [(k, m)] = {[k := m]}.
Proof. unfold map_of, map_insert_new. simpl. by rewrite lookup_empty. Qed.
Lemma link_sum_singleton field k (m : metrics) : link_sum field {[k := m]} = default 0 (m !! field).
Proof. unfold link_sum. rewrite map_fold_singleton. lia. Qed.

(** One message: the counters kept and the bytes it reports. *)
Lemma stored_add key m c c' key' field : AddSyslogSessionCounter key m c = (true, c') →
  stored key' field c' = if decide (key' = key) then default 0 (m !! field) else stored key' field c.
Proof.
  unfold AddSyslogSessionCounter, stored. intros H.
  assert (session_config_map_ c' = <[key := m]> (session_config_map_ c)) as ->.
  { destruct (session_config_map_ c !! key); [by inversion H|].
    destruct (_ <=? _); by inversion H. }
  case_decide; subst; [by rewrite lookup_insert_eq|by rewrite lookup_insert_ne].
Qed.
Lemma counters_lookup t r : session_curr_traffic_counters t !! counter_of r = Some (u64 (bytes_of r t)).
Proof. by destruct r. Qed.
Lemma prev_bytes r m : u64 (bytes_of r (prev_traffic m)) = u64 (default 0 (m !! counter_of r)).
Proof. destruct r; apply u64_i64. Qed.

Lemma session_traffic_other v c d c' key field : session_traffic v c = Some (d, c') →
  session_unique_key v ≠ key → stored key field c' = stored key field c.
Proof.
  unfold session_traffic. intros H Hk. revert H.
  set (c1 := match FetchSyslogSessionCounters _ c with Some _ => _ | None => c end).
  assert (stored key field c1 = stored key field c) as <-.
  { unfold c1. destruct (FetchSyslogSessionCounters _ c); [|done]. destruct (is_close v); [|done].
    unfold stored, RemoveSyslogSessionCounter. simpl. by rewrite lookup_delete_ne. }
  destruct (_ && _ && _); [|by intros [= _ ->]].
  destruct (AddSyslogSessionCounter _ _ c1) as [[] c2] eqn:E; [|done]. intros [= _ ->].
  rewrite (stored_add _ _ _ _ _ _ E). by rewrite decide_False by done.
Qed.
Lemma session_traffic_open v c d c' r : session_traffic v c = Some (d, c') →
  is_close v = false → processes_vol v = true →
  u64 (bytes_of r d) = u64 (stored (session_unique_key v) (counter_of r) c' - stored (session_unique_key v) (counter_of r) c).
Proof.
  unfold session_traffic, FetchSyslogSessionCounters. intros H Hc Hv. rewrite Hc, Hv in H. simpl in H.
  set (key := session_unique_key v) in *. set (curr := curr_traffic v) in *.
  assert (∀ prev c2, AddSyslogSessionCounter key (session_curr_traffic_counters curr) c = (true, c2) →
    u64 (bytes_of r prev) = u64 (stored key (counter_of r) c) →
    u64 (bytes_of r (diff_traffic curr prev)) = u64 (stored key (counter_of r) c2 - stored key (counter_of r) c)) as Hadd.
  { intros prev c2 E Hp. rewrite (stored_add _ _ _ _ _ _ E), decide_True, counters_lookup by done. simpl.
    assert (u64 (bytes_of r (diff_traffic curr prev)) = u64 (bytes_of r curr - bytes_of r prev)) as -> by (destruct r; apply u64_i64).
    apply u64_congr in Hp as [q Hq]. apply u64_congr.
    destruct (proj1 (u64_congr _ _) (u64_u64 (bytes_of r curr))) as [q' Hq']. exists (- q - q'). lia. }
  assert (stored key (counter_of r) c
          = match session_config_map_ c !! key with Some m => default 0 (m !! counter_of r) | None => 0 end) as Est.
  { unfold stored. by destruct (_ !! _). }
  destruct (session_config_map_ c !! key) as [m|] eqn:Em; simpl in *.
  - destruct (negb _) in H.
    + destruct (AddSyslogSessionCounter _ _ c) as [[] c2] eqn:E; [|done]. injection H as <- <-.
      apply Hadd; [done|]. rewrite Est. apply prev_bytes.
    + injection H as <- <-. rewrite Z.sub_diag. by destruct r.
  - destruct (AddSyslogSessionCounter _ _ c) as [[] c2] eqn:E; [|done]. injection H as <- <-.
    apply Hadd; [done|]. rewrite Est. by destruct r.
Qed.

(** The counters of a closing message are not smaller than those before it. *)
Definition in_order (v : syslog_m_t) (c : config) : Prop :=
  ∀ m, session_config_map_ c !! session_unique_key v = Some m →
    total_bytes (prev_traffic m) <= total_bytes (curr_traffic v) ∧
    packets_from_client (prev_traffic m) <= packets_from_client (curr_traffic v).
Lemma session_traffic_close v c r : is_close v = true → in_order v c → ∃ d c',
  session_traffic v c = Some (d, c') ∧ session_config_map_ c' !! session_unique_key v = None ∧
  u64 (bytes_of r d) = u64 (bytes_of r (curr_traffic v) - stored (session_unique_key v) (counter_of r) c).
Proof.
  intros Hc Ho. unfold session_traffic, FetchSyslogSessionCounters, stored. rewrite Hc. cbn [negb andb].
  destruct (session_config_map_ c !! session_unique_key v) as [m|] eqn:Em; cbv zeta; cbn [mbind option_bind].
  - destruct (Ho m Em) as [Ht Hp]. rewrite (proj2 (Z.ltb_ge _ _) Ht), (proj2 (Z.ltb_ge _ _) Hp).
    eexists _, _. split; [reflexivity|]. split; [apply lookup_delete_eq|].
    pose proof (prev_bytes r m) as [q Hq]%u64_congr.
    destruct r; simpl in *; rewrite u64_i64; apply u64_congr; exists (- q); lia.
  - eexists _, _. split; [reflexivity|]. split; [done|]. destruct r; apply u64_i64.
Qed.

Lemma data_bytes v summarize_user c d c' r : processes_vol v = true →
  session_traffic v c = Some (d, c') →
  bytes_in (member_of r) (StructuredSyslogUVESummarizeData v summarize_user c).1 = u64 (bytes_of r d) ∧
  (StructuredSyslogUVESummarizeData v summarize_user c).2 = c'.
Proof.
  intros Hv H. unfold StructuredSyslogUVESummarizeData. rewrite Hv, H. simpl. split; [|done].
  rewrite lookup_insert_eq. simpl. rewrite Z.add_0_r.
  assert (∃ l, link_entries v (links v d (site_known v c'))
    = [(l, link_metrics v (i64 (bytes_from_client d + bytes_from_server d)) (bytes_from_server d) (bytes_from_client d))]) as [l ->].
  { unfold links, link_bytes. rewrite Hv, !orb_true_r. destruct (_ || _); simpl; rewrite String.eqb_refl; eauto. }
  unfold link_map. simpl. rewrite map_of_singleton, link_sum_singleton.
  unfold link_metrics, set_session, set_metric. destruct r, (is_close v); simpl; by rewrite ?lookup_insert_ne, lookup_insert_eq by done.
Qed.
Lemma data_rejected v summarize_user c : processes_vol v = true → session_traffic v c = None →
  StructuredSyslogUVESummarizeData v summarize_user c = ([], c).
Proof. intros Hv H. unfold StructuredSyslogUVESummarizeData. by rewrite Hv, H. Qed.

(** Events report no bytes. *)
Lemma event_bytes v summarize_user info l m users field : m !! field = None →
  bytes_in field (event_uves v summarize_user info l m users) = 0.
Proof.
  intros Hm. unfold event_uves. simpl. rewrite lookup_insert_ne, lookup_insert_eq by done. simpl.
  by rewrite map_of_singleton, link_sum_singleton, Hm.
Qed.
Lemma report_bytes v summarize_user r : bytes_in (member_of r) (StructuredSyslogUVESummarizeAppQoePSMR v summarize_user) = 0.
Proof.
  simpl. rewrite !lookup_insert_ne by done. unfold user_map. destruct summarize_user; [|done].
  by rewrite lookup_singleton_ne.
Qed.
Lemma violation_bytes v m r : violation_metrics v = Some m → m !! member_of r = None.
Proof.
  unfold violation_metrics, set_if, set_metric. intros H.
  repeat (case_hyp H; try done); injection H as <-; destruct r; simpl; by rewrite !lookup_insert_ne.
Qed.
Lemma summarize_others v summarize_user c r :
  StructuredSyslogUVESummarize v summarize_user c = StructuredSyslogUVESummarizeData v summarize_user c ∨
  bytes_in (member_of r) (StructuredSyslogUVESummarize v summarize_user c).1 = 0 ∧
  (StructuredSyslogUVESummarize v summarize_user c).2 = c ∧ is_close v = false.
Proof.
  unfold StructuredSyslogUVESummarize, is_close.
  destruct (known v "tag" =? "APPTRACK_SESSION_CLOSE")%string; [by left|].
  destruct (known v "tag" =? "APPTRACK_SESSION_VOL_UPDATE")%string; [by left|].
  destruct (known v "tag" =? "RT_FLOW_NEXTHOP_CHANGE")%string; [by left|]. right. simpl.
  destruct (known v "tag" =? "APPQOE_BEST_PATH_SELECTED")%string.
  { split; [|done]. apply event_bytes. unfold switch_metrics, set_metric. destruct (_ && _); [|done]. by destruct r. }
  destruct (_ || _); [split; [apply report_bytes|done]|].
  destruct (_ =? _)%string; [split; [by destruct r|done]|].
  destruct (_ =? _)%string; [|done]. split; [|done]. simpl. unfold StructuredSyslogUVESummarizeAppQoeSMV.
  destruct (violation_metrics v) as [m|] eqn:E; [|done]. by apply event_bytes, (violation_bytes v).
Qed.

Lemma u64_add a b a' b' : u64 a = u64 a' → u64 b = u64 b' → u64 (a + b) = u64 (a' + b').
Proof. rewrite !u64_congr. intros [q Hq] [q' Hq']. exists (q + q'). lia. Qed.

Lemma summarize_step v summarize_user c key r : processes_vol v = true →
  (session_unique_key v = key → is_close v = false) →
  u64 (if decide (session_unique_key v = key)
       then bytes_in (member_of r) (StructuredSyslogUVESummarize v summarize_user c).1 else 0)
  = u64 (stored key (counter_of r) (StructuredSyslogUVESummarize v summarize_user c).2 - stored key (counter_of r) c).
Proof.
  intros Hv Hclose. destruct (summarize_others v summarize_user c r) as [->|(Hb & -> & _)].
  - destruct (session_traffic v c) as [[d c']|] eqn:E.
    + destruct (data_bytes v summarize_user c d c' r Hv E) as [-> ->]. case_decide as Hk.
      * subst key. rewrite u64_u64. apply (session_traffic_open v c d c'); auto.
      * by rewrite (session_traffic_other v c d c' key _ E Hk), Z.sub_diag.
    + rewrite data_rejected by done. rewrite Z.sub_diag. by case_decide.
  - rewrite Hb, Z.sub_diag. by case_decide.
Qed.

Lemma summarize_all_reported ms c key r :
  Forall (λ m, processes_vol m.1 = true ∧ (session_unique_key m.1 = key → is_close m.1 = false)) ms →
  u64 (reported key (member_of r) (summarize_all ms c).1)
  = u64 (stored key (counter_of r) (summarize_all ms c).2 - stored key (counter_of r) c).
Proof.
  intros H. revert c. induction H as [|[v summarize_user] ms [Hv Hc] _ IH]; intros c; simpl.
  - by rewrite Z.sub_diag.
  - pose proof (summarize_step v summarize_user c key r Hv Hc) as Hs.
    destruct (StructuredSyslogUVESummarize v summarize_user c) as [us c'] eqn:E. simpl in *. specialize (IH c').
    destruct (summarize_all ms c') as [outs c''] eqn:E'. simpl in *.
    rewrite (u64_add _ _ _ _ Hs IH). f_equal. lia.
Qed.

Lemma summarize_all_app ms ms' c :
  summarize_all (ms ++ ms') c = ((summarize_all ms c).1 ++ (summarize_all ms' (summarize_all ms c).2).1,
                                 (summarize_all ms' (summarize_all ms c).2).2).
Proof.
  revert c. induction ms as [|[v b] ms IH]; intros c; simpl; [by destruct (summarize_all ms' c)|].
  destruct (StructuredSyslogUVESummarize v b c) as [us c']. rewrite IH.
  destruct (summarize_all ms c') as [outs c'']. simpl. done.
Qed.
Lemma reported_app key field l l' : reported key field (l ++ l') = reported key field l + reported key field l'.
Proof. induction l as [|o l IH]; simpl; [done|]. rewrite IH. lia. Qed.

(** C29.  Every byte of a session is reported once: however its updates
    interleave with the messages of other sessions, and whether they are late
    or refused because of the limit, the links' records of a session that is
    closed add up to its last counters, and it is forgotten; until then they
    add up to the counters that are kept. *)
Theorem session_bytes_reported ms v summarize_user c key r :
  let seen := summarize_all ms c in
  let all := summarize_all (ms ++ [(v, summarize_user)]) c in
  session_config_map_ c !! key = None →
  Forall (λ m, processes_vol m.1 = true ∧ (session_unique_key m.1 = key → is_close m.1 = false)) ms →
  processes_vol v = true → session_unique_key v = key → is_close v = true → in_order v seen.2 →
  u64 (reported key (member_of r) seen.1) = u64 (stored key (counter_of r) seen.2) ∧
  u64 (reported key (member_of r) all.1) = u64 (bytes_of r (curr_traffic v)) ∧
  session_config_map_ all.2 !! key = None.
Proof.
  intros seen all Hn Hms Hv Hk Hc Ho.
  pose proof (summarize_all_reported ms c key r Hms) as Hseen. fold seen in Hseen.
  assert (stored key (counter_of r) c = 0) as H0 by (unfold stored; by rewrite Hn).
  rewrite H0, Z.sub_0_r in Hseen. split; [done|].
  unfold all. rewrite summarize_all_app. fold seen. simpl.
  destruct (session_traffic_close v seen.2 r Hc Ho) as (d & c' & E & Hf & Hd).
  destruct (data_bytes v summarize_user _ _ _ r Hv E) as [Hb Hs].
  destruct (summarize_others v summarize_user seen.2 r) as [Hd'|(_ & _ & H)]; [|congruence].
  rewrite Hd'. destruct (StructuredSyslogUVESummarizeData v summarize_user seen.2) as [us c2].
  simpl in *. subst c2 key. split; [|done].
  rewrite reported_app. simpl. rewrite decide_True, Hb, Z.add_0_r by done.
  rewrite (u64_add _ _ _ _ Hseen (eq_trans (u64_u64 _) Hd)). f_equal. lia.
Qed.
End telescope.

(** ** Further facts *)

Section facts.
Context {ind : Indeterminate}.

(** When the two links of a message go to the same kind of place over the same
    type of link, their entries in the tenant's record have one key: the second
    one, with the bytes received, is not sent. *)
Lemma tenant_second_link_lost v sla traffic_type link1 link2 link1_bytes link2_bytes :
  lk_name link1 ≠ lk_name link2 →
  lk_destination link1 = lk_destination link2 → lk_type link1 = lk_type link2 →
  link_map (tenantmetric_key v sla traffic_type) (link_entries v (link1, link2, link1_bytes, link2_bytes))
  = {[ tenantmetric_key v sla traffic_type link1 := link_metrics v link1_bytes 0 link1_bytes ]}.
Proof.
  intros Hn Hd Ht. unfold link_entries, link_map. rewrite string_eqb_false by done.
  unfold map_of, map_insert_new, tenantmetric_key. simpl. by rewrite lookup_empty, Hd, Ht, lookup_insert_eq.
Qed.

(** The prefixes of a routing instance are taken off, with or without a hub. *)
Lemma after_prefix_app p s : s ≠ EmptyString → after_prefix p (p +:+ s) = Some s.
Proof.
  intros Hs. unfold after_prefix. rewrite starts_with_app, length_app, andb_true_r.
  assert (String.length s ≠ 0%nat) by (by destruct s). rewrite (proj2 (Nat.ltb_lt _ _)) by lia.
  unfold drop_string. rewrite length_app, substring_drop.
  replace (_ + _ - _)%nat with (String.length s) by lia. by rewrite substring_all.
Qed.
Lemma vpn_of_instance p name :
  In p ["Default-reverse-"; "mpls-"; "internet-"]%string → name ≠ EmptyString → after_prefix "hub-" name = None →
  get_VPNName (p +:+ name) = name ∧ get_VPNName (p +:+ "hub-" +:+ name) = name.
Proof.
  intros Hp Hn Hh. assert ("hub-" +:+ name ≠ EmptyString)%string as Hne by done.
  pose proof (after_prefix_app p name Hn) as E1. pose proof (after_prefix_app p _ Hne) as E2.
  assert (without_hub name = name) as W1 by (unfold without_hub; by rewrite Hh).
  assert (without_hub ("hub-" +:+ name) = name) as W2 by (unfold without_hub; by rewrite (after_prefix_app "hub-")).
  unfold get_VPNName. simpl in Hp. destruct Hp as [<-|[<-|[<-|[]]]]; rewrite E1, E2; auto.
  all: unfold after_prefix, starts_with at 1; simpl; rewrite ?andb_false_r; auto.
Qed.
End facts.

(** ** Examples *)

Module UveExamples.
#[local] Instance zeros : Indeterminate := {| indeterminate _ := 0 |}.

Definition texts (l : list (string * string)) : syslog_m_t := list_to_map ((λ e, (e.1, Holder_str e.1 e.2)) <$> l).
Definition numbers (l : list (string * Z)) : syslog_m_t := list_to_map ((λ e, (e.1, Holder_int e.1 e.2)) <$> l).
Definition message (tag id : string) (sent got packets : Z) : syslog_m_t :=
  texts [("tag", tag); ("process-vol-update", "true"); ("tenant", "acme"); ("location", "paris"); ("device", "gw1");
         ("session-id-32", id); ("destination-interface-name", "ge-0/0/1"); ("application", "HTTP")]%string ∪
  numbers [("bytes-from-client", sent); ("bytes-from-server", got); ("total-bytes", sent + got);
           ("packets-from-client", packets); ("packets-from-server", packets)]%string.
Definition update (id : string) (sent got packets : Z) : syslog_m_t * bool :=
  (message "APPTRACK_SESSION_VOL_UPDATE" id sent got packets, false).
(** Two sessions; the third update of the first one comes late. *)
Definition updates : list (syslog_m_t * bool) :=
  [update "1" 100 50 1; update "2" 7 7 1; update "1" 300 80 4; update "1" 200 60 2; update "2" 9 8 2]%string.
Definition closing : syslog_m_t := message "APPTRACK_SESSION_CLOSE" "1" 500 100 6.

Example updates_reported :
  let outs := (summarize_all updates (empty_config 5)).1 in
  (reported "acme::paris::gw1::1" "output_bytes" outs, reported "acme::paris::gw1::2" "output_bytes" outs) = (300, 9).
Proof. vm_compute. reflexivity. Qed.

Lemma session_bytes_reported_witness :
  u64 (reported (session_unique_key closing) "output_bytes" (summarize_all (updates ++ [(closing, true)]) (empty_config 5)).1)
  = u64 (bytes_from_client (curr_traffic closing)).
Proof.
  assert (Forall (λ m, processes_vol m.1 = true ∧ (session_unique_key m.1 = session_unique_key closing → is_close m.1 = false)) updates)
    as Hu by (repeat (apply Forall_cons; split; [split; [|intros _]; vm_compute; reflexivity|]); apply Forall_nil_2).
  assert (in_order closing (summarize_all updates (empty_config 5)).2) as Ho.
  { intros m Hm.
    assert (session_config_map_ (summarize_all updates (empty_config 5)).2 !! session_unique_key closing
      = Some (session_curr_traffic_counters (curr_traffic (update "1" 300 80 4).1))) as E by (vm_compute; reflexivity).
    rewrite E in Hm. injection Hm as <-. split; apply Z.leb_le; vm_compute; reflexivity. }
  assert (session_config_map_ (empty_config 5) !! session_unique_key closing = None) as Hn by (vm_compute; reflexivity).
  assert (processes_vol closing = true) as Hv by (vm_compute; reflexivity).
  assert (is_close closing = true) as Hc by (vm_compute; reflexivity).
  exact (proj1 (proj2 (session_bytes_reported updates closing true (empty_config 5) (session_unique_key closing) Sent
    Hn Hu Hv eq_refl Hc Ho))).
Defined.

(** The score of a link falls with the packets it loses, but where the factor of
    the last but one step is zero it is the highest there is. *)
Example link_scores :
  (λ packet_loss, truncated (calculate_link_score 18000 packet_loss 0 0 0 0 0)) <$> [0; 20; 36; 37; 38; 100]
  = [87; 43; 19; 90; 20; 20].
Proof. vm_compute. reflexivity. Qed.
End UveExamples.
