(* ===== verification/SyslogMessage.v ===== *)
(** * Structured syslog messages

    Of [contrail-collector/structured_syslog_server.cc] what is made of one
    message: its structured part is cut into fields, the fields are completed
    from the configuration ([StructuredSyslogDecorate]), and then the message is
    summarised ([SyslogUve]), forwarded as text and JSON, and stored as a sample
    of statistics.  When the message is forwarded after its processing, what
    was added to its fields is added to its text as well. *)
From Stdlib Require Import Ascii.
From stdpp Require Import base tactics list strings gmap pretty.
From Stdlib Require Import ZArith Lia.
From S2P Require Import Prelude.
From S2P Require Import CppString.
From S2P Require Import Json.
From S2P Require Import PostProcessing.
From S2P Require Import StatsSelect.
From S2P Require Import StatWalker.
From S2P Require Import UserDefinedCounters.
From S2P Require Import SyslogNetworks.
From S2P Require Import SyslogConfig.
From S2P Require Import SyslogFields.
From S2P Require Import SyslogUve.
Local Open Scope Z_scope.

(** ** The structured part *)

(** [atol]. *)
Definition atol (s : string) : Z := Z.max (- 2 ^ 63) (Z.min (2 ^ 63 - 1) (signed_prefix s)).

Definition quote : string := String "034" EmptyString.
Definition insert_at (pos : Z) (t s : string) : string :=
  String.substring 0 (Z.to_nat pos) s +:+ t +:+ drop_string (Z.to_nat pos) s.

(** [DecorateMsg]: the text with the field, and the position it was inserted at. *)
Definition insert_text (key val : string) : string := " " +:+ key +:+ "=" +:+ quote +:+ val +:+ quote.
Definition DecorateMsg (msg : option string) (key val : string) (prev_pos : Z) : option string * Z :=
  match msg with
  | None => (None, 0)
  | Some m =>
      let pos := find m "]" prev_pos in
      if pos =? npos then (msg, 0) else (Some (insert_at pos (insert_text key val) m), pos)
  end.

Section message.
Context {ind : Indeterminate}.

(** [ParseStructuredPart]: whether every value ends, the fields and the text. *)
Definition insert_field (int_fields : list string) (key val : string) (v : syslog_m_t) : syslog_m_t :=
  if bool_decide (key ∈ int_fields) then insert_int key (atol val) v else insert_str key val v.
Fixpoint parse_loop (fuel : nat) (structured_part : string) (int_fields : list string) (start prev_pos : Z)
    (v : syslog_m_t) (msg : option string) : option (bool * syslog_m_t * option string) :=
  match fuel with
  | O => None
  | S fuel =>
      let e := find structured_part "=" start in
      if e =? npos then Some (true, v, msg) else
      key ← substr structured_part start (e - start);
      let start := e + 2 in
      let e := find structured_part "034" start in
      if e =? npos then Some (false, v, msg) else
      val ← substr structured_part start (e - start);
      let start := e + 2 in
      let '(msg, prev_pos) := DecorateMsg msg key val prev_pos in
      parse_loop fuel structured_part int_fields start prev_pos (insert_field int_fields key val v) msg
  end.
Definition ParseStructuredPart (v : syslog_m_t) (structured_part : string) (int_fields : list string)
    (msg : option string) : outcome (bool * syslog_m_t * option string) :=
  stop_unless (parse_loop (S (String.length structured_part)) structured_part int_fields 0 0 v msg).

(** ** Filters *)

Definition filter_msg (v : syslog_m_t) : bool :=
  let tag := known v "tag" in
  let reason := known v "reason" in
  if (tag =? "APPQOE_BEST_PATH_SELECTED")%string && ((reason =? "session close")%string || (reason =? "app detected")%string)
  then false
  else if ((tag =? "SNMP_TRAP_LINK_UP")%string || (tag =? "SNMP_TRAP_LINK_DOWN")%string)
       && (known v "role" =? "HUB")%string && negb (starts_with (known v "interface-name") "st")
  then false else true.
Definition filter_session_close_msg (v : syslog_m_t) : bool := starts_with (known v "routing-instance") "LAN-".
Definition filter_vol_update_msg (v : syslog_m_t) : bool :=
  let department := known v "source-zone-name" in starts_with department "trust" || starts_with department "untrust".

(** ** What the configuration adds *)

(** The fields, the text and the position of the last insertion into it. *)
Record decorated := { dc_fields : syslog_m_t; dc_msg : option string; dc_pos : Z }.
Definition add_text (key val : string) (d : decorated) : decorated :=
  let '(m, p) := DecorateMsg (dc_msg d) key val (dc_pos d) in {| dc_fields := dc_fields d; dc_msg := m; dc_pos := p |}.
Definition add_fields (f : syslog_m_t → syslog_m_t) (d : decorated) : decorated :=
  {| dc_fields := f (dc_fields d); dc_msg := dc_msg d; dc_pos := dc_pos d |}.
(** A field in the place of the one that is there, when its value is not empty. *)
Definition replace_field (key val : string) (d : decorated) : decorated :=
  if (val =? EmptyString)%string then d
  else add_text key val (add_fields (λ v, insert_str key val (delete key v)) d).
(** The fields of a text of the configuration. *)
Definition parse_into (int_fields : list string) (text : string) (d : decorated) : outcome decorated :=
  if (text =? EmptyString)%string then Done d else
  '(_, v, msg) ← ParseStructuredPart (dc_fields d) text int_fields (dc_msg d);
  Done {| dc_fields := v; dc_msg := msg; dc_pos := dc_pos d |}.

(** [sla_profile], from the name of a rule when there is no other. *)
Definition sla_profile_of_rule (v : syslog_m_t) : outcome string :=
  let sla_profile := GetMapVals v "sla-rule" EmptyString in
  if negb (sla_profile =? EmptyString)%string then Done sla_profile else
  let rn := GetMapVals v "rule-name" EmptyString in
  if (rn =? EmptyString)%string then Done "DEFAULT"%string else
  let start := find_last_of rn "_" in
  if start =? npos then Done "DEFAULT"%string else stop_unless (substr rn (start + 1) npos).

(** What is known of the interface in a field; a part that is missing is read
    outside of the vector. *)
Definition link_parts : list string := ["underlay-"; "link-type-"; "traffic-destination-"; "metadata-"]%string.
Definition link_fields : list string :=
  ["destination-interface-name"; "last-incoming-interface-name"; "uplink-incoming-interface-name";
   "last-destination-interface-name"]%string.
Definition add_link (linkmap : gmap string string) (v : syslog_m_t) (field : string) : outcome syslog_m_t :=
  let overlay_link := GetMapVals v field EmptyString in
  if (overlay_link =? EmptyString)%string || (overlay_link =? "N/A")%string then Done v else
  match linkmap !! overlay_link with
  | None => Done v
  | Some data =>
      let link_data := split_compressed "@" data in
      fold_outcome (λ v ip, x ← stop_unless (link_data !! ip.1); Done (insert_str (ip.2 +:+ field) x v)) v
        (imap pair link_parts)
  end.

(** The family of an address ([boost::asio::ip::address]), and [get_ip_version]. *)
Class IpAddress := { is_v4 : string → option bool }.
Context {addresses : IpAddress}.
Definition get_ip_version (ip : string) : Z :=
  match is_v4 ip with Some true => 4 | Some false => 6 | None => -1 end.

(** The class of service of the message, from the map of the tenant. *)
Definition dscp_of (v : syslog_m_t) : string :=
  let dscp_value := GetMapVals v "dscp-value" EmptyString in
  if (dscp_value =? EmptyString)%string then GetMapVals v "ip-dscp" EmptyString else dscp_value.
Definition add_alias_code (tr : TenantRecord) (v : syslog_m_t) : syslog_m_t :=
  let dscp_value := dscp_of v in
  if (dscp_value =? EmptyString)%string then v else
  let destination_address := known v "destination-address" in
  let ip_version := if (destination_address =? "UNKNOWN")%string then 4 else get_ip_version destination_address in
  let dscpmap := if ip_version =? 4 then tr_dscpmap_ipv4 tr else if ip_version =? 6 then tr_dscpmap_ipv6 tr else ∅ in
  match dscpmap !! dscp_value with Some code => insert_str "dscp-alias-code" code v | None => v end.
Definition decorate_tenant (int_fields : list string) (tr : option TenantRecord) (d : decorated) : outcome decorated :=
  match tr with
  | None => Done d
  | Some tr =>
      let d := if (tr_tenantaddr tr =? EmptyString)%string then d
               else add_fields (insert_str "tenantaddr" (tr_tenantaddr tr)) d in
      d ← parse_into int_fields (tr_tags tr) d;
      Done (add_fields (add_alias_code tr) d)
  end.

(** The record of the host. *)
Definition decorate_host (int_fields : list string) (sla_profile : string) (hr : HostnameRecord) (c : config)
    (d : decorated) : outcome decorated :=
  let d := replace_field "device" (hr_device hr)
             (replace_field "location" (hr_location hr) (replace_field "tenant" (hr_tenant hr) d)) in
  d ← parse_into int_fields (hr_tags hr) d;
  v ← fold_outcome (add_link (hr_linkmap hr)) (dc_fields d) link_fields;
  d ← decorate_tenant int_fields (GetTenantRecord (hr_tenant hr) c) (add_fields (λ _, v) d);
  match GetSlaProfileRecord (hr_tenant hr +:+ "/" +:+ hr_device hr +:+ "/" +:+ sla_profile) c with
  | Some sla_rec => parse_into int_fields (sr_sla_params sla_rec) d
  | None => Done d
  end.

(** [StructuredSyslogDecorate]. *)
Definition sum_of_bytes (v : syslog_m_t) : Z := i64 (GetMapVal v "bytes-from-client" 0 + GetMapVal v "bytes-from-server" 0).
Definition start_decoration (v : syslog_m_t) (msg : option string) : decorated :=
  let total_bytes := sum_of_bytes v in
  add_fields (λ v, insert_str "device" "UNKNOWN" (insert_str "location" "UNKNOWN" (insert_str "tenant" "UNKNOWN" v)))
    (add_text "total-bytes" (to_decimal total_bytes)
       {| dc_fields := insert_int "total-bytes" total_bytes v; dc_msg := msg; dc_pos := 0 |}).
Definition StructuredSyslogDecorate (v : syslog_m_t) (c : config) (msg : option string) (int_fields : list string)
  : outcome (syslog_m_t * option string) :=
  let d := start_decoration v msg in
  sla_profile ← sla_profile_of_rule (dc_fields d);
  let d := add_text "sla-profile" sla_profile (add_fields (insert_str "sla-profile" sla_profile) d) in
  d ← match GetHostnameRecord (GetMapVals (dc_fields d) "hostname" EmptyString) c with
      | Some hr => decorate_host int_fields sla_profile hr c d
      | None => Done d
      end;
  Done (dc_fields d, dc_msg d).

(** ** Storing and forwarding *)

(** The attribute and the tag of a field; a negative number is left out. *)
Definition tag_of (x : Var) : TagVal := {| tv_prefix := (EmptyString, VarInvalid); tv_val := x |}.
Definition field_var (h : Holder) : option Var :=
  match h_type h with
  | str_type => Some (VarString (h_s_val h))
  | int_type => if 0 <=? h_i_val h then Some (VarU64 (h_i_val h)) else None
  end.
Definition PushStructuredSyslogAttribsAndTags (is_tag : bool) (name : string) (value : Var)
    (m : AttribMap * gmap string TagVal) : AttribMap * gmap string TagVal :=
  (map_insert_new name value m.1, if is_tag then map_insert_new name (tag_of value) m.2 else m.2).
Definition push_field (tagged_fields : list string) (m : AttribMap * gmap string TagVal) (d : Holder)
  : AttribMap * gmap string TagVal :=
  match field_var d with
  | Some x => PushStructuredSyslogAttribsAndTags (bool_decide (h_key d ∈ tagged_fields)) (h_key d) x m
  | None => m
  end.
(** [PushStructuredSyslogStats]: the sample of the walker's one node. *)
Definition PushStructuredSyslogStats (v : syslog_m_t) (tagged_fields : list string) (top_tags : gmap string TagVal)
  : outcome sample :=
  let '(attribs, tags) := foldl (push_field tagged_fields) (∅, ∅) (snd <$> entries v) in
  nodes ← stop_unless (Push "data" tags attribs []);
  '(sm, _) ← stop_unless (Pop top_tags nodes);
  Done sm.
Definition PushStructuredSyslogTopLevelTags (v : syslog_m_t) : gmap string TagVal :=
  {[ "Source"%string := tag_of (VarString (GetMapVals v "hostname" (GetMapVals v "ip" EmptyString))) ]}.
(** [StructuredSyslogPush]: what the callback is given. *)
Record stat_call := { st_timestamp : Z; st_name : string; st_sample : sample }.
Definition StructuredSyslogPush (v : syslog_m_t) (tagged_fields : list string) : outcome stat_call :=
  sm ← PushStructuredSyslogStats v tagged_fields (PushStructuredSyslogTopLevelTags v);
  Done {| st_timestamp := u64 (GetMapVal v "timestamp" 0); st_name := "JunosSyslog"; st_sample := sm |}.

(** [StructuredSyslogJsonMessage]. *)
Context {writer : JsonWriter}.
Definition json_field (h : Holder) : string * json :=
  (c_str (h_key h),
   match h_type h with str_type => JString (c_str (h_s_val h)) | int_type => JInt (u64 (h_i_val h)) end).
Definition StructuredSyslogJsonMessage (v : syslog_m_t) : string :=
  write (JObject (json_field <$> (snd <$> entries v))).

(** [StructuredSyslogQueueEntry], and what a message leaves behind: the
    counters of the sessions, the records sent, the samples, the queue. *)
Record queue_entry := { qe_data : string; qe_length : Z; qe_json_data : option string; qe_skey : string }.
Record syslog_state := {
  ss_config : config; ss_uves : list uve; ss_samples : list stat_call; ss_forwarded : list queue_entry
}.
Definition summarize_into (v : syslog_m_t) (summarize_user : bool) (st : syslog_state) : syslog_state :=
  let '(us, c) := StructuredSyslogUVESummarize v summarize_user (ss_config st) in
  {| ss_config := c; ss_uves := ss_uves st ++ us; ss_samples := ss_samples st; ss_forwarded := ss_forwarded st |}.
Definition store_sample (x : stat_call) (st : syslog_state) : syslog_state :=
  {| ss_config := ss_config st; ss_uves := ss_uves st; ss_samples := ss_samples st ++ [x]; ss_forwarded := ss_forwarded st |}.
(** The text with its length before it, and the JSON when there is a Kafka forwarder. *)
Definition with_length (msg : string) : string := to_decimal (size msg) +:+ " " +:+ msg.
Definition Forward (kafkaForwarder : bool) (msg hostname : string) (v : syslog_m_t) (st : syslog_state) : syslog_state :=
  let data := with_length msg in
  {| ss_config := ss_config st; ss_uves := ss_uves st; ss_samples := ss_samples st;
     ss_forwarded := ss_forwarded st ++
       [{| qe_data := data; qe_length := size data;
           qe_json_data := if kafkaForwarder then Some (StructuredSyslogJsonMessage v) else None; qe_skey := hostname |}] |}.

(** ** One message *)

(** The fields of the header that are not stored. *)
Definition unnecessary : list string :=
  ["msglen"; "severity"; "facility"; "year"; "month"; "day"; "hour"; "min"; "sec"; "msec"]%string.
Definition erase_header (v : syslog_m_t) : syslog_m_t :=
  let v := foldl (λ v k, delete k v) v unnecessary in
  if GetMapVal v "pid" (-1) =? -1 then delete "pid" v else v.

(** The tag, the hardware and the structured part of a body; [None] for one the
    message is refused for. *)
Definition body_tag (body : string) (tag_end e : Z) : outcome string :=
  find_tag_str ← stop_unless (substr body 0 (u64 (tag_end - 1)));
  let tag_index := find_last_of find_tag_str " " in
  if tag_index =? npos then Done find_tag_str
  else stop_unless (substr find_tag_str (tag_index + 1) (u64 (e - tag_index))).
Definition body_parts (body : string) : outcome (option (string * Z)) :=
  let tag_end := find body "[" 0 in
  if tag_end =? npos then Done None else
  if find body "]" (tag_end + 1) =? npos then Done None else
  let e := find body " " 0 in
  if e =? npos then Done None else
  tag ← body_tag body tag_end e;
  Done (Some (tag, tag_end)).
Definition body_structure (body : string) (tag_end : Z) : outcome (option (string * string)) :=
  let e := find body " " tag_end in
  if e =? npos then Done None else
  hardware ← stop_unless (substr body (tag_end + 1) (u64 (e - tag_end - 1)));
  let start := e + 1 in
  structured_part ← stop_unless (substr body start (u64 (find_last_of body "]" - start)));
  Done (Some (hardware, structured_part)).

Context `{Regex, RegexSearch}.

(** What follows the parsing, by the message's configuration. *)
Definition process_message (mc : MessageConfig) (message : string) (forwarder : option bool) (v : syslog_m_t)
    (st : syslog_state) : outcome (syslog_m_t * syslog_state) :=
  let forwards := bool_decide (is_Some forwarder) && forward mc in
  let kafka := default false forwarder in
  if process_and_store mc || process_before_forward mc || process_and_summarize mc then
    let hostname := GetMapVals v "hostname" EmptyString in
    '(v, msg) ← StructuredSyslogDecorate v (ss_config st) (if forwards then Some message else None) (mc_ints mc);
    let st := if process_and_summarize mc then summarize_into v (process_and_summarize_user mc) st else st in
    let st := if forwards && process_before_forward mc && filter_msg v
              then Forward kafka (default EmptyString msg) hostname v st else st in
    if process_and_store mc then x ← StructuredSyslogPush v (mc_tags mc); Done (v, store_sample x st) else Done (v, st)
  else Done (v, st).

(** [StructuredSyslogPostParsing]. *)
Definition StructuredSyslogPostParsing (v : syslog_m_t) (message : string) (forwarder : option bool) (st : syslog_state)
  : outcome (bool * syslog_state) :=
  let v := erase_header v in
  let body := GetMapVals v "body" EmptyString in
  let v := delete "body"%string v in
  parts ← body_parts body;
  match parts with
  | None => Done (false, st)
  | Some (tag, tag_end) =>
  match GetMessageConfig tag (ss_config st) with
  | None => Done (false, st)
  | Some mc =>
  if negb (process_and_store mc) && negb (forward mc) && negb (process_and_summarize mc) then Done (false, st) else
  let v := insert_str "tag" tag v in
  structure ← body_structure body tag_end;
  match structure with
  | None => Done (false, st)
  | Some (hardware, structured_part) =>
  '(ret, v, _) ← ParseStructuredPart (insert_str "hardware" hardware v) structured_part (mc_ints mc) None;
  if negb ret then Done (false, st)
  else if (tag =? "APPTRACK_SESSION_CLOSE")%string && filter_session_close_msg v then Done (false, st)
  else if (tag =? "APPTRACK_SESSION_VOL_UPDATE")%string && filter_vol_update_msg v then Done (false, st)
  else
    '(v, st) ← process_message mc message forwarder v st;
    Done (true,
      if bool_decide (is_Some forwarder) && forward mc && filter_msg v && negb (process_before_forward mc)
      then Forward (default false forwarder) message (GetMapVals v "hostname" EmptyString) v st else st)
  end end end.
End message.

(** ** Positions in concatenations *)

Lemma found_before c s t i pos : pos <= i + size s → 0 <= i → i + size s < npos → find_at c (s +:+ String c t) i pos ≠ npos.
Proof.
  revert i. induction s as [|a s IH]; intros i Hp Hi Hn.
  - unfold size in *. simpl in *. destruct (Z.leb_spec pos i); [|lia]. rewrite Ascii.eqb_refl. simpl. lia.
  - change (String a s +:+ String c t) with (String a (s +:+ String c t)). simpl.
    assert (size (String a s) = 1 + size s) as Hs by (unfold size; simpl; lia). rewrite Hs in *.
    pose proof (size_nonneg s). destruct (_ && _); [lia|]. apply IH; lia.
Qed.
Lemma find_mid c p s t pos : pos = size p → has_char c s = false →
  find (p +:+ s +:+ String c t) c pos = size p + size s.
Proof.
  intros -> Hs. unfold find. rewrite find_at_before, find_at_first by (unfold size; lia || done). lia.
Qed.
Lemma find_at_none c s i pos : has_char c s = false → find_at c s i pos = npos.
Proof.
  revert i. induction s as [|a s IH]; intros i Hs; [done|]. simpl in *. apply orb_false_iff in Hs as [Ha Hs].
  rewrite Ha, andb_false_r. by apply IH.
Qed.
Lemma find_past c s pos : size s <= pos → find s c pos = npos.
Proof. intros Hp. unfold find. pose proof (find_at_before c s EmptyString 0 pos) as H. rewrite append_empty_r in H. rewrite H by lia. done. Qed.
Lemma find_none_after c p s pos : pos = size p → has_char c s = false → find (p +:+ s) c pos = npos.
Proof. intros -> Hs. unfold find. rewrite find_at_before by lia. by apply find_at_none. Qed.

Lemma substr_mid p s t pos n : pos = size p → n = size s → substr (p +:+ s +:+ t) pos n = Some s.
Proof.
  intros -> ->. unfold substr. rewrite !size_app. pose proof (size_nonneg s). pose proof (size_nonneg t). pose proof (size_nonneg p).
  destruct (Z.ltb_spec (size p + (size s + size t)) (size p)); [lia|].
  rewrite Z.min_l by lia. unfold size. rewrite !Nat2Z.id, substring_drop. by rewrite substring_app_0.
Qed.
Lemma substr_end p s pos n : pos = size p → size s <= n → substr (p +:+ s) pos n = Some s.
Proof.
  intros -> Hn. unfold substr. rewrite size_app. pose proof (size_nonneg s). pose proof (size_nonneg p).
  destruct (Z.ltb_spec (size p + size s) (size p)); [lia|].
  rewrite Z.add_simpl_l, Z.min_r by lia. unfold size. rewrite !Nat2Z.id, substring_drop. by rewrite substring_all.
Qed.
Lemma insert_at_app p s t pos : pos = size p → insert_at pos t (p +:+ s) = p +:+ t +:+ s.
Proof.
  intros ->. unfold insert_at, drop_string, size. rewrite Nat2Z.id, substring_app_0, length_app, substring_drop.
  replace (_ + _ - _)%nat with (String.length s) by lia. by rewrite substring_all.
Qed.

(** Sizes are not negative. *)
Ltac size_lia :=
  rewrite ?size_app in *;
  repeat match goal with
  | |- context [size ?x] => lazymatch goal with _ : 0 <= size x |- _ => fail | _ => pose proof (size_nonneg x) end
  | _ : context [size ?x] |- _ => lazymatch goal with _ : 0 <= size x |- _ => fail | _ => pose proof (size_nonneg x) end
  end; lia.

(** ** Fields in a text *)

(** The text of a list of fields, as the devices send them and the
    configuration holds them. *)
Definition field_text (e : string * string) : string := e.1 +:+ "=" +:+ quote +:+ e.2 +:+ quote.
Fixpoint fields_text (l : list (string * string)) : string :=
  match l with
  | [] => EmptyString
  | [e] => field_text e
  | e :: l' => field_text e +:+ " " +:+ fields_text l'
  end.
Definition valid_field (e : string * string) : Prop := has_char "=" e.1 = false ∧ has_char "034" e.2 = false.
Definition no_bracket (e : string * string) : Prop := has_char "]" e.1 = false ∧ has_char "]" e.2 = false.

(** The text a message gets for them. *)
Definition inserted (l : list (string * string)) : string :=
  foldr (λ e s, insert_text e.1 e.2 +:+ s) EmptyString l.
Definition decorate_text (l : list (string * string)) (msg : option string) (pos : Z) : option string * Z :=
  foldl (λ mp e, DecorateMsg mp.1 e.1 e.2 mp.2) (msg, pos) l.

Lemma fields_text_app l l' : l ≠ [] → fields_text l +:+ inserted l' = fields_text (l ++ l').
Proof.
  intros Hl. induction l as [|e l IH]; [done|]. destruct l as [|e2 l].
  - clear. revert e. induction l' as [|e' l' IH]; intros e; [apply append_empty_r|].
    change (field_text e +:+ insert_text e'.1 e'.2 +:+ inserted l' = field_text e +:+ " " +:+ fields_text ([e'] ++ l')).
    by rewrite <- (IH e').
  - change (fields_text (e :: e2 :: l)) with (field_text e +:+ " " +:+ fields_text (e2 :: l)).
    rewrite !append_assoc_string, IH by done. done.
Qed.

Lemma insert_text_bracket e : no_bracket e → has_char "]" (insert_text e.1 e.2) = false.
Proof. intros [Hk Hv]. unfold insert_text. by rewrite !has_char_app, Hk, Hv. Qed.

(** Every field is inserted before the bracket that ends the structured part,
    after those that were inserted before it. *)
Lemma decorate_text_inserted l p q s pos : has_char "]" q = false → Forall no_bracket l → pos = size p →
  size (p +:+ q +:+ inserted l) < npos →
  (decorate_text l (Some (p +:+ q +:+ String "]" s)) pos).1 = Some (p +:+ q +:+ inserted l +:+ String "]" s).
Proof.
  intros Hq Hl. revert p q pos Hq. induction Hl as [|e l He _ IH]; intros p q pos Hq Hp Hs; [done|].
  unfold decorate_text. simpl. rewrite (find_mid _ p q s pos Hp Hq). simpl in Hs. rewrite !size_app in Hs.
  pose proof (size_nonneg (insert_text e.1 e.2)). pose proof (size_nonneg (inserted l)).
  destruct (Z.eqb_spec (size p + size q) npos); [lia|]. rewrite <- append_assoc_string, (insert_at_app (p +:+ q)) by (by rewrite size_app).
  fold (decorate_text l (Some ((p +:+ q) +:+ insert_text e.1 e.2 +:+ String "]" s)) (size p + size q)).
  rewrite (IH (p +:+ q) (insert_text e.1 e.2) (size p + size q)).
  - by rewrite !append_assoc_string.
  - by apply insert_text_bracket.
  - by rewrite size_app.
  - rewrite !size_app. lia.
Qed.

Section parsing.
Context {ind : Indeterminate}.

Lemma parse_loop_fields l p int_fields v msg pos fuel : Forall valid_field l →
  (length l < fuel)%nat → size (p +:+ fields_text l) + 2 < npos →
  parse_loop fuel (p +:+ fields_text l) int_fields (size p) pos v msg
  = Some (true, foldl (λ v e, insert_field int_fields e.1 e.2 v) v l, (decorate_text l msg pos).1).
Proof.
  intros Hl. revert p v msg pos fuel. induction Hl as [|[k x] l [Hk Hx] _ IH]; intros p v msg pos fuel Hf Hs.
  - destruct fuel as [|fuel]; [simpl in Hf; lia|]. simpl. rewrite append_empty_r, find_past by lia. done.
  - destruct fuel as [|fuel]; [simpl in Hf; lia|].
    assert (∃ rest, p +:+ fields_text ((k, x) :: l) = p +:+ k +:+ String "=" (quote +:+ x +:+ String "034" rest) ∧
      (l = [] ∧ rest = EmptyString ∨ rest = " " +:+ fields_text l)) as (rest & E & Hr).
    { destruct l as [|e l].
      - exists EmptyString. split; [|by left]. unfold fields_text, field_text. simpl. done.
      - exists (" " +:+ fields_text (e :: l)). split; [|by right].
        change (fields_text ((k, x) :: e :: l)) with (field_text (k, x) +:+ " " +:+ fields_text (e :: l)).
        unfold field_text. simpl. by rewrite !append_assoc_string. }
    rewrite E in *. cbn [parse_loop]. simpl in Hk, Hx.
    assert (size (p +:+ k +:+ String "=" (quote +:+ x +:+ String "034" rest)) = size p + size k + size x + 3 + size rest) as Hsz.
    { rewrite !size_app, size_cons, !size_app, size_cons. change (size quote) with 1. lia. }
    rewrite Hsz in Hs. pose proof (size_nonneg p). pose proof (size_nonneg k). pose proof (size_nonneg x). pose proof (size_nonneg rest).
    rewrite find_mid by done. destruct (Z.eqb_spec (size p + size k) npos); [lia|].
    rewrite (substr_mid p k _ (size p)) by (done || lia). cbn [mbind option_bind].
    assert (p +:+ k +:+ String "=" (quote +:+ x +:+ String "034" rest)
      = (p +:+ k +:+ "=" +:+ quote) +:+ x +:+ String "034" rest) as E2 by (rewrite !append_assoc_string; done).
    assert (size (p +:+ k +:+ "=" +:+ quote) = size p + size k + 2) as Hq by (rewrite !size_app; unfold size; simpl; lia).
    rewrite E2, find_mid by (rewrite ?Hq; done). rewrite Hq.
    destruct (Z.eqb_spec (size p + size k + 2 + size x) npos); [lia|].
    rewrite (substr_mid (p +:+ k +:+ "=" +:+ quote) x) by (rewrite ?Hq; done || lia). cbn [mbind option_bind].
    destruct (DecorateMsg msg k x pos) as [msg' pos'] eqn:Ed.
    assert (decorate_text ((k, x) :: l) msg pos = decorate_text l msg' pos') as -> by (unfold decorate_text; simpl; by rewrite Ed).
    destruct Hr as [[-> ->]| ->].
    + destruct fuel as [|fuel]; [simpl in Hf; lia|]. cbn [parse_loop]. rewrite find_past; [done|].
      rewrite <- E2, Hsz. change (size EmptyString) with 0. lia.
    + assert ((p +:+ k +:+ "=" +:+ quote) +:+ x +:+ String "034" (" " +:+ fields_text l)
        = (p +:+ k +:+ "=" +:+ quote +:+ x +:+ quote +:+ " ") +:+ fields_text l) as -> by (rewrite !append_assoc_string; done).
      replace (size p + size k + 2 + size x + 2) with (size (p +:+ k +:+ "=" +:+ quote +:+ x +:+ quote +:+ " "))
        by (rewrite !size_app; unfold size; simpl; lia).
      rewrite IH; [done|simpl in Hf; lia|].
      rewrite size_app in Hs. rewrite !size_app. unfold size in *. simpl in *. lia.
Qed.
End parsing.

(** ** The text of a decorated message *)

Section text.
Context {ind : Indeterminate} {addresses : IpAddress}.

Lemma fields_text_length l : (length l <= String.length (fields_text l))%nat.
Proof.
  induction l as [|e l IH]; [done|]. destruct l as [|e2 l].
  - simpl. unfold field_text. rewrite !CppString.length_app. simpl. lia.
  - change (fields_text (e :: e2 :: l)) with (field_text e +:+ " " +:+ fields_text (e2 :: l)).
    rewrite !CppString.length_app. change (length (e :: e2 :: l)) with (S (length (e2 :: l))).
    change (String.length " ") with 1%nat. lia.
Qed.

(** The structured part of a message is read back as the fields it was
    written from, and when fields are added to its text the receiver reads the
    old ones and then the new ones. *)
Theorem structured_part_parsed l ds p s v int_fields :
  l ≠ [] → Forall valid_field (l ++ ds) → Forall no_bracket ds → has_char "]" (p +:+ fields_text l) = false →
  size (p +:+ fields_text (l ++ ds)) + 2 < npos →
  (decorate_text ds (Some (p +:+ fields_text l +:+ String "]" s)) 0).1
  = Some (p +:+ fields_text (l ++ ds) +:+ String "]" s) ∧
  ParseStructuredPart v (fields_text (l ++ ds)) int_fields None
  = Done (true, foldl (λ v e, insert_field int_fields e.1 e.2 v) v (l ++ ds), None).
Proof.
  intros Hl Hv Hb Hq Hs. pose proof (size_nonneg p). split.
  - pose proof (decorate_text_inserted ds EmptyString (p +:+ fields_text l) s 0 Hq Hb eq_refl) as Hd.
    rewrite <- (fields_text_app l ds Hl) in Hs |- *.
    change (EmptyString +:+ ?x) with x in Hd. rewrite !append_assoc_string in Hd.
    rewrite append_assoc_string. apply Hd. lia.
  - unfold ParseStructuredPart. rewrite size_app in Hs.
    rewrite (parse_loop_fields (l ++ ds) EmptyString int_fields v None 0).
    + simpl. do 2 f_equal. clear. generalize 0. induction (l ++ ds) as [|e k IH]; intros z; [done|].
      unfold decorate_text in *. simpl. apply IH.
    + done.
    + pose proof (fields_text_length (l ++ ds)). lia.
    + change (EmptyString +:+ ?x) with x. lia.
Qed.

Lemma pretty_no_bracket z : has_char "]" (to_decimal z) = false.
Proof.
  assert (∀ n, 0 <= n → has_char "]" (pretty n) = false) as Hn.
  { intros n Hn. pose proof (all_digits_pretty n Hn) as Hd. induction (pretty n) as [|a t IH]; [done|].
    simpl in *. apply andb_true_iff in Hd as [Ha Ht]. rewrite IH, orb_false_r by done.
    destruct (Ascii.eqb_spec a "]"); [subst|]; done. }
  unfold to_decimal. destruct (Z.le_gt_cases 0 z) as [|Hz]; [auto|].
  destruct z as [|q|q]; [lia|lia|]. change (pretty (Z.neg q)) with ("-" +:+ pretty (Z.pos q)).
  rewrite has_char_app, Hn by lia. done.
Qed.

(** The text of a message under decoration: what precedes its first bracket, and
    the position, which is inside. *)
Definition text_is (d : decorated) (q s : string) : Prop :=
  has_char "]" q = false ∧ dc_msg d = Some (q +:+ String "]" s) ∧ ∃ p r, q = p +:+ r ∧ dc_pos d = size p.

Lemma insert_text_decimal k z : has_char "]" k = false → no_bracket (k, to_decimal z).
Proof. intros Hk. split; [done|apply pretty_no_bracket]. Qed.
Lemma text_fields f d q s : text_is d q s → text_is (add_fields f d) q s.
Proof. done. Qed.
Lemma text_add k x d q s : text_is d q s → no_bracket (k, x) → size q < npos →
  text_is (add_text k x d) (q +:+ insert_text k x) s.
Proof.
  intros (Hq & Hm & p & r & -> & Hp) Hb Hs. unfold add_text, DecorateMsg. rewrite Hm, append_assoc_string, Hp.
  rewrite has_char_app in Hq. apply orb_false_iff in Hq as [Hqp Hqr].
  rewrite size_app in Hs. rewrite find_mid by done. destruct (Z.eqb_spec (size p + size r) npos); [lia|].
  rewrite <- append_assoc_string, insert_at_app by (by rewrite size_app). split; [|split].
  - rewrite !has_char_app, Hqp, Hqr. apply (insert_text_bracket (k, x) Hb).
  - simpl. by rewrite !append_assoc_string.
  - exists (p +:+ r), (insert_text k x). by rewrite size_app.
Qed.
Definition given (k x : string) : list (string * string) := if (x =? EmptyString)%string then [] else [(k, x)].
Lemma text_replace k x d q s : text_is d q s → no_bracket (k, x) → size q < npos →
  text_is (replace_field k x d) (q +:+ inserted (given k x)) s.
Proof.
  intros Hd Hb Hs. unfold replace_field, given. destruct (x =? EmptyString)%string; [by rewrite append_empty_r|].
  simpl. rewrite append_empty_r. by apply text_add.
Qed.

(** A text of the configuration, given by its fields. *)
Definition config_text (text : string) (l : list (string * string)) : Prop :=
  text = fields_text l ∧ Forall valid_field l ∧ Forall no_bracket l.
Lemma fields_text_empty l : (fields_text l =? EmptyString)%string = bool_decide (l = []).
Proof.
  destruct l as [|e l]; [done|]. rewrite bool_decide_eq_false_2 by done. apply string_eqb_false. intros E.
  pose proof (fields_text_length (e :: l)) as Hl. rewrite E in Hl. simpl in Hl. lia.
Qed.

Lemma text_parse int_fields text l d d' q s : text_is d q s → config_text text l →
  size (q +:+ inserted l) < npos → size text + 2 < npos →
  parse_into int_fields text d = Done d' → text_is d' (q +:+ inserted l) s.
Proof.
  intros (Hq & Hm & p & r & -> & Hp) (-> & Hv & Hb) Hs Ht. unfold parse_into. rewrite fields_text_empty.
  case_bool_decide as Hl.
  - intros [= <-]. subst l. rewrite append_empty_r. split; [done|]. split; [done|]. by exists p, r.
  - unfold ParseStructuredPart. rewrite Hm.
    rewrite (parse_loop_fields l EmptyString int_fields (dc_fields d) _ 0 _ Hv); [|pose proof (fields_text_length l); lia|done].
    cbn. intros [= <-].
    pose proof (decorate_text_inserted l EmptyString (p +:+ r) s 0 Hq Hb eq_refl Hs) as Hd.
    split; [|split].
    + rewrite has_char_app, Hq. clear - Hb. induction Hb as [|e l He _ IH]; [done|].
      change (has_char "]" (insert_text e.1 e.2 +:+ inserted l) = false). by rewrite has_char_app, insert_text_bracket.
    + change (EmptyString +:+ ?x) with x in Hd. cbn [dc_msg].
      rewrite !append_assoc_string in Hd. rewrite !append_assoc_string. exact Hd.
    + exists p, (r +:+ inserted l). by rewrite append_assoc_string.
Qed.

(** What is added to the text of a message of a host the configuration has: [ht],
    [tt] and [st] are the fields of its tags, of its tenant's tags and of the
    parameters of its service level. *)
Definition inserted_fields (total : Z) (sla_profile : string) (hr : HostnameRecord) (ht tt st : list (string * string))
  : list (string * string) :=
  [("total-bytes", to_decimal total); ("sla-profile", sla_profile)]%string ++
  given "tenant" (hr_tenant hr) ++ given "location" (hr_location hr) ++ given "device" (hr_device hr) ++ ht ++ tt ++ st.
Definition host_fields_plain (hr : HostnameRecord) : Prop :=
  has_char "]" (hr_tenant hr) = false ∧ has_char "]" (hr_location hr) = false ∧ has_char "]" (hr_device hr) = false.
Lemma inserted_app l l' : inserted (l ++ l') = inserted l +:+ inserted l'.
Proof. induction l as [|e l IH]; [done|]. simpl. by rewrite append_assoc_string, IH. Qed.

Lemma config_text_none l : config_text EmptyString l → l = [].
Proof. intros (E & _). destruct l as [|e l]; [done|]. pose proof (fields_text_length (e :: l)) as H. rewrite <- E in H. simpl in H. lia. Qed.
Lemma text_tenant int_fields tr tt d d' q s : text_is d q s → config_text (from_option tr_tags EmptyString tr) tt →
  size (q +:+ inserted tt) < npos → size (fields_text tt) + 2 < npos →
  decorate_tenant int_fields tr d = Done d' → text_is d' (q +:+ inserted tt) s.
Proof.
  intros Hd Ht Hs St. destruct tr as [tr|]; simpl in *.
  - intros (d1 & E & [= <-])%bind_done. apply text_fields.
    eapply text_parse; [|exact Ht|done|by destruct Ht as [-> _]|exact E]. by destruct (_ =? _)%string.
  - intros [= <-]. apply config_text_none in Ht as ->. by rewrite append_empty_r.
Qed.
Lemma text_sla int_fields rec st d d' q s : text_is d q s → config_text (from_option sr_sla_params EmptyString rec) st →
  size (q +:+ inserted st) < npos → size (fields_text st) + 2 < npos →
  match rec with Some r => parse_into int_fields (sr_sla_params r) d | None => Done d end = Done d' →
  text_is d' (q +:+ inserted st) s.
Proof.
  intros Hd Ht Hs St. destruct rec as [r|]; simpl in *.
  - intros E. eapply text_parse; [exact Hd|exact Ht|done|by destruct Ht as [-> _]|exact E].
  - intros [= <-]. apply config_text_none in Ht as ->. by rewrite append_empty_r.
Qed.

Lemma text_host int_fields sla hr c d d' q s ht tt st :
  text_is d q s → host_fields_plain hr → config_text (hr_tags hr) ht →
  config_text (from_option tr_tags EmptyString (GetTenantRecord (hr_tenant hr) c)) tt →
  config_text (from_option sr_sla_params EmptyString
    (GetSlaProfileRecord (hr_tenant hr +:+ "/" +:+ hr_device hr +:+ "/" +:+ sla) c)) st →
  let new := given "tenant" (hr_tenant hr) ++ given "location" (hr_location hr) ++ given "device" (hr_device hr) ++ ht ++ tt ++ st in
  size (q +:+ inserted new) < npos →
  size (fields_text ht) + 2 < npos → size (fields_text tt) + 2 < npos → size (fields_text st) + 2 < npos →
  decorate_host int_fields sla hr c d = Done d' → text_is d' (q +:+ inserted new) s.
Proof.
  intros Hd (Ht & Hl & Hv) Hht Htt Hst new Hs Sh St Ss. unfold new in *. rewrite !inserted_app, <- !append_assoc_string in Hs |- *.
  unfold decorate_host.
  assert (text_is (replace_field "device" (hr_device hr) (replace_field "location" (hr_location hr) (replace_field "tenant" (hr_tenant hr) d)))
    (((q +:+ inserted (given "tenant" (hr_tenant hr))) +:+ inserted (given "location" (hr_location hr)))
    +:+ inserted (given "device" (hr_device hr))) s) as H1 by (repeat apply text_replace; try done; size_lia).
  intros (d2 & E2 & E)%bind_done.
  apply (text_parse _ _ ht _ _ _ _ H1 Hht) in E2; [|size_lia|by destruct Hht as [-> _]].
  apply bind_done in E as (v & _ & E). apply bind_done in E as (d3 & E3 & E).
  apply (text_tenant int_fields _ tt (add_fields (λ _, v) d2) d3 _ s E2 Htt) in E3; [|size_lia|done].
  apply (text_sla int_fields _ st d3 d' _ s E3 Hst) in E; [done|size_lia|done].
Qed.

Lemma get_insert_str k x v k' dflt : k ≠ k' → GetMapVals (insert_str k x v) k' dflt = GetMapVals v k' dflt.
Proof. intros Hk. unfold GetMapVals, insert_str. by rewrite lookup_map_insert_new, decide_False. Qed.
Lemma get_insert_int k x v k' dflt : k ≠ k' → GetMapVals (insert_int k x v) k' dflt = GetMapVals v k' dflt.
Proof. intros Hk. unfold GetMapVals, insert_int. by rewrite lookup_map_insert_new, decide_False. Qed.
Lemma add_text_fields k x d : dc_fields (add_text k x d) = dc_fields d.
Proof. unfold add_text. by destruct (DecorateMsg _ _ _ _). Qed.
Lemma start_fields v msg :
  sla_profile_of_rule (dc_fields (start_decoration v msg)) = sla_profile_of_rule v ∧
  GetMapVals (dc_fields (start_decoration v msg)) "hostname" EmptyString = GetMapVals v "hostname" EmptyString.
Proof.
  unfold start_decoration, sla_profile_of_rule. cbn [add_fields dc_fields]. rewrite add_text_fields. cbn [dc_fields].
  by rewrite !get_insert_str, !get_insert_int by done.
Qed.

(** The text of a message that is forwarded after it was processed has the
    total of its bytes, its service level, the tenant, place and device of its
    host, and the fields the configuration gives for the host, the tenant and
    the service level, in this order, before the bracket that ends its
    structured part; nothing else of the text changes. *)
Theorem decorated_text v c q s int_fields sla hr ht tt st v' msg' :
  let new := inserted_fields (sum_of_bytes v) sla hr ht tt st in
  has_char "]" q = false → size (q +:+ inserted new) < npos →
  sla_profile_of_rule v = Done sla → has_char "]" sla = false →
  GetHostnameRecord (GetMapVals v "hostname" EmptyString) c = Some hr →
  host_fields_plain hr → config_text (hr_tags hr) ht →
  config_text (from_option tr_tags EmptyString (GetTenantRecord (hr_tenant hr) c)) tt →
  config_text (from_option sr_sla_params EmptyString
    (GetSlaProfileRecord (hr_tenant hr +:+ "/" +:+ hr_device hr +:+ "/" +:+ sla) c)) st →
  size (fields_text ht) + 2 < npos → size (fields_text tt) + 2 < npos → size (fields_text st) + 2 < npos →
  StructuredSyslogDecorate v c (Some (q +:+ String "]" s)) int_fields = Done (v', msg') →
  msg' = Some (q +:+ inserted new +:+ String "]" s).
Proof.
  intros new Hq Hs Hsla Hb Hhr Hplain Hht Htt Hst Sh St Ss. unfold StructuredSyslogDecorate.
  set (d1 := start_decoration _ _).
  unfold new, inserted_fields in Hs |- *. rewrite inserted_app, <- append_assoc_string in Hs |- *.
  assert (text_is d1 (q +:+ insert_text "total-bytes" (to_decimal (sum_of_bytes v))) s) as H1.
  { apply text_fields, text_add; [|by apply insert_text_decimal|size_lia].
    split; [done|]. split; [done|]. by exists EmptyString, q. }
  destruct (start_fields v (Some (q +:+ String "]" s))) as [Ef1 Ef2]. fold d1 in Ef1, Ef2. rewrite Ef1, Hsla. cbn [mbind outcome_bind].
  rewrite add_text_fields. cbn [add_fields dc_fields]. rewrite get_insert_str, Ef2, Hhr by done.
  intros (d2 & E2 & [= <- <-])%bind_done.
  assert (size (insert_text "total-bytes" (to_decimal (sum_of_bytes v)) +:+ insert_text "sla-profile" sla)
    = size (inserted [("total-bytes", to_decimal (sum_of_bytes v)); ("sla-profile", sla)]%string)) as Esz.
  { simpl. by rewrite append_empty_r. }
  apply (text_host _ _ _ _ _ _ (q +:+ inserted [("total-bytes", to_decimal (sum_of_bytes v)); ("sla-profile", sla)]%string) s ht tt st) in E2; auto.
  - destruct E2 as (_ & -> & _). by rewrite !append_assoc_string.
  - simpl. rewrite append_empty_r, <- append_assoc_string. apply text_add; [done|done|].
    rewrite !size_app in *. size_lia.
Qed.
End text.

(** ** The sample of a message *)

Section sample.
Context {ind : Indeterminate}.

(** The fields are found under their keys, and their names have no dot. *)
Definition keyed (v : syslog_m_t) : Prop := ∀ k h, v !! k = Some h → h_key h = k.
Definition dotless (v : syslog_m_t) : Prop := ∀ k, is_Some (v !! k ≫= field_var) → has_char "." k = false.
Definition field_tag (tagged_fields : list string) (h : Holder) : option TagVal :=
  if bool_decide (h_key h ∈ tagged_fields) then tag_of <$> field_var h else None.

Lemma push_fields tagged l a t : NoDup l.*1 → Forall (λ e, h_key e.2 = e.1) l →
  (∀ k, k ∈ l.*1 → a !! k = None ∧ t !! k = None) →
  let m := foldl (push_field tagged) (a, t) (snd <$> l) in
  ∀ k, m.1 !! k = (match list_to_map (M := gmap string Holder) l !! k with Some h => field_var h | None => a !! k end) ∧
       m.2 !! k = (match list_to_map (M := gmap string Holder) l !! k with Some h => field_tag tagged h | None => t !! k end).
Proof.
  intros Hnd Hk. revert a t. induction Hk as [|[k0 h] l Hk0 Hk IH]; intros a t Hf; [done|].
  csimpl in *.
  apply NoDup_cons in Hnd as [Hn Hnd]. destruct (Hf k0 ltac:(set_solver)) as [Ha Ht].
  specialize (IH Hnd).
  assert (∀ k, (push_field tagged (a, t) h).1 !! k = (if decide (k0 = k) then field_var h else a !! k) ∧
               (push_field tagged (a, t) h).2 !! k = (if decide (k0 = k) then field_tag tagged h else t !! k)) as Hm'.
  { intros k. unfold push_field, field_tag. rewrite Hk0. destruct (field_var h) as [x|]; simpl.
    - destruct (bool_decide _); simpl; rewrite ?lookup_map_insert_new, ?Ha, ?Ht; case_decide; subst; auto.
    - destruct (bool_decide _); case_decide; subst; auto. }
  destruct (push_field tagged (a, t) h) as [a' t']. simpl in Hm'. intros k. destruct (IH a' t') with (k := k) as [-> ->].
  { intros k1 Hk1. destruct (Hm' k1) as [-> ->]. rewrite !decide_False by (intros ->; done). apply Hf. set_solver. }
  destruct (Hm' k) as [-> ->]. destruct (decide (k0 = k)) as [->|Hne].
  - rewrite lookup_insert_eq, (not_elem_of_list_to_map_1 l k) by done. done.
  - rewrite lookup_insert_ne by done. done.
Qed.

Lemma pushed v tagged : keyed v → let m := foldl (push_field tagged) (∅, ∅) (snd <$> entries v) in
  ∀ k, m.1 !! k = v !! k ≫= field_var ∧ m.2 !! k = v !! k ≫= field_tag tagged.
Proof.
  intros Hv m k. destruct (push_fields tagged (entries v) ∅ ∅) with (k := k) as [H1 H2].
  - apply entries_keys.
  - apply Forall_forall. intros [k' h] Hin. apply Hv, elem_of_entries, Hin.
  - done.
  - fold m in H1, H2. rewrite entries_list_to_map in H1, H2. rewrite H1, H2.
    destruct (v !! k); [done|]. by rewrite !lookup_empty.
Qed.

Lemma names_local {A} (m : gmap string A) : (∀ k, is_Some (m !! k) → has_char "." k = false) → local_names m = true.
Proof.
  intros Hm. unfold local_names. apply forallb_forall. intros [k x] Hx%list_elem_of_In.
  apply elem_of_map_to_list in Hx. apply Z.eqb_eq. unfold find. apply find_at_none, Hm. eauto.
Qed.

Lemma value_of_tag (m : gmap string TagVal) k y : (∀ k t, m !! k = Some t → ∃ x, t = tag_of x) →
  (k, y) ∈ values (entries m) ↔ m !! k = Some (tag_of y).
Proof.
  intros Hm. unfold values. split.
  - intros Hv. apply list_elem_of_In, in_concat in Hv as (l & Hl & Hv%list_elem_of_In).
    apply list_elem_of_In, list_elem_of_fmap in Hl as ([k' t] & -> & Hin%elem_of_entries).
    destruct (Hm _ _ Hin) as [x ->]. apply list_elem_of_singleton in Hv. by injection Hv as -> ->.
  - intros Ht. apply list_elem_of_In, in_concat. exists [(k, y)]. split; [|by left].
    apply list_elem_of_In, list_elem_of_fmap. exists (k, tag_of y). split; [done|]. by apply elem_of_entries.
Qed.
(** The tags of the walker's one node: those of the message and its own. *)
Definition plain_tags (m : gmap string TagVal) : Prop := ∀ k t, m !! k = Some t → ∃ x, t = tag_of x.
Lemma node_tags top node k y : plain_tags top → plain_tags (sn_tags node) →
  (k, y) ∈ values (all_tags top [node]) ↔ top !! k = Some (tag_of y) ∨ sn_tags node !! k = Some (tag_of y).
Proof.
  intros Ht Hn. unfold all_tags. cbn [fmap list_fmap concat]. rewrite app_nil_r. unfold values.
  rewrite fmap_app, concat_app, elem_of_app. fold (values (entries top)) (values (entries (sn_tags node))).
  by rewrite !value_of_tag.
Qed.
Lemma node_tag_names top node k : plain_tags top → plain_tags (sn_tags node) →
  k ∈ names (values (all_tags top [node])) ↔ is_Some (top !! k) ∨ is_Some (sn_tags node !! k).
Proof.
  intros Ht Hn. rewrite elem_of_names. setoid_rewrite node_tags; [|done..]. split.
  - intros (y & [Hy|Hy]); eauto.
  - intros [[t Hk]|[t Hk]]; [destruct (Ht _ _ Hk) as [x ->]|destruct (Hn _ _ Hk) as [x ->]]; eauto.
Qed.

(** A message is stored as one sample of JunosSyslog with its time: its
    attributes are the texts and the numbers that are not negative, each under
    its name; it is found under its source and under the fields that are
    configured as tags, and under nothing else. *)
Theorem message_sample v tagged : keyed v → dotless v → ∃ x,
  StructuredSyslogPush v tagged = Done x ∧ st_timestamp x = u64 (GetMapVal v "timestamp" 0) ∧
  st_name x = "JunosSyslog"%string ∧ sm_attr (st_sample x) = "data"%string ∧
  (∀ k y, v !! k ≫= field_var = Some y → sm_attribs (st_sample x) !! ("data." +:+ k) = Some y) ∧
  sm_attribs (st_sample x) !! "Source"%string = Some (VarString (GetMapVals v "hostname" (GetMapVals v "ip" EmptyString))) ∧
  ∀ k, k ∈ names (flat (sm_tags (st_sample x))) ↔
       k = "Source"%string ∨ ∃ f, k = "data." +:+ f ∧ f ∈ tagged ∧ is_Some (v !! f ≫= field_var).
Proof.
  intros Hk Hd. unfold StructuredSyslogPush, PushStructuredSyslogStats.
  pose proof (pushed v tagged Hk) as Hp. cbv zeta in Hp.
  destruct (foldl (push_field tagged) (∅, ∅) (snd <$> entries v)) as [attribs tags]. simpl in Hp.
  assert (∀ f, tags !! f = if bool_decide (f ∈ tagged) then tag_of <$> (v !! f ≫= field_var) else None) as Ht.
  { intros f. rewrite (proj2 (Hp f)). destruct (v !! f) as [h|] eqn:E; simpl; [|by destruct (bool_decide _)].
    unfold field_tag. by rewrite (Hk _ _ E). }
  unfold Push. rewrite !names_local; cycle 1.
  { intros k. rewrite (proj1 (Hp k)). apply Hd. }
  { intros k. rewrite Ht. destruct (bool_decide _); [|by intros []]. rewrite fmap_is_Some. apply Hd. }
  cbn [andb stop_unless mbind outcome_bind app]. fold (node_of [] "data" tags attribs).
  set (top := PushStructuredSyslogTopLevelTags v).
  pose proof (Pop_node top [] (node_of [] "data" tags attribs)) as Hpop. cbn [app] in Hpop.
  destruct (sample_attributes top [] (node_of [] "data" tags attribs)) as (Ha & Hattr & Hdom & Hval & Hn & Hv).
  cbn [app] in *. eexists. split; [rewrite Hpop; reflexivity|].
  split; [done|]. split; [done|]. split; [done|].
  assert (plain_tags (sn_tags (node_of [] "data" tags attribs))) as Hkm.
  { intros k t (f & _ & Hf)%lookup_kmap_Some; [|apply _]. rewrite Ht in Hf. destruct (bool_decide _); [|done].
    apply fmap_Some in Hf as (x & _ & ->). eauto. }
  assert (plain_tags top) as Htop.
  { unfold top, PushStructuredSyslogTopLevelTags. intros k t [_ <-]%lookup_singleton_Some. eauto. }
  split; [|split].
  - intros k y Hy. cbn [st_sample]. apply Hattr. change ("data." +:+ k) with (qualify "data" k). cbn [node_of sn_attribs].
    change (add_name (path []) "data") with "data"%string. rewrite (lookup_kmap (qualify "data")).
    by rewrite (proj1 (Hp k)).
  - cbn [st_sample]. destruct (sm_attribs (sample_of top [] (node_of [] "data" tags attribs)) !! "Source"%string) as [y|] eqn:E; cycle 1.
    { apply eq_None_not_Some in E. destruct E. apply Hdom. right. apply node_tag_names; [done..|]. left.
      unfold top, PushStructuredSyslogTopLevelTags. rewrite lookup_singleton_eq. eauto. }
    assert (sn_attribs (node_of [] "data" tags attribs) !! "Source"%string = None) as Hnone.
    { cbn [node_of sn_attribs]. apply lookup_kmap_None; [apply _|]. intros f Hf. discriminate Hf. }
    pose proof (proj1 (node_tags top _ _ _ Htop Hkm) (Hval _ _ E Hnone)) as [E'|E'].
    + unfold top, PushStructuredSyslogTopLevelTags in E'. rewrite lookup_singleton_eq in E'. by injection E' as ->.
    + apply lookup_kmap_Some in E' as (f & Hf & _); [discriminate Hf|apply _].
  - intros k. cbn [st_sample]. rewrite Hn, node_tag_names by done.
    assert (is_Some (top !! k) ↔ k = "Source"%string) as ->.
    { unfold top, PushStructuredSyslogTopLevelTags. rewrite lookup_singleton_is_Some. split; intros Es; by symmetry. }
    apply or_iff_compat_l. cbn [node_of sn_tags]. change (add_name (path []) "data") with "data"%string. split.
    + intros [t (f & -> & Hf)%lookup_kmap_Some]; [|apply _]. exists f. rewrite Ht in Hf.
      case_bool_decide; [|done]. apply fmap_Some in Hf as (y & Hy & _). rewrite Hy. eauto.
    + intros (f & -> & Hf & Hy). change ("data." +:+ f) with (qualify "data" f). rewrite (lookup_kmap (qualify "data")), Ht, bool_decide_eq_true_2 by done.
      by rewrite fmap_is_Some.
Qed.

(** A field with a dot in its name fails the assertion of the walker. *)
Lemma find_dot k : has_char "." k = true → size k <= npos → find k "." 0 ≠ npos.
Proof.
  unfold find. assert (∀ i, 0 <= i → i + size k <= npos → has_char "." k = true → find_at "." k i 0 ≠ npos) as H.
  { induction k as [|a k IH]; intros i Hi Hs Hk; [done|]. rewrite size_cons in Hs. pose proof (size_nonneg k). simpl in *.
    destruct (Z.leb_spec 0 i); [|lia]. destruct (a =? ".")%char; simpl in *; [lia|]. apply IH; [lia|lia|done]. }
  intros Hk Hs. apply H; auto; lia.
Qed.
Lemma dotted_field_stops v tagged k x : keyed v → v !! k ≫= field_var = Some x →
  has_char "." k = true → size k <= npos → StructuredSyslogPush v tagged = Stopped.
Proof.
  intros Hk Hx Hd Hs. unfold StructuredSyslogPush, PushStructuredSyslogStats.
  pose proof (pushed v tagged Hk k) as [Hp _]. cbv zeta in Hp.
  destruct (foldl (push_field tagged) (∅, ∅) (snd <$> entries v)) as [attribs tags]. simpl in Hp.
  assert (local_names attribs = false) as Hl.
  { apply not_true_iff_false. intros Hl. unfold local_names in Hl. rewrite forallb_forall in Hl.
    specialize (Hl (k, x)). rewrite Hx in Hp. apply elem_of_map_to_list, list_elem_of_In, Hl, Z.eqb_eq in Hp.
    by apply (find_dot k) in Hp. }
  unfold Push. by rewrite Hl, andb_false_r.
Qed.
End sample.

(** ** The parts of a message *)

Section parts.
Context {ind : Indeterminate} {addresses : IpAddress} {writer : JsonWriter}.
Context `{Regex, RegexSearch}.

(** The body of a message: words, the tag, the hardware and the fields. *)
Definition structured_body (tag hardware : string) (l : list (string * string)) : string :=
  tag +:+ " [" +:+ hardware +:+ " " +:+ fields_text l +:+ "]".

Lemma find_last_end c s : find_last_of (s +:+ String c EmptyString) c = size s.
Proof.
  unfold find_last_of. rewrite find_last_at_app. simpl. by rewrite Ascii.eqb_refl.
Qed.
Lemma find_last_none c s : has_char c s = false → find_last_of s c = npos.
Proof.
  unfold find_last_of. generalize 0 as i. induction s as [|a s IH]; intros i Hs; [done|]. simpl in *.
  apply orb_false_iff in Hs as [-> Hs]. by apply IH.
Qed.
Lemma find_first c s t : has_char c s = false → find (s +:+ String c t) c 0 = size s.
Proof. intros Hs. unfold find. rewrite find_at_first; [lia|done|]. pose proof (size_nonneg s). lia. Qed.

(** The tag is the word before the bracket: alone, or after two words at least.
    With one word before it the count of [substr] is zero, and it is empty. *)
Lemma tag_alone tag rest : has_char " " tag = false → has_char "[" tag = false → size tag < npos →
  body_tag (tag +:+ " [" +:+ rest) (size tag + 1) (size tag) = Done tag.
Proof.
  intros Hs Hb Hn. unfold body_tag. pose proof (size_nonneg tag). replace (size tag + 1 - 1) with (size tag) by lia.
  rewrite u64_small by (unfold is_u64, npos in *; lia).
  rewrite substr_take. cbn [stop_unless mbind outcome_bind]. by rewrite find_last_none.
Qed.
Lemma find_last_word w tag : has_char " " tag = false → find_last_of (w +:+ " " +:+ tag) " " = size w.
Proof.
  intros Ht. unfold find_last_of. rewrite !find_last_at_app. simpl.
  assert (∀ i f, find_last_at " " tag i f = f) as ->; [|done].
  clear - Ht. induction tag as [|a tag IH]; intros i f; [done|]. simpl in *. apply orb_false_iff in Ht as [-> Ht]. by apply IH.
Qed.
Lemma tag_after_words w e tag rest : has_char " " tag = false → 0 <= e <= size w → size w + size tag + 2 < npos →
  body_tag (w +:+ " " +:+ tag +:+ " [" +:+ rest) (size w + size tag + 2) e
  = Done (if e =? size w then EmptyString else tag).
Proof.
  intros Ht He Hn. unfold body_tag. pose proof (size_nonneg tag). pose proof (size_nonneg w).
  assert (size (w +:+ " " +:+ tag) = size w + size tag + 1) as Hsz by (rewrite !size_app; change (size " ") with 1; lia).
  replace (size w + size tag + 2 - 1) with (size (w +:+ " " +:+ tag)) by lia.
  rewrite u64_small by (unfold is_u64, npos in *; lia).
  replace (w +:+ " " +:+ tag +:+ " [" +:+ rest) with ((w +:+ " " +:+ tag) +:+ (" [" +:+ rest)) by (by rewrite !append_assoc_string).
  rewrite substr_take. cbn [stop_unless mbind outcome_bind]. rewrite find_last_word by done.
  destruct (Z.eqb_spec (size w) npos); [lia|].
  replace (w +:+ " " +:+ tag) with ((w +:+ " ") +:+ tag) by (by rewrite !append_assoc_string).
  destruct (Z.eqb_spec e (size w)) as [->|Hne].
  - rewrite Z.sub_diag. change (u64 0) with (size EmptyString). change tag with (EmptyString +:+ tag) at 1.
    rewrite (substr_mid (w +:+ " ") EmptyString tag); [done|by rewrite size_app|done].
  - rewrite (substr_end (w +:+ " ") tag); [done|by rewrite size_app|]. unfold u64.
    rewrite <- (Z.mod_unique (e - size w) (2 ^ 64) (-1) (e - size w + 2 ^ 64)); unfold npos in *; lia.
Qed.

Lemma body_parts_of tag hardware l : has_char " " tag = false → has_char "[" tag = false →
  size (structured_body tag hardware l) < npos →
  body_parts (structured_body tag hardware l) = Done (Some (tag, size tag + 1)).
Proof.
  intros Hs Hb Hn. unfold body_parts, structured_body in *. rewrite !size_app in Hn.
  change (size " [") with 2 in Hn. change (size "]") with 1 in Hn. change (size " ") with 1 in Hn.
  pose proof (size_nonneg tag). pose proof (size_nonneg hardware). pose proof (size_nonneg (fields_text l)).
  set (rest := hardware +:+ " " +:+ fields_text l +:+ "]"). set (body := tag +:+ " [" +:+ rest).
  assert (body = (tag +:+ " ") +:+ String "[" rest) as E1 by (unfold body; by rewrite append_assoc_string).
  assert (body = tag +:+ String " " (String "[" rest)) as E2 by done.
  assert (body = (tag +:+ " [") +:+ (hardware +:+ " " +:+ fields_text l) +:+ "]") as E3
    by (unfold body, rest; by rewrite !append_assoc_string).
  assert (find body "[" 0 = size tag + 1) as ->.
  { rewrite E1, find_first by (by rewrite has_char_app, Hb). by rewrite size_app. }
  destruct (Z.eqb_spec (size tag + 1) npos); [lia|].
  destruct (Z.eqb_spec (find body "]" (size tag + 1 + 1)) npos) as [E|_].
  { exfalso. revert E. rewrite E3. unfold find. rewrite find_at_before by (rewrite size_app; change (size " [") with 2; lia).
    apply found_before; rewrite ?size_app; change (size " [") with 2; change (size " ") with 1; lia. }
  assert (find body " " 0 = size tag) as -> by (rewrite E2; by apply find_first).
  destruct (Z.eqb_spec (size tag) npos); [lia|]. unfold body. rewrite tag_alone by (done || lia). done.
Qed.
Lemma body_structure_of tag hardware l : has_char " " hardware = false → size (structured_body tag hardware l) < npos →
  body_structure (structured_body tag hardware l) (size tag + 1) = Done (Some (hardware, fields_text l)).
Proof.
  intros Hh Hn. unfold body_structure, structured_body in *. rewrite !size_app in Hn.
  change (size " [") with 2 in Hn. change (size "]") with 1 in Hn. change (size " ") with 1 in Hn.
  pose proof (size_nonneg tag). pose proof (size_nonneg hardware). pose proof (size_nonneg (fields_text l)).
  set (body := tag +:+ " [" +:+ hardware +:+ " " +:+ fields_text l +:+ "]").
  assert (body = (tag +:+ " ") +:+ (String "[" hardware) +:+ String " " (fields_text l +:+ "]")) as E1 by (unfold body; rewrite !append_assoc_string; done).
  assert (body = (tag +:+ " [") +:+ hardware +:+ (" " +:+ fields_text l +:+ "]")) as E2 by (unfold body; rewrite !append_assoc_string; done).
  assert (body = (tag +:+ " [" +:+ hardware +:+ " ") +:+ fields_text l +:+ "]") as E3 by (unfold body; rewrite !append_assoc_string; done).
  assert (body = (tag +:+ " [" +:+ hardware +:+ " " +:+ fields_text l) +:+ "]") as E4 by (unfold body; rewrite !append_assoc_string; done).
  assert (find body " " (size tag + 1) = size tag + 2 + size hardware) as ->.
  { rewrite E1, find_mid; [|by rewrite size_app|done]. rewrite size_app, (size_cons "["). change (size " ") with 1. lia. }
  destruct (Z.eqb_spec (size tag + 2 + size hardware) npos); [lia|].
  replace (u64 (size tag + 2 + size hardware - (size tag + 1) - 1)) with (size hardware)
    by (rewrite u64_small; unfold is_u64, npos in *; lia).
  rewrite E2 at 1. rewrite (substr_mid (tag +:+ " [") hardware); [|rewrite size_app; change (size " [") with 2; lia|done].
  cbn [stop_unless mbind outcome_bind].
  assert (find_last_of body "]" = size tag + 3 + size hardware + size (fields_text l)) as ->.
  { rewrite E4, find_last_end, !size_app. change (size " [") with 2. change (size " ") with 1. lia. }
  replace (u64 _) with (size (fields_text l)) by (rewrite u64_small; unfold is_u64, npos in *; lia).
  rewrite E3, (substr_mid _ (fields_text l)); [done| |done]. rewrite !size_app. change (size " [") with 2. change (size " ") with 1. lia.
Qed.

(** C28.  A message of the documented form is read as exactly its tag, its
    hardware and its fields, and processed by the configuration of its tag; it
    is refused only when its traffic comes in from another site. *)
Theorem message_parsed v mc tag hardware l message forwarder st :
  let fields := foldl (λ v e, insert_field (mc_ints mc) e.1 e.2 v)
    (insert_str "hardware" hardware (insert_str "tag" tag (delete "body"%string (erase_header v)))) l in
  GetMapVals (erase_header v) "body" EmptyString = structured_body tag hardware l →
  has_char " " tag = false → has_char "[" tag = false → has_char " " hardware = false → Forall valid_field l →
  size (structured_body tag hardware l) < npos →
  GetMessageConfig tag (ss_config st) = Some mc →
  process_and_store mc || forward mc || process_and_summarize mc = true →
  StructuredSyslogPostParsing v message forwarder st =
    if (tag =? "APPTRACK_SESSION_CLOSE")%string && filter_session_close_msg fields
       || (tag =? "APPTRACK_SESSION_VOL_UPDATE")%string && filter_vol_update_msg fields
    then Done (false, st)
    else '(v, st) ← process_message mc message forwarder fields st;
         Done (true, if bool_decide (is_Some forwarder) && forward mc && filter_msg v && negb (process_before_forward mc)
                     then Forward (default false forwarder) message (GetMapVals v "hostname" EmptyString) v st else st).
Proof.
  intros fields Hbody Ht Hb Hh Hl Hn Hmc Hw. unfold StructuredSyslogPostParsing. rewrite Hbody, body_parts_of by done.
  cbn [mbind outcome_bind]. rewrite Hmc.
  assert (negb (process_and_store mc) && negb (forward mc) && negb (process_and_summarize mc) = false) as ->.
  { rewrite <- !negb_orb, Hw. done. }
  rewrite body_structure_of by done. cbn [mbind outcome_bind]. unfold ParseStructuredPart.
  pose proof (size_nonneg tag). pose proof (size_nonneg hardware).
  unfold structured_body in Hn. rewrite !size_app in Hn. change (size " [") with 2 in Hn. change (size "]") with 1 in Hn.
  rewrite (parse_loop_fields l EmptyString (mc_ints mc) _ None 0 _ Hl); [| |].
  - cbn [stop_unless mbind outcome_bind negb]. fold fields.
    destruct (_ && filter_session_close_msg fields); [done|]. cbn [orb].
    destruct (_ && filter_vol_update_msg fields); done.
  - pose proof (fields_text_length l). lia.
  - change (EmptyString +:+ ?x) with x. change (size " ") with 1 in Hn. lia.
Qed.
End parts.

(** ** Examples *)

Module MessageExamples.
#[local] Instance zeros : Indeterminate := {| indeterminate _ := 0 |}.
#[local] Instance v4 : IpAddress := {| is_v4 _ := Some true |}.
#[local] Instance names_only : JsonWriter := {| write v := match v with JObject m => String.concat "," m.*1 | _ => EmptyString end |}.
#[local] Existing Instance CounterExamples.regex.
#[local] Existing Instance CounterExamples.searcher.

Definition fields : list (string * string) :=
  [("reason", "TCP RST"); ("bytes-from-client", "1421"); ("bytes-from-server", "1133"); ("rule-name", "r_Intent_gold")]%string.
Definition host : HostnameRecord := {| hr_name := "gw1"; hr_hostaddr := "10.0.0.1"; hr_tenant := "acme"; hr_location := "paris";
  hr_device := "gw1"; hr_tags := fields_text [("region", "EU"); ("OPCO", "one")]%string; hr_linkmap := ∅ |}.
Definition sla_text : string := fields_text [("latency-factor", "120")]%string.
Definition settings : config :=
  AddSlaProfileRecord "acme/gw1/gold" sla_text
    (AddMessageConfig "APPTRACK_SESSION_CLOSE" ["reason"; "bytes-from-client"] ["bytes-from-client"; "bytes-from-server"]
       true "forward-processed" false false (AddHostnameRecord host (empty_config 10)))%string.
Definition header_fields : syslog_m_t :=
  insert_str "hostname" "gw1" (insert_int "timestamp" 1480000000000000
    (insert_int "severity" 6 (insert_int "pid" (-1)
      (insert_str "body" (structured_body "APPTRACK_SESSION_CLOSE" "junos@2636.1.1.1.2.26" fields) ∅)))).
Definition line : string := "<14>1 gw1 RT_FLOW: " +:+ structured_body "APPTRACK_SESSION_CLOSE" "junos@2636.1.1.1.2.26" fields.
Definition before : syslog_state := {| ss_config := settings; ss_uves := []; ss_samples := []; ss_forwarded := [] |}.
Definition decorated_line : string :=
  "<14>1 gw1 RT_FLOW: APPTRACK_SESSION_CLOSE [junos@2636.1.1.1.2.26 " +:+
  fields_text (fields ++ [("total-bytes", "2554"); ("sla-profile", "gold"); ("tenant", "acme"); ("location", "paris");
    ("device", "gw1"); ("region", "EU"); ("OPCO", "one"); ("latency-factor", "120")]%string) +:+ "]".

(** The message is stored and forwarded with what the configuration says of it. *)
Example message_handled :
  match StructuredSyslogPostParsing header_fields line (Some true) before with
  | Done (ret, st) => ret = true ∧ qe_data <$> ss_forwarded st = [with_length decorated_line] ∧
      (entries ∘ sm_attribs ∘ st_sample) <$> ss_samples st ≠ []
  | _ => False
  end.
Proof. vm_compute. split; [reflexivity|]. split; [reflexivity|]. discriminate. Qed.

Lemma valid_fields l : forallb (λ e, negb (has_char "=" e.1) && negb (has_char "034" e.2)) l = true → Forall valid_field l.
Proof.
  intros Hl. apply Forall_forall. intros e He%list_elem_of_In. rewrite forallb_forall in Hl.
  specialize (Hl e He). apply andb_true_iff in Hl as [H1%negb_true_iff H2%negb_true_iff]. done.
Qed.
Lemma plain_fields l : forallb (λ e, negb (has_char "]" e.1) && negb (has_char "]" e.2)) l = true → Forall no_bracket l.
Proof.
  intros Hl. apply Forall_forall. intros e He%list_elem_of_In. rewrite forallb_forall in Hl.
  specialize (Hl e He). apply andb_true_iff in Hl as [H1%negb_true_iff H2%negb_true_iff]. done.
Qed.

Lemma structured_part_parsed_witness :
  ParseStructuredPart ∅ (fields_text (fields ++ [("tenant", "acme")]%string)) [] None
  = Done (true, foldl (λ v e, insert_field [] e.1 e.2 v) ∅ (fields ++ [("tenant", "acme")]%string), None).
Proof.
  apply (structured_part_parsed fields [("tenant", "acme")]%string "<14>1 gw1 RT_FLOW: TAG [hw " EmptyString ∅ []).
  - discriminate.
  - apply valid_fields. reflexivity.
  - apply plain_fields. reflexivity.
  - reflexivity.
  - reflexivity.
Defined.

Definition plain_message : syslog_m_t := foldl (λ v e, insert_field ["bytes-from-client"; "bytes-from-server"]%string e.1 e.2 v) ∅ fields.
Lemma decorated_text_witness : ∃ v' : syslog_m_t, StructuredSyslogDecorate (insert_str "hostname" "gw1" plain_message) settings
    (Some ("<14>1 gw1 RT_FLOW: TAG [hw a=1" +:+ String "]" EmptyString)) []
  = Done (v', Some ("<14>1 gw1 RT_FLOW: TAG [hw a=1" +:+ inserted
      (inserted_fields 2554 "gold" host [("region", "EU"); ("OPCO", "one")]%string [] [("latency-factor", "120")]%string)
      +:+ String "]" EmptyString)).
Proof.
  assert (match StructuredSyslogDecorate (insert_str "hostname" "gw1" plain_message) settings
    (Some ("<14>1 gw1 RT_FLOW: TAG [hw a=1" +:+ String "]" EmptyString)) [] with Done _ => true | _ => false end = true) as Hd
    by (vm_compute; reflexivity).
  destruct (StructuredSyslogDecorate _ _ _ _) as [[v' msg']| |] eqn:E; [|discriminate Hd..].
  exists v'. f_equal. f_equal. change 2554 with (sum_of_bytes (insert_str "hostname" "gw1" plain_message)).
  refine (decorated_text _ settings _ EmptyString [] "gold" host _ [] _ v' msg' _ _ _ _ _ _ _ _ _ _ _ _ E);
    try reflexivity; try (vm_compute; reflexivity).
  - vm_compute. repeat split.
  - split; [reflexivity|]. split; [apply valid_fields|apply plain_fields]; reflexivity.
  - split; [vm_compute; reflexivity|]. split; constructor.
  - split; [vm_compute; reflexivity|]. split; [apply valid_fields|apply plain_fields]; reflexivity.
Defined.

Lemma message_sample_witness : ∃ x, StructuredSyslogPush plain_message ["reason"%string] = Done x ∧
  st_name x = "JunosSyslog"%string ∧ sm_attribs (st_sample x) !! "data.bytes-from-client"%string = Some (VarU64 1421).
Proof.
  destruct (message_sample plain_message ["reason"%string]) as (x & Hx & _ & Hn & _ & Ha & _).
  - intros k h Hk. apply elem_of_map_to_list in Hk. revert Hk.
    assert (Forall (λ e, h_key e.2 = e.1) (map_to_list plain_message)) as Hf by (vm_compute; repeat constructor).
    rewrite Forall_forall in Hf. exact (Hf (k, h)).
  - intros k Hk. assert (k ∈ (map_to_list plain_message).*1) as Hin.
    { destruct Hk as [y (h & Hh & _)%bind_Some]. apply elem_of_map_to_list in Hh. apply list_elem_of_fmap. by exists (k, h). }
    assert (Forall (λ k, has_char "." k = false) (map_to_list plain_message).*1) as Hf by (vm_compute; repeat constructor).
    rewrite Forall_forall in Hf. exact (Hf k Hin).
  - exists x. split; [exact Hx|]. split; [exact Hn|].
    apply (Ha "bytes-from-client"%string (VarU64 1421)). vm_compute. reflexivity.
Defined.

Lemma message_parsed_witness :
  StructuredSyslogPostParsing (insert_str "body" (structured_body "APPTRACK_SESSION_CLOSE" "hw"
     [("routing-instance", "LAN-7")]%string) ∅) line None before = Done (false, before).
Proof.
  rewrite (message_parsed _ {| mc_name := "APPTRACK_SESSION_CLOSE"; mc_tags := ["reason"; "bytes-from-client"];
    mc_ints := ["bytes-from-client"; "bytes-from-server"]; process_and_store := true; forward := true;
    process_before_forward := true; process_and_summarize := false; process_and_summarize_user := false |}%string
    "APPTRACK_SESSION_CLOSE" "hw" [("routing-instance", "LAN-7")]%string).
  - vm_compute. reflexivity.
  - vm_compute. reflexivity.
  - reflexivity.
  - reflexivity.
  - reflexivity.
  - apply valid_fields. reflexivity.
  - reflexivity.
  - vm_compute. reflexivity.
  - reflexivity.
Defined.
End MessageExamples.
