(* ===== verification/SyslogStream.v ===== *)
(** * The stream of structured syslog messages

    Of [contrail-collector/structured_syslog_server.cc] the function that cuts
    what a socket delivers into messages ([ProcessStructuredSyslog]).  A message
    may have its length before it; without one it ends at a bracket.  A TCP
    session keeps the beginning of a message that is not complete for the next
    read, a datagram has to be complete.  Every run of the outer loop is a step;
    the loop takes fuel, and its theorems say how much is enough. *)
From Stdlib Require Import Ascii.
From stdpp Require Import base tactics list strings gmap pretty.
From Stdlib Require Import ZArith Lia.
From S2P Require Import Prelude.
From S2P Require Import CppString.
From S2P Require Import Json.
From S2P Require Import PostProcessing.
From S2P Require Import StatsSelect.
From S2P Require Import UserDefinedCounters.
From S2P Require Import SyslogConfig.
From S2P Require Import SyslogFields.
From S2P Require Import SyslogUve.
From S2P Require Import SyslogMessage.
Local Open Scope Z_scope.

Section stream.
Context {ind : Indeterminate} {dt : DateTime} {grammar : SyslogGrammar} {addresses : IpAddress} {writer : JsonWriter}.
Context `{Regex, RegexSearch}.

(** ** Finding a message *)

Definition char_at (p : string) (i : Z) (c : ascii) : bool := bool_decide (String.get (Z.to_nat i) p = Some c).
Definition sub (p : string) (start e : Z) : string := String.substring (Z.to_nat start) (Z.to_nat (e - start)) p.

(** The first loop: behind the first space, or at the end. *)
Fixpoint word_end (n : nat) (p : string) (len_end : Z) : Z :=
  match n with
  | O => len_end
  | S n => if char_at p (len_end - 1) " " then len_end else word_end n p (len_end + 1)
  end.
(** The length before the message, zero when the word is not a number. *)
Definition message_length (p : string) (start len_end : Z) : Z :=
  if all_digits (sub p start (len_end - 1)) then atol (sub p start len_end) else 0.
(** The loop that looks for the brackets of a message without a length. *)
Fixpoint seek (n : nat) (p : string) (start e len_end : Z) : Z * Z :=
  match n with
  | O => (start, len_end)
  | S n =>
      if char_at p (len_end - 1) "]" then (start, len_end)
      else seek n p (if char_at p (e - 1) "<" then e - 1 else start) (e + 1) (len_end + 1)
  end.
(** Where the message begins and ends; the end may be beyond what there is. *)
Definition find_message (p : string) (len start : Z) : Z * Z :=
  let len_end := word_end (Z.to_nat (len - (start + 1))) p (start + 1) in
  if len_end =? len then (start, len_end) else
  let mlen := message_length p start len_end in
  if negb (mlen =? 0) then (start, u64 (len_end + mlen))
  else seek (Z.to_nat (len - len_end)) p start (start + 1) len_end.

(** ** One run of the loop *)

Inductive step_result :=
  | Next (start : Z) (r : bool) (st : syslog_state)
  | Return (ret : bool) (sess_buf : string) (st : syslog_state).

(** A message that was parsed: where the next one begins.  [message_len] and the
    length it is compared with are [int]s. *)
Definition handle_message (ip p : string) (len start e : Z) (forwarder : option bool) (v : syslog_m_t) (st : syslog_state)
  : outcome (Z * syslog_state) :=
  let v := insert_str "ip" ip v in
  let lenstr := to_decimal (GetMapVal v "msglen" 0) in
  let message_len := i32 (GetMapVal v "msglen" (i32 len)) in
  let start := if message_len =? i32 len then start else u64 (start + size lenstr + 1) in
  v ← PostParsing v;
  '(_, st) ← StructuredSyslogPostParsing v (sub p start e) forwarder st;
  Done (if message_len =? i32 len then u64 (e + 1) else u64 (start + message_len), st).

(** A session keeps what is not complete, but for five kilobytes; the text that
    is logged instead ends at a fixed place, before its beginning in a long
    buffer, which is an exception. *)
Definition MAX_SESSION_BUFFER : Z := 5120.
Definition keep (p : string) (len start : Z) (st : syslog_state) : outcome step_result :=
  if len - start <? MAX_SESSION_BUFFER then Done (Return true (sub p start len) st)
  else if 2048 <? start then Stopped else Done (Return false EmptyString st).
Definition stream_step (ip p : string) (len : Z) (session : bool) (forwarder : option bool) (start : Z) (st : syslog_state)
  : outcome step_result :=
  let '(start, e) := find_message p len start in
  if ((len <? e) || ((e =? len) && negb (char_at p (e - 1) "]"))) && session then keep p len start st
  else if size p <? e then Stopped
  else
    match parse_syslog (sub p start e) with
    | Some v => '(start, st) ← handle_message ip p len start e forwarder v st; Done (Next start true st)
    | None => Done (Next e false st)
    end.

Fixpoint process_loop (fuel : nat) (ip p : string) (len : Z) (session : bool) (forwarder : option bool) (start : Z)
    (st : syslog_state) : option (outcome (bool * string * syslog_state)) :=
  match fuel with
  | O => None
  | S fuel =>
      match stream_step ip p len session forwarder start st with
      | Done (Next start r st) =>
          if start <? len then process_loop fuel ip p len session forwarder start st
          else Some (Done (r, EmptyString, st))
      | Done (Return ret sess_buf st) => Some (Done (ret, sess_buf, st))
      | Status e => Some (Status e)
      | Stopped => Some Stopped
      end
  end.

(** [ProcessStructuredSyslog] with the buffer of the session, if there is one:
    what it returns, the buffer and the state; [None]: out of fuel. *)
Definition ProcessStructuredSyslog (fuel : nat) (ip data : string) (forwarder : option bool) (sess_buf : option string)
    (st : syslog_state) : option (outcome (bool * string * syslog_state)) :=
  match trim_end data with
  | None => Some Stopped
  | Some t =>
      match sess_buf with
      | Some b => process_loop fuel ip (b +:+ t) (size (b +:+ t)) true forwarder 0 st
      | None => process_loop fuel ip data (size t) false forwarder 0 st
      end
  end.

(** The reads of a session ([StructuredSyslogTcpServer::ReadMsg]); what the
    function returns is only logged. *)
Fixpoint read_all (fuel : nat) (ip : string) (forwarder : option bool) (chunks : list string) (sess_buf : string)
    (st : syslog_state) : option (outcome (string * syslog_state)) :=
  match chunks with
  | [] => Some (Done (sess_buf, st))
  | data :: chunks =>
      match ProcessStructuredSyslog fuel ip data forwarder (Some sess_buf) st with
      | Some (Done (_, sess_buf, st)) => read_all fuel ip forwarder chunks sess_buf st
      | Some (Status e) => Some (Status e)
      | Some Stopped => Some Stopped
      | None => None
      end
  end.
End stream.

(** ** Characters and parts of concatenations *)

Lemma char_at_app a c t d : char_at (a +:+ String c t) (size a) d = (c =? d)%char.
Proof.
  unfold char_at, size. rewrite Nat2Z.id.
  assert (String.get (String.length a) (a +:+ String c t) = Some c) as -> by (induction a; [done|assumption]).
  destruct (Ascii.eqb_spec c d) as [->|Hne]; [by apply bool_decide_eq_true|apply bool_decide_eq_false]. congruence.
Qed.
Lemma sub_mid a s t start e : start = size a → e = size a + size s → sub (a +:+ s +:+ t) start e = s.
Proof.
  intros -> ->. unfold sub. rewrite Z.add_simpl_l. unfold size. rewrite !Nat2Z.id, substring_drop. apply substring_app_0.
Qed.
Lemma sub_end a s start e : start = size a → e = size a + size s → sub (a +:+ s) start e = s.
Proof. intros H1 H2. rewrite <- (append_empty_r s) at 1. by apply sub_mid. Qed.

Lemma last_char s : s ≠ EmptyString → ∃ t c, s = t +:+ String c EmptyString.
Proof.
  induction s as [|a s IH]; [done|]. intros _. destruct s as [|b s]; [by exists EmptyString, a|].
  destruct (IH ltac:(done)) as (t & c & E). exists (String a t), c. by rewrite E.
Qed.
Lemma app_split a b c d : a +:+ b = c +:+ d → size a <= size c → ∃ e, c = a +:+ e ∧ b = e +:+ d.
Proof.
  revert c. induction a as [|x a IH]; intros c E Hs; [by exists c|].
  destruct c as [|y c]; [rewrite size_cons in Hs; change (size EmptyString) with 0 in Hs; pose proof (size_nonneg a); lia|].
  injection E as -> E. rewrite !size_cons in Hs. destruct (IH c E ltac:(lia)) as (e & -> & ->). by exists e.
Qed.
Lemma app_cancel a b c : a +:+ b = a +:+ c → b = c.
Proof. induction a as [|x a IH]; [done|]. intros E. injection E as E. by apply IH. Qed.

Lemma trim_end_size s t : trim_end s = Some t → 0 < size t <= size s.
Proof.
  revert t. induction s as [|a s IH]; intros t; [done|]. simpl. destruct (trim_end s) as [u|].
  - intros [= <-]. rewrite !size_cons. specialize (IH u eq_refl). lia.
  - destruct (a =? "000")%char; [done|]. intros [= <-]. rewrite !size_cons. change (size EmptyString) with 0.
    pose proof (size_nonneg s). lia.
Qed.
Lemma trim_end_last s c : c ≠ "000"%char → trim_end (s +:+ String c EmptyString) = Some (s +:+ String c EmptyString).
Proof.
  intros Hc. induction s as [|a s IH].
  - simpl. destruct (Ascii.eqb_spec c "000"); done.
  - change (trim_end (String a (s +:+ String c EmptyString)) = Some (String a (s +:+ String c EmptyString))). simpl. by rewrite IH.
Qed.

(** ** Messages with their length *)

Definition INT_MAX : Z := 2 ^ 31 - 1.
Definition frame (m : string) : string := to_decimal (size m) +:+ " " +:+ m.
Definition frames (ms : list string) : string := foldr (λ m s, frame m +:+ s) EmptyString ms.

Lemma digits_no_space s : all_digits s = true → has_char " " s = false ∧ has_char "]" s = false.
Proof.
  induction s as [|a s IH]; [done|]. simpl. intros [Ha Hs]%andb_true_iff. destruct (IH Hs) as [-> ->].
  destruct a as [[] [] [] [] [] [] [] []]; try discriminate Ha; done.
Qed.
Lemma decimal_digits n : 0 <= n → all_digits (to_decimal n) = true ∧ to_decimal n ≠ EmptyString.
Proof.
  intros Hn. split; [by apply all_digits_pretty|]. intros E. pose proof (digits_val_pretty n Hn) as Hv.
  unfold to_decimal in E. rewrite E in Hv. simpl in Hv. subst n. discriminate E.
Qed.
Lemma digits_val_space s acc : all_digits s = true → digits_val (s +:+ " ") acc = digits_val s acc.
Proof.
  revert acc. induction s as [|a s IH]; intros acc Hs; [done|]. simpl in *. apply andb_true_iff in Hs as [-> Hs].
  by apply IH.
Qed.
Lemma atol_decimal n : 0 <= n < 2 ^ 63 → atol (to_decimal n +:+ " ") = n.
Proof.
  intros Hn. destruct (decimal_digits n ltac:(lia)) as [Hd Hne].
  assert (signed_prefix (to_decimal n +:+ " ") = n) as Hs.
  { destruct (to_decimal n) as [|a s] eqn:E; [done|].
    transitivity (digits_val (String a s +:+ " ") 0).
    - simpl in Hd. apply andb_true_iff in Hd as [Ha _]. destruct (digit_not_space_sign a Ha) as (H1 & H2 & H3).
      unfold signed_prefix. change (String a s +:+ " ") with (String a (s +:+ " ")). simpl. rewrite H1.
      destruct a as [[] [] [] [] [] [] [] []]; done.
    - rewrite digits_val_space by done. rewrite <- E. apply digits_val_pretty. lia. }
  unfold atol. rewrite Hs. lia.
Qed.

Lemma word_end_space n a w t : has_char " " w = false → size w <= Z.of_nat n →
  word_end n (a +:+ w +:+ String " " t) (size a + 1) = size a + size w + 1.
Proof.
  revert n a. induction w as [|c w IH]; intros n a Hw Hn.
  - change (size EmptyString) with 0. change (EmptyString +:+ String " " t) with (String " " t).
    destruct n as [|n]; simpl; [lia|]. rewrite Z.add_simpl_r, char_at_app. simpl. lia.
  - rewrite size_cons in *. pose proof (size_nonneg w). destruct n as [|n]; [lia|]. simpl in Hw. apply orb_false_iff in Hw as [Hc Hw].
    change (String c w +:+ String " " t) with (String c (w +:+ String " " t)). cbn [word_end].
    rewrite Z.add_simpl_r, char_at_app, Hc.
    specialize (IH n (a +:+ String c EmptyString) Hw ltac:(lia)). rewrite size_app, append_assoc_string in IH.
    change (size (String c EmptyString)) with 1 in IH.
    change (String c EmptyString +:+ w +:+ String " " t) with (String c (w +:+ String " " t)) in IH. rewrite IH. lia.
Qed.
Lemma word_end_none n a w : has_char " " w = false → w ≠ EmptyString → Z.of_nat n = size w - 1 →
  word_end n (a +:+ w) (size a + 1) = size a + size w.
Proof.
  revert n a. induction w as [|c w IH]; intros n a Hw Hne Hn; [done|].
  rewrite size_cons in *. simpl in Hw. apply orb_false_iff in Hw as [Hc Hw]. destruct n as [|n]; [simpl; lia|].
  cbn [word_end]. rewrite Z.add_simpl_r, char_at_app, Hc.
  assert (w ≠ EmptyString) as Hne' by (intros ->; change (size EmptyString) with 0 in Hn; lia).
  specialize (IH n (a +:+ String c EmptyString) Hw Hne' ltac:(lia)).
  rewrite size_app, append_assoc_string in IH. change (size (String c EmptyString)) with 1 in IH.
  change (String c EmptyString +:+ w) with (String c w) in IH. rewrite IH. lia.
Qed.

Lemma i32_small z : 0 <= z <= INT_MAX → i32 z = z.
Proof. unfold INT_MAX, i32. intros Hz. rewrite Z.mod_small; lia. Qed.
Lemma size_frame m : size (frame m) = size (to_decimal (size m)) + 1 + size m.
Proof. unfold frame. rewrite !size_app. change (size " ") with 1. lia. Qed.
Lemma size_positive s : s ≠ EmptyString → 0 < size s.
Proof. destruct s as [|a s]; [done|]. intros _. rewrite size_cons. pose proof (size_nonneg s). lia. Qed.

Lemma message_length_frame a m t len_end : size m <= INT_MAX → len_end = size a + size (to_decimal (size m)) + 1 →
  message_length (a +:+ to_decimal (size m) +:+ String " " t) (size a) len_end = size m.
Proof.
  intros Hm ->. unfold message_length. pose proof (size_nonneg m). destruct (decimal_digits (size m) ltac:(lia)) as [Hd _].
  rewrite (sub_mid a (to_decimal (size m))) by (done || lia). rewrite Hd.
  change (String " " t) with (" " +:+ t). rewrite <- (append_assoc_string (to_decimal (size m))).
  rewrite (sub_mid a (to_decimal (size m) +:+ " ")); [|done|rewrite size_app; change (size " ") with 1; lia].
  apply atol_decimal. unfold INT_MAX in *. lia.
Qed.

(** A message that is complete is found whole. *)
Lemma find_full a m t len : m ≠ EmptyString → len = size (a +:+ frame m +:+ t) → len <= INT_MAX →
  find_message (a +:+ frame m +:+ t) len (size a) = (size a, size a + size (frame m)).
Proof.
  intros Hm Hlen Hmax. unfold find_message. rewrite size_frame. pose proof (size_positive m Hm) as Hpos.
  assert (a +:+ frame m +:+ t = a +:+ to_decimal (size m) +:+ String " " (m +:+ t)) as Ep
    by (unfold frame; rewrite !append_assoc_string; done).
  rewrite !size_app, size_frame in Hlen. pose proof (size_nonneg t). pose proof (size_nonneg a). pose proof (size_nonneg (to_decimal (size m))).
  destruct (decimal_digits (size m) ltac:(lia)) as [[Hd _]%digits_no_space _].
  rewrite Ep, word_end_space by (done || lia). cbv zeta.
  destruct (Z.eqb_spec (size a + size (to_decimal (size m)) + 1) len); [lia|].
  rewrite message_length_frame by lia.
  destruct (Z.eqb_spec (size m) 0); [lia|]. cbn [negb]. f_equal. rewrite u64_small; unfold is_u64, INT_MAX in *; lia.
Qed.

(** One that is not ends behind what there is, or at a character no message ends with. *)
Lemma find_partial a r x m len : frame m = r +:+ x → r ≠ EmptyString → x ≠ EmptyString →
  len = size (a +:+ r) → size m <= INT_MAX → len <= INT_MAX → ∃ e,
  find_message (a +:+ r) len (size a) = (size a, e) ∧ (len < e ∨ e = len ∧ char_at (a +:+ r) (e - 1) "]" = false).
Proof.
  intros Hf Hr Hx Hlen Hmm Hmax. unfold find_message. pose proof (size_positive r Hr). pose proof (size_nonneg m). pose proof (size_nonneg a).
  destruct (decimal_digits (size m) ltac:(lia)) as [Hd _]. destruct (digits_no_space _ Hd) as [Hsp Hbr].
  unfold frame in Hf. destruct (Z.le_gt_cases (size r) (size (to_decimal (size m)))) as [Hs|Hs].
  - destruct (app_split r x _ (" " +:+ m) (eq_sym Hf) Hs) as (e & E & _). rewrite E, has_char_app in Hsp, Hbr.
    apply orb_false_iff in Hsp as [Hsp _], Hbr as [Hbr _].
    rewrite size_app in Hlen. rewrite word_end_none by (done || lia). cbv zeta. rewrite <- Hlen, Z.eqb_refl.
    exists len. split; [done|]. right. split; [done|].
    destruct (last_char r Hr) as (t & c & ->). rewrite has_char_app in Hbr. apply orb_false_iff in Hbr as [_ Hbr].
    simpl in Hbr. rewrite orb_false_r in Hbr. rewrite <- append_assoc_string.
    replace (len - 1) with (size (a +:+ t)); [by rewrite char_at_app|].
    rewrite Hlen, !size_app. change (size (String c EmptyString)) with 1. lia.
  - destruct (app_split (to_decimal (size m)) (" " +:+ m) r x Hf ltac:(lia)) as (e2 & -> & E).
    destruct e2 as [|c m1]; [rewrite append_empty_r in Hs; lia|]. injection E as <- E. clear Hf Hr.
    rewrite !size_app, size_cons in Hlen. pose proof (size_nonneg m1). pose proof (size_nonneg (to_decimal (size m))).
    rewrite word_end_space by (done || lia). cbv zeta.
    destruct (Z.eqb_spec (size a + size (to_decimal (size m)) + 1) len) as [El|Hne].
    + exists len. split; [by rewrite El|]. right. split; [done|]. rewrite <- append_assoc_string.
      replace (len - 1) with (size (a +:+ to_decimal (size m))) by (rewrite size_app; lia). by rewrite char_at_app.
    + rewrite message_length_frame by lia. pose proof (size_positive x Hx).
      assert (size m = size m1 + size x) as Hsm by (change (m = m1 +:+ x) in E; rewrite E at 1; apply size_app).
      destruct (Z.eqb_spec (size m) 0); [lia|]. cbn [negb]. eexists. split; [reflexivity|]. left.
      rewrite u64_small; unfold is_u64, INT_MAX in *; lia.
Qed.

(** ** The loop ends *)

Lemma word_end_stops n p i : i <= word_end n p i <= i + Z.of_nat n ∧
  (word_end n p i = i + Z.of_nat n ∨ char_at p (word_end n p i - 1) " " = true).
Proof.
  revert i. induction n as [|n IH]; intros i; cbn [word_end]; [split; [|left]; lia|].
  destruct (char_at p (i - 1) " ") eqn:E; [split; [lia|by right]|]. destruct (IH (i + 1)) as [H1 [H2|H2]].
  - split; [|left]; lia.
  - split; [lia|by right].
Qed.
Lemma seek_bounds n p lo s e i s' e' : lo <= s → lo <= e - 1 → s < i → e <= i →
  seek n p s e i = (s', e') → lo <= s' < e'.
Proof.
  revert s e i. induction n as [|n IH]; intros s e i H1 H2 H3 H4 E; cbn [seek] in E; [injection E as <- <-; lia|].
  destruct (char_at p (i - 1) "]"); [injection E as <- <-; lia|].
  destruct (char_at p (e - 1) "<"); (apply IH in E; [done|lia..]).
Qed.

Lemma sub_last p start i c : 0 <= start <= i → char_at p i c = true →
  sub p start (i + 1) = sub p start i +:+ String c EmptyString.
Proof.
  intros Hi Hc%bool_decide_eq_true. unfold sub. replace (i + 1 - start) with (i - start + 1) by lia.
  rewrite Z2Nat.inj_add, Nat.add_1_r by lia. replace i with (start + (i - start)) in Hc by lia.
  rewrite Z2Nat.inj_add in Hc by lia. revert Hc. generalize (Z.to_nat start) (Z.to_nat (i - start)). clear.
  induction p as [|a p IH]; intros n m; [by destruct n, m|].
  destruct n as [|n]; [|exact (IH n m)]. destruct m as [|m]; simpl.
  - intros [= ->]. by destruct p.
  - intros Hc. exact (f_equal (String a) (IH O m Hc)).
Qed.
Lemma digits_val_nonneg s acc : 0 <= acc → 0 <= digits_val s acc.
Proof.
  revert acc. induction s as [|a s IH]; intros acc Ha; simpl; [done|].
  destruct (is_digit a) eqn:Hd; [|done]. apply andb_true_iff in Hd as [Hd%Z.leb_le _]. apply IH. unfold digit_val. lia.
Qed.
Lemma atol_digits w : all_digits w = true → 0 <= atol (w +:+ " ") < 2 ^ 63.
Proof.
  intros Hw. assert (0 <= signed_prefix (w +:+ " ")) as Hs; [|unfold atol; lia].
  destruct w as [|a w]; [done|]. simpl in Hw. apply andb_true_iff in Hw as [Ha _].
  destruct (digit_not_space_sign a Ha) as (H1 & H2 & H3).
  replace (signed_prefix (String a w +:+ " ")) with (digits_val (String a w +:+ " ") 0); [by apply digits_val_nonneg|].
  unfold signed_prefix. change (String a w +:+ " ") with (String a (w +:+ " ")). simpl. rewrite H1.
  destruct a as [[] [] [] [] [] [] [] []]; done.
Qed.
Lemma message_length_bounds p start len_end : 0 <= start < len_end → char_at p (len_end - 1) " " = true →
  0 <= message_length p start len_end < 2 ^ 63.
Proof.
  intros Hb Hc. unfold message_length. destruct (all_digits _) eqn:Hd; [|lia].
  assert (sub p start len_end = sub p start (len_end - 1) +:+ " ") as ->; [|by apply atol_digits].
  replace len_end with (len_end - 1 + 1) at 1 by lia. apply sub_last; [lia|done].
Qed.

(** Every message found is one character at least, and not before where the search began. *)
Lemma find_message_forward p len start s e : 0 <= start < len → len <= INT_MAX → find_message p len start = (s, e) →
  start <= s < e.
Proof.
  intros Hs Hmax. unfold find_message. destruct (word_end_stops (Z.to_nat (len - (start + 1))) p (start + 1)) as [H1 H2].
  set (len_end := word_end _ p (start + 1)) in *. destruct (Z.eqb_spec len_end len) as [E|Hne]; [intros [= <- <-]; lia|].
  destruct H2 as [H2|H2]; [lia|]. pose proof (message_length_bounds p start len_end ltac:(lia) H2).
  destruct (Z.eqb_spec (message_length p start len_end) 0) as [E|Hm]; cbn [negb].
  - apply seek_bounds; lia.
  - intros [= <- <-]. assert (len_end <= len).
    { lia. }
    rewrite u64_small; unfold is_u64, INT_MAX in *; lia.
Qed.

Section termination.
Context {ind : Indeterminate} {dt : DateTime} {grammar : SyslogGrammar} {addresses : IpAddress} {writer : JsonWriter}.
Context `{Regex, RegexSearch}.
Context (ip : string) (forwarder : option bool).

(** A message that is handled moves the loop forward when its length is none or not negative. *)
Definition length_not_negative (v : syslog_m_t) : Prop := 0 <= GetMapVal v "msglen" 0 <= INT_MAX.
Lemma msglen_with_ip v d : GetMapVal (insert_str "ip" ip v) "msglen" d = GetMapVal v "msglen" d.
Proof. unfold GetMapVal, insert_str. by rewrite lookup_map_insert_new, decide_False. Qed.
Lemma handle_message_forward p len start e v st start' st' : length_not_negative v → 0 <= start < e → e <= INT_MAX →
  0 <= len <= INT_MAX → handle_message ip p len start e forwarder v st = Done (start', st') → start < start'.
Proof.
  unfold length_not_negative, handle_message. intros Hv Hs He Hl Hh.
  apply bind_done in Hh as (v' & _ & Hh). apply bind_done in Hh as ([r st2] & _ & [= <- _]).
  rewrite !msglen_with_ip. rewrite !(i32_small len) by done.
  destruct (v !! "msglen"%string) as [h|] eqn:E; unfold GetMapVal in *; rewrite E in *.
  - rewrite !i32_small by done. pose proof (pretty_length (h_i_val h)) as Hp. pose proof (size_nonneg (pretty (h_i_val h))).
    unfold to_decimal. assert (size (pretty (h_i_val h)) <= 20) by (apply Hp; unfold is_u64, INT_MAX in *; lia).
    destruct (Z.eqb_spec (h_i_val h) len); [rewrite u64_small; unfold is_u64, INT_MAX in *; lia|].
    rewrite (u64_small (start + _ + 1)) by (unfold is_u64, INT_MAX in *; lia). rewrite u64_small; unfold is_u64, INT_MAX in *; lia.
  - rewrite i32_small, Z.eqb_refl by done. rewrite u64_small; unfold is_u64, INT_MAX in *; lia.
Qed.

(** C32.  A message that claims the length minus three is taken again and again:
    the three characters of the length and its space are skipped, and then the
    length is added.  No number of runs is enough. *)
Theorem negative_length_never_ends t c v v' sess_buf st fuel : c ≠ "000"%char →
  let data := t +:+ String c EmptyString in
  has_char " " data = false → size data <= INT_MAX → c = "]"%char ∨ sess_buf = None → default EmptyString sess_buf = EmptyString →
  parse_syslog data = Some v → GetMapVal v "msglen" 0 = -3 →
  PostParsing (insert_str "ip" ip v) = Done v' → find (GetMapVals (erase_header v') "body" EmptyString) "[" 0 = npos →
  ProcessStructuredSyslog fuel ip data forwarder sess_buf st = None.
Proof.
  intros Hc data Hsp Hmax Hend Hbuf Hp Hlen Hpost Hbody.
  assert (data ≠ EmptyString) as Hne by (unfold data; by destruct t). pose proof (size_positive data Hne) as Hpos.
  assert (0 < size data) as Hpos' by done.
  assert (find_message data (size data) 0 = (0, size data)) as Hfind.
  { unfold find_message. pose proof (word_end_none (Z.to_nat (size data - 1)) EmptyString data Hsp Hne ltac:(lia)) as E.
    change (EmptyString +:+ data) with data in E. change (size EmptyString) with 0 in E. cbv zeta.
    rewrite Z.add_0_l in E |- *. rewrite E, Z.add_0_l, Z.eqb_refl. done. }
  assert (char_at data (size data - 1) c = true) as Hlast.
  { unfold data. rewrite size_app. change (size (String c EmptyString)) with 1. rewrite Z.add_simpl_r, char_at_app.
    by apply Ascii.eqb_eq. }
  assert (∀ session, c = "]"%char ∨ session = false → stream_step ip data (size data) session forwarder 0 st = Done (Next 0 true st)) as Hstep.
  { intros session Hs. unfold stream_step. rewrite Hfind, Z.ltb_irrefl, Z.eqb_refl.
    assert ((false || true && negb (char_at data (size data - 1) "]")) && session = false) as ->
      by (destruct Hs as [->| ->]; [by rewrite Hlast|by rewrite andb_false_r]).
    unfold sub. rewrite Z.sub_0_r. unfold size at 1. rewrite Nat2Z.id. change (Z.to_nat 0) with 0%nat.
    replace (String.substring 0 (String.length data) data) with data by (rewrite <- (append_empty_r data) at 3; by rewrite substring_app_0).
    rewrite Hp. unfold handle_message. rewrite !msglen_with_ip, Hpost. cbn [mbind outcome_bind].
    unfold StructuredSyslogPostParsing, body_parts. rewrite Hbody. change (npos =? npos) with true. cbn [mbind outcome_bind].
    destruct (v !! "msglen"%string) as [h|] eqn:E; unfold GetMapVal in *; rewrite E in *; [|done]. rewrite Hlen.
    change (i32 (-3)) with (-3). rewrite (i32_small (size data)) by lia. destruct (Z.eqb_spec (-3) (size data)); [lia|]. done. }
  assert (∀ session, c = "]"%char ∨ session = false → process_loop fuel ip data (size data) session forwarder 0 st = None) as Hloop.
  { intros session Hs. induction fuel as [|fuel IH]; [done|]. cbn [process_loop]. rewrite (Hstep session Hs).
    by rewrite (proj2 (Z.ltb_lt _ _)) by lia. }
  unfold ProcessStructuredSyslog. unfold data at 1. rewrite trim_end_last by done. fold data.
  destruct sess_buf as [b|]; [|apply Hloop; by right]. simpl in Hbuf. subst b. change (EmptyString +:+ data) with data.
  apply Hloop. left. by destruct Hend.
Qed.

Hypothesis grammar_lengths : ∀ text v, parse_syslog text = Some v → length_not_negative v.
Lemma stream_step_forward p len session start st start' r st' : size p <= INT_MAX → 0 <= start < len → len <= INT_MAX →
  stream_step ip p len session forwarder start st = Done (Next start' r st') → start < start'.
Proof.
  intros Hp Hs Hl. unfold stream_step. destruct (find_message p len start) as [s e] eqn:E.
  apply find_message_forward in E; [|done..]. destruct (_ && session).
  - unfold keep. destruct (_ <? MAX_SESSION_BUFFER); [done|]. by destruct (2048 <? s).
  - destruct (Z.ltb_spec (size p) e); [done|]. destruct (parse_syslog (sub p s e)) as [v|] eqn:Ev.
    + intros ([x y] & Hh & [= <- _ _])%bind_done. apply handle_message_forward in Hh; [lia|by eapply grammar_lengths|lia..].
    + intros [= <- _ _]. lia.
Qed.
Lemma process_loop_ends p len session fuel start st : size p <= INT_MAX → 0 <= start < len → len <= INT_MAX →
  (Z.to_nat (len - start) <= fuel)%nat → is_Some (process_loop fuel ip p len session forwarder start st).
Proof.
  intros Hp. revert start st. induction fuel as [|fuel IH]; intros start st Hs Hl Hf; [lia|]. cbn [process_loop].
  destruct (stream_step _ _ _ _ _ _ _) as [[start' r st'|ret b st']| |] eqn:E; [|done..].
  apply stream_step_forward in E; [|done..]. destruct (Z.ltb_spec start' len); [|done]. apply IH; lia.
Qed.

(** C31.  Cutting a buffer into messages always ends, after at most one run of
    the loop for every character, when no message claims a negative length. *)
Theorem stream_ends data sess_buf st fuel : size (default EmptyString sess_buf +:+ data) <= INT_MAX →
  (String.length (default EmptyString sess_buf +:+ data) <= fuel)%nat →
  is_Some (ProcessStructuredSyslog fuel ip data forwarder sess_buf st).
Proof.
  intros Hs Hf. unfold ProcessStructuredSyslog. destruct (trim_end data) as [t|] eqn:E; [|done].
  apply trim_end_size in E as [H1 H2]. rewrite size_app in Hs. rewrite CppString.length_app in Hf.
  destruct sess_buf as [b|]; simpl in Hs, Hf; apply process_loop_ends; rewrite ?size_app;
    pose proof (size_nonneg data); unfold size in *; try lia.
  all: pose proof (Nat2Z.is_nonneg (String.length b)); lia.
Qed.
End termination.

(** ** The stream is cut into its messages *)

Section reassembly.
Context {ind : Indeterminate} {dt : DateTime} {grammar : SyslogGrammar} {addresses : IpAddress} {writer : JsonWriter}.
Context `{Regex, RegexSearch}.
Context (ip : string) (forwarder : option bool).

(** What one message does. *)
Definition handle_frame (st : syslog_state) (m : string) : outcome syslog_state :=
  match parse_syslog (frame m) with
  | Some v =>
      v ← PostParsing (insert_str "ip" ip v);
      '(_, st) ← StructuredSyslogPostParsing v m forwarder st;
      Done st
  | None => Done st
  end.

(** A message is not empty, ends with a bracket, and the grammar takes its length
    for what it is. *)
Definition valid_message (m : string) : Prop :=
  (∃ t, m = t +:+ "]") ∧ size (frame m) <= MAX_SESSION_BUFFER ∧
  ∀ v, parse_syslog (frame m) = Some v → ∃ h, v !! "msglen"%string = Some h ∧ h_i_val h = size m.

Lemma step_full a m t st st' : valid_message m → size (a +:+ frame m +:+ t) <= INT_MAX → handle_frame st m = Done st' →
  ∃ r, stream_step ip (a +:+ frame m +:+ t) (size (a +:+ frame m +:+ t)) true forwarder (size a) st
       = Done (Next (size (a +:+ frame m)) r st').
Proof.
  intros ((m0 & Em) & Hs & Hv) Hmax Hh. unfold stream_step.
  assert (m ≠ EmptyString) as Hne by (intros ->; destruct m0; discriminate Em).
  rewrite (find_full a m t _ Hne eq_refl Hmax). pose proof (size_nonneg t). pose proof (size_nonneg a). pose proof (size_nonneg m).
  pose proof (size_frame m) as Hsf. pose proof (size_nonneg (to_decimal (size m))).
  assert (size (a +:+ frame m +:+ t) = size a + size (frame m) + size t) as Hsz by (rewrite !size_app; lia).
  rewrite Hsz in *.
  assert (char_at (a +:+ frame m +:+ t) (size a + size (frame m) - 1) "]" = true) as Hb.
  { replace (a +:+ frame m +:+ t) with ((a +:+ to_decimal (size m) +:+ " " +:+ m0) +:+ String "]" t)
      by (unfold frame; rewrite Em at 3; rewrite !append_assoc_string; done).
    replace (size a + size (frame m) - 1) with (size (a +:+ to_decimal (size m) +:+ " " +:+ m0)); [by rewrite char_at_app|].
    assert (size m = size m0 + 1) as Hm0 by (rewrite Em at 1; by rewrite size_app).
    rewrite Hsf, !size_app. change (size " ") with 1. lia. }
  rewrite Hb, andb_false_r, orb_false_r.
  destruct (Z.ltb_spec (size a + size (frame m) + size t) (size a + size (frame m))); [lia|]. cbn [andb].
  rewrite sub_mid by done. unfold handle_frame in Hh.
  destruct (parse_syslog (frame m)) as [v|]; cycle 1.
  { injection Hh as <-. exists false. by rewrite size_app. }
  destruct (Hv v eq_refl) as (h & Hl & Hval). unfold handle_message.
  assert (∀ d, GetMapVal (insert_str "ip" ip v) "msglen" d = size m) as Hml.
  { intros d. unfold GetMapVal, insert_str. rewrite lookup_map_insert_new, decide_False by done. by rewrite Hl. }
  rewrite !Hml. rewrite !i32_small by (unfold INT_MAX in *; lia).
  destruct (Z.eqb_spec (size m) (size a + size (frame m) + size t)); [lia|].
  rewrite (u64_small (size a + size (to_decimal (size m)) + 1)) by (unfold is_u64, INT_MAX in *; lia).
  assert (sub (a +:+ frame m +:+ t) (size a + size (to_decimal (size m)) + 1) (size a + size (frame m)) = m) as ->.
  { replace (a +:+ frame m +:+ t) with ((a +:+ to_decimal (size m) +:+ " ") +:+ m +:+ t) by (unfold frame; rewrite !append_assoc_string; done).
    apply sub_mid; rewrite !size_app; change (size " ") with 1; lia. }
  apply bind_done in Hh as (v' & -> & Hh). cbn [mbind outcome_bind].
  apply bind_done in Hh as ([ret st2] & -> & [= <-]). cbn [mbind outcome_bind]. exists true. do 2 f_equal.
  rewrite u64_small, size_app by (unfold is_u64, INT_MAX in *; lia). lia.
Qed.

Lemma step_partial a r x m st : valid_message m → frame m = r +:+ x → r ≠ EmptyString → x ≠ EmptyString →
  size (a +:+ r) <= INT_MAX →
  stream_step ip (a +:+ r) (size (a +:+ r)) true forwarder (size a) st = Done (Return true r st).
Proof.
  intros (_ & Hs & _) Hf Hr Hx Hmax. unfold stream_step.
  pose proof (size_frame m). pose proof (size_nonneg (to_decimal (size m))). pose proof (size_nonneg a).
  assert (size r < size (frame m)) as Hlt by (rewrite Hf, size_app; pose proof (size_positive x Hx); lia).
  destruct (find_partial a r x m _ Hf Hr Hx eq_refl) as (e & -> & He); [unfold INT_MAX, MAX_SESSION_BUFFER in *; lia|done|].
  assert ((size (a +:+ r) <? e) || (e =? size (a +:+ r)) && negb (char_at (a +:+ r) (e - 1) "]") = true) as ->.
  { destruct He as [He|[-> ->]]; [by rewrite (proj2 (Z.ltb_lt _ _) He)|by rewrite Z.eqb_refl, orb_true_r]. }
  cbn [andb]. unfold keep. rewrite size_app. destruct (Z.ltb_spec (size a + size r - size a) MAX_SESSION_BUFFER); [|lia].
  by rewrite (sub_end a r).
Qed.

(** A buffer of messages and the beginning of one more. *)
Definition begins (r : string) (ms : list string) : Prop :=
  r = EmptyString ∨ ∃ m ms' x, ms = m :: ms' ∧ frame m = r +:+ x ∧ x ≠ EmptyString.
Lemma loop_frames ms1 ms2 r a fuel st st' : Forall valid_message (ms1 ++ ms2) → begins r ms2 →
  frames ms1 +:+ r ≠ EmptyString → size (a +:+ frames ms1 +:+ r) <= INT_MAX → (length ms1 < fuel)%nat →
  fold_outcome handle_frame st ms1 = Done st' → ∃ ret,
  process_loop fuel ip (a +:+ frames ms1 +:+ r) (size (a +:+ frames ms1 +:+ r)) true forwarder (size a) st
  = Some (Done (ret, r, st')).
Proof.
  revert a fuel st. induction ms1 as [|m ms1 IH]; intros a fuel st Hv Hb Hne Hmax Hf Hst; (destruct fuel as [|fuel]; [simpl in Hf; lia|]).
  - injection Hst as <-. change (frames [] +:+ r) with r in *. destruct Hb as [->|(m & ms' & x & -> & Hm & Hx)]; [done|].
    apply Forall_app in Hv as [_ Hv]. apply Forall_cons in Hv as [Hv _]. exists true. cbn [process_loop].
    by rewrite (step_partial a r x m).
  - apply Forall_cons in Hv as [Hm Hv]. apply bind_done in Hst as (st1 & Hst1 & Hst).
    assert (a +:+ frames (m :: ms1) +:+ r = a +:+ frame m +:+ (frames ms1 +:+ r)) as Ep by (unfold frames; simpl; by rewrite !append_assoc_string).
    rewrite Ep in *. destruct (step_full a m _ st st1 Hm Hmax Hst1) as (ret & Estep). cbn [process_loop]. rewrite Estep.
    rewrite <- append_assoc_string in *. rewrite (size_app (a +:+ frame m)).
    destruct (decide (frames ms1 +:+ r = EmptyString)) as [E0|Hne1].
    + rewrite E0, Z.add_0_r, Z.ltb_irrefl.
      assert (ms1 = [] ∧ r = EmptyString) as [-> ->].
      { destruct ms1 as [|m1 ms1]; [done|]. exfalso. pose proof (f_equal size E0) as Hs. unfold frames in Hs. simpl in Hs.
        rewrite !size_app, size_frame in Hs. change (size EmptyString) with 0 in Hs.
        repeat (match type of Hs with context [size ?x] => pose proof (size_nonneg x); generalize dependent (size x); intros end). lia. }
      injection Hst as <-. by exists ret.
    + pose proof (size_positive _ Hne1). rewrite (proj2 (Z.ltb_lt _ _)) by lia. rewrite <- size_app.
      apply IH; [done|done|done|by rewrite append_assoc_string in *|simpl in Hf; lia|done].
Qed.

Lemma frame_not_empty m : frame m ≠ EmptyString.
Proof. intros E. pose proof (f_equal size E) as Hs. rewrite size_frame in Hs. change (size EmptyString) with 0 in Hs. pose proof (size_nonneg m). pose proof (size_nonneg (to_decimal (size m))). lia. Qed.
Lemma app_not_empty s t : t ≠ EmptyString → s +:+ t ≠ EmptyString.
Proof. by destruct s. Qed.

(** Where a read cuts the stream. *)
Lemma split_frames ms tail r x y : begins r tail → x +:+ y = frames ms +:+ r → ∃ ms1 ms2 r',
  ms = ms1 ++ ms2 ∧ x = frames ms1 +:+ r' ∧ r' +:+ y = frames ms2 +:+ r ∧ begins r' (ms2 ++ tail).
Proof.
  intros Hb. revert x. induction ms as [|m ms IH]; intros x E.
  - exists [], [], x. split; [done|]. split; [done|]. split; [done|]. change (frames [] +:+ r) with r in E.
    destruct Hb as [->|(m & ms' & z & -> & Hm & Hz)].
    + left. by destruct x.
    + right. exists m, ms', (y +:+ z). split; [done|]. split; [by rewrite <- append_assoc_string, E|by apply app_not_empty].
  - change (frames (m :: ms)) with (frame m +:+ frames ms) in E. rewrite append_assoc_string in E.
    destruct (Z.le_gt_cases (size (frame m)) (size x)) as [Hs|Hs].
    + destruct (app_split _ _ _ _ (eq_sym E) Hs) as (e & -> & E'). destruct (IH e (eq_sym E')) as (ms1 & ms2 & r' & -> & -> & Er & Hr).
      exists (m :: ms1), ms2, r'. split; [done|]. split; [|done]. change (frames (m :: ms1)) with (frame m +:+ frames ms1).
      by rewrite append_assoc_string.
    + destruct (app_split _ _ _ _ E ltac:(lia)) as (e & Em & Ey). exists [], (m :: ms), x.
      split; [done|]. split; [done|]. split.
      * change (frames (m :: ms)) with (frame m +:+ frames ms). by rewrite append_assoc_string.
      * right. exists m, (ms ++ tail), e. split; [done|]. split; [done|]. intros ->. rewrite append_empty_r in Em. rewrite Em in Hs. lia.
Qed.
Lemma begins_whole r r0 ms tail : r0 = frames ms +:+ r → begins r0 (ms ++ tail) → ms = [].
Proof.
  intros E Hb. destruct ms as [|m ms]; [done|exfalso]. change (frames (m :: ms)) with (frame m +:+ frames ms) in E.
  rewrite append_assoc_string in E. destruct Hb as [->|(m' & ms' & x & [= <- _] & Hm & Hx)].
  - pose proof (frame_not_empty m). by destruct (frame m).
  - rewrite E in Hm. pose proof (f_equal size Hm) as Hs. rewrite !size_app in Hs. pose proof (size_positive x Hx).
    pose proof (size_nonneg (frames ms)). pose proof (size_nonneg r). lia.
Qed.
Lemma begins_size r ms : begins r ms → Forall valid_message ms → size r <= MAX_SESSION_BUFFER.
Proof.
  intros [->|(m & ms' & x & -> & Hm & _)] Hv; [done|]. apply Forall_cons in Hv as [(_ & Hs & _) _].
  rewrite Hm, size_app in Hs. pose proof (size_nonneg x). lia.
Qed.

(** What a read delivers: not nothing, no zero at its end, not too much. *)
Definition valid_chunk (data : string) : Prop :=
  (∃ t c, data = t +:+ String c EmptyString ∧ c ≠ "000"%char) ∧ size data + MAX_SESSION_BUFFER <= INT_MAX.
Definition joined (chunks : list string) : string := foldr (λ c s, c +:+ s) EmptyString chunks.

Lemma read_all_frames chunks ms tail r r0 st st' fuel :
  Forall valid_message (ms ++ tail) → Forall valid_chunk chunks → begins r0 (ms ++ tail) → begins r tail →
  r0 +:+ joined chunks = frames ms +:+ r → fold_outcome handle_frame st ms = Done st' → (length ms < fuel)%nat →
  read_all fuel ip forwarder chunks r0 st = Some (Done (r, st')).
Proof.
  intros Hv Hc. revert ms r0 st Hv. induction Hc as [|data chunks [(t & c & -> & Hz) Hmax] _ IH]; intros ms r0 st Hv Hb0 Hb E Hst Hf.
  - change (joined []) with EmptyString in E. rewrite append_empty_r in E.
    pose proof (begins_whole _ _ _ _ E Hb0) as ->. injection Hst as <-. by rewrite E.
  - change (joined ((t +:+ String c EmptyString) :: chunks)) with ((t +:+ String c EmptyString) +:+ joined chunks) in E.
    set (data := t +:+ String c EmptyString) in *. rewrite <- append_assoc_string in E.
    destruct (split_frames ms tail r _ _ Hb E) as (ms1 & ms2 & r' & -> & Ex & Er & Hr').
    rewrite fold_outcome_app in Hst. apply bind_done in Hst as (st1 & Hst1 & Hst).
    pose proof (begins_size _ _ Hb0 Hv) as Hs0. rewrite <- app_assoc in Hv.
    cbn [read_all]. unfold ProcessStructuredSyslog. unfold data at 1. rewrite trim_end_last by done. fold data. rewrite Ex.
    destruct (loop_frames ms1 (ms2 ++ tail) r' EmptyString fuel st st1) as (ret & Eloop); [done|done| | | |done|].
    + rewrite <- Ex. apply app_not_empty. unfold data. by destruct t.
    + change (EmptyString +:+ ?x) with x. rewrite <- Ex, size_app. lia.
    + rewrite List.length_app in Hf. lia.
    + change (EmptyString +:+ ?x) with x in Eloop. change (size EmptyString) with 0 in Eloop. rewrite Eloop.
      apply (IH ms2); [by apply Forall_app in Hv as [_ Hv]|done|done|done|done|rewrite List.length_app in Hf; lia].
Qed.

(** C27.  However a TCP stream of messages with their lengths is cut into reads,
    every message that is complete is handled once, in order, with exactly its
    text, and what the session keeps is the beginning of the next one. *)
Theorem stream_reassembled chunks ms tail r st st' fuel :
  Forall valid_message (ms ++ tail) → Forall valid_chunk chunks → begins r tail →
  joined chunks = frames ms +:+ r → fold_outcome handle_frame st ms = Done st' → (length ms < fuel)%nat →
  read_all fuel ip forwarder chunks EmptyString st = Some (Done (r, st')).
Proof. intros Hv Hc Hb E. apply read_all_frames with tail; try done. by left. Qed.
End reassembly.

(** ** Examples *)

Module StreamExamples.
#[local] Instance zeros : Indeterminate := {| indeterminate _ := 0 |}.
#[local] Instance v4 : IpAddress := {| is_v4 _ := Some true |}.
#[local] Instance names_only : JsonWriter := {| write v := match v with JObject m => String.concat "," m.*1 | _ => EmptyString end |}.
#[local] Existing Instance CounterExamples.regex.
#[local] Existing Instance CounterExamples.searcher.
#[local] Instance epoch : DateTime := {| local_time := 0; universal_time := 0;
  to_tm _ := {| tm_year := 70; tm_mon := 0; tm_mday := 1; tm_hour := 0; tm_min := 0; tm_sec := 0 |};
  ptime _ _ _ h m s ms := Some (((h * 60 + m) * 60 + s) * 1000000 + ms); duration_from_string _ := Some 0 |}.

(** A grammar of a length, a host name and a body. *)
Definition parsed (n : Z) (text : string) : syslog_m_t :=
  insert_int "msglen" n (insert_str "hostname" "gw1" (insert_int "pid" (-1) (insert_str "body" text ∅))).
Definition after_space (text : string) : string :=
  let i := find text ":" 0 in if i =? npos then text else drop_string (Z.to_nat (i + 2)) text.
Definition lengths : SyslogGrammar := {| parse_syslog text :=
  let n := signed_prefix text in
  if (0 <=? n) && (n <=? INT_MAX) then Some (parsed n (after_space text)) else None |}.
Definition signed : SyslogGrammar := {| parse_syslog text := Some (parsed (signed_prefix text) (after_space text)) |}.
#[local] Existing Instance lengths.

Definition first : string := "<14>1 gw1: " +:+
  structured_body "APPTRACK_SESSION_CLOSE" "hw" [("reason", "TCP RST"); ("bytes-from-client", "1421")]%string.
Definition second : string := "<14>1 gw1: " +:+ structured_body "APPTRACK_SESSION_CLOSE" "hw" [("reason", "idle")]%string.
Definition before : syslog_state := MessageExamples.before.

(** The reads end in the length and in the text of the second message. *)
Definition reads : list string :=
  [String.substring 0 30 (frame first); drop_string 30 (frame first) +:+ "5"; String.substring 1 40 (frame second)].

Lemma bracket_last m : m = String.substring 0 (String.length m - 1) m +:+ "]" → ∃ t, m = t +:+ "]".
Proof. intros ->. by eexists. Qed.
Lemma valid_by_length m : m = String.substring 0 (String.length m - 1) m +:+ "]" → size (frame m) <= MAX_SESSION_BUFFER →
  signed_prefix (frame m) = size m → valid_message m.
Proof.
  intros H1 H2 H3. split; [by apply bracket_last|]. split; [done|]. intros v. unfold parse_syslog, lengths.
  rewrite H3. destruct (_ && _); [|done]. intros [= <-]. by exists (Holder_int "msglen" (size m)).
Qed.
Lemma valid_by_last data : data = String.substring 0 (String.length data - 1) data +:+
    String (default "000"%char (String.get (String.length data - 1) data)) EmptyString →
  default "000"%char (String.get (String.length data - 1) data) ≠ "000"%char → size data + MAX_SESSION_BUFFER <= INT_MAX →
  valid_chunk data.
Proof. intros H1 H2 H3. split; [|done]. do 2 eexists. split; [exact H1|exact H2]. Qed.

Lemma stream_reassembled_witness : ∃ st', fold_outcome (handle_frame "10.0.0.9" (Some false)) before [first] = Done st' ∧
  length (ss_samples st') = 1%nat ∧
  read_all 2 "10.0.0.9" (Some false) reads EmptyString before = Some (Done (String.substring 0 41 (frame second), st')).
Proof.
  destruct (fold_outcome (handle_frame "10.0.0.9" (Some false)) before [first]) as [st'| |] eqn:E; [|exfalso; revert E..].
  - exists st'. split; [done|]. split.
    + assert (match fold_outcome (handle_frame "10.0.0.9" (Some false)) before [first] with
              | Done st => length (ss_samples st) | _ => 0%nat end = 1%nat) as Hl by (vm_compute; reflexivity).
      by rewrite E in Hl.
    + apply (stream_reassembled "10.0.0.9" (Some false) reads [first] [second]); [| | | |exact E|apply le_n].
      * apply Forall_cons_2; [|apply Forall_cons_2; [|apply Forall_nil_2]];
          (apply valid_by_length; [vm_compute; reflexivity|vm_compute; discriminate|vm_compute; reflexivity]).
      * apply Forall_cons_2; [|apply Forall_cons_2; [|apply Forall_cons_2; [|apply Forall_nil_2]]];
          (apply valid_by_last; [vm_compute; reflexivity|vm_compute; discriminate|vm_compute; discriminate]).
      * right. exists second, [], (String.substring 41 14 (frame second)). split; [reflexivity|].
        split; [vm_compute; reflexivity|vm_compute; discriminate].
      * vm_compute. reflexivity.
  - vm_compute. discriminate.
  - vm_compute. discriminate.
Defined.

Lemma stream_ends_witness : is_Some (ProcessStructuredSyslog 142 "10.0.0.9"
  (frame first +:+ frame second +:+ "-") None None before).
Proof.
  apply (stream_ends "10.0.0.9" None).
  - intros text v. unfold parse_syslog, lengths. destruct (_ && _) eqn:E; [|discriminate]. intros [= <-].
    apply andb_true_iff in E as [H1%Z.leb_le H2%Z.leb_le]. split; assumption.
  - vm_compute. discriminate.
  - apply (proj1 (Nat.leb_le _ _)). vm_compute. reflexivity.
Defined.

Definition negative : string := "-3<14>Jan1+2:3:4:]".
Lemma negative_length_never_ends_witness :
  ProcessStructuredSyslog (grammar := signed) 1000 "10.0.0.9" negative None (Some EmptyString) before = None ∧
  ProcessStructuredSyslog (grammar := signed) 1000 "10.0.0.9" negative None None before = None.
Proof.
  split; (eapply (negative_length_never_ends (grammar := signed) "10.0.0.9" None "-3<14>Jan1+2:3:4:" "]" (parsed (-3) ":4:]"));
    [discriminate|vm_compute; reflexivity|vm_compute; discriminate|left; reflexivity|reflexivity|vm_compute; reflexivity
    |vm_compute; reflexivity|vm_compute; reflexivity|vm_compute; reflexivity]).
Defined.
End StreamExamples.
