(* ===== verification/RuleList.v ===== *)
(** * Rules and message counters of the collector

    [contrail-collector/ruleparser/t_ruleparser.h] and [t_ruleparser.cc] (rules
    with their conditions and actions), [contrail-collector/viz_message.cc]
    (the fields of a message the conditions read, and the counters of messages
    by type and level).  The parser of rule files is generated by bison and is
    not modelled: rules enter through [add_rule], [add_field] and [add_action],
    as its actions call them. *)
From Stdlib Require Import Ascii.
From stdpp Require Import base tactics list strings gmap sets.
From Stdlib Require Import ZArith Lia.
From S2P Require Import Prelude.
From S2P Require Import CppString.
From S2P Require Import SelectQuery.
From S2P Require Import DbHandler.
From S2P Require Import Xml.
Local Open Scope Z_scope.

(** ** Fields of a message *)

(** [RuleMsg]: the header's context when it is set. *)
Record RuleMsg := { messagetype : string; hdr_Context : option string; message_node_ : xml_node }.

(** [find_node] of pugixml: the first node below, in document order. *)
Fixpoint descendants (n : xml_node) : list xml_node :=
  match n with
  | XmlText _ => []
  | XmlElement _ _ l => concat ((λ c, c :: descendants c) <$> l)
  end.
Definition find_node (doc : xml_node) (nm : string) : option xml_node :=
  List.find (λ c, (node_name c =? nm)%string) (descendants doc).

(** The parts of a field's name between the dots. *)
Fixpoint dotted (s : string) : string * list string :=
  match s with
  | EmptyString => (EmptyString, [])
  | String c s' =>
      let '(p, l) := dotted s' in
      if (c =? ".")%char then (EmptyString, p :: l) else (String c p, l)
  end.
(** [field_value_recur] over the parts: the type and the value; [None]: -1. *)
Fixpoint field_value_recur (parent : string) (parts : list string) (doc : xml_node) : option (string * string) :=
  node ← find_node doc parent;
  match parts with
  | [] => Some (attribute_value (Some node) "type", child_value (Some node))
  | child :: parts' =>
      if starts_with (attribute_value (Some node) "type") "struct" then field_value_recur child parts' node else None
  end.
Definition field_value (m : RuleMsg) (field_id : string) : option (string * string) :=
  let '(parent, parts) := dotted field_id in field_value_recur parent parts (message_node_ m).

(** ** Conditions *)

(** [boost::lexical_cast<int>]; [None]: it throws.  The Python action. *)
Class RuleForms := { lexical_cast_int : string → option Z; echoaction_py : list string → string }.

Inductive t_rangevalue := RangeSingle (v : string) | RangePair (lo hi : string).
Inductive t_cond := CondRange (fieldid : string) (values : list t_rangevalue) | CondSimple (fieldid : string) (op : ascii) (value : string).

Section conditions.
Context `{RuleForms}.

Definition is_int_type (type : string) : bool := (type =? "i16")%string || (type =? "i32")%string.
Definition range_check_one (type value : string) (r : t_rangevalue) : option bool :=
  match r with
  | RangeSingle v =>
      if (type =? "string")%string then Some (v =? value)%string
      else if is_int_type type then
        val1 ← lexical_cast_int value; val2 ← lexical_cast_int v; Some (val1 =? val2)
      else Some false
  | RangePair lo hi =>
      if (type =? "string")%string then Some false
      else if is_int_type type then
        val ← lexical_cast_int value; val1 ← lexical_cast_int lo; val2 ← lexical_cast_int hi;
        Some ((val1 <? val) && (val <? val2))
      else Some false
  end.
Fixpoint range_check (type value : string) (l : list t_rangevalue) : option bool :=
  match l with
  | [] => Some false
  | r :: l' => b ← range_check_one type value r; if (b : bool) then Some true else range_check type value l'
  end.
Definition cond_match (m : RuleMsg) (c : t_cond) : option bool :=
  match c with
  | CondRange f values =>
      match field_value m f with Some (type, value) => range_check type value values | None => Some false end
  | CondSimple f op v =>
      match field_value m f with
      | None => Some false
      | Some (type, value) =>
          if (type =? "string")%string then
            Some (if (op =? "=")%char then (v =? value)%string else false)
          else if is_int_type type then
            val1 ← lexical_cast_int value; val2 ← lexical_cast_int v;
            Some (if (op =? "=")%char then val1 =? val2 else if (op =? "<")%char then val1 <? val2
                  else if (op =? ">")%char then val2 <? val1 else false)
          else Some false
      end
  end.
(** [t_rulecondlist]: all conditions, up to the first that fails. *)
Fixpoint rule_match (m : RuleMsg) (l : list t_cond) : option bool :=
  match l with
  | [] => Some true
  | c :: l' => b ← cond_match m c; if (b : bool) then rule_match m l' else Some false
  end.
Definition add_field (c : t_cond) (l : list t_cond) : list t_cond := c :: l.

(** ** Actions *)

Record t_ruleaction := { actionid_ : string; paramlist_ : list string }.
(** [add_action]: an action whose identifier is there is dropped, another one
    comes first. *)
Definition add_action (a : t_ruleaction) (l : list t_ruleaction) : list t_ruleaction :=
  if existsb (λ b, (actionid_ a =? actionid_ b)%string) l then l else a :: l.
(** [execute]: what is appended to [RuleActionEchoResult]. *)
Definition words (l : list string) : string := foldr (λ w s, " " +:+ w +:+ s) EmptyString l.
Definition action_echo (a : t_ruleaction) : string :=
  if (actionid_ a =? "echoaction")%string then words (actionid_ a :: paramlist_ a)
  else if (actionid_ a =? "echoaction.py")%string then echoaction_py (paramlist_ a)
  else EmptyString.
Definition actions_execute (l : list t_ruleaction) (echo : string) : string :=
  foldl (λ echo a, echo +:+ action_echo a) echo l.

(** ** Rules *)

(** [t_rulemsgtype] and [t_rule]. *)
Record t_rulemsgtype := { msgtype_ : string; context_ : option string }.
Record t_rule := {
  rulename_ : string; rulemsgtype_ : t_rulemsgtype; condlist_ : option (list t_cond); actionlist_ : list t_ruleaction
}.
Definition same_context (c c' : option string) : bool :=
  match c, c' with Some s, Some s' => (s =? s')%string | None, None => true | _, _ => false end.
Definition rule_present (r : t_rule) (t : t_rulemsgtype) : bool :=
  (msgtype_ (rulemsgtype_ r) =? msgtype_ t)%string && same_context (context_ (rulemsgtype_ r)) (context_ t).

(** [t_rule::rule_execute]; [None]: a cast throws. *)
Definition rule_applies (r : t_rule) (m : RuleMsg) : option bool :=
  if negb ((msgtype_ (rulemsgtype_ r) =? messagetype m)%string &&
           same_context (context_ (rulemsgtype_ r)) (hdr_Context m)) then Some false
  else match condlist_ r with Some l => rule_match m l | None => Some true end.
Definition execute_one (m : RuleMsg) (acc : option string) (r : t_rule) : option string :=
  echo ← acc; b ← rule_applies r m;
  Some (if (b : bool) then actions_execute (actionlist_ r) echo else echo).

(** [t_rulelist]: adding a rule, and its tests and execution over all rules;
    the echo is cleared first. *)
Definition add_rule (l : list t_rule) (r : t_rule) : list t_rule :=
  if existsb (λ r', (rulename_ r =? rulename_ r')%string) l then l else l ++ [r].
Definition any_rule_present (l : list t_rule) (t : t_rulemsgtype) : bool := existsb (λ r, rule_present r t) l.
Definition rules_execute (l : list t_rule) (m : RuleMsg) : option string := foldl (execute_one m) (Some EmptyString) l.

(** [Ruleeng::rule_present]: the type of the message with its context. *)
Definition msgtype_of (m : RuleMsg) : t_rulemsgtype := {| msgtype_ := messagetype m; context_ := hdr_Context m |}.

Lemma execute_absent l m echo : any_rule_present l (msgtype_of m) = false →
  foldl (execute_one m) (Some echo) l = Some echo.
Proof.
  induction l as [|r l IH]; [done|]. cbn [any_rule_present existsb foldl]. intros [Hr Hl]%orb_false_iff.
  unfold execute_one at 2. cbn [mbind option_bind]. unfold rule_applies.
  unfold rule_present in Hr. cbn [msgtype_of msgtype_ context_] in Hr. rewrite Hr. simpl. by apply IH.
Qed.

Lemma execute_applied l m bs echo : mapM (λ r, rule_applies r m) l = Some bs →
  foldl (execute_one m) (Some echo) l =
  Some (foldl (λ s a, s +:+ action_echo a) echo
          (concat ((λ x : t_rule * bool, if x.2 then actionlist_ x.1 else []) <$> zip l bs))).
Proof.
  revert bs echo. induction l as [|r l IH]; intros bs echo; [by intros [= <-]|]. cbn [mapM].
  intros (b & Hb & (bs' & Hbs & [= <-])%bind_Some)%bind_Some. cbn [foldl].
  unfold execute_one at 2. cbn [mbind option_bind]. rewrite Hb. cbn [mbind option_bind].
  rewrite (IH bs' _ Hbs). f_equal. change (zip (r :: l) (b :: bs')) with ((r, b) :: zip l bs').
  rewrite fmap_cons. cbn [concat fst snd]. rewrite foldl_app. by destruct b.
Qed.

Lemma add_rule_names l r : NoDup (rulename_ <$> l) →
  NoDup (rulename_ <$> add_rule l r) ∧
  (rulename_ r ∈ rulename_ <$> l → add_rule l r = l) ∧ (rulename_ r ∉ rulename_ <$> l → add_rule l r = l ++ [r]).
Proof.
  intros Hnd. unfold add_rule. destruct (existsb _ l) eqn:E.
  - apply existsb_exists in E as (r' & Hin & He). apply String.eqb_eq in He. split; [done|]. split; [done|].
    intros Hn. exfalso. apply Hn. rewrite He. apply list_elem_of_fmap_2. by apply list_elem_of_In.
  - assert (rulename_ r ∉ rulename_ <$> l) as Hn.
    { intros (r' & Hr & Hin)%list_elem_of_fmap. apply not_true_iff_false in E. apply E, existsb_exists.
      exists r'. split; [by apply list_elem_of_In|]. rewrite Hr. apply String.eqb_refl. }
    split; [|split; [done|done]]. rewrite fmap_app. apply NoDup_app. split; [done|].
    split; [|simpl; apply NoDup_singleton]. intros n Hin Hr%list_elem_of_singleton. by subst.
Qed.

(** The names of the rules stay distinct, the first rule of a name
    winning.  A message for which no rule is present triggers nothing; when no
    cast fails, executing the rules performs exactly the actions of the rules
    that apply, in the order of the rules and of their actions. *)
Theorem rules_executed rs l m :
  foldl add_rule [] rs = l →
  NoDup (rulename_ <$> l) ∧ (∀ n, n ∈ rulename_ <$> l ↔ n ∈ rulename_ <$> rs) ∧
  (any_rule_present l (msgtype_of m) = false → rules_execute l m = Some EmptyString) ∧
  ∀ bs, mapM (λ r, rule_applies r m) l = Some bs →
    rules_execute l m = Some (foldl (λ s a, s +:+ action_echo a) EmptyString
      (concat ((λ x : t_rule * bool, if x.2 then actionlist_ x.1 else []) <$> zip l bs))).
Proof.
  intros <-. split; [|split; [|split]].
  - assert (NoDup (rulename_ <$> @nil t_rule)) as Hnd by constructor.
    revert Hnd. generalize (@nil t_rule). induction rs as [|r rs IH]; intros l Hl; [done|].
    cbn [foldl]. apply IH. by apply add_rule_names.
  - assert (∀ l n, NoDup (rulename_ <$> l) → n ∈ rulename_ <$> foldl add_rule l rs ↔ n ∈ rulename_ <$> l ∨ n ∈ rulename_ <$> rs) as Hall.
    { induction rs as [|r rs IH]; intros l n Hl; cbn [foldl]; [set_solver|].
      destruct (add_rule_names l r Hl) as (Hnd & Hin & Hout). rewrite IH by done. rewrite fmap_cons, elem_of_cons.
      destruct (decide (rulename_ r ∈ rulename_ <$> l)) as [Hr|Hr]; [rewrite Hin by done|rewrite Hout by done].
      - split; [tauto|]. intros [?|[->|?]]; tauto.
      - rewrite fmap_app, elem_of_app. simpl. rewrite list_elem_of_singleton. tauto. }
    intros n. rewrite Hall by constructor. rewrite elem_of_nil. tauto.
  - apply execute_absent.
  - intros bs. apply execute_applied.
Qed.
End conditions.

(** ** Counters of messages *)

(** [VizMsgStats]. *)
Record VizMsgStats := { messages : Z; bytes : Z; last_msg_timestamp : Z }.
(** A message as the counters see it: its header, type and size. *)
Record counted := { cm_header : SandeshHeader; cm_type : string; cm_size : Z }.
(** [VizMsgStatistics]. *)
Record VizMsgStatistics := {
  type_map : gmap string VizMsgStats; level_map : gmap string VizMsgStats;
  type_level_map : gmap (string * string) VizMsgStats
}.
Definition no_messages : VizMsgStatistics := {| type_map := ∅; level_map := ∅; type_level_map := ∅ |}.

Section statistics.
Context `{SandeshTypes, CollectorSandeshTypes} (LevelToString : Z → string).

Definition fresh_stats : VizMsgStats := {| messages := 0; bytes := 0; last_msg_timestamp := 0 |}.
Definition stats_update (m : counted) (s : VizMsgStats) : VizMsgStats := {|
  messages := u64 (messages s + 1); bytes := u64 (bytes s + cm_size m);
  last_msg_timestamp := hd_Timestamp (cm_header m) |}.
(** [UpdateStats]. *)
Definition update_stats `{Countable K} (k : K) (m : counted) (t : gmap K VizMsgStats) : gmap K VizMsgStats :=
  <[k := stats_update m (default fresh_stats (t !! k))]> t.
Definition level_of (m : counted) : string := LevelToString (hd_Level (cm_header m)).
Definition is_log (m : counted) : bool :=
  (hd_Type (cm_header m) =? ST_SYSTEM) || (hd_Type (cm_header m) =? ST_SYSLOG).
(** [VizMsgStatistics::Update]. *)
Definition statistics_update (s : VizMsgStatistics) (m : counted) : VizMsgStatistics := {|
  type_map := update_stats (cm_type m) m (type_map s);
  level_map := if is_log m then update_stats (level_of m) m (level_map s) else level_map s;
  type_level_map := update_stats (cm_type m, level_of m) m (type_level_map s) |}.
(** [Get] of the counters by type and level, which are cleared. *)
Definition get_type_level (s : VizMsgStatistics) : list ((string * string) * VizMsgStats) * VizMsgStatistics :=
  (map_to_list (type_level_map s), {| type_map := type_map s; level_map := level_map s; type_level_map := ∅ |}).

(** What the counters of some messages are. *)
Definition counters_of (l : list counted) : option VizMsgStats :=
  match last l with
  | None => None
  | Some m => Some {| messages := u64 (Z.of_nat (length l)); bytes := u64 (foldr Z.add 0 (cm_size <$> l));
                      last_msg_timestamp := hd_Timestamp (cm_header m) |}
  end.

Lemma foldr_add_snoc l z : foldr Z.add 0 (l ++ [z]) = foldr Z.add 0 l + z.
Proof. induction l as [|x l IH]; simpl; lia. Qed.

Lemma u64_add_l a b : u64 (u64 a + b) = u64 (a + b).
Proof. unfold u64. by rewrite Zplus_mod_idemp_l. Qed.

Lemma counters_of_snoc l m : counters_of (l ++ [m]) = Some (stats_update m (default fresh_stats (counters_of l))).
Proof.
  unfold counters_of. rewrite last_snoc, List.length_app, fmap_app. f_equal. unfold stats_update.
  simpl (cm_size <$> [m]). rewrite foldr_add_snoc. destruct (last l) as [m'|] eqn:E.
  - change (default fresh_stats (Some ?x)) with x. cbn [messages bytes]. rewrite !u64_add_l. f_equal. f_equal. simpl. lia.
  - apply last_None in E. by subst l.
Qed.

Lemma update_stats_lookup `{Countable K} (key : counted → K) (P : counted → bool) l m (t : gmap K VizMsgStats) k :
  (∀ k, t !! k = counters_of (List.filter (λ m, P m && bool_decide (key m = k)) l)) →
  (if P m then update_stats (key m) m t else t) !! k =
  counters_of (List.filter (λ m, P m && bool_decide (key m = k)) (l ++ [m])).
Proof.
  intros Ht. rewrite List.filter_app. cbn [List.filter]. destruct (P m); simpl; [|by rewrite app_nil_r].
  unfold update_stats. case_bool_decide as Hk.
  - subst k. by rewrite lookup_insert_eq, counters_of_snoc, Ht.
  - by rewrite lookup_insert_ne, app_nil_r.
Qed.

(** The counters are those of the messages counted: for every type the
    number of its messages, their bytes, both modulo the width of the counters,
    and the time of the last one; for every level those of the system and
    syslog messages only; and for every type and level. *)
Theorem messages_counted l : let s := foldl statistics_update no_messages l in
  (∀ t, type_map s !! t = counters_of (List.filter (λ m, bool_decide (cm_type m = t)) l)) ∧
  (∀ v, level_map s !! v = counters_of (List.filter (λ m, is_log m && bool_decide (level_of m = v)) l)) ∧
  ∀ k, type_level_map s !! k = counters_of (List.filter (λ m, bool_decide ((cm_type m, level_of m) = k)) l).
Proof.
  induction l as [|m l IH] using rev_ind; [split; [|split]; intros ?; apply lookup_empty|].
  cbv zeta. rewrite foldl_snoc. destruct IH as (IHt & IHv & IHk). split; [|split]; intros k.
  - apply (update_stats_lookup cm_type (λ _, true) l m); exact IHt.
  - apply (update_stats_lookup level_of is_log l m); exact IHv.
  - apply (update_stats_lookup (λ m, (cm_type m, level_of m)) (λ _, true) l m); exact IHk.
Qed.
End statistics.

(** ** Examples *)

Module RuleListExamples.
Definition forms : RuleForms := {| lexical_cast_int s := Some (strtoul s); echoaction_py _ := EmptyString |}.
#[local] Existing Instance forms.
Definition rule (nm limit : string) : t_rule := {|
  rulename_ := nm; rulemsgtype_ := {| msgtype_ := "VrouterStats"; context_ := None |};
  condlist_ := Some [CondSimple "if.drops" ">" limit];
  actionlist_ := [{| actionid_ := "echoaction"; paramlist_ := [nm] |}] |}.
Definition message : RuleMsg := {| messagetype := "VrouterStats"; hdr_Context := None;
  message_node_ := XmlElement "VrouterStats" [] [XmlElement "if" [("type", "struct")]%string
    [XmlElement "Interface" [] [XmlElement "drops" [("type", "i32")]%string [XmlText "7"]]]] |}.
Definition given : list t_rule := [rule "a" "5"; rule "b" "9"; rule "a" "0"; rule "c" "6"].
Lemma rules_executed_witness :
  rules_execute (foldl add_rule [] given) message = Some " echoaction a echoaction c"%string ∧
  NoDup (rulename_ <$> foldl add_rule [] given) ∧
  (∀ n, n ∈ rulename_ <$> foldl add_rule [] given ↔ n ∈ rulename_ <$> given) ∧
  (any_rule_present (foldl add_rule [] given) (msgtype_of message) = false →
     rules_execute (foldl add_rule [] given) message = Some EmptyString) ∧
  ∀ bs, mapM (λ r, rule_applies r message) (foldl add_rule [] given) = Some bs →
    rules_execute (foldl add_rule [] given) message = Some (foldl (λ s a, s +:+ action_echo a) EmptyString
      (concat ((λ x : t_rule * bool, if x.2 then actionlist_ x.1 else []) <$> zip (foldl add_rule [] given) bs))).
Proof. split; [by vm_compute|]. by apply (rules_executed given). Defined.
End RuleListExamples.
