(* ===== verification/QueryEngine.v ===== *)
(** * From the request to the answer of a chunk

    The rest of [contrail-query-engine/query.cc]: [AnalyticsQuery::Init] puts the
    parts of a query together, and [QueryEngine] builds one such object for every
    step of the pipeline: [QueryPrepare] for the whole query, [QueryExecWhere] for
    every OR term of every chunk, [QueryExec] for the rows of a chunk.  Each object
    parses the request anew and reads the clock anew.  Last, the constructor of
    [QueryEngine] reads the lifetimes of the data. *)
From Stdlib Require Import Ascii.
From stdpp Require Import base tactics list strings gmap.
From Stdlib Require Import ZArith Lia SpecFloat.
From S2P Require Import Prelude.
From S2P Require Import CppString.
From S2P Require Import VizConstants.
From S2P Require Import QueryTypes.
From S2P Require Import SetOps.
From S2P Require Import SortedLists.
From S2P Require Import Json.
From S2P Require Import AnalyticsQuery.
From S2P Require Import StatsQuery.
From S2P Require Import DbQuery.
From S2P Require Import PostProcessing.
From S2P Require Import StatsSelect.
From S2P Require Import WhereQuery.
From S2P Require Import QueryPipeline.
From S2P Require Import SelectQuery.
From S2P Require Import StatWalker.
Import Tables.
Local Open Scope Z_scope.

(** ** [AnalyticsQuery::Init] *)

(** What the engine is configured with: the lifetimes, its module name, the widest
    slice in rows, and whether the older statistics tables exist. *)
Record engine_config := {
  ttlmap_ : TtlType → Z; engine_moduleid : string; max_slice_ : Z; engine_oldDataExists : bool
}.
(** The readings of the clock by one object: for the limits, and for the two times. *)
Record clock := { ck_limits : Z; ck_start : Z; ck_end : Z }.

(** What is known of the query when its WHERE clause is parsed. *)
Record query_head := {
  qh_table : string; qh_stats : option StatsQuery; qh_stat_name_attr : string;
  qh_times : query_times; qh_direction : Z; qh_is_si : Z; qh_session_type : Z
}.

(** [AnalyticsQuery] after [Init]. *)
Record AnalyticsQuery := {
  aq_head : query_head; aq_where : where_state;
  table_ : string; object_value_key : string;
  selectquery_ : SelectQuery; postprocess_ : PostProcessingQuery; aq_slice : slice_state
}.

(** How [Init] ends.  An error before the WHERE clause leaves the pointer to the
    WHERE query without a value; one after it leaves the range of the whole query. *)
Inductive init_result :=
  | NoWhere (status : Z)
  | BadWhere (status : Z)
  | BadRest (h : query_head) (ws : where_state) (table : string) (status : Z)
  | Ready (q : AnalyticsQuery)
  | Aborted.
Definition status_details (r : init_result) : option Z :=
  match r with
  | NoWhere e | BadWhere e | BadRest _ _ _ e => Some e
  | Ready _ => Some 0
  | Aborted => None
  end.

Section init.
Context `{JsonParser, VizSchema, DoubleFormat, Strtod, Regex, DbToString, StringToInteger}.
Context (cfg : engine_config) (json_api_data : gmap string string).

(** The FROM field, with its quotes taken off. *)
Definition parse_table : outcome (string * option StatsQuery * string) :=
  match json_api_data !! "table"%string with
  | None => Status EBADMSG
  | Some s =>
      table ← stop_unless (substr s 1 (u64 (size s - 2)));
      if is_stat_table_query table then
        stats ← stop_unless (StatsQuery_ctor table);
        stat_name_attr ← stop_unless (ParseStatName table);
        Done (table, Some stats, stat_name_attr)
      else Done (table, None, EmptyString)
  end.

Definition parse_times (table : string) (ck : clock) : outcome query_times :=
  match Init_times (ttlmap_ cfg) table (ck_limits ck) (ck_start ck) (ck_end ck)
          (json_api_data !! "start_time"%string) (json_api_data !! "end_time"%string) with
  | TimesOk t => Done t
  | TimesError e => Status e
  | TimesThrow => Stopped
  end.

Definition int_field (key : string) (initial : Z) : Z :=
  match json_api_data !! key with Some s => istream_int s | None => initial end.
Definition parse_session_type (table : string) : outcome Z :=
  match json_api_data !! "session_type"%string with
  | Some s =>
      if (s =? quoted "client")%string then Done 1
      else if (s =? quoted "server")%string then Done 0
      else Status EINVAL
  | None => if is_session_query table then Status (-1) else Done 0
  end.

Definition parse_head (ck : clock) : outcome query_head :=
  '(table, stats, stat_name_attr) ← parse_table;
  times ← parse_times table ck;
  session_type ← parse_session_type table;
  Done {| qh_table := table; qh_stats := stats; qh_stat_name_attr := stat_name_attr; qh_times := times;
          qh_direction := int_field "dir" 1; qh_is_si := int_field "is_service_instance" 0;
          qh_session_type := session_type |}.

(** The WHERE part. *)
Definition where_text : string := default EmptyString (json_api_data !! "where"%string).
Definition main_of (h : query_head) : where_main := {|
  wm_table := qh_table h; wm_stats := qh_stats h; wm_schema := json_api_data !! "table_schema"%string;
  wm_moduleid := engine_moduleid cfg; session_type := qh_session_type h; is_si := qh_is_si h;
  direction_ing := qh_direction h; oldDataExists := engine_oldDataExists cfg |}.
Definition parse_where (h : query_head) (or_number : Z) : outcome where_state :=
  WhereQuery_ctor (main_of h) where_text or_number true.

(** [ObjectIdQuery]: only the object is selected. *)
Definition ObjectIdQuery (sel : SelectQuery) : bool :=
  match select_column_fields sel with [f] => (f =? OBJECT_ID)%string | _ => false end.
(** The table the rows are read from, and the key of the object values. *)
Definition object_table (table : string) (sel : SelectQuery) : string * string :=
  if is_object_table_query table && ObjectIdQuery sel then (OBJECT_VALUE_TABLE, table)
  else (table, EmptyString).

Definition post_main (h : query_head) (ws : where_state) (table : string) (sel : SelectQuery) : pp_main := {|
  pm_table := table; pm_stats := qh_stats h;
  is_present_in_select_column_fields := λ f, bool_decide (f ∈ select_column_fields sel);
  where_filter_list := filter_list_ ws; filter_qe_logs := where_filter_qe_logs ws;
  sandesh_moduleid := engine_moduleid cfg |}.

(** Queries whose rows are aggregated. *)
Definition is_map_query (table : string) : bool :=
  is_stat_table_query table || is_session_query table || is_flow_query table.
Definition set_stats (st : StatsSelect) (sel : SelectQuery) : SelectQuery := {|
  select_column_fields := select_column_fields sel; agg_stats := agg_stats sel;
  provide_timeseries := provide_timeseries sel; granularity := granularity sel;
  unroll_needed := unroll_needed sel; fs_query_type_ := fs_query_type_ sel; stats_ := Some st |}.
Definition sort_stats (h : query_head) (table : string) (pp : PostProcessingQuery) (sel : SelectQuery)
    : outcome SelectQuery :=
  if is_map_query table then
    st ← stop_unless (stats_ sel);
    st ← SetSortOrder table (qh_stats h) (sort_fields pp) st;
    Done (set_stats st sel)
  else Done sel.

(** Post-processing, and the slice of the batch. *)
Definition parse_rest (h : query_head) (ws : where_state) (sel : SelectQuery) (table key : string)
    (batch total_batches : Z) : outcome AnalyticsQuery :=
  '(pp, merge_needed) ← PostProcessingQuery_ctor (post_main h ws table sel) false (entries json_api_data);
  sel ← sort_stats h table pp sel;
  Done {| aq_head := h; aq_where := ws; table_ := table; object_value_key := key;
          selectquery_ := sel; postprocess_ := pp;
          aq_slice := Init_slice table merge_needed (from_time (qh_times h)) (end_time (qh_times h))
                        batch total_batches (max_slice_ cfg) |}.

(** [Init] from the WHERE clause on. *)
Definition Init_from (h : query_head) (or_number batch total_batches : Z) : init_result :=
  match parse_where h or_number with
  | Stopped => Aborted
  | Status e => BadWhere e
  | Done ws =>
    match SelectQuery_ctor (qh_table h) (additional_select_ ws) json_api_data with
    | Stopped => Aborted
    | Status e => BadRest h ws (qh_table h) e
    | Done sel =>
      let '(table, key) := object_table (qh_table h) sel in
      match parse_rest h ws sel table key batch total_batches with
      | Stopped => Aborted
      | Status e => BadRest h ws table e
      | Done q => Ready q
      end
    end
  end.
Definition Init (ck : clock) (or_number batch total_batches : Z) : init_result :=
  match parse_head ck with
  | Stopped => Aborted
  | Status e => NoWhere e
  | Done h => Init_from h or_number batch total_batches
  end.

(** ** [QueryEngine] *)

(** What [QueryPrepare] returns: an error number, or the details of the query. *)
Record query_details := {
  qd_chunk_sizes : list Z; qd_need_merge : bool; qd_map_output : bool; qd_wterms : Z;
  qd_time_period : Z; qd_table : string
}.
Inductive prepare_result := PrepareError (status : Z) | Prepared (d : query_details).

(** [get_query_details] of a parsed query; [fuel] is for its loop. *)
Definition get_query_details (fuel : nat) (q : AnalyticsQuery) : option query_details :=
  sizes ← chunk_sizes fuel 0 (aq_slice q);
  need_merge ← (if is_map_query (table_ q) then IsMergeNeeded <$> stats_ (selectquery_ q)
                else Some (merge_needed_after (aq_slice q)));
  Some {| qd_chunk_sizes := sizes; qd_need_merge := need_merge; qd_map_output := is_map_query (table_ q);
          qd_wterms := wterms_ (aq_where q);
          qd_time_period := u64 (slice_end (aq_slice q) - slice_from (aq_slice q)) / 1000000;
          qd_table := table_ q |}.

(** [QueryPrepare]; an engine without a database answers by itself.  [wterms] is
    not set then and has any value. *)
Definition QueryPrepare (null_database : bool) (any_wterms : Z) (any_period : Z) (fuel : nat) (ck : clock)
    (max_chunks : Z) : option prepare_result :=
  if null_database then
    Some (Prepared {| qd_chunk_sizes := [999]; qd_need_merge := false; qd_map_output := false;
                      qd_wterms := any_wterms; qd_time_period := any_period;
                      qd_table := "ObjectCollectorInfo" |})
  else
    match Init ck (-1) 0 max_chunks with
    | Aborted => None
    | NoWhere e | BadWhere e | BadRest _ _ _ e => Some (PrepareError e)
    | Ready q => Prepared <$> get_query_details fuel q
    end.

(** The requests [QueryExecWhere] makes: the sub-queries it starts, each with the
    time range it has to fetch. *)
Record where_request := { wr_unit : DbQueryUnit; wr_from : Z; wr_end : Z }.
(** Its answer: whether it is [true], the result it hands over at once, and the
    sub-queries. *)
Record where_started := {
  ws_status : bool; ws_result : option RawResultT; ws_requests : list where_request
}.

(** [WhereQuery::process_query] on a range; [start] is [DbQueryUnit::process_query]. *)
Definition start_where (start : where_request → query_status_t) (table : string) (from end_ : Z) (error : Z)
    (ws : where_state) : where_started :=
  let requests := (λ u, {| wr_unit := u; wr_from := from; wr_end := end_ |}) <$> sub_queries ws in
  let '(status, n) := where_process_query table 0 QUERY_PROCESSING_NOT_STARTED (start <$> requests) in
  match status with
  | QUERY_SUCCESS => {| ws_status := true; ws_result := Some (WhereRes error []); ws_requests := take n requests |}
  | QUERY_IN_PROGRESS => {| ws_status := true; ws_result := None; ws_requests := take n requests |}
  | _ => {| ws_status := false; ws_result := None; ws_requests := take n requests |}
  end.

(** [QueryExecWhere] does not look at the status of [Init]; [None]: the WHERE query
    has no value, or the parsing was stopped. *)
Definition QueryExecWhere (null_database : bool) (start : where_request → query_status_t) (ck : clock)
    (chunk or_number max_chunks : Z) : option where_started :=
  if null_database then Some {| ws_status := true; ws_result := Some (WhereRes 0 []); ws_requests := [] |}
  else
    match Init ck or_number chunk max_chunks with
    | Aborted | NoWhere _ => None
    | BadWhere _ => Some {| ws_status := false; ws_result := None; ws_requests := [] |}
    | BadRest h ws table e =>
        Some (start_where start table (from_time (qh_times h)) (end_time (qh_times h)) e ws)
    | Ready q =>
        Some (start_where start (table_ q) (slice_from (aq_slice q)) (slice_end (aq_slice q)) 0 (aq_where q))
    end.
End init.

(** ** The rows of a chunk *)

Section exec.
Context `{JsonParser, VizSchema, DoubleFormat, Strtod, Regex, DbToString, StringToInteger}.
Context `{TextForms, UuidFormat, Digests, SubValOrder, StatHash, SandeshTypes, StdSortPartial, StatFormat}.
Context (Db_GetMultiRow : list (list DbDataValue) → option (list (list (list DbDataValue * list DbDataValue)))).
Context (cfg : engine_config) (json_api_data : gmap string string).

Definition select_main (q : AnalyticsQuery) (where_info : WhereResultT) : sel_main := {|
  sm_table := table_ q; sm_from := slice_from (aq_slice q); sm_end := slice_end (aq_slice q);
  sm_object_value_key := object_value_key q; sm_direction_ing := qh_direction (aq_head q);
  sm_where_info := where_info |}.

(** [AnalyticsQuery::process_query]: the members after it.  A failure of the
    post-processing leaves its [status_details] at 0, and the result it has so far
    becomes the final one. *)
Definition process_query (q : AnalyticsQuery) (where_info : WhereResultT) : option RawResultT :=
  r ← select_process_query Db_GetMultiRow (selectquery_ q) (select_main q where_info) 0;
  match r with
  | SelFailure e => Some (ExecRes e [] [])
  | SelSuccess result mresult =>
      match PostProcessing.process_query (postprocess_ q) (table_ q) (parallelize_query (aq_slice q)) 0
              result mresult with
      | PPStopped => None
      | PPDone _ rows mrows => Some (ExecRes 0 rows mrows)
      end
  end.

(** [<name type="t" identifier="n">]. *)
Definition open_tag (name type identifier : string) : string :=
  "<" +:+ name +:+ " type=" +:+ quoted type +:+ " identifier=" +:+ quoted identifier +:+ ">".
Definition null_object_log : string :=
  String "010"%char EmptyString +:+ "<IFMapString type=" +:+ quoted "sandesh" +:+ ">" +:+
  open_tag "message" "string" "1" +:+ "Cancelling Response timer.</message>" +:+
  open_tag "file" "string" "-32768" +:+ "src/ifmap/client/ifmap_state_machine.cc</file>" +:+
  open_tag "line" "i32" "-32767" +:+ "578</line></IFMapString>".
(** The row an engine without a database answers with, a hundred times. *)
Definition null_row : OutRowT := list_to_map [
  ("MessageTS", "1368037623434740"); ("Messagetype", "IFMapString"); ("ModuleId", "ControlNode");
  ("Source", "b1s1"); ("ObjectLog", null_object_log)]%string.

(** [QueryExec]. *)
Definition QueryExec (null_database : bool) (ck : clock) (chunk max_chunks : Z) (where_info : WhereResultT)
    : option RawResultT :=
  if null_database then Some (ExecRes 0 (replicate 100 (null_row, 0)) [])
  else
    match Init cfg json_api_data ck (-1) chunk max_chunks with
    | Aborted => None
    | NoWhere e | BadWhere e | BadRest _ _ _ e => Some (ExecRes e [] [])
    | Ready q => process_query q where_info
    end.
End exec.

(** ** A query that is prepared is executed *)

Section prepared.
Context `{JsonParser, VizSchema, DoubleFormat, Strtod, Regex, DbToString, StringToInteger}.
Context (cfg : engine_config) (json_api_data : gmap string string).

Lemma parse_time_again now now' s x : parse_time now s = Parsed x → ∃ x', parse_time now' s = Parsed x'.
Proof. unfold parse_time. repeat case_match; naive_solver. Qed.

Lemma parse_times_again table ck ck' t : parse_times cfg json_api_data table ck = Done t →
  ∃ t', parse_times cfg json_api_data table ck' = Done t'.
Proof.
  unfold parse_times, Init_times. destruct (json_api_data !! "start_time"%string) as [ss|]; [|done].
  destruct (parse_time (ck_start ck) ss) eqn:Es; [|done..].
  destruct (json_api_data !! "end_time"%string) as [es|]; [|done].
  destruct (parse_time (ck_end ck) es) eqn:Ee; [|done..]. intros _.
  destruct (parse_time_again _ (ck_start ck') _ _ Es) as (? & ->).
  destruct (parse_time_again _ (ck_end ck') _ _ Ee) as (? & ->). eauto.
Qed.

Definition set_times (t : query_times) (h : query_head) : query_head := {|
  qh_table := qh_table h; qh_stats := qh_stats h; qh_stat_name_attr := qh_stat_name_attr h; qh_times := t;
  qh_direction := qh_direction h; qh_is_si := qh_is_si h; qh_session_type := qh_session_type h |}.

Lemma parse_head_again ck ck' h : parse_head cfg json_api_data ck = Done h →
  parse_times cfg json_api_data (qh_table h) ck = Done (qh_times h) ∧
  ∃ t, parse_times cfg json_api_data (qh_table h) ck' = Done t ∧
    parse_head cfg json_api_data ck' = Done (set_times t h).
Proof.
  unfold parse_head. destruct (parse_table json_api_data) as [[[table stats] attr]| |]; simpl; [|done..].
  intros E. apply bind_done in E as (t & Ht & E). apply bind_done in E as (st & Hst & [= <-]). simpl.
  split; [done|]. destruct (parse_times_again _ _ ck' _ Ht) as (t' & Ht'). exists t'. split; [done|].
  by rewrite Ht', Hst.
Qed.

(** The parts of a query that [Init] accepts. *)
Record accepted (h : query_head) (or_number batch total : Z) (q : AnalyticsQuery) : Prop := {
  ac_where : parse_where cfg json_api_data h or_number = Done (aq_where q);
  ac_rest : ∃ sel pp merge, SelectQuery_ctor (qh_table h) (additional_select_ (aq_where q)) json_api_data = Done sel ∧
    object_table (qh_table h) sel = (table_ q, object_value_key q) ∧
    PostProcessingQuery_ctor (post_main cfg h (aq_where q) (table_ q) sel) false (entries json_api_data) = Done (pp, merge) ∧
    sort_stats h (table_ q) pp sel = Done (selectquery_ q) ∧ postprocess_ q = pp ∧
    aq_slice q = Init_slice (table_ q) merge (from_time (qh_times h)) (end_time (qh_times h)) batch total (max_slice_ cfg);
  ac_head : aq_head q = h
}.

Lemma Init_from_ready h n batch total q :
  Init_from cfg json_api_data h n batch total = Ready q ↔ accepted h n batch total q.
Proof.
  unfold Init_from. split.
  - destruct (parse_where cfg json_api_data h n) as [ws| |] eqn:Ew; [|done..].
    destruct (SelectQuery_ctor _ _ _) as [sel| |] eqn:Es; [|done..].
    destruct (object_table _ sel) as [table key] eqn:Et.
    destruct (parse_rest _ _ _ _ _ _ _ _ _) as [q'| |] eqn:Er; [|done..]. intros [= <-].
    unfold parse_rest in Er. apply bind_done in Er as ([pp merge] & Hpp & Er).
    apply bind_done in Er as (sel' & Hsel & [= <-]).
    split; simpl; [done| |done]. exists sel, pp, merge. done.
  - intros [Hw (sel & pp & merge & Hs & Ht & Hp & Hst & <- & Hsl) <-]. rewrite Hw, Hs, Ht.
    unfold parse_rest. rewrite Hp. simpl. rewrite Hst. simpl. rewrite <- Hsl. by destruct q.
Qed.

(** The WHERE clause adds filters, and changes nothing else of post-processing. *)
Lemma post_ctor_where h ws ws' table sel data pp merge :
  PostProcessingQuery_ctor (post_main cfg h ws table sel) false data = Done (pp, merge) →
  ∃ pp', PostProcessingQuery_ctor (post_main cfg h ws' table sel) false data = Done (pp', merge) ∧
    sort_fields pp' = sort_fields pp.
Proof.
  unfold PostProcessingQuery_ctor. intros E.
  change (ctor_entry (post_main cfg h ws' table sel)) with (ctor_entry (post_main cfg h ws table sel)).
  apply bind_done in E as ([pp0 m0] & -> & E). simpl in *. injection E as <- <-. by eexists.
Qed.

Lemma select_additional table l l' data : is_flow_query table = false →
  SelectQuery_ctor table l data = SelectQuery_ctor table l' data.
Proof. intros Hf. unfold SelectQuery_ctor, plain_select, flow_select. by rewrite Hf. Qed.

(** A query that was accepted once is accepted with other times, another batch
    and another part of the WHERE clause. *)
Lemma accepted_with h n b total q t n' b' ws :
  accepted h n b total q → parse_where cfg json_api_data h n' = Done ws →
  is_flow_query (qh_table h) = false ∨ additional_select_ ws = additional_select_ (aq_where q) →
  ∃ q' merge, Init_from cfg json_api_data (set_times t h) n' b' total = Ready q' ∧
    aq_head q' = set_times t h ∧ aq_where q' = ws ∧ table_ q' = table_ q ∧ object_value_key q' = object_value_key q ∧
    selectquery_ q' = selectquery_ q ∧ (ws = aq_where q → postprocess_ q' = postprocess_ q) ∧
    aq_slice q = Init_slice (table_ q) merge (from_time (qh_times h)) (end_time (qh_times h)) b total (max_slice_ cfg) ∧
    aq_slice q' = Init_slice (table_ q) merge (from_time t) (end_time t) b' total (max_slice_ cfg).
Proof.
  intros [Hw (sel & pp & merge & Hs & Ht & Hp & Hst & <- & Hsl) Hh] Hw' Hadd.
  destruct (post_ctor_where h (aq_where q) ws _ _ _ _ _ Hp) as (pp' & Hp' & Hsort).
  exists {| aq_head := set_times t h; aq_where := ws; table_ := table_ q; object_value_key := object_value_key q;
            selectquery_ := selectquery_ q; postprocess_ := pp';
            aq_slice := Init_slice (table_ q) merge (from_time t) (end_time t) b' total (max_slice_ cfg) |}, merge.
  split; [|split_and!; try done; simpl; intros ->; rewrite Hp' in Hp; by injection Hp as ->].
  apply Init_from_ready. split; simpl; [done| |done]. exists sel, pp', merge. split_and!; try done.
  - rewrite <- Hs. destruct Hadd as [Hf| ->]; [by apply select_additional|done].
  - unfold sort_stats in *. rewrite Hsort. exact Hst.
Qed.

Lemma slice_merge table m m' f e b n mx f' e' b' :
  Init_slice table m f e b n mx = Init_slice table m' f e b n mx →
  Init_slice table m f' e' b' n mx = Init_slice table m' f' e' b' n mx.
Proof. intros E%(f_equal merge_needed_after). unfold Init_slice in *. simpl in *. by rewrite E. Qed.

(** What a later object sees of a query that was accepted at [ck]: the same query
    over its own times. *)
Lemma accepted_later ck b total q : Init cfg json_api_data ck (-1) b total = Ready q → ∀ ck', ∃ t merge,
  parse_times cfg json_api_data (qh_table (aq_head q)) ck = Done (qh_times (aq_head q)) ∧
  parse_times cfg json_api_data (qh_table (aq_head q)) ck' = Done t ∧
  aq_slice q = Init_slice (table_ q) merge (from_time (qh_times (aq_head q))) (end_time (qh_times (aq_head q))) b total (max_slice_ cfg) ∧
  ∀ b' n ws, parse_where cfg json_api_data (aq_head q) n = Done ws →
    is_flow_query (qh_table (aq_head q)) = false ∨ additional_select_ ws = additional_select_ (aq_where q) →
    ∃ q', Init cfg json_api_data ck' n b' total = Ready q' ∧
      aq_where q' = ws ∧ table_ q' = table_ q ∧ object_value_key q' = object_value_key q ∧
      selectquery_ q' = selectquery_ q ∧ (ws = aq_where q → postprocess_ q' = postprocess_ q) ∧
      aq_slice q' = Init_slice (table_ q) merge (from_time t) (end_time t) b' total (max_slice_ cfg).
Proof.
  unfold Init. destruct (parse_head cfg json_api_data ck) as [h| |] eqn:Eh; [|done..].
  intros Hq%Init_from_ready ck'. destruct (parse_head_again ck ck' h Eh) as (Ht & t & Ht' & ->).
  pose proof (ac_head _ _ _ _ _ Hq) as Hh. pose proof (ac_where _ _ _ _ _ Hq) as Hw.
  destruct (ac_rest _ _ _ _ _ Hq) as (_ & _ & merge & _ & _ & _ & _ & _ & Hsl). rewrite Hh.
  exists t, merge. split_and!; [done..|]. intros b' n ws Hws Hadd.
  destruct (accepted_with h (-1) b total q t n b' ws Hq Hws Hadd)
    as (q' & merge' & Hi & Hh' & ? & ? & ? & ? & ? & Hsl1 & Hsl2).
  exists q'. split_and!; try done. rewrite Hsl2. eapply slice_merge. by rewrite <- Hsl1, <- Hsl.
Qed.

(** ** The chunks of a query *)

(** The windows that chunks of these widths make of a range. *)
Fixpoint windows_of (from : Z) (sizes : list Z) : list (Z * Z) :=
  match sizes with
  | [] => []
  | s :: sizes' => (from, from + s) :: windows_of (from + s) sizes'
  end.
(** Adjacent windows that are not empty and cover a range. *)
Fixpoint tile (from end_ : Z) (l : list (Z * Z)) : Prop :=
  match l with
  | [] => from = end_
  | w :: l' => w.1 = from ∧ from < w.2 ∧ tile w.2 end_ l'
  end.

Lemma windows_tile from sizes : Forall (λ s, 0 < s) sizes → tile from (from + sum_list sizes) (windows_of from sizes).
Proof.
  intros Hs. revert from. induction Hs as [|s l Hs Hl IH]; intros from; simpl; [lia|].
  split_and!; [done|lia|]. specialize (IH (from + s)). by replace (from + (s + sum_list l)) with (from + s + sum_list l) by lia.
Qed.

Lemma windows_lookup ts sizes : (∀ i s, sizes !! S i = Some s → sizes !! i = Some ts) → ∀ from c w,
  windows_of from sizes !! c = Some w → ∃ s, sizes !! c = Some s ∧ w = (from + Z.of_nat c * ts, from + Z.of_nat c * ts + s).
Proof.
  induction sizes as [|s l IH]; intros Hl from c w Hw; [done|]. destruct c as [|c]; simpl in Hw.
  - injection Hw as <-. exists s. split; [done|]. f_equal; lia.
  - assert (s = ts) as ->.
    { destruct l as [|s' l']; [done|]. specialize (Hl 0%nat s' eq_refl). by injection Hl. }
    destruct (IH (λ i s', Hl (S i) s') (from + ts) c w Hw) as (s' & Hs' & ->). exists s'. split; [done|].
    f_equal; lia.
Qed.

(** A time that is a number. *)
Definition absolute (s : string) : bool :=
  negb (s =? quoted "now")%string && negb (bool_decide (substr s 1 3 = Some "now"%string)).
Lemma absolute_time s now now' : absolute s = true → parse_time now s = parse_time now' s.
Proof.
  unfold absolute, parse_time. destruct (s =? quoted "now")%string; [done|].
  destruct (substr s 1 3) as [p|]; [|done]. simpl. intros Ha%negb_true_iff%bool_decide_eq_false.
  destruct (String.eqb_spec p "now"); [by subst|done].
Qed.

(** The range that an object works on which reads this clock: the requested times,
    cut to what the table keeps and to the present. *)
Definition effective (from end_ : Z) (ck : clock) : Prop :=
  ∃ h, parse_head cfg json_api_data ck = Done h ∧ from_time (qh_times h) = from ∧ end_time (qh_times h) = end_.

(** The times of the request are numbers, and at this reading of the clock they are
    neither before the oldest data of the table nor in the future. *)
Record settled (table : string) (from end_ : Z) (ck : clock) : Prop := {
  se_start : ∃ ss, json_api_data !! "start_time"%string = Some ss ∧ absolute ss = true ∧
    parse_time (ck_start ck) ss = Parsed from;
  se_end : ∃ es, json_api_data !! "end_time"%string = Some es ∧ absolute es = true ∧
    parse_time (ck_end ck) es = Parsed end_;
  se_limits : min_start_time (ck_limits ck) (ttl_of_table (ttlmap_ cfg) table) <= from ∧ end_ <= ck_limits ck
}.

Lemma settled_times table from end_ ck : is_stat_fieldnames_table_query table = false →
  settled table from end_ ck → ∃ t, parse_times cfg json_api_data table ck = Done t ∧
    from_time t = from ∧ end_time t = end_.
Proof.
  intros Hf [(ss & Es & _ & Ps) (es & Ee & _ & Pe) [Hmin Hmax]].
  unfold parse_times, Init_times. rewrite Es, Ps, Ee, Pe. eexists. split; [done|].
  unfold clip_fieldnames, clip_from, clip_end. rewrite Hf. simpl.
  split; case_match; reflect_bools; lia.
Qed.

(** A request with such times has the same range whenever it is read. *)
Lemma settled_effective ck0 h from end_ ck : parse_head cfg json_api_data ck0 = Done h →
  is_stat_fieldnames_table_query (qh_table h) = false → settled (qh_table h) from end_ ck → effective from end_ ck.
Proof.
  intros Hh Hf Hs. destruct (parse_head_again _ ck _ Hh) as (_ & t & Ht & Hh').
  destruct (settled_times _ _ _ _ Hf Hs) as (t' & Ht' & Hfr & Hen). rewrite Ht in Ht'. injection Ht' as <-.
  by exists (set_times t h).
Qed.

Lemma prepared_query w0 p0 fuel ck total d :
  QueryPrepare cfg json_api_data false w0 p0 fuel ck total = Some (Prepared d) →
  ∃ q, Init cfg json_api_data ck (-1) 0 total = Ready q ∧ qd_table d = table_ q ∧
    chunk_sizes fuel 0 (aq_slice q) = Some (qd_chunk_sizes d) ∧ qd_wterms d = wterms_ (aq_where q).
Proof.
  unfold QueryPrepare. destruct (Init _ _ _ _ _ _) as [| | |q|]; [done..| |done].
  unfold get_query_details. destruct (chunk_sizes fuel 0 (aq_slice q)) as [sizes|] eqn:Es; [|done]. simpl.
  destruct (if is_map_query _ then _ else _); [|done]. simpl. intros [= <-]. by exists q.
Qed.

Lemma init_accepted ck n b total q : Init cfg json_api_data ck n b total = Ready q →
  parse_where cfg json_api_data (aq_head q) n = Done (aq_where q) ∧ parse_head cfg json_api_data ck = Done (aq_head q).
Proof.
  unfold Init. destruct (parse_head cfg json_api_data ck) as [h| |]; [|done..]. intros Hq%Init_from_ready.
  pose proof (ac_head _ _ _ _ _ Hq) as ->. split; [exact (ac_where _ _ _ _ _ Hq)|done].
Qed.

(** A table that is read in parallel is the one of the request. *)
Lemma parallel_table h n b total q : accepted h n b total q → can_parallelize_query (table_ q) = true →
  table_ q = qh_table h.
Proof.
  intros [_ (sel & pp & merge & _ & Ht & _) _]. unfold object_table in Ht.
  destruct (_ && _); injection Ht as Ht Hk; [|by rewrite Ht]. by rewrite <- Ht.
Qed.

(** The slice of a table that is not read in parallel is the whole range. *)
Lemma single_slice table merge from end_ total : slicing_ok from end_ total (max_slice_ cfg) →
  can_parallelize_query table = false →
  let slice := Init_slice table merge from end_ 0 total (max_slice_ cfg) in
  original_from_time slice = from ∧ original_end_time slice = end_ ∧ time_slice slice = end_ - from ∧
  slice_from slice = from ∧ slice_end slice = end_.
Proof.
  intros [] Hpar slice. pose proof (eq_refl : row_time = 8388608).
  assert ((end_ <? from) = false) as Hlt by (apply Z.ltb_ge; lia).
  unfold slice, Init_slice. rewrite Hlt, Hpar. simpl.
  rewrite (u64_small (end_ - from)) by (unfold is_u64; nia). rewrite Z.mul_0_r, (u64_small 0), Z.add_0_r by done.
  rewrite (u64_small from), (u64_small (_ + _)) by (unfold is_u64; nia).
  split_and!; try done. repeat case_match; reflect_bools; lia.
Qed.

(** The sizes of the chunks, as widths of windows. *)
Lemma parallel_windows table merge from end_ total fuel sizes :
  slicing_ok from end_ total (max_slice_ cfg) → can_parallelize_query table = true →
  (end_ - from) / row_time + 1 < Z.of_nat fuel →
  let slice c := Init_slice table merge from end_ c total (max_slice_ cfg) in
  chunk_sizes fuel 0 (slice 0) = Some sizes →
  tile from end_ (windows_of from sizes) ∧
  ∀ c w, windows_of from sizes !! c = Some w →
    slice_from (slice (Z.of_nat c)) = w.1 ∧ slice_end (slice (Z.of_nat c)) = w.2.
Proof.
  intros Hok Hpar Hfuel slice Hsz. pose proof Hok as [Hok1 Hok2 Hok3 Hok4 Hok5].
  pose proof (parallel_time_slice_bounds from end_ total (max_slice_ cfg) Hok5) as Hb.
  pose proof (eq_refl : row_time = 8388608) as Hrow.
  pose proof (λ i, slice_values table merge from end_ total (max_slice_ cfg) i Hok Hpar) as Hs.
  set (ts := parallel_time_slice from end_ total (max_slice_ cfg)) in *.
  destruct (Hs 0%nat) as (E1 & E2 & E3 & _); [lia|].
  destruct (chunk_loop_spec fuel from end_ ts) as (l & Hl & Hsum & Hlk); [lia|lia|lia|lia|by apply fuel_enough; lia|].
  unfold chunk_sizes in Hsz. simpl (0 =? 0) in Hsz. cbn match in Hsz. unfold slice in Hsz.
  change 0 with (Z.of_nat 0) in Hsz. rewrite E1, E2, E3, Hl in Hsz. injection Hsz as <-. split.
  - replace end_ with (from + sum_list l) by lia. apply windows_tile, Forall_lookup.
    intros i s [Hi ->]%Hlk. lia.
  - intros c w Hw. apply (windows_lookup ts) in Hw as (s & Hc & ->).
    + apply Hlk in Hc as [Hc ->]. destruct (Hs c) as (_ & _ & _ & E4 & _ & E6); [lia|].
      unfold slice. rewrite E4, E6 by done. simpl. split; [done|lia].
    + intros i s [Hi _]%Hlk. apply Hlk. split; lia.
Qed.

Lemma slice_windows table merge from end_ total fuel sizes :
  slicing_ok from end_ total (max_slice_ cfg) →
  (end_ - from) / row_time + 1 < Z.of_nat fuel →
  let slice c := Init_slice table merge from end_ c total (max_slice_ cfg) in
  chunk_sizes fuel 0 (slice 0) = Some sizes →
  tile from end_ (windows_of from sizes) ∧
  ∀ c w, windows_of from sizes !! c = Some w →
    slice_from (slice (Z.of_nat c)) = w.1 ∧ slice_end (slice (Z.of_nat c)) = w.2.
Proof.
  intros Hok Hfuel slice Hsz. destruct (can_parallelize_query table) eqn:Hpar; [by eapply parallel_windows|].
  pose proof (single_slice table merge from end_ total Hok Hpar) as (E1 & E2 & E3 & E4 & E5). fold (slice 0) in *.
  destruct Hok as [Hok1 Hok2 Hok3 Hok4 Hok5]. pose proof (eq_refl : row_time = 8388608) as Hrow.
  unfold chunk_sizes in Hsz. rewrite E1, E2, E3 in Hsz. simpl in Hsz.
  pose proof (Z.div_pos (end_ - from) row_time ltac:(lia) ltac:(lia)) as Hpos.
  destruct fuel as [|[|fuel]]; [lia|lia|]. simpl in Hsz.
  rewrite (u64_small (from + _)) in Hsz by (unfold is_u64; nia).
  replace (from + (end_ - from)) with end_ in Hsz by lia. rewrite Z.leb_refl, Z.ltb_irrefl in Hsz.
  destruct (Z.ltb_spec from end_) as [Hlt|Hge]; injection Hsz as <-; simpl.
  - replace (from + (end_ - from)) with end_ by lia. split; [split_and!; done|].
    intros [|c] w Hw; [|done]. injection Hw as <-. by simpl.
  - split; [lia|]. intros c w Hw. by rewrite lookup_nil in Hw.
Qed.
End prepared.

Section facts.
Context `{JsonParser, VizSchema, DoubleFormat, Strtod, Regex, DbToString, StringToInteger}.
Context (cfg : engine_config) (json_api_data : gmap string string).

(** The windows of a query that is prepared, and what [Init] makes of its chunks. *)
Lemma prepared_chunks w0 p0 fuel ck total d from end_ :
  QueryPrepare cfg json_api_data false w0 p0 fuel ck total = Some (Prepared d) →
  slicing_ok from end_ total (max_slice_ cfg) → (end_ - from) / row_time + 1 < Z.of_nat fuel →
  effective cfg json_api_data from end_ ck →
  ∃ q, qd_table d = table_ q ∧ qd_wterms d = wterms_ (aq_where q) ∧
    parse_where cfg json_api_data (aq_head q) (-1) = Done (aq_where q) ∧
    tile from end_ (windows_of from (qd_chunk_sizes d)) ∧
    ∀ c w ck' n ws, windows_of from (qd_chunk_sizes d) !! c = Some w →
      effective cfg json_api_data from end_ ck' →
      parse_where cfg json_api_data (aq_head q) n = Done ws →
      is_flow_query (qh_table (aq_head q)) = false ∨ additional_select_ ws = additional_select_ (aq_where q) →
      ∃ q', Init cfg json_api_data ck' n (Z.of_nat c) total = Ready q' ∧
        aq_where q' = ws ∧ table_ q' = qd_table d ∧ object_value_key q' = object_value_key q ∧
        selectquery_ q' = selectquery_ q ∧ (ws = aq_where q → postprocess_ q' = postprocess_ q) ∧
        slice_from (aq_slice q') = w.1 ∧ slice_end (aq_slice q') = w.2.
Proof.
  intros Hd Hok Hfuel Hck. destruct (prepared_query _ _ _ _ _ _ _ _ Hd) as (q & Hq & Et & Hsz & Ew).
  exists q. destruct (init_accepted _ _ _ _ _ _ _ Hq) as (Hw & Hh). rewrite Et in *.
  destruct (accepted_later _ _ _ _ _ _ Hq ck) as (_ & merge & _ & _ & Hsl & _).
  destruct Hck as (h & Eh & Hfr & Hen). rewrite Hh in Eh. injection Eh as <-. rewrite Hfr, Hen in Hsl.
  destruct (slice_windows cfg (table_ q) merge from end_ total fuel (qd_chunk_sizes d) Hok Hfuel)
    as (Htile & Hwin); [by rewrite <- Hsl|].
  split_and!; [done..|]. intros c w ck' n ws Hcw (h' & Eh' & Hfr' & Hen') Hws Hadd.
  destruct (accepted_later _ _ _ _ _ _ Hq ck') as (t & merge' & _ & Ht & Hsl' & Hlater).
  destruct (parse_head_again _ _ ck ck' _ Hh) as (_ & t' & Ht' & Eh2). rewrite Ht in Ht'. injection Ht' as <-.
  rewrite Eh' in Eh2. injection Eh2 as ->. simpl in Hfr', Hen'.
  destruct (Hlater (Z.of_nat c) n ws Hws Hadd) as (q' & Hi & ? & ? & ? & ? & ? & Hs). rewrite Hfr, Hen in Hsl'.
  exists q'. split_and!; try done; rewrite Hs, Hfr', Hen', (slice_merge _ merge' merge _ _ _ _ _ _ _ _ (eq_trans (eq_sym Hsl') Hsl)).
  - by apply Hwin.
  - by apply Hwin.
Qed.
End facts.


Section chunks.
Context `{JsonParser, VizSchema, DoubleFormat, Strtod, Regex, DbToString, StringToInteger}.
Context `{TextForms, UuidFormat, Digests, SubValOrder, StatHash, SandeshTypes, StdSortPartial, StatFormat}.
Context (Db_GetMultiRow : list (list DbDataValue) → option (list (list (list DbDataValue * list DbDataValue)))).
Context (cfg : engine_config) (json_api_data : gmap string string).

(** C11.  A query that is prepared is executed on exactly its chunks: the chunk
    sizes that [QueryPrepare] reports are the widths of adjacent windows that cover
    the range it works on, and whenever the clock gives a later object the same
    range, the rows of chunk [c] are selected by the same query over the [c]-th
    window, and each OR term of the WHERE clause (they were all counted) asks for
    its sub-queries over that window only.  The range does not end before it begins,
    and of a flow query the WHERE clause filters no column: else an object for a
    single OR term loads other columns than the whole query. *)
Theorem chunks_cover_query w0 p0 fuel ck total d from end_ :
  QueryPrepare cfg json_api_data false w0 p0 fuel ck total = Some (Prepared d) →
  slicing_ok from end_ total (max_slice_ cfg) → (end_ - from) / row_time + 1 < Z.of_nat fuel →
  effective cfg json_api_data from end_ ck →
  tile from end_ (windows_of from (qd_chunk_sizes d)) ∧
  ∃ q (parts : list where_state),
    qd_wterms d = Z.of_nat (length parts) ∧ sub_queries (aq_where q) = concat (sub_queries <$> parts) ∧
    ∀ c w ck', windows_of from (qd_chunk_sizes d) !! c = Some w →
      effective cfg json_api_data from end_ ck' →
      (∃ q', aq_where q' = aq_where q ∧ selectquery_ q' = selectquery_ q ∧ postprocess_ q' = postprocess_ q ∧
         table_ q' = qd_table d ∧ object_value_key q' = object_value_key q ∧
         slice_from (aq_slice q') = w.1 ∧ slice_end (aq_slice q') = w.2 ∧
         ∀ where_info, QueryExec Db_GetMultiRow cfg json_api_data false ck' (Z.of_nat c) total where_info =
           process_query Db_GetMultiRow q' where_info) ∧
      (is_flow_query (qh_table (aq_head q)) = false ∨ additional_select_ (aq_where q) = [] →
       ∀ i part start, parts !! i = Some part →
         QueryExecWhere cfg json_api_data false start ck' (Z.of_nat c) (Z.of_nat i) total =
         Some (start_where start (qd_table d) w.1 w.2 0 part)).
Proof.
  intros Hd Hok Hfuel Hck.
  destruct (prepared_chunks cfg json_api_data _ _ _ _ _ _ _ _ Hd Hok Hfuel Hck) as (q & Et & -> & Hw & Htile & Hc).
  split; [done|]. destruct (where_parts _ _ _ _ Hw) as (parts & Hn & Hs & _ & Ha & Hp).
  exists q, parts. split_and!; [done|done|]. intros c w ck' Hcw Hck'. split.
  - destruct (Hc c w ck' (-1) (aq_where q) Hcw Hck' Hw (or_intror eq_refl)) as (q' & Hi & ? & ? & ? & ? & Hpp & ? & ?).
    exists q'. split_and!; try done; [by apply Hpp|]. intros where_info. unfold QueryExec. by rewrite Hi.
  - intros Hadd i part start Hi. destruct (Hp i part Hi) as (Hpart & _).
    destruct (Hc c w ck' (Z.of_nat i) part Hcw Hck' Hpart) as (q' & Hi' & <- & <- & _ & _ & _ & <- & <-).
    + destruct Hadd as [?|Hnil]; [by left|right]. rewrite Hnil. symmetry in Hnil. rewrite Ha in Hnil.
      symmetry in Hnil. apply concat_nil_Forall in Hnil. rewrite Forall_fmap, Forall_lookup in Hnil.
      by eapply (Hnil i).
    + unfold QueryExecWhere. by rewrite Hi'.
Qed.
End chunks.

(** ** Relative times *)

Section relative.
Context `{JsonParser, VizSchema, DoubleFormat, Strtod, Regex, DbToString, StringToInteger}.
Context (cfg : engine_config) (json_api_data : gmap string string).

(** A clock that stands still while an object reads it. *)
Definition at_ (t : Z) : clock := {| ck_limits := t; ck_start := t; ck_end := t |}.

Lemma quoted_now_time t : parse_time t (quoted "now") = Parsed t.
Proof. reflexivity. Qed.

(** A range that ends now and begins some time before, which the table still keeps. *)
Record relative_range (table : string) (off t : Z) : Prop := {
  rr_start : ∃ ss, json_api_data !! "start_time"%string = Some ss ∧ parse_time t ss = Parsed (u64 (t - off));
  rr_end : json_api_data !! "end_time"%string = Some (quoted "now");
  rr_kept : 0 <= off <= ttl_of_table (ttlmap_ cfg) table * (60 * 60 * 1000000);
  rr_epoch : ttl_of_table (ttlmap_ cfg) table * (60 * 60 * 1000000) <= t;
  rr_clock : is_u64 t
}.

Lemma relative_times table off t : is_stat_fieldnames_table_query table = false → relative_range table off t →
  ∃ ts, parse_times cfg json_api_data table (at_ t) = Done ts ∧ from_time ts = t - off ∧ end_time ts = t.
Proof.
  intros Hf [(ss & Es & Ps) Ee Hk He Ht]. unfold is_u64 in Ht. unfold parse_times, Init_times. simpl.
  rewrite Es, Ps, Ee, quoted_now_time. eexists. split; [done|]. unfold clip_fieldnames, clip_end, clip_from, min_start_time.
  rewrite Hf, Z.ltb_irrefl. simpl. set (k := ttl_of_table _ _ * _) in *.
  rewrite (u64_small k), (u64_small (t - off)), (u64_small (t - k)) by (unfold is_u64; lia).
  destruct (Z.ltb_spec (t - off) (t - k)); [lia|done].
Qed.

Lemma init_times ck n b total q : Init cfg json_api_data ck n b total = Ready q →
  can_parallelize_query (table_ q) = true → ∃ t merge,
    parse_times cfg json_api_data (table_ q) ck = Done t ∧
    aq_slice q = Init_slice (table_ q) merge (from_time t) (end_time t) b total (max_slice_ cfg).
Proof.
  intros Hq Hpar. unfold Init in Hq. destruct (parse_head cfg json_api_data ck) as [h| |] eqn:Eh; [|done..].
  apply Init_from_ready in Hq. destruct (parse_head_again cfg json_api_data ck ck h Eh) as (Ht & _).
  pose proof (parallel_table _ _ _ _ _ _ _ Hq Hpar) as Et.
  destruct Hq as [_ (_ & _ & merge & _ & _ & _ & _ & _ & Hs) _].
  exists (qh_times h), merge. split; [by rewrite Et|done].
Qed.

(** C12.  Every chunk reads the clock anew, so that the windows of a request with
    relative times move with it: when a chunk is executed at one time and the next
    one later, the second window begins where the first ends and the time between
    the two executions is over.  No chunk fetches the rows in between. *)
Theorem relative_chunks_drift off t t' c total q q' :
  relative_range (table_ q) off t → relative_range (table_ q) off t' → table_ q' = table_ q →
  can_parallelize_query (table_ q) = true → is_stat_fieldnames_table_query (table_ q) = false →
  slicing_ok (t - off) t total (max_slice_ cfg) → slicing_ok (t' - off) t' total (max_slice_ cfg) →
  Z.of_nat (S c) * parallel_time_slice (t - off) t total (max_slice_ cfg) < off →
  Init cfg json_api_data (at_ t) (-1) (Z.of_nat c) total = Ready q →
  Init cfg json_api_data (at_ t') (-1) (Z.of_nat (S c)) total = Ready q' →
  slice_from (aq_slice q') = slice_end (aq_slice q) + (t' - t).
Proof.
  intros Hr Hr' Et Hpar Hf Hok Hok' Hc Hq Hq'.
  destruct (init_times _ _ _ _ _ Hq Hpar) as (ts & merge & Hts & ->).
  destruct (relative_times _ _ _ Hf Hr) as (? & E & Ef & Ee). rewrite Hts in E. injection E as <-.
  rewrite <- Et in Hpar. destruct (init_times _ _ _ _ _ Hq' Hpar) as (ts' & merge' & Hts' & ->).
  rewrite Et in *. destruct (relative_times _ _ _ Hf Hr') as (? & E & Ef' & Ee'). rewrite Hts' in E. injection E as <-.
  rewrite Ef, Ee, Ef', Ee'.
  pose proof (slice_values (table_ q) merge _ _ _ _ c Hok Hpar) as Hs.
  pose proof (slice_values (table_ q) merge' _ _ _ _ (S c) Hok' Hpar) as Hs'. cbv zeta in Hs, Hs'.
  assert (parallel_time_slice (t' - off) t' total (max_slice_ cfg) = parallel_time_slice (t - off) t total (max_slice_ cfg)) as Ep.
  { unfold parallel_time_slice. by replace (t' - (t' - off)) with (t - (t - off)) by lia. }
  rewrite Ep in Hs'. pose proof (parallel_time_slice_bounds (t - off) t total (max_slice_ cfg) (so_max _ _ _ _ Hok)) as Hb.
  pose proof (eq_refl : row_time = 8388608) as Hrow.
  destruct Hs as (_ & _ & _ & _ & _ & He); [lia|]. destruct Hs' as (_ & _ & _ & -> & _); [lia|].
  rewrite He; lia.
Qed.
End relative.

(** ** The lifetimes of the data *)

#[export] Instance TtlType_eq_dec : EqDecision TtlType.
Proof. solve_decision. Defined.

(** The name of a column of [SystemObjectTable] and the lifetime it holds. *)
Definition ttl_of_name (col_name : string) : option TtlType :=
  if (col_name =? "SystemObjectGlobalDataTtl")%string then Some GLOBAL_TTL
  else if (col_name =? "SystemObjectConfigAuditTtl")%string then Some CONFIGAUDIT_TTL
  else if (col_name =? "SystemObjectStatsDataTtl")%string then Some STATSDATA_TTL
  else if (col_name =? "SystemObjectFlowDataTtl")%string then Some FLOWDATA_TTL
  else None.

(** [ttlmap_] while it is filled, and [ttl_cached]. *)
Abbreviation TtlMap := (TtlType → option Z).
(** [std::map::insert], which keeps a value there is. *)
Definition ttl_insert (k : TtlType) (z : Z) (m : TtlMap) : TtlMap :=
  λ k', if decide (k' = k) then Some (default z (m k)) else m k'.
Definition ttl_types : list TtlType := [FLOWDATA_TTL; STATSDATA_TTL; CONFIGAUDIT_TTL; GLOBAL_TTL].

(** The loop over the columns.  A name of another type ends it, a value of another
    type is passed over; [None]: [at(0)] throws. *)
Fixpoint read_columns (cols : list NewCol) (m : TtlMap) (cached : list TtlType) : option (TtlMap * list TtlType) :=
  match cols with
  | [] => Some (m, cached)
  | c :: cols' =>
      n ← name c !! 0%nat;
      match n with
      | DbString col_name =>
          match ttl_of_name col_name with
          | None => read_columns cols' m cached
          | Some k =>
              v ← value c !! 0%nat;
              match v with
              | DbU64 z => read_columns cols' (ttl_insert k z m) (k :: cached)
              | _ => read_columns cols' m cached
              end
          end
      | _ => Some (m, cached)
      end
  end.
(** The loop of the constructor over at most [left_] more requests; [answers] is what
    the database says to each of them, [None] for a failure. *)
Fixpoint ttl_loop (answers : nat → option (list NewCol)) (retries left_ : nat) (m : TtlMap) : option TtlMap :=
  match left_ with
  | O => Some (λ k, Some (TtlValuesDefault k))
  | S left_ =>
      '(m, cached) ← (match answers retries with Some cols => read_columns cols m [] | None => Some (m, []) end);
      if forallb (λ k, bool_decide (k ∈ cached)) ttl_types then Some m else ttl_loop answers (S retries) left_ m
  end.
(** The constructor of [QueryEngine]. *)
Definition QueryEngine_ttlmap (answers : nat → option (list NewCol)) : option TtlMap :=
  ttl_loop answers 0 12 (λ _, None).

(** The values an answer holds for a lifetime, up to a name that is not a string. *)
Fixpoint ttl_values (k : TtlType) (cols : list NewCol) : list Z :=
  match cols with
  | [] => []
  | c :: cols' =>
      match name c !! 0%nat with
      | Some (DbString col_name) =>
          (match ttl_of_name col_name, value c !! 0%nat with
           | Some k', Some (DbU64 z) => if decide (k' = k) then [z] else []
           | _, _ => []
           end) ++ ttl_values k cols'
      | _ => []
      end
  end.

Lemma read_columns_spec cols m cached m' cached' k : read_columns cols m cached = Some (m', cached') →
  m' k = match m k with Some z => Some z | None => head (ttl_values k cols) end ∧
  (k ∈ cached' ↔ k ∈ cached ∨ ttl_values k cols ≠ []).
Proof.
  revert m cached. induction cols as [|c cols IH]; intros m cached; simpl.
  { intros [= <- <-]. split; [by destruct (m k)|tauto]. }
  destruct (name c !! 0%nat) as [n|]; [|done]. simpl.
  destruct n; try (intros [= <- <-]; split; [by destruct (m k)|tauto]).
  destruct (ttl_of_name s) as [k'|]; [|apply IH].
  destruct (value c !! 0%nat) as [v|]; [|done]. simpl.
  destruct v; try apply IH. intros (-> & ->)%IH. unfold ttl_insert. rewrite elem_of_cons.
  destruct (decide (k = k')) as [->|Hne]; destruct (decide (k' = k')) as [_|]; try done.
  - simpl. destruct (m k'); simpl; split; try done; split; try tauto; intros _; by right.
  - rewrite decide_False by done. simpl. split; [done|]. split; [intros [[|]|]|intros [|]]; tauto.
Qed.

(** The values of the first answers, one after the other. *)
Definition values_so_far (answers : nat → option (list NewCol)) (n : nat) (k : TtlType) : list Z :=
  concat ((λ r, ttl_values k (default [] (answers r))) <$> seq 0 n).

Lemma ttl_loop_spec answers n r m m' :
  (∀ k, m k = head (values_so_far answers r k)) → ttl_loop answers r n m = Some m' →
  (∀ k, m' k = Some (TtlValuesDefault k)) ∨
  ∃ r', (r <= r' < r + n)%nat ∧ (∀ k, ttl_values k (default [] (answers r')) ≠ []) ∧
    ∀ k, m' k = head (values_so_far answers (S r') k).
Proof.
  revert r m. induction n as [|n IH]; intros r m Hm; simpl; [intros [= <-]; by left|].
  intros E. apply bind_Some in E as ([m1 cached] & E1 & E).
  assert (∀ k, m1 k = head (values_so_far answers (S r) k) ∧
    (k ∈ cached ↔ ttl_values k (default [] (answers r)) ≠ [])) as H1.
  { intros k. unfold values_so_far. rewrite seq_S, fmap_app, concat_app. fold (values_so_far answers r k). simpl.
    rewrite app_nil_r. destruct (answers r) as [cols|]; simpl.
    - destruct (read_columns_spec cols m [] m1 cached k E1) as (-> & ->). rewrite Hm. split.
      + by destruct (values_so_far answers r k).
      + split; [intros [Hin|]; [by apply elem_of_nil in Hin|done]|by right].
    - injection E1 as <- <-. rewrite app_nil_r. split; [done|]. by rewrite elem_of_nil. }
  change (_ && _) with (forallb (λ k, bool_decide (k ∈ cached)) ttl_types) in E.
  destruct (forallb _ ttl_types) eqn:Eall.
  - injection E as <-. right. exists r. split; [lia|]. split; [|intros k; apply H1].
    intros k. apply H1. rewrite forallb_forall in Eall.
    assert (In k ttl_types) as Hk by (destruct k; simpl; tauto). by apply Eall, bool_decide_eq_true in Hk.
  - destruct (IH (S r) m1 (λ k, proj1 (H1 k)) E) as [Hd|(r' & Hr & Hv & Hm')]; [by left|].
    right. exists r'. split; [lia|done].
Qed.

(** When the engine has started every lifetime has a value: either one answer
    of the database held all of them, among the first twelve, and each lifetime is
    the first value any answer so far had for it; or all are the defaults. *)
Theorem ttls_known answers m : QueryEngine_ttlmap answers = Some m →
  (∀ k, is_Some (m k)) ∧
  ((∀ k, m k = Some (TtlValuesDefault k)) ∨
   ∃ r, (r < 12)%nat ∧ (∀ k, ttl_values k (default [] (answers r)) ≠ []) ∧
     ∀ k, m k = head (values_so_far answers (S r) k)).
Proof.
  intros E. destruct (ttl_loop_spec answers 12 0 (λ _, None) m (λ _, eq_refl) E) as [Hd|(r & Hr & Hv & Hm)].
  - split; [intros k; rewrite Hd; by eexists|by left].
  - split; [|right; exists r; by split; [lia|]]. intros k. rewrite Hm. unfold values_so_far.
    rewrite seq_S, fmap_app, concat_app. simpl. specialize (Hv k).
    destruct (concat _); simpl; [|by eexists]. rewrite app_nil_r. destruct (ttl_values k _); [done|by eexists].
Qed.

(** ** A failing filter *)

Section failing.
Context `{JsonParser, VizSchema, DoubleFormat, Strtod, Regex, DbToString, StringToInteger}.
Context `{TextForms, UuidFormat, Digests, SubValOrder, StatHash, SandeshTypes, StdSortPartial, StatFormat}.
Context (Db_GetMultiRow : list (list DbDataValue) → option (list (list (list DbDataValue * list DbDataValue)))).

(** When a filter has an operation that the post-processing does not know, it
    fails, yet the chunk is answered without an error and with all the rows that
    were selected: none is filtered out, sorted or cut off. *)
Theorem failed_filter_unfiltered q where_info rows m :
  select_process_query Db_GetMultiRow (selectquery_ q) (select_main q where_info) 0 = Some (SelSuccess rows m) →
  filter_list (postprocess_ q) ≠ [] → row_filter_loop (filter_list (postprocess_ q)) rows = None →
  process_query Db_GetMultiRow q where_info =
  Some (ExecRes 0 rows (stats_filter_loop (filter_list (postprocess_ q)) [] None m)).
Proof.
  intros Hs Hf Hr. unfold process_query. rewrite Hs. simpl. unfold PostProcessing.process_query. simpl.
  by rewrite bool_decide_eq_false_2, Hr by done.
Qed.
End failing.

(** ** Examples *)

Module EngineExamples.
#[local] Existing Instance ConcreteStringToInteger.instance.
#[local] Existing Instance StatExamples.order.
#[local] Existing Instance StatExamples.digests.
#[local] Existing Instance StatExamples.hash.
#[local] Existing Instance SelectExamples.text.
#[local] Existing Instance SelectExamples.uuid_format.
#[local] Existing Instance SelectExamples.types.
#[local] Existing Instance PostExamples.regex.
#[local] Existing Instance PostExamples.format.
#[local] Existing Instance PostExamples.double_format.
#[local] Existing Instance WhereExamples.db_to_string.
#[local] Existing Instance WhereExamples.to_double.

Definition column (n : string) : column_schema := {| col_name := n; col_datatype := "string"; col_index := true |}.
Definition schema : VizSchema := {|
  STAT_TABLES := [];
  TABLES := [{| tbl_name := FLOW_SERIES_TABLE; columns := column <$> ["sourcevn"; "vrouter"]%string |}]
|}.
#[local] Existing Instance schema.

(** The texts of the requests stand for their JSON values. *)
Definition strings (l : list string) : json := JArray (JString <$> l).
Definition documents : list (string * string * json) := [
  (("select", "messages"), strings ["MessageTS"; "Source"]);
  (("where", "sources"), JArray [JArray [WhereExamples.term "Source" "a"]; JArray [WhereExamples.term "Source" "b"]]);
  (("filter", "source in range"), JArray [JArray [JObject
     [("name", JString "Source"); ("value", JString "x"); ("op", JInt 3)]]]);
  (("select", "flows"), strings ["sourcevn"]);
  (("where", "routers"), JArray [JArray [WhereExamples.term "vrouter" "Y"]; JArray [WhereExamples.term "sourcevn" "b"]]);
  (("sort_fields", "by vrouter"), strings ["vrouter"])
]%string.
Definition parser : JsonParser := {|
  Document_Parse text :=
    match List.find (λ d, (text =? wrap d.1.1 d.1.2)%string) documents with
    | Some (key, _, v) => Some (JObject [(key, v)])
    | None => None
    end
|}.
#[local] Existing Instance parser.

Definition cfg : engine_config := {|
  ttlmap_ := TtlValuesDefault; engine_moduleid := "contrail-query-engine"; max_slice_ := 100;
  engine_oldDataExists := false |}.
Definition now : Z := 1600000200000000.
Definition from : Z := 1600000000000000.
Definition until : Z := 1600000100000000.
Definition no_rows (l : list (list DbDataValue)) : option (list (list (list DbDataValue * list DbDataValue))) := None.
Definition started (r : where_request) : query_status_t := QUERY_IN_PROGRESS.

Definition query_text (table start finish : string) (l : list (string * string)) : gmap string string :=
  list_to_map ([("table", quoted table); ("start_time", start); ("end_time", finish)]%string ++ l).
Definition messages : gmap string string := query_text "MessageTable" "1600000000000000" "1600000100000000"
  [("select_fields", "messages"); ("where", "sources")]%string.
Definition messages_details : query_details := {|
  qd_chunk_sizes := [25000001; 25000001; 25000001; 24999997]; qd_need_merge := false; qd_map_output := false;
  qd_wterms := 2; qd_time_period := 25; qd_table := "MessageTable" |}.

(** At any time from [until] until the data expires, the range is the requested one. *)
Lemma kept_range t : until <= t <= until + 1000000000 →
  min_start_time t (ttl_of_table (ttlmap_ cfg) "MessageTable") <= from ∧ until <= t.
Proof.
  unfold min_start_time. set (k := u64 (_ * _)). vm_compute in k. subst k. unfold from, until. intros Ht.
  rewrite u64_small by (unfold is_u64; lia). lia.
Qed.
Lemma messages_range t : until <= t <= until + 1000000000 → effective cfg messages from until (at_ t).
Proof.
  intros Ht%kept_range. destruct (parse_head cfg messages (at_ now)) as [h| |] eqn:Eh; [|by vm_compute in Eh..].
  assert (qh_table h = "MessageTable"%string) as Et.
  { apply (f_equal (λ r, match r with Done h => qh_table h | _ => EmptyString end)) in Eh. by vm_compute in Eh. }
  apply (settled_effective _ _ _ _ _ _ _ Eh); rewrite Et; [reflexivity|]. split; [| |exact Ht].
  - exists "1600000000000000"%string. split_and!; [by vm_compute..|].
    rewrite (absolute_time _ _ now) by by vm_compute. by vm_compute.
  - exists "1600000100000000"%string. split_and!; [by vm_compute..|].
    rewrite (absolute_time _ _ now) by by vm_compute. by vm_compute.
Qed.

Lemma chunks_cover_query_witness (d := messages_details) (t := until + 500000000) :
  effective cfg messages from until (at_ t) ∧ tile from until (windows_of from (qd_chunk_sizes d)) ∧
  ∃ q (parts : list where_state),
    qd_wterms d = Z.of_nat (length parts) ∧ sub_queries (aq_where q) = concat (sub_queries <$> parts) ∧
    ∀ c w ck', windows_of from (qd_chunk_sizes d) !! c = Some w →
      effective cfg messages from until ck' →
      (∃ q', aq_where q' = aq_where q ∧ selectquery_ q' = selectquery_ q ∧ postprocess_ q' = postprocess_ q ∧
         table_ q' = qd_table d ∧ object_value_key q' = object_value_key q ∧
         slice_from (aq_slice q') = w.1 ∧ slice_end (aq_slice q') = w.2 ∧
         ∀ where_info, QueryExec no_rows cfg messages false ck' (Z.of_nat c) 4 where_info =
           process_query no_rows q' where_info) ∧
      (is_flow_query (qh_table (aq_head q)) = false ∨ additional_select_ (aq_where q) = [] →
       ∀ i part start, parts !! i = Some part →
         QueryExecWhere cfg messages false start ck' (Z.of_nat c) (Z.of_nat i) 4 =
         Some (start_where start (qd_table d) w.1 w.2 0 part)).
Proof.
  split; [apply messages_range; unfold t; lia|].
  apply (chunks_cover_query no_rows cfg messages 0 0 20 (at_ now) 4 d from until).
  - vm_cast_no_check (eq_refl (Some (Prepared messages_details))).
  - split; vm_compute; intuition congruence.
  - vm_compute. reflexivity.
  - apply messages_range. unfold now, until. lia.
Defined.

(** A request for the last ten minutes in four chunks, executed five seconds apart. *)
Definition recent : gmap string string := query_text "MessageTable" (relative_time_text "-" 10 "m") (quoted "now")
  [("select_fields", "messages")]%string.
Definition query_of (r : init_result) : option AnalyticsQuery := match r with Ready q => Some q | _ => None end.
Lemma query_of_ready r q : query_of r = Some q → r = Ready q.
Proof. by destruct r; intros [= <-]. Defined.
Lemma relative_range_dec json table ss off t : json !! "start_time"%string = Some ss →
  parse_time t ss = Parsed (u64 (t - off)) → json !! "end_time"%string = Some (quoted "now") →
  (0 <=? off) && (off <=? ttl_of_table (ttlmap_ cfg) table * (60 * 60 * 1000000)) &&
  (ttl_of_table (ttlmap_ cfg) table * (60 * 60 * 1000000) <=? t) && (t <? 2 ^ 64) = true →
  relative_range cfg json table off t.
Proof.
  intros. reflect_bools.
  assert (0 <= t) by lia. split; [by exists ss|done|lia|lia|split; lia].
Qed.
Lemma relative_chunks_drift_witness :
  match query_of (Init cfg recent (at_ now) (-1) (Z.of_nat 0) 4),
        query_of (Init cfg recent (at_ (now + 5000000)) (-1) (Z.of_nat 1) 4) with
  | Some q, Some q' => slice_from (aq_slice q') = slice_end (aq_slice q) + (now + 5000000 - now)
  | _, _ => False
  end.
Proof.
  destruct (query_of (Init cfg recent (at_ now) (-1) (Z.of_nat 0) 4)) as [q|] eqn:E; [|by vm_compute in E].
  destruct (query_of (Init cfg recent (at_ (now + 5000000)) (-1) (Z.of_nat 1) 4)) as [q'|] eqn:E'; [|by vm_compute in E'].
  assert (table_ q = MESSAGE_TABLE) as Et by (apply (f_equal (fmap table_)) in E; vm_compute in E; by injection E).
  assert (table_ q' = MESSAGE_TABLE) as Et' by (apply (f_equal (fmap table_)) in E'; vm_compute in E'; by injection E').
  apply (relative_chunks_drift cfg recent 600000000 now (now + 5000000) 0 4 q q').
  - rewrite Et. apply (relative_range_dec recent _ (relative_time_text "-" 10 "m")); vm_compute; reflexivity.
  - rewrite Et. apply (relative_range_dec recent _ (relative_time_text "-" 10 "m")); vm_compute; reflexivity.
  - by rewrite Et, Et'.
  - by rewrite Et.
  - by rewrite Et.
  - split; vm_compute; intuition congruence.
  - split; vm_compute; intuition congruence.
  - vm_compute. reflexivity.
  - by apply query_of_ready.
  - by apply query_of_ready.
Defined.

(** The first answer lacks a lifetime; the second has all of them. *)
Definition ttl_column (n : string) (z : Z) : NewCol := {| name := [DbString n]; value := [DbU64 z] |}.
Definition ttl_answers (r : nat) : option (list NewCol) :=
  match r with
  | O => Some [ttl_column "SystemObjectGlobalDataTtl" 48]
  | _ => Some [ttl_column "SystemObjectGlobalDataTtl" 24; ttl_column "SystemObjectConfigAuditTtl" 2160;
               ttl_column "SystemObjectStatsDataTtl" 168; ttl_column "SystemObjectFlowDataTtl" 2]
  end%string.
Lemma ttls_known_witness :
  match QueryEngine_ttlmap ttl_answers with
  | Some m => (∀ k, is_Some (m k)) ∧
      ((∀ k, m k = Some (TtlValuesDefault k)) ∨
       ∃ r, (r < 12)%nat ∧ (∀ k, ttl_values k (default [] (ttl_answers r)) ≠ []) ∧
         ∀ k, m k = head (values_so_far ttl_answers (S r) k))
  | None => False
  end.
Proof.
  destruct (QueryEngine_ttlmap ttl_answers) as [m|] eqn:E; [|by vm_compute in E].
  exact (ttls_known ttl_answers m E).
Defined.

(** The chunk of a query for messages with a source in a range, which no filter knows. *)
Definition filtered : gmap string string := query_text "MessageTable" "1600000000000000" "1600000100000000"
  [("select_fields", "messages"); ("filter", "source in range")]%string.
Definition selected (q : AnalyticsQuery) : option select_result :=
  select_process_query no_rows (selectquery_ q) (select_main q [SelectExamples.message 1]) 0.
Lemma failed_filter_unfiltered_witness :
  match query_of (Init cfg filtered (at_ now) (-1) 0 4) with
  | Some q =>
      match selected q with
      | Some (SelSuccess rows m) => length rows = 1%nat ∧
          process_query no_rows q [SelectExamples.message 1] =
          Some (ExecRes 0 rows (stats_filter_loop (filter_list (postprocess_ q)) [] None m))
      | _ => False
      end
  | None => False
  end.
Proof.
  destruct (query_of (Init cfg filtered (at_ now) (-1) 0 4)) as [q|] eqn:E; [|by vm_compute in E].
  assert ((λ r, match r with SelSuccess rows _ => (length rows, row_filter_loop (filter_list (postprocess_ q)) rows) | _ => (0%nat, Some []) end)
            <$> selected q = Some (1%nat, None)) as Hs.
  { vm_compute in E. injection E as <-. vm_compute. reflexivity. }
  assert (length (filter_list (postprocess_ q)) = 1%nat) as Hf.
  { apply (f_equal (fmap (λ q, length (filter_list (postprocess_ q))))) in E. vm_compute in E. by injection E. }
  destruct (selected q) as [[e|rows m]|] eqn:Es; simpl in Hs; [done| |done]. injection Hs as Hl Hr. split; [exact Hl|].
  apply failed_filter_unfiltered; [exact Es|by intros Hn; rewrite Hn in Hf|exact Hr].
Defined.

(** A flow query may be sorted by a column that only its WHERE clause names.  It
    is prepared with four chunks, but the objects that execute the OR term without
    the column are refused after the WHERE clause: each chunk then asks for the rows
    of that term over the whole range, and every row is fetched four times. *)
Definition flows : gmap string string := query_text "FlowSeriesTable" "1600000000000000" "1600000100000000"
  [("select_fields", "flows"); ("where", "routers"); ("sort_fields", "by vrouter")]%string.
Definition ranges (r : option where_started) : list (Z * Z) :=
  match r with Some w => (λ r, (wr_from r, wr_end r)) <$> ws_requests w | None => [] end.
Theorem where_column_sorted :
  option_map (λ r, match r with Prepared d => (qd_chunk_sizes d, qd_wterms d) | _ => ([], 0) end)
    (QueryPrepare cfg flows false 0 0 20 (at_ now) 4) = Some ([25000001; 25000001; 25000001; 24999997], 2) ∧
  ∀ c, In c [0; 1; 2; 3] →
    ranges (QueryExecWhere cfg flows false started (at_ now) c 0 4) =
      [(from + c * 25000001, Z.min until (from + (c + 1) * 25000001));
       (from + c * 25000001, Z.min until (from + (c + 1) * 25000001))] ∧
    ranges (QueryExecWhere cfg flows false started (at_ now) c 1 4) = [(from, until); (from, until)].
Proof.
  split; [by vm_compute|]. intros c Hc. repeat destruct Hc as [<-|Hc]; [..|destruct Hc]; by vm_compute.
Qed.
End EngineExamples.
