(* ===== verification/Generators.v ===== *)
(** * Generators and their sessions

    [contrail-collector/collector.cc] and [generator.cc], and the requests of
    [sandesh_request.cc] that set water marks.  A client connects and introduces
    itself with a control message; the collector keeps a generator for every
    name, bound to one session at a time.  A session and its generator point at
    each other, so the state is one store: sessions and state machines are
    numbered, a session's pointer is an entry of [generator_of].  The calls of
    other components are a list of events; what they return, and the clock,
    are arguments.  [None] is an assertion that fails or a null pointer. *)
From Stdlib Require Import Ascii.
From stdpp Require Import base tactics list strings gmap.
From Stdlib Require Import ZArith Lia.
From S2P Require Import Prelude.
From S2P Require Import CppString.
From S2P Require Import SortedLists.
From S2P Require Import SelectQuery.
From S2P Require Import StatWalker.
From S2P Require Import DbHandler.
From S2P Require Import RuleList.
Local Open Scope Z_scope.

(** ** State *)

(** [SandeshGenerator::GeneratorId]: source, module, instance and node type. *)
Abbreviation GeneratorId := (string * string * string * string)%type.
Abbreviation VizSession := Z (only parsing).
Abbreviation SandeshStateMachine := Z (only parsing).

(** The tuples' [operator<]. *)
Definition generator_id_ltb (a b : GeneratorId) : bool :=
  let '(a1, a2, a3, a4) := a in let '(b1, b2, b3, b4) := b in
  String.ltb a1 b1 || ((a1 =? b1)%string && (String.ltb a2 b2 || ((a2 =? b2)%string &&
    (String.ltb a3 b3 || ((a3 =? b3)%string && String.ltb a4 b4))))).

(** [name_] and [ToString]. *)
Definition generator_name (id : GeneratorId) : string :=
  let '(source, module, instance, node_type) := id in
  source +:+ ":" +:+ node_type +:+ ":" +:+ module +:+ ":" +:+ instance.

Record GeneratorInfoAttr := { connects : Z; connect_time : Z; resets : Z; reset_time : Z }.

(** [SandeshGenerator].  The timer is null or has a flag: it is running. *)
Record SandeshGenerator := {
  state_machine_ : option SandeshStateMachine; viz_session_ : option VizSession;
  gen_attr_ : GeneratorInfoAttr; disconnected_ : bool;
  sm_defer_timer_ : option bool; sm_defer_timer_expiry_time_usec_ : Z; sm_defer_time_msec_ : Z;
  statistics_ : VizMsgStatistics
}.

(** [Sandesh::QueueWaterMarkInfo]: count, drop level, high, defer. *)
Record QueueWaterMarkInfo := { wm_count : Z; wm_level : Z; wm_high : bool; wm_defer : bool }.
#[export] Instance QueueWaterMarkInfo_eq_dec : EqDecision QueueWaterMarkInfo.
Proof. solve_decision. Defined.
Inductive QueueType := Db | Sm.

(** The calls of other components. *)
Inductive call :=
  | SetGeneratorKey (sm : SandeshStateMachine) (name : string)
  | SetDeferDequeue (sm : SandeshStateMachine) (defer : bool)
  | SetQueueWaterMarkInfo (sm : SandeshStateMachine) (wm : QueueWaterMarkInfo)
  | ResetQueueWaterMarkInfo (sm : SandeshStateMachine)
  | ResourceUpdate (sm : SandeshStateMachine) (rsc : bool)
  | EnqueueClose (s : VizSession)
  | EnqueueBuffer (s : VizSession) (buffer : string)
  | CtrlReply (s : VizSession) (types : list (string * Z))
  | DeleteUVEs (source module node_type instance : string)
  | SendModuleServerState (name : string) (attr : GeneratorInfoAttr)
  | ProcessSandeshMsg (id : GeneratorId) (msg : counted) (rsc : bool)
  | DbSetQueueWaterMark (wm : QueueWaterMarkInfo) (cb : option (option SandeshStateMachine * bool))
  | DbResetQueueWaterMarks
  | SandeshMessageStat (name : string) (info : list ((string * string) * VizMsgStats))
  | StartTimer (time_msec : Z).

(** [CollectorStats]. *)
Record CollectorStats := {
  no_session_error : Z; no_generator_error : Z; redis_error : Z; session_mismatch_error : Z;
  sandesh_type_mismatch_error : Z
}.
Definition no_errors : CollectorStats := {|
  no_session_error := 0; no_generator_error := 0; redis_error := 0; session_mismatch_error := 0;
  sandesh_type_mismatch_error := 0 |}.

(** [Collector], with the pointers of its sessions and the calls made. *)
Record Collector := {
  gen_map_ : gmap GeneratorId SandeshGenerator; generator_of : gmap VizSession GeneratorId;
  stats_ : CollectorStats; has_db_handler : bool;
  db_queue_wm_info_ : list QueueWaterMarkInfo; sm_queue_wm_info_ : list QueueWaterMarkInfo;
  calls : list call
}.

Definition kQSizeHighWaterMark : Z := 7 * 1024 * 1024.
Definition kQSizeLowWaterMark : Z := 3 * 1024 * 1024.
(** [SandeshLevel::INVALID] of the sandesh library. *)
Class SandeshLevels := { LEVEL_INVALID : Z }.
Definition kQueueWaterMarkInfo `{SandeshLevels} : list QueueWaterMarkInfo :=
  [ {| wm_count := kQSizeHighWaterMark; wm_level := LEVEL_INVALID; wm_high := true; wm_defer := true |};
    {| wm_count := kQSizeLowWaterMark; wm_level := LEVEL_INVALID; wm_high := false; wm_defer := true |} ].
(** The constructor of [Collector]. *)
Definition Collector_ctor `{SandeshLevels} (db_handler : bool) : Collector := {|
  gen_map_ := ∅; generator_of := ∅; stats_ := no_errors; has_db_handler := db_handler;
  db_queue_wm_info_ := kQueueWaterMarkInfo; sm_queue_wm_info_ := kQueueWaterMarkInfo; calls := [] |}.

(** The generators in the order of the map. *)
Definition generators (c : Collector) : list (GeneratorId * SandeshGenerator) :=
  insertion_sort (λ a b, generator_id_ltb a.1 b.1) (map_to_list (gen_map_ c)).

(** Assignments to members. *)
Definition log (l : list call) (c : Collector) : Collector := {|
  gen_map_ := gen_map_ c; generator_of := generator_of c; stats_ := stats_ c; has_db_handler := has_db_handler c;
  db_queue_wm_info_ := db_queue_wm_info_ c; sm_queue_wm_info_ := sm_queue_wm_info_ c; calls := calls c ++ l |}.
Definition set_generator_map (m : gmap GeneratorId SandeshGenerator) (c : Collector) : Collector := {|
  gen_map_ := m; generator_of := generator_of c; stats_ := stats_ c; has_db_handler := has_db_handler c;
  db_queue_wm_info_ := db_queue_wm_info_ c; sm_queue_wm_info_ := sm_queue_wm_info_ c; calls := calls c |}.
Definition put_generator (id : GeneratorId) (g : SandeshGenerator) (c : Collector) : Collector :=
  set_generator_map (<[id := g]> (gen_map_ c)) c.
(** [VizSession::set_generator]. *)
Definition set_generator (s : VizSession) (g : option GeneratorId) (c : Collector) : Collector := {|
  gen_map_ := gen_map_ c; generator_of := partial_alter (λ _, g) s (generator_of c); stats_ := stats_ c;
  has_db_handler := has_db_handler c; db_queue_wm_info_ := db_queue_wm_info_ c;
  sm_queue_wm_info_ := sm_queue_wm_info_ c; calls := calls c |}.
Definition set_marks (type : QueueType) (l : list QueueWaterMarkInfo) (c : Collector) : Collector := {|
  gen_map_ := gen_map_ c; generator_of := generator_of c; stats_ := stats_ c; has_db_handler := has_db_handler c;
  db_queue_wm_info_ := match type with Db => l | Sm => db_queue_wm_info_ c end;
  sm_queue_wm_info_ := match type with Db => sm_queue_wm_info_ c | Sm => l end; calls := calls c |}.
Inductive collector_error := NoSession | NoGenerator | RedisFailed | SessionMismatch | TypeMismatch.
Definition increment_error (e : collector_error) (c : Collector) : Collector :=
  let s := stats_ c in {|
  gen_map_ := gen_map_ c; generator_of := generator_of c; has_db_handler := has_db_handler c;
  stats_ := {|
    no_session_error := u64 (no_session_error s + match e with NoSession => 1 | _ => 0 end);
    no_generator_error := u64 (no_generator_error s + match e with NoGenerator => 1 | _ => 0 end);
    redis_error := u64 (redis_error s + match e with RedisFailed => 1 | _ => 0 end);
    session_mismatch_error := u64 (session_mismatch_error s + match e with SessionMismatch => 1 | _ => 0 end);
    sandesh_type_mismatch_error := u64 (sandesh_type_mismatch_error s + match e with TypeMismatch => 1 | _ => 0 end) |};
  db_queue_wm_info_ := db_queue_wm_info_ c; sm_queue_wm_info_ := sm_queue_wm_info_ c; calls := calls c |}.

(** ** Operations of a generator *)

Definition kInitialSmDeferTimeMSec : Z := 300.
Definition kMaxSmDeferTimeMSec : Z := 30000.

(** [GetDeferTimeMSec]; [None]: its assertion fails. *)
Definition GetDeferTimeMSec (event_time_usec last_expiry_time_usec last_defer_time_usec : Z) : option Z :=
  if (last_defer_time_usec =? 0) || (last_expiry_time_usec =? 0) then Some kInitialSmDeferTimeMSec
  else if negb (last_expiry_time_usec <=? event_time_usec) then None
  else
    let time_since_expiry_usec := u64 (event_time_usec - last_expiry_time_usec) in
    if time_since_expiry_usec <=? u64 (2 * last_defer_time_usec) then
      Some (i32 (Z.min (u64 (2 * last_defer_time_usec) / 1000) kMaxSmDeferTimeMSec))
    else if (u64 (2 * last_defer_time_usec) <=? time_since_expiry_usec) &&
            (time_since_expiry_usec <=? u64 (4 * last_defer_time_usec)) then
      Some (i32 (last_defer_time_usec / 1000))
    else Some kInitialSmDeferTimeMSec.

(** The constructor, which creates the timer and names the state machine. *)
Definition SandeshGenerator_ctor (s : VizSession) (sm : SandeshStateMachine) (now : Z) : SandeshGenerator := {|
  state_machine_ := Some sm; viz_session_ := Some s;
  gen_attr_ := {| connects := 1; connect_time := now; resets := 0; reset_time := 0 |}; disconnected_ := false;
  sm_defer_timer_ := Some false; sm_defer_timer_expiry_time_usec_ := 0; sm_defer_time_msec_ := 0;
  statistics_ := no_messages |}.

(** [IsStateMachineDeferTimerRunning]. *)
Definition IsStateMachineDeferTimerRunning (g : SandeshGenerator) : bool := default false (sm_defer_timer_ g).

(** [ProcessRulesCb]: the answer of the database to a write. *)
Definition ProcessRulesCb (back_pressure : bool) (now : Z) (g : SandeshGenerator)
    : option (SandeshGenerator * list call) :=
  match back_pressure, state_machine_ g with
  | true, Some sm =>
      if IsStateMachineDeferTimerRunning g then Some (g, [])
      else
        defer_time_msec ← GetDeferTimeMSec now (sm_defer_timer_expiry_time_usec_ g)
                            (u64 (i32 (sm_defer_time_msec_ g * 1000)));
        _ ← sm_defer_timer_ g;
        Some ({|
          state_machine_ := state_machine_ g; viz_session_ := viz_session_ g; gen_attr_ := gen_attr_ g;
          disconnected_ := disconnected_ g; sm_defer_timer_ := Some true;
          sm_defer_timer_expiry_time_usec_ := sm_defer_timer_expiry_time_usec_ g;
          sm_defer_time_msec_ := defer_time_msec; statistics_ := statistics_ g |},
          [SetDeferDequeue sm true; StartTimer defer_time_msec])
  | _, _ => Some (g, [])
  end.

(** [StateMachineDeferTimerExpired]: returning false, it ends the timer. *)
Definition StateMachineDeferTimerExpired (now : Z) (g : SandeshGenerator) : option (SandeshGenerator * list call) :=
  Some ({|
    state_machine_ := state_machine_ g; viz_session_ := viz_session_ g; gen_attr_ := gen_attr_ g;
    disconnected_ := disconnected_ g; sm_defer_timer_ := (λ _, false) <$> sm_defer_timer_ g;
    sm_defer_timer_expiry_time_usec_ := now; sm_defer_time_msec_ := sm_defer_time_msec_ g;
    statistics_ := statistics_ g |},
    match state_machine_ g with Some sm => [SetDeferDequeue sm false] | None => [] end).

Definition set_statistics (st : VizMsgStatistics) (g : SandeshGenerator) : SandeshGenerator := {|
  state_machine_ := state_machine_ g; viz_session_ := viz_session_ g; gen_attr_ := gen_attr_ g;
  disconnected_ := disconnected_ g; sm_defer_timer_ := sm_defer_timer_ g;
  sm_defer_timer_expiry_time_usec_ := sm_defer_timer_expiry_time_usec_ g;
  sm_defer_time_msec_ := sm_defer_time_msec_ g; statistics_ := st |}.

(** A member function called on a generator of the map. *)
Definition on_generator (id : GeneratorId) (f : SandeshGenerator → option (SandeshGenerator * list call))
    (c : Collector) : option Collector :=
  g ← gen_map_ c !! id;
  '(g', l) ← f g;
  Some (log l (put_generator id g' c)).

(** [SandeshGenerator::ConnectSession]: the timer has to be null. *)
Definition ConnectSession (id : GeneratorId) (g : SandeshGenerator) (s : VizSession) (sm : SandeshStateMachine)
    (now : Z) (c : Collector) : option Collector :=
  match sm_defer_timer_ g with
  | Some _ => None
  | None =>
      Some (set_generator s (Some id) (log [SetGeneratorKey sm (generator_name id)] (put_generator id {|
        state_machine_ := Some sm; viz_session_ := Some s;
        gen_attr_ := {| connects := u32 (connects (gen_attr_ g) + 1); connect_time := now;
                        resets := resets (gen_attr_ g); reset_time := reset_time (gen_attr_ g) |};
        disconnected_ := false; sm_defer_timer_ := Some false;
        sm_defer_timer_expiry_time_usec_ := sm_defer_timer_expiry_time_usec_ g;
        sm_defer_time_msec_ := sm_defer_time_msec_ g; statistics_ := statistics_ g |} c)))
  end.

Definition disconnected_generator (now : Z) (g : SandeshGenerator) : SandeshGenerator := {|
  state_machine_ := None; viz_session_ := None;
  gen_attr_ := {| connects := connects (gen_attr_ g); connect_time := connect_time (gen_attr_ g);
                  resets := u32 (resets (gen_attr_ g) + 1); reset_time := now |};
  disconnected_ := true; sm_defer_timer_ := None; sm_defer_timer_expiry_time_usec_ := 0;
  sm_defer_time_msec_ := 0; statistics_ := statistics_ g |}.
(** [SandeshGenerator::DisconnectSession].  The timer may refuse to be
    cancelled; the branch for another session names the generator's in the log. *)
Definition DisconnectSession_gen (logging : bool) (id : GeneratorId) (s : VizSession) (now : Z) (cancelled : bool)
    (c : Collector) : option Collector :=
  g ← gen_map_ c !! id;
  if bool_decide (viz_session_ g = Some s) then
    sm ← state_machine_ g;
    _ ← sm_defer_timer_ g;
    if cancelled then
      let g' := disconnected_generator now g in
      let '(source, module, instance, node_type) := id in
      Some (log [ResetQueueWaterMarkInfo sm; DeleteUVEs source module node_type instance;
                 SendModuleServerState (generator_name id) (gen_attr_ g')]
             (set_generator s None (put_generator id g' c)))
    else None
  else if logging then _ ← viz_session_ g; Some c else Some c.

(** ** Operations of the collector *)

(** [SandeshCtrlClientToServer]. *)
Record CtrlMsg := {
  snh_source : string; snh_module_name : string; snh_instance_id_name : string; snh_node_type_name : string
}.
Definition ctrl_id (m : CtrlMsg) : GeneratorId :=
  (snh_source m, snh_module_name m, snh_instance_id_name m, snh_node_type_name m).

(** [SandeshGenerator::ReceiveSandeshCtrlMsg]: the state machine gets the water
    marks of the collector. *)
Definition ReceiveSandeshCtrlMsg_gen (id : GeneratorId) (c : Collector) : option Collector :=
  g ← gen_map_ c !! id;
  let info := SendModuleServerState (generator_name id) (gen_attr_ g) in
  match sm_queue_wm_info_ c, state_machine_ g with
  | [], _ => Some (log [info] c)
  | l, Some sm => Some (log (info :: (SetQueueWaterMarkInfo sm <$> l)) c)
  | _, None => None
  end.

Section operations.
Context (logging : bool).

(** [Collector::ReceiveSandeshCtrlMsg] once the generator is found or made. *)
Definition answer_ctrl (id : GeneratorId) (s : VizSession) (reply : option (gmap string Z)) (later : Z)
    (cancelled : bool) (c : Collector) : option (Collector * bool) :=
  match reply with
  | Some seqReply =>
      c' ← ReceiveSandeshCtrlMsg_gen id (log [CtrlReply s ((λ e, (e.1, 0)) <$> entries seqReply)] c);
      Some (c', true)
  | None =>
      c' ← DisconnectSession_gen logging id s later cancelled (increment_error RedisFailed c);
      Some (c', false)
  end.
(** [Collector::ReceiveSandeshCtrlMsg].  The session and the message may be of
    another class; [reply] is what Redis says of the generator's types. *)
Definition ReceiveSandeshCtrlMsg (sm : SandeshStateMachine) (session : option VizSession) (sandesh : option CtrlMsg)
    (redis_init_done : bool) (reply : option (gmap string Z)) (now later : Z) (cancelled : bool) (c : Collector)
    : option (Collector * bool) :=
  match session with
  | None => Some (increment_error NoSession c, false)
  | Some vsession =>
  match sandesh with
  | None => Some (increment_error TypeMismatch c, false)
  | Some snh =>
    if (snh_instance_id_name snh =? EmptyString)%string then Some (c, false)
    else if (snh_node_type_name snh =? EmptyString)%string then Some (c, false)
    else if negb redis_init_done then Some (c, false)
    else
      let id := ctrl_id snh in
      match gen_map_ c !! id with
      | None =>
          answer_ctrl id vsession reply later cancelled
            (set_generator vsession (Some id) (log [SetGeneratorKey sm (generator_name id)]
              (put_generator id (SandeshGenerator_ctor vsession sm now) c)))
      | Some gen =>
          match viz_session_ gen with
          | None =>
              c' ← ConnectSession id gen vsession sm now c;
              answer_ctrl id vsession reply later cancelled (set_generator vsession (Some id) c')
          | Some gsession => Some (log [EnqueueClose gsession] (increment_error SessionMismatch c), false)
          end
      end
  end end.

(** [Collector::ReceiveResourceUpdate]: Redis is connected or lost. *)
Definition ReceiveResourceUpdate (session : option VizSession) (rsc : bool) (reply : option (gmap string Z))
    (now : Z) (cancelled : bool) (c : Collector) : option (Collector * bool) :=
  match session with
  | None => Some (increment_error NoSession c, false)
  | Some vsession =>
    match generator_of c !! vsession with
    | None => Some (increment_error NoGenerator c, false)
    | Some id =>
        if negb rsc then
          c' ← DisconnectSession_gen logging id vsession now cancelled c; Some (c', false)
        else
          match reply with
          | Some seqReply => _ ← gen_map_ c !! id; Some (log [CtrlReply vsession (entries seqReply)] c, true)
          | None =>
              c' ← DisconnectSession_gen logging id vsession now cancelled (increment_error RedisFailed c);
              Some (c', false)
          end
    end
  end.

(** [Collector::DisconnectSession], which asserts that there is a generator. *)
Definition DisconnectSession (session : option VizSession) (now : Z) (cancelled : bool) (c : Collector)
    : option Collector :=
  match session with
  | None => Some (increment_error NoSession c)
  | Some vsession =>
      id ← generator_of c !! vsession;
      DisconnectSession_gen logging id vsession now cancelled c
  end.
End operations.

Section messages.
Context `{SandeshTypes, CollectorSandeshTypes} (LevelToString : Z → string).

(** [Collector::ReceiveSandeshMsg] and [Generator::ReceiveSandeshMsg]: the message
    is counted and handed to the rule engine, which says whether it took it. *)
Definition ReceiveSandeshMsg (session : option VizSession) (msg : counted) (rsc handled : bool) (c : Collector)
    : option (Collector * bool) :=
  match session with
  | None => Some (increment_error NoSession c, false)
  | Some vsession =>
    match generator_of c !! vsession with
    | None => Some (increment_error NoGenerator c, false)
    | Some id =>
        c' ← on_generator id (λ g,
               Some (set_statistics (statistics_update LevelToString (statistics_ g) msg) g,
                     [ProcessSandeshMsg id msg rsc])) c;
        Some (c', handled)
    end
  end.
End messages.

(** [Collector::SendGeneratorStatistics]: the counters sent are cleared. *)
Definition send_statistics (e : GeneratorId * SandeshGenerator) : list call :=
  match viz_session_ e.2 with
  | Some _ => [SandeshMessageStat (generator_name e.1) (get_type_level (statistics_ e.2)).1]
  | None => []
  end.
Definition statistics_sent (g : SandeshGenerator) : SandeshGenerator :=
  match viz_session_ g with Some _ => set_statistics (get_type_level (statistics_ g)).2 g | None => g end.
Definition SendGeneratorStatistics (c : Collector) : Collector :=
  log (concat (send_statistics <$> generators c)) (set_generator_map (statistics_sent <$> gen_map_ c) c).

(** [Collector::RedisUpdate]; a session without a state machine is a null pointer. *)
Definition redis_update (rsc : bool) (e : GeneratorId * SandeshGenerator) : option (list call) :=
  match viz_session_ e.2 with
  | None => Some []
  | Some _ => sm ← state_machine_ e.2; Some [ResourceUpdate sm rsc]
  end.
Definition RedisUpdate (rsc : bool) (c : Collector) : option Collector :=
  l ← mapM (redis_update rsc) (generators c); Some (log (concat l) c).

(** [Collector::SetQueueWaterMarkInfo] with [SandeshGenerator::Set..]: the callback
    for the database is bound to the state machine, null or not. *)
Definition db_callback (wm : QueueWaterMarkInfo) (g : SandeshGenerator) : option (option SandeshStateMachine * bool) :=
  if wm_high wm && wm_defer wm then Some (state_machine_ g, true)
  else if negb (wm_high wm) && wm_defer wm then Some (state_machine_ g, false)
  else None.
Definition set_water_mark (type : QueueType) (wm : QueueWaterMarkInfo) (has_db : bool)
    (e : GeneratorId * SandeshGenerator) : list call :=
  match type with
  | Db => if has_db then [DbSetQueueWaterMark wm (db_callback wm e.2)] else []
  | Sm => match state_machine_ e.2 with Some sm => [SetQueueWaterMarkInfo sm wm] | None => [] end
  end.
Definition GetQueueWaterMarkInfo (type : QueueType) (c : Collector) : list QueueWaterMarkInfo :=
  match type with Db => db_queue_wm_info_ c | Sm => sm_queue_wm_info_ c end.
Definition Collector_SetQueueWaterMarkInfo (type : QueueType) (wm : QueueWaterMarkInfo) (c : Collector) : Collector :=
  set_marks type (GetQueueWaterMarkInfo type c ++ [wm])
    (log (concat (set_water_mark type wm (has_db_handler c) <$> generators c)) c).
Definition reset_water_marks (type : QueueType) (has_db : bool) (e : GeneratorId * SandeshGenerator) : list call :=
  match type with
  | Db => if has_db then [DbResetQueueWaterMarks] else []
  | Sm => match state_machine_ e.2 with Some sm => [ResetQueueWaterMarkInfo sm] | None => [] end
  end.
Definition Collector_ResetQueueWaterMarkInfo (type : QueueType) (c : Collector) : Collector :=
  set_marks type [] (log (concat (reset_water_marks type (has_db_handler c) <$> generators c)) c).

(** [Collector::CloseGeneratorSession]. *)
Definition CloseGeneratorSession (id : GeneratorId) (c : Collector) : Collector :=
  match gen_map_ c !! id with
  | Some g => match viz_session_ g with Some gsession => log [EnqueueClose gsession] c | None => c end
  | None => c
  end.

(** [Collector::SendRemote]: source, node type, module and instance, or stars. *)
Definition part_matches (dest part : string) : bool := (dest =? "*")%string || (part =? dest)%string.
Definition destination_matches (dest : list string) (id : GeneratorId) : bool :=
  let '(source, module, instance, node_type) := id in
  match dest with
  | [d0; d1; d2; d3] => part_matches d0 source && part_matches d1 node_type &&
                        part_matches d2 module && part_matches d3 instance
  | _ => false
  end.
Definition send_to (dec_sandesh : string) (c : Collector) (e : GeneratorId * SandeshGenerator) : Collector :=
  match viz_session_ e.2 with
  | Some session => log [EnqueueBuffer session dec_sandesh] c
  | None => increment_error NoSession c
  end.
Definition SendRemote (destination dec_sandesh : string) (c : Collector) : Collector * bool :=
  let dest := split_compressed ":" destination in
  if negb (length dest =? 4)%nat then (c, false)
  else (foldl (send_to dec_sandesh) c (List.filter (λ e, destination_matches dest e.1) (generators c)), true).

(** What the state machine of a session tells about itself. *)
Class StateMachineStatus := { StateName : SandeshStateMachine → string; GetQueueCount : SandeshStateMachine → option Z }.
Record GeneratorSummaryInfo := {
  gs_id : GeneratorId; gs_state : string; gs_sm_queue_count : option Z; gs_sm_defer : bool; gs_sm_defer_time_msec : Z
}.
Definition State `{StateMachineStatus} (g : SandeshGenerator) : string :=
  match state_machine_ g with Some sm => StateName sm | None => "Disconnected" end.
Definition GetSandeshStateMachineQueueCount `{StateMachineStatus} (g : SandeshGenerator) : option Z :=
  match state_machine_ g with Some sm => GetQueueCount sm | None => Some 0 end.
(** [Collector::GetGeneratorSummaryInfo]. *)
Definition summary_of `{StateMachineStatus} (e : GeneratorId * SandeshGenerator) : option GeneratorSummaryInfo :=
  if resets (gen_attr_ e.2) <? connects (gen_attr_ e.2) then
    Some {| gs_id := e.1; gs_state := State e.2; gs_sm_queue_count := GetSandeshStateMachineQueueCount e.2;
            gs_sm_defer := IsStateMachineDeferTimerRunning e.2; gs_sm_defer_time_msec := sm_defer_time_msec_ e.2 |}
  else None.
Definition GetGeneratorSummaryInfo `{StateMachineStatus} (c : Collector) : list GeneratorSummaryInfo :=
  omap summary_of (generators c).

(** ** The steps of the collector *)

(** What other components do to it. *)
Inductive event :=
  | EvCtrlMsg (sm : SandeshStateMachine) (s : option VizSession) (m : option CtrlMsg) (redis_init_done : bool)
      (reply : option (gmap string Z)) (now later : Z) (cancelled : bool)
  | EvResource (s : option VizSession) (rsc : bool) (reply : option (gmap string Z)) (now : Z) (cancelled : bool)
  | EvMsg (s : option VizSession) (m : counted) (rsc handled : bool)
  | EvDisconnect (s : option VizSession) (now : Z) (cancelled : bool)
  | EvDbResult (id : GeneratorId) (back_pressure : bool) (now : Z)
  | EvTimer (id : GeneratorId) (now : Z)
  | EvStatistics
  | EvRedis (rsc : bool)
  | EvSetMark (type : QueueType) (wm : QueueWaterMarkInfo)
  | EvResetMarks (type : QueueType)
  | EvClose (id : GeneratorId)
  | EvSendRemote (destination dec_sandesh : string).

Section steps.
Context `{SandeshTypes, CollectorSandeshTypes} (LevelToString : Z → string) (logging : bool).

Definition collector_step (e : event) (c : Collector) : option Collector :=
  match e with
  | EvCtrlMsg sm s m init reply now later cancelled =>
      fst <$> ReceiveSandeshCtrlMsg logging sm s m init reply now later cancelled c
  | EvResource s rsc reply now cancelled => fst <$> ReceiveResourceUpdate logging s rsc reply now cancelled c
  | EvMsg s m rsc handled => fst <$> ReceiveSandeshMsg LevelToString s m rsc handled c
  | EvDisconnect s now cancelled => DisconnectSession logging s now cancelled c
  | EvDbResult id back now => on_generator id (ProcessRulesCb back now) c
  | EvTimer id now => on_generator id (StateMachineDeferTimerExpired now) c
  | EvStatistics => Some (SendGeneratorStatistics c)
  | EvRedis rsc => RedisUpdate rsc c
  | EvSetMark type wm => Some (Collector_SetQueueWaterMarkInfo type wm c)
  | EvResetMarks type => Some (Collector_ResetQueueWaterMarkInfo type c)
  | EvClose id => Some (CloseGeneratorSession id c)
  | EvSendRemote destination text => Some (SendRemote destination text c).1
  end.

Definition uses (g : SandeshGenerator) (sm : SandeshStateMachine) : Prop := state_machine_ g = Some sm.
(** A control message comes on a session that has not introduced itself, with a state
    machine of its own. *)
Definition fresh (e : event) (c : Collector) : Prop :=
  match e with
  | EvCtrlMsg sm (Some s) _ _ _ _ _ _ =>
      generator_of c !! s = None ∧ map_Forall (λ _ g, ~ uses g sm) (gen_map_ c)
  | _ => True
  end.
Fixpoint run (l : list event) (c : Collector) : option Collector :=
  match l with [] => Some c | e :: l' => collector_step e c ≫= run l' end.
Fixpoint fresh_run (l : list event) (c : Collector) : Prop :=
  match l with
  | [] => True
  | e :: l' => fresh e c ∧ match collector_step e c with Some c' => fresh_run l' c' | None => True end
  end.

#[export] Instance fresh_dec e c : Decision (fresh e c).
Proof.
  destruct e as [sm [s|]| | | | | | | | | | |]; simpl; try (by left). unfold uses.
  apply and_dec; [apply _|]. apply map_Forall_dec. intros ??. apply not_dec, _.
Defined.
#[export] Instance fresh_run_dec l c : Decision (fresh_run l c).
Proof. revert c. induction l as [|e l IH]; intros c; simpl; [by left|]. apply and_dec; [apply _|]. destruct (collector_step e c); [apply IH|by left]. Defined.

(** ** The invariant *)

(** The water marks a state machine has after some calls. *)
Definition mark_call (sm : SandeshStateMachine) (l : list QueueWaterMarkInfo) (k : call) : list QueueWaterMarkInfo :=
  match k with
  | SetQueueWaterMarkInfo sm' wm => if decide (sm' = sm) then l ++ [wm] else l
  | ResetQueueWaterMarkInfo sm' => if decide (sm' = sm) then [] else l
  | _ => l
  end.
Definition marks (sm : SandeshStateMachine) (l : list call) : list QueueWaterMarkInfo := foldl (mark_call sm) [] l.
Definition neutral (k : call) : bool :=
  match k with SetQueueWaterMarkInfo _ _ | ResetQueueWaterMarkInfo _ => false | _ => true end.

(** A generator is connected, with everything it needs, or it is not. *)
Record generator_ok (g : SandeshGenerator) : Prop := {
  go_status : match viz_session_ g with
              | Some _ => is_Some (state_machine_ g) ∧ is_Some (sm_defer_timer_ g) ∧ disconnected_ g = false ∧
                          connects (gen_attr_ g) = u32 (resets (gen_attr_ g) + 1)
              | None => state_machine_ g = None ∧ sm_defer_timer_ g = None ∧ disconnected_ g = true ∧
                        connects (gen_attr_ g) = resets (gen_attr_ g)
              end;
  go_defer : sm_defer_time_msec_ g = 0 ∨ kInitialSmDeferTimeMSec <= sm_defer_time_msec_ g <= kMaxSmDeferTimeMSec
}.

(** [x] is a state machine that has not got its water marks yet. *)
Record wf_but (x : option SandeshStateMachine) (c : Collector) : Prop := {
  wf_ok : map_Forall (λ _, generator_ok) (gen_map_ c);
  wf_link s id : generator_of c !! s = Some id ↔ ∃ g, gen_map_ c !! id = Some g ∧ viz_session_ g = Some s;
  wf_machines id id' g g' sm : gen_map_ c !! id = Some g → gen_map_ c !! id' = Some g' →
    uses g sm → uses g' sm → id = id';
  wf_marked id g sm : gen_map_ c !! id = Some g → uses g sm →
    marks sm (calls c) = if decide (x = Some sm) then [] else sm_queue_wm_info_ c;
  wf_unmarked sm : map_Forall (λ _ g, ~ uses g sm) (gen_map_ c) → marks sm (calls c) = []
}.
Abbreviation wf := (wf_but None).

Lemma marks_app sm l l' : marks sm (l ++ l') = foldl (mark_call sm) (marks sm l) l'.
Proof. apply foldl_app. Qed.
Lemma neutral_marks sm l ms : Forall (λ k, neutral k = true) l → foldl (mark_call sm) ms l = ms.
Proof. intros Hl. revert ms. induction Hl as [|k l Hk Hl IH]; intros ms; [done|]. simpl. rewrite IH. by destruct k. Qed.

Lemma wf_log x l c : Forall (λ k, neutral k = true) l → wf_but x c → wf_but x (log l c).
Proof.
  intros Hl [H1 H2 H3 H4 H5]. split; simpl; try done; intros; rewrite marks_app, neutral_marks by done; eauto.
Qed.
Lemma wf_error x e c : wf_but x c → wf_but x (increment_error e c).
Proof. by intros []. Qed.

(** Changing what a generator is not identified by. *)
Definition same_link (g g' : SandeshGenerator) : Prop :=
  viz_session_ g' = viz_session_ g ∧ state_machine_ g' = state_machine_ g.
Lemma wf_map x m c : (∀ id g', m !! id = Some g' → ∃ g, gen_map_ c !! id = Some g ∧ same_link g g' ∧ generator_ok g') →
  (∀ id g, gen_map_ c !! id = Some g → is_Some (m !! id)) → wf_but x c → wf_but x (set_generator_map m c).
Proof.
  intros Hm Hd [H1 H2 H3 H4 H5].
  assert (∀ id g, gen_map_ c !! id = Some g → ∃ g', m !! id = Some g' ∧ same_link g g') as Hm'.
  { intros id g Hg. destruct (Hd id g Hg) as [g' Hg']. destruct (Hm id g' Hg') as (? & ? & ? & ?). simplify_eq. eauto. }
  split; simpl; unfold uses.
  - intros id g' (? & _ & _ & ?)%Hm. done.
  - intros s id. rewrite H2. split.
    + intros (g & Hg & Hs). destruct (Hm' id g Hg) as (g' & Hg' & E & _). exists g'. by rewrite E.
    + intros (g' & Hg' & Hs). destruct (Hm id g' Hg') as (g & Hg & (E & _) & _). exists g. by rewrite <- E.
  - intros id id' g g' sm Hg Hg'. destruct (Hm id g Hg) as (g0 & Hg0 & (_ & ->) & _).
    destruct (Hm id' g' Hg') as (g1 & Hg1 & (_ & ->) & _). by eapply H3.
  - intros id g sm Hg. destruct (Hm id g Hg) as (g0 & Hg0 & (_ & ->) & _). by eapply H4.
  - intros sm Hn. apply H5. intros id g Hg. destruct (Hm' id g Hg) as (g' & Hg' & _ & E). unfold uses. rewrite <- E. exact (Hn id g' Hg').
Qed.

Lemma wf_put x id g g' c : gen_map_ c !! id = Some g → same_link g g' → generator_ok g' →
  wf_but x c → wf_but x (put_generator id g' c).
Proof.
  intros Hg Hl Hok Hwf. apply wf_map; [..|done].
  - intros id' g'' E. destruct (decide (id' = id)) as [->|Hne].
    + rewrite lookup_insert_eq in E. injection E as <-. eauto.
    + rewrite lookup_insert_ne in E by done. exists g''. split_and!; [done|done|exact (wf_ok x c Hwf id' g'' E)].
  - intros id' g'' E. destruct (decide (id' = id)) as [->|Hne]; [rewrite lookup_insert_eq|rewrite lookup_insert_ne by done]; eauto.
Qed.

(** A session without a generator is bound to one that has none. *)
Definition unbound (id : GeneratorId) (c : Collector) : Prop :=
  ∀ g, gen_map_ c !! id = Some g → viz_session_ g = None ∧ state_machine_ g = None.

Lemma wf_connect id s sm g' l c : wf c → unbound id c → generator_of c !! s = None →
  map_Forall (λ _ g, ~ uses g sm) (gen_map_ c) → Forall (λ k, neutral k = true) l →
  viz_session_ g' = Some s → uses g' sm → generator_ok g' →
  wf_but (Some sm) (set_generator s (Some id) (log l (put_generator id g' c))).
Proof.
  intros [H1 H2 H3 H4 H5] Hid Hs Hsm Hl Es Em Hok. unfold uses in *. split; simpl.
  - by apply map_Forall_insert_2.
  - intros s' id'. destruct (decide (s' = s)) as [->|Hne].
    + rewrite lookup_partial_alter_eq. split.
      * intros [= <-]. exists g'. by rewrite lookup_insert_eq.
      * intros (g & Hg & E). destruct (decide (id' = id)) as [->|Hni]; [done|].
        rewrite lookup_insert_ne in Hg by done. assert (generator_of c !! s = Some id') by (apply H2; eauto). congruence.
    + rewrite lookup_partial_alter_ne, H2 by done. destruct (decide (id' = id)) as [->|Hni].
      * rewrite lookup_insert_eq. split; [intros (g & Hg & E); destruct (Hid g Hg); congruence|].
        intros (g & [= <-] & E). congruence.
      * by rewrite lookup_insert_ne.
  - intros id1 id2 g1 g2 sm'. rewrite !lookup_insert_Some. intros [[<- <-]|[? E1]] [[<- <-]|[? E2]] U1 U2; [done|..].
    + destruct (Hsm _ _ E2). congruence.
    + destruct (Hsm _ _ E1). congruence.
    + by eapply H3.
  - intros id' g sm'. rewrite lookup_insert_Some, marks_app, neutral_marks by done.
    intros [[<- <-]|[? E]] U.
    + rewrite H5 by (by replace sm' with sm by congruence). by rewrite decide_True by congruence.
    + rewrite decide_False; [by eapply (H4 _ _ _ E)|]. intros [= ->]. by destruct (Hsm _ _ E).
  - intros sm' Hn. rewrite marks_app, neutral_marks by done. apply H5. intros id' g Hg.
    destruct (decide (id' = id)) as [->|Hni]; [destruct (Hid g Hg); congruence|].
    apply (Hn id'). by rewrite lookup_insert_ne.
Qed.

Lemma marks_reset sm sm' l rest : Forall (λ k, neutral k = true) rest →
  marks sm' (l ++ ResetQueueWaterMarkInfo sm :: rest) = if decide (sm = sm') then [] else marks sm' l.
Proof. intros Hr. rewrite marks_app. simpl. rewrite neutral_marks by done. done. Qed.

Lemma wf_disconnect x id s sm g g' rest c : wf_but x c → gen_map_ c !! id = Some g → viz_session_ g = Some s →
  uses g sm → x = None ∨ x = Some sm → viz_session_ g' = None → state_machine_ g' = None → generator_ok g' →
  Forall (λ k, neutral k = true) rest →
  wf (log (ResetQueueWaterMarkInfo sm :: rest) (set_generator s None (put_generator id g' c))).
Proof.
  intros [H1 H2 H3 H4 H5] Hg Es Em Hx Es' Em' Hok Hr. unfold uses in *.
  assert (generator_of c !! s = Some id) as Hs by (apply H2; eauto). split; simpl.
  - by apply map_Forall_insert_2.
  - intros s' id'. destruct (decide (s' = s)) as [->|Hne].
    + rewrite lookup_partial_alter_eq. split; [done|]. intros (g1 & Hg1 & E).
      apply lookup_insert_Some in Hg1 as [[<- <-]|[Hni Hg1]]; [congruence|].
      assert (generator_of c !! s = Some id') by (apply H2; eauto). congruence.
    + rewrite lookup_partial_alter_ne, H2 by done. split; intros (g1 & Hg1 & E).
      * exists g1. split; [|done]. rewrite lookup_insert_ne; [done|]. intros <-. congruence.
      * apply lookup_insert_Some in Hg1 as [[<- <-]|[Hni Hg1]]; [congruence|eauto].
  - intros id1 id2 g1 g2 sm'. rewrite !lookup_insert_Some.
    intros [[<- <-]|[? E1]] [[<- <-]|[? E2]] U1 U2; try congruence. by eapply H3.
  - intros id' g1 sm'. rewrite lookup_insert_Some, marks_reset by done. intros [[<- <-]|[? E]] U; [congruence|].
    rewrite decide_False by (intros <-; by destruct (H3 id id' g g1 sm)).
    rewrite (H4 _ _ _ E U), decide_False; [done|]. intros ->. destruct Hx as [|[= ->]]; [done|].
    by destruct (H3 id id' g g1 sm).
  - intros sm' Hn. rewrite marks_reset by done. destruct (decide (sm = sm')) as [->|Hne]; [done|].
    apply H5. intros id' g1 Hg1. destruct (decide (id' = id)) as [->|Hni]; [congruence|].
    apply (Hn id'). by rewrite lookup_insert_ne.
Qed.

(** Disconnecting never dereferences a null pointer: it fails when the timer
    cannot be cancelled. *)
Lemma disconnect_spec x id s g now cancelled c : wf_but x c → gen_map_ c !! id = Some g → viz_session_ g = Some s →
  (∀ sm, x = Some sm → uses g sm) →
  match DisconnectSession_gen logging id s now cancelled c with
  | Some c' => cancelled = true ∧ wf c'
  | None => cancelled = false
  end.
Proof.
  intros Hwf Hg Es Hx. unfold DisconnectSession_gen. rewrite Hg. simpl. rewrite bool_decide_eq_true_2 by done.
  pose proof (wf_ok x c Hwf id g Hg) as [Hok Hd]. rewrite Es in Hok. destruct Hok as ([sm Em] & [b Et] & Ed & Ec).
  rewrite Em, Et. simpl. destruct cancelled; [|done]. destruct id as [[[source module] instance] node_type].
  split; [done|]. eapply wf_disconnect; try done.
  - destruct x as [sm'|]; [right|by left]. f_equal. specialize (Hx sm' eq_refl). unfold uses in Hx. congruence.
  - split; simpl; [|by left]. split_and!; [done..|by rewrite Ec].
  - by repeat constructor.
Qed.

Lemma marks_set_list sm sm' l ms :
  foldl (mark_call sm') ms (SetQueueWaterMarkInfo sm <$> l) = if decide (sm = sm') then ms ++ l else ms.
Proof.
  revert ms. induction l as [|w l IH]; intros ms; simpl; [by case_decide; rewrite ?app_nil_r|].
  rewrite IH. case_decide; [by rewrite <- (assoc_L (++))|done].
Qed.

(** A new state machine gets the water marks of the collector. *)
Lemma wf_gets_marks sm k c : wf_but (Some sm) c → neutral k = true → (∃ id g, gen_map_ c !! id = Some g ∧ uses g sm) →
  wf (log (k :: (SetQueueWaterMarkInfo sm <$> sm_queue_wm_info_ c)) c).
Proof.
  intros [H1 H2 H3 H4 H5] Hk (id0 & g0 & Hg0 & U0).
  assert (∀ sm', marks sm' (calls c ++ k :: (SetQueueWaterMarkInfo sm <$> sm_queue_wm_info_ c)) =
    if decide (sm = sm') then marks sm' (calls c) ++ sm_queue_wm_info_ c else marks sm' (calls c)) as Hm.
  { intros sm'. rewrite marks_app. simpl. rewrite marks_set_list. by destruct k. }
  split; simpl; try done.
  - intros id g sm' Hg U. rewrite Hm, (H4 _ _ _ Hg U). case_decide as E; [by rewrite decide_True by congruence|].
    by rewrite decide_False by congruence.
  - intros sm' Hn. rewrite Hm, H5 by done. rewrite decide_False; [done|]. intros <-. by apply (Hn id0 g0).
Qed.

Lemma answer_spec id s sm g reply later cancelled c : wf_but (Some sm) c → gen_map_ c !! id = Some g →
  viz_session_ g = Some s → uses g sm →
  match answer_ctrl logging id s reply later cancelled c with
  | Some (c', b) => wf c' ∧ bool_decide (reply = None) && negb cancelled = false
  | None => bool_decide (reply = None) && negb cancelled = true
  end.
Proof.
  intros Hwf Hg Es Em. unfold answer_ctrl. destruct reply as [r|].
  - unfold ReceiveSandeshCtrlMsg_gen. simpl. rewrite Hg. simpl. unfold uses in Em. rewrite Em.
    assert (wf (log (SendModuleServerState (generator_name id) (gen_attr_ g) ::
      (SetQueueWaterMarkInfo sm <$> sm_queue_wm_info_ c)) (log [CtrlReply s ((λ e, (e.1, 0)) <$> entries r)] c))) as Hw.
    { apply (wf_gets_marks sm _ (log _ c)); [by apply wf_log; [repeat constructor|]|done|by exists id, g]. }
    destruct (sm_queue_wm_info_ c); (split; [exact Hw|done]).
  - assert (wf_but (Some sm) (increment_error RedisFailed c)) as Hwf' by by apply wf_error.
    generalize (disconnect_spec (Some sm) id s g later cancelled _ Hwf' Hg Es (λ sm' E, eq_trans Em E)).
    destruct (DisconnectSession_gen _ _ _ _ _ _) as [c'|]; simpl; [by intros [-> ?]|by intros ->].
Qed.

(** What all the generators' state machines are told. *)
Definition machines (c : Collector) : list SandeshStateMachine := omap (λ e, state_machine_ e.2) (generators c).
Lemma elem_of_generators c id g : (id, g) ∈ generators c ↔ gen_map_ c !! id = Some g.
Proof. unfold generators. rewrite <- insertion_sort_perm. apply elem_of_map_to_list. Qed.
Lemma elem_of_machines c sm : sm ∈ machines c ↔ ∃ id g, gen_map_ c !! id = Some g ∧ uses g sm.
Proof.
  unfold machines. rewrite list_elem_of_omap. split.
  - intros ([id g] & Hin%elem_of_generators & U). eauto.
  - intros (id & g & Hg%elem_of_generators & U). by exists (id, g).
Qed.
Lemma machines_NoDup x c : wf_but x c → NoDup (machines c).
Proof.
  intros Hwf. unfold machines.
  assert (NoDup (generators c).*1) as Hnd.
  { unfold generators. rewrite <- insertion_sort_perm. apply NoDup_fst_map_to_list. }
  assert (∀ e, e ∈ generators c → gen_map_ c !! e.1 = Some e.2) as Hin by (intros [id g]; apply elem_of_generators).
  induction (generators c) as [|e l IH]; simpl; [constructor|]. inversion_clear Hnd as [|?? Hni Hnd'].
  assert (NoDup (omap (λ e, state_machine_ e.2) l)) as Hl by (apply IH; [done|intros; apply Hin; by right]).
  destruct (state_machine_ e.2) as [sm|] eqn:Em; [|done]. constructor; [|done].
  intros (e' & He' & Em')%list_elem_of_omap. apply Hni, list_elem_of_fmap. exists e'. split; [|done].
  eapply (wf_machines x c Hwf); [apply Hin; by left|apply Hin; by right|exact Em|exact Em'].
Qed.

Lemma concat_machines (f : GeneratorId * SandeshGenerator → list call) k l :
  (∀ e, f e = match state_machine_ e.2 with Some sm => [k sm] | None => [] end) →
  concat (f <$> l) = k <$> omap (λ e, state_machine_ e.2) l.
Proof.
  intros Hf. induction l as [|e l IH]; [done|].
  change (concat (f <$> e :: l)) with (f e ++ concat (f <$> l)). rewrite Hf, IH. simpl. by destruct (state_machine_ e.2).
Qed.

(** A call to every state machine, each once. *)
Lemma marks_all sm k (f : list QueueWaterMarkInfo → list QueueWaterMarkInfo) ms l : NoDup l →
  (∀ sm' ms, mark_call sm ms (k sm') = if decide (sm' = sm) then f ms else ms) →
  foldl (mark_call sm) ms (k <$> l) = if decide (sm ∈ l) then f ms else ms.
Proof.
  intros Hnd Hk. revert ms. induction Hnd as [|sm' l Hni Hnd IH]; intros ms.
  { rewrite decide_False; [done|]. by intros ?%elem_of_nil. }
  change (foldl _ ms (k <$> sm' :: l)) with (foldl (mark_call sm) (mark_call sm ms (k sm')) (k <$> l)). rewrite IH, Hk. destruct (decide (sm' = sm)) as [->|Hne].
  - rewrite (decide_False (P := sm ∈ l)) by done. by rewrite decide_True by left.
  - destruct (decide (sm ∈ l)); [by rewrite decide_True by by right|]. rewrite decide_False; [done|]. set_solver.
Qed.

Lemma wf_all_marks k (f : list QueueWaterMarkInfo → list QueueWaterMarkInfo) c : wf c →
  (∀ sm sm' ms, mark_call sm ms (k sm') = if decide (sm' = sm) then f ms else ms) →
  wf (set_marks Sm (f (sm_queue_wm_info_ c)) (log (k <$> machines c) c)).
Proof.
  intros Hwf Hk. pose proof (machines_NoDup _ _ Hwf) as Hnd. destruct Hwf as [H1 H2 H3 H4 H5].
  split; simpl; try done.
  - intros id g sm Hg U. rewrite marks_app, (marks_all _ _ f) by done.
    rewrite decide_True by (apply elem_of_machines; eauto). by rewrite (H4 _ _ _ Hg U).
  - intros sm Hn. rewrite marks_app, (marks_all _ _ f) by done.
    rewrite decide_False; [by apply H5|]. intros (id & g & Hg & U)%elem_of_machines. by apply (Hn id g).
Qed.

(** *** Every step keeps it *)

(** The delay after a delay [d], in milliseconds, when the database pushes back
    [since] microseconds after its end. *)
Definition next_delay (d since : Z) : Z :=
  if since <=? 2000 * d then Z.min (2 * d) kMaxSmDeferTimeMSec
  else if since <=? 4000 * d then d else kInitialSmDeferTimeMSec.

Lemma GetDeferTimeMSec_spec now expiry d : kInitialSmDeferTimeMSec <= d <= kMaxSmDeferTimeMSec →
  GetDeferTimeMSec now expiry (u64 (i32 (d * 1000))) =
  if expiry =? 0 then Some kInitialSmDeferTimeMSec
  else if expiry <=? now then Some (next_delay d (u64 (now - expiry))) else None.
Proof.
  unfold kInitialSmDeferTimeMSec, kMaxSmDeferTimeMSec. intros Hd.
  assert (u64 (i32 (d * 1000)) = d * 1000) as ->.
  { unfold i32. rewrite Z.mod_small by lia. rewrite u64_small by (unfold is_u64; lia). lia. }
  unfold GetDeferTimeMSec, next_delay, kInitialSmDeferTimeMSec, kMaxSmDeferTimeMSec.
  destruct (Z.eqb_spec (d * 1000) 0); [lia|]. simpl. destruct (Z.eqb_spec expiry 0); [done|].
  destruct (expiry <=? now); [|done]. simpl. set (since := u64 (now - expiry)).
  rewrite (u64_small (2 * (d * 1000))), (u64_small (4 * (d * 1000))) by (unfold is_u64; lia).
  replace (2 * (d * 1000)) with (2000 * d) by lia. replace (4 * (d * 1000)) with (4000 * d) by lia.
  destruct (Z.leb_spec since (2000 * d)).
  - replace (2000 * d) with (2 * d * 1000) by lia. rewrite Z.div_mul by done.
    unfold i32. rewrite Z.mod_small by lia. f_equal. lia.
  - destruct (Z.leb_spec (2000 * d) since); [|lia]. simpl. destruct (since <=? 4000 * d); [|done].
    rewrite Z.div_mul by done. unfold i32. rewrite Z.mod_small by lia. f_equal. lia.
Qed.
Lemma next_delay_bounds d since : kInitialSmDeferTimeMSec <= d <= kMaxSmDeferTimeMSec →
  kInitialSmDeferTimeMSec <= next_delay d since <= kMaxSmDeferTimeMSec.
Proof. unfold next_delay, kInitialSmDeferTimeMSec, kMaxSmDeferTimeMSec. intros. repeat case_match; lia. Qed.

(** When a step fails an assertion. *)
Definition aborts (e : event) (c : Collector) : bool :=
  match e with
  | EvCtrlMsg _ (Some _) (Some m) init reply _ _ cancelled =>
      negb (snh_instance_id_name m =? EmptyString)%string && negb (snh_node_type_name m =? EmptyString)%string && init &&
      match gen_map_ c !! ctrl_id m with
      | Some g => match viz_session_ g with Some _ => false | None => true end
      | None => true
      end && bool_decide (reply = None) && negb cancelled
  | EvResource (Some s) rsc reply _ cancelled =>
      bool_decide (is_Some (generator_of c !! s)) && (negb rsc || bool_decide (reply = None)) && negb cancelled
  | EvDisconnect (Some s) _ cancelled => bool_decide (generator_of c !! s = None) || negb cancelled
  | EvDbResult id back now =>
      match gen_map_ c !! id with
      | None => true
      | Some g => back && bool_decide (is_Some (viz_session_ g)) && negb (IsStateMachineDeferTimerRunning g) &&
                  negb (sm_defer_time_msec_ g =? 0) && negb (sm_defer_timer_expiry_time_usec_ g =? 0) &&
                  (now <? sm_defer_timer_expiry_time_usec_ g)
      end
  | EvTimer id _ => bool_decide (gen_map_ c !! id = None)
  | _ => false
  end.
Definition stepped (e : event) (c : Collector) (o : option Collector) : Prop :=
  match o with Some c' => wf c' ∧ aborts e c = false | None => aborts e c = true end.

(** A session that is bound to a generator is answered. *)
Lemma stepped_bind id s sm g' reply later cancelled c : wf c → unbound id c → generator_of c !! s = None →
  map_Forall (λ _ g, ~ uses g sm) (gen_map_ c) → viz_session_ g' = Some s → uses g' sm → generator_ok g' →
  match answer_ctrl logging id s reply later cancelled
          (set_generator s (Some id) (log [SetGeneratorKey sm (generator_name id)] (put_generator id g' c))) with
  | Some (c', b) => wf c' ∧ bool_decide (reply = None) && negb cancelled = false
  | None => bool_decide (reply = None) && negb cancelled = true
  end.
Proof.
  intros Hwf Hid Hs Hsm Es Em Hok. apply (answer_spec id s sm g'); [|simpl; apply lookup_insert_eq|done|done].
  by apply wf_connect; [..|repeat constructor| | |].
Qed.

Lemma set_generator_twice s x c : set_generator s x (set_generator s x c) = set_generator s x c.
Proof.
  unfold set_generator. simpl. f_equal. apply map_eq. intros s'.
  destruct (decide (s' = s)) as [->|]; by rewrite ?lookup_partial_alter_eq, ?lookup_partial_alter_ne by done.
Qed.

Lemma stepped_ctrl sm s m init reply now later cancelled c (e := EvCtrlMsg sm s m init reply now later cancelled) :
  wf c → fresh e c → stepped e c (collector_step e c).
Proof.
  intros Hwf Hfresh. destruct s as [s|]; [|split; [by apply wf_error|done]].
  destruct m as [m|]; [|split; [by apply wf_error|done]]. destruct Hfresh as [Hs Hsm].
  unfold stepped. simpl. destruct (snh_instance_id_name m =? EmptyString)%string; [done|].
  destruct (snh_node_type_name m =? EmptyString)%string; [done|]. destruct init; [|done]. simpl.
  set (id := ctrl_id m). destruct (gen_map_ c !! id) as [g|] eqn:Eg.
  - pose proof (wf_ok _ _ Hwf id g Eg) as [Hok Hd]. destruct (viz_session_ g) as [gs|] eqn:Egs.
    { split; [|done]. by apply wf_log; [repeat constructor|apply wf_error]. }
    destruct Hok as (Em & Et & _ & Ec). unfold ConnectSession. rewrite Et. simpl. rewrite set_generator_twice.
    match goal with |- context [put_generator id ?g' c] =>
      assert (generator_ok g') as Hok by (split; [simpl; rewrite Ec; eauto|done]);
      generalize (stepped_bind id s sm g' reply later cancelled c Hwf ltac:(intros ??; simplify_eq; done) Hs Hsm eq_refl eq_refl Hok)
    end.
    destruct (answer_ctrl _ _ _ _ _ _ _) as [[c' b]|]; done.
  - assert (generator_ok (SandeshGenerator_ctor s sm now)) as Hok by (split; [simpl; eauto|by left]).
    generalize (stepped_bind id s sm (SandeshGenerator_ctor s sm now) reply later cancelled c Hwf ltac:(intros ??; simplify_eq) Hs Hsm eq_refl eq_refl Hok).
    destruct (answer_ctrl _ _ _ _ _ _ _) as [[c' b]|]; done.
Qed.

Lemma stepped_disconnect x id s now cancelled c : wf_but x c → generator_of c !! s = Some id → x = None →
  match DisconnectSession_gen logging id s now cancelled c with
  | Some c' => cancelled = true ∧ wf c' | None => cancelled = false end.
Proof.
  intros Hwf Hs ->. apply (wf_link _ _ Hwf) in Hs as (g & Hg & Es). by eapply disconnect_spec.
Qed.

Lemma stepped_resource s rsc reply now cancelled c (e := EvResource s rsc reply now cancelled) :
  wf c → stepped e c (collector_step e c).
Proof.
  intros Hwf. destruct s as [s|]; [|split; [by apply wf_error|done]]. unfold stepped. simpl.
  destruct (generator_of c !! s) as [id|] eqn:Es; [|split; [by apply wf_error|done]]. simpl.
  destruct (proj1 (wf_link _ _ Hwf s id) Es) as (g & Hg & Egs). destruct rsc; simpl.
  - destruct reply as [r|]; simpl; [rewrite Hg; split; [by apply wf_log; [repeat constructor|]|done]|].
    generalize (stepped_disconnect None id s now cancelled (increment_error RedisFailed c)
      ltac:(by apply wf_error) Es eq_refl).
    destruct (DisconnectSession_gen _ _ _ _ _ _); simpl; [by intros [-> ?]|by intros ->].
  - generalize (stepped_disconnect None id s now cancelled c Hwf Es eq_refl).
    destruct (DisconnectSession_gen _ _ _ _ _ _); simpl; [by intros [-> ?]|by intros ->].
Qed.

Lemma on_generator_ok id f c : wf c →
  (∀ g g' l, gen_map_ c !! id = Some g → f g = Some (g', l) →
     same_link g g' ∧ generator_ok g' ∧ Forall (λ k, neutral k = true) l) →
  match on_generator id f c with Some c' => wf c' | None => gen_map_ c !! id ≫= f = None end.
Proof.
  intros Hwf Hf. unfold on_generator. destruct (gen_map_ c !! id) as [g|] eqn:Eg; [|done]. simpl.
  destruct (f g) as [[g' l]|] eqn:Ef; [|done]. simpl. destruct (Hf g g' l eq_refl Ef) as (Hl & Hok & Hn).
  apply wf_log; [done|]. by eapply wf_put.
Qed.

Lemma ProcessRulesCb_spec back now g g' l : generator_ok g → ProcessRulesCb back now g = Some (g', l) →
  same_link g g' ∧ generator_ok g' ∧ Forall (λ k, neutral k = true) l.
Proof.
  intros Hg E. pose proof Hg as [Hok Hd]. unfold ProcessRulesCb in E.
  destruct back; [|by injection E as <- <-].
  destruct (state_machine_ g) as [sm|] eqn:Em; [|by injection E as <- <-].
  destruct (IsStateMachineDeferTimerRunning g); [by injection E as <- <-|].
  apply bind_Some in E as (d & Ed & E). apply bind_Some in E as (b & Eb & E). injection E as <- <-.
  split_and!; [by split; simpl; rewrite ?Em| |by repeat constructor]. split; simpl.
  - destruct (viz_session_ g); [|by destruct Hok as (? & _); congruence]. destruct Hok as (_ & _ & ? & ?). eauto.
  - right. destruct Hd as [H0'|Hd].
    + rewrite H0' in Ed. simpl in Ed. injection Ed as <-. vm_compute; split; congruence.
    + rewrite GetDeferTimeMSec_spec in Ed by done. destruct (_ =? 0); [injection Ed as <-; vm_compute; split; congruence|].
      destruct (_ <=? _); [|done]. injection Ed as <-. by apply next_delay_bounds.
Qed.

Lemma ProcessRulesCb_fails back now g : generator_ok g → ProcessRulesCb back now g = None ↔
  back && bool_decide (is_Some (viz_session_ g)) && negb (IsStateMachineDeferTimerRunning g) &&
  negb (sm_defer_time_msec_ g =? 0) && negb (sm_defer_timer_expiry_time_usec_ g =? 0) &&
  (now <? sm_defer_timer_expiry_time_usec_ g) = true.
Proof.
  intros [Hok Hd]. unfold ProcessRulesCb. destruct back; [|done]. simpl.
  destruct (viz_session_ g); [|destruct Hok as (-> & _); done]. destruct Hok as ([sm Em] & [b Et] & _).
  rewrite Em, bool_decide_eq_true_2 by done. destruct (IsStateMachineDeferTimerRunning g); [done|]. simpl.
  rewrite Et. destruct Hd as [H0'|Hd]; [by rewrite H0'|]. rewrite GetDeferTimeMSec_spec by done.
  unfold kInitialSmDeferTimeMSec in Hd. destruct (Z.eqb_spec (sm_defer_time_msec_ g) 0); [lia|]. simpl.
  destruct (sm_defer_timer_expiry_time_usec_ g =? 0); [done|]. simpl. rewrite Z.ltb_antisym.
  by destruct (_ <=? now).
Qed.

Lemma stepped_db_result id back now c (e := EvDbResult id back now) : wf c → stepped e c (collector_step e c).
Proof.
  intros Hwf. unfold stepped. simpl. pose proof (on_generator_ok id (ProcessRulesCb back now) c Hwf
    (λ g g' l Hg, ProcessRulesCb_spec back now g g' l (wf_ok _ _ Hwf id g Hg))) as Hgo. revert Hgo.
  unfold on_generator. destruct (gen_map_ c !! id) as [g|] eqn:Eg; [|done]. simpl.
  pose proof (ProcessRulesCb_fails back now g (wf_ok _ _ Hwf id g Eg)) as Hn.
  destruct (ProcessRulesCb back now g) as [[g' l]|]; simpl.
  - intros Hw. split; [done|]. apply not_true_is_false. by intros ?%Hn.
  - intros _. by apply Hn.
Qed.

Lemma stepped_timer id now c (e := EvTimer id now) : wf c → stepped e c (collector_step e c).
Proof.
  intros Hwf. unfold stepped. simpl. generalize (on_generator_ok id (StateMachineDeferTimerExpired now) c Hwf).
  unfold on_generator. destruct (gen_map_ c !! id) as [g|] eqn:Eg; [|done]. simpl. intros Hgo. split; [|done].
  apply Hgo. intros ? g' l [= <-] [= <- <-]. destruct (wf_ok _ _ Hwf id g Eg) as [Hok Hd].
  split_and!; [done| |by destruct (state_machine_ g); repeat constructor]. split; simpl; [|done].
  destruct (viz_session_ g); [destruct Hok as (? & [b ->] & ?); naive_solver|].
  destruct Hok as (? & -> & ?). naive_solver.
Qed.

Lemma stepped_msg s m rsc handled c (e := EvMsg s m rsc handled) : wf c → stepped e c (collector_step e c).
Proof.
  intros Hwf. destruct s as [s|]; [|split; [by apply wf_error|done]]. unfold stepped. simpl.
  destruct (generator_of c !! s) as [id|] eqn:Es; [|split; [by apply wf_error|done]]. simpl.
  destruct (proj1 (wf_link _ _ Hwf s id) Es) as (g & Hg & _). unfold on_generator. rewrite Hg. simpl.
  split; [|done]. apply wf_log; [by repeat constructor|]. eapply wf_put; [done|done| |done].
  destruct (wf_ok _ _ Hwf id g Hg). by split.
Qed.

Lemma stepped_statistics c : wf c → stepped EvStatistics c (collector_step EvStatistics c).
Proof.
  intros Hwf. split; [|done]. simpl. apply wf_log.
  - apply Forall_concat, Forall_fmap, Forall_true. intros e. simpl. unfold send_statistics.
    destruct (viz_session_ e.2); by repeat constructor.
  - assert (∀ g, generator_ok g → same_link g (statistics_sent g) ∧ generator_ok (statistics_sent g)) as Hs.
    { intros g Hok. unfold statistics_sent. destruct (viz_session_ g); [|done]. split; [done|]. by destruct Hok. }
    apply wf_map; [..|done].
    + intros id g'. rewrite lookup_fmap_Some. intros (g & <- & Hg). exists g. split; [done|]. apply Hs, (wf_ok _ _ Hwf id g Hg).
    + intros id g Hg. rewrite lookup_fmap, Hg. by eexists.
Qed.

Lemma stepped_redis rsc c : wf c → stepped (EvRedis rsc) c (collector_step (EvRedis rsc) c).
Proof.
  intros Hwf. unfold stepped. simpl. unfold RedisUpdate.
  assert (∃ l, mapM (redis_update rsc) (generators c) = Some l ∧ Forall (Forall (λ k, neutral k = true)) l) as (l & -> & Hl).
  { assert (∀ e, e ∈ generators c → ∃ k, redis_update rsc e = Some k ∧ Forall (λ k, neutral k = true) k) as He.
    { intros [id g] Hg%elem_of_generators. destruct (wf_ok _ _ Hwf id g Hg) as [Hok _]. unfold redis_update. simpl.
      destruct (viz_session_ g); [|by exists []]. destruct Hok as ([sm ->] & _). simpl. eexists. split; [done|]. by repeat constructor. }
    induction (generators c) as [|e l IH]; [by exists []|].
    destruct (He e ltac:(by left)) as (k & Ek & Hk). destruct IH as (l' & El & Hl'); [intros; apply He; by right|].
    exists (k :: l'). simpl. rewrite Ek. simpl. rewrite El. by repeat constructor. }
  simpl. split; [|done]. apply wf_log; [|done]. by apply Forall_concat.
Qed.

Lemma neutral_concat (f : GeneratorId * SandeshGenerator → list call) l :
  (∀ e, Forall (λ k, neutral k = true) (f e)) → Forall (λ k, neutral k = true) (concat (f <$> l)).
Proof. intros Hf. by apply Forall_concat, Forall_fmap, Forall_true. Qed.

Lemma wf_set_db l x c : wf_but x c → wf_but x (set_marks Db l c).
Proof. by intros []. Qed.

Lemma wf_marks type c : wf c →
  (∀ wm, wf (Collector_SetQueueWaterMarkInfo type wm c)) ∧ wf (Collector_ResetQueueWaterMarkInfo type c).
Proof.
  intros Hwf. unfold Collector_SetQueueWaterMarkInfo, Collector_ResetQueueWaterMarkInfo. destruct type.
  - split; [intros wm|]; apply wf_set_db, wf_log; try done; apply neutral_concat; intros e; simpl; case_match; by repeat constructor.
  - rewrite (concat_machines _ ResetQueueWaterMarkInfo) by done. split.
    + intros wm. rewrite (concat_machines _ (λ sm, SetQueueWaterMarkInfo sm wm)) by done. exact (wf_all_marks (λ sm, SetQueueWaterMarkInfo sm wm) (λ ms, ms ++ [wm]) c Hwf (λ _ _ _, eq_refl)).
    + exact (wf_all_marks ResetQueueWaterMarkInfo (λ _, []) c Hwf (λ _ _ _, eq_refl)).
Qed.

Lemma wf_send_remote destination text c : wf c → wf (SendRemote destination text c).1.
Proof.
  intros Hwf. unfold SendRemote. destruct (negb _); [done|]. simpl.
  generalize (List.filter (λ e, destination_matches (split_compressed ":" destination) e.1) (generators c)).
  intros l. revert c Hwf. induction l as [|e l IH]; intros c Hwf; [done|]. simpl. apply IH. unfold send_to.
  destruct (viz_session_ e.2); [by apply wf_log; [repeat constructor|]|by apply wf_error].
Qed.

Lemma step_stepped e c : wf c → fresh e c → stepped e c (collector_step e c).
Proof.
  intros Hwf Hf. destruct e.
  - by apply stepped_ctrl.
  - by apply stepped_resource.
  - by apply stepped_msg.
  - destruct s as [s|]; [|split; [by apply wf_error|done]]. unfold stepped. simpl.
    destruct (generator_of c !! s) as [id|] eqn:Es; [|done]. simpl.
    generalize (stepped_disconnect None id s now cancelled c Hwf Es eq_refl).
    destruct (DisconnectSession_gen _ _ _ _ _ _); [by intros [-> ?]|by intros ->].
  - by apply stepped_db_result.
  - by apply stepped_timer.
  - by apply stepped_statistics.
  - by apply stepped_redis.
  - split; [apply (wf_marks type c Hwf)|done].
  - split; [apply (wf_marks type c Hwf)|done].
  - split; [|done]. simpl. unfold CloseGeneratorSession. repeat case_match; try done. by apply wf_log; [repeat constructor|].
  - split; [by apply wf_send_remote|done].
Qed.

Lemma run_wf l c c' : wf c → fresh_run l c → run l c = Some c' → wf c'.
Proof.
  revert c. induction l as [|e l IH]; intros c Hwf Hf E; simpl in *; [by injection E as <-|].
  destruct Hf as [Hf Hr]. pose proof (step_stepped e c Hwf Hf) as Hs.
  destruct (collector_step e c) as [c1|]; [|done]. destruct Hs as [Hwf' _]. by eapply IH.
Qed.

Context `{SandeshLevels}.

Lemma wf_start db : wf (Collector_ctor db).
Proof.
  split; simpl; try done.
  - intros s id. rewrite lookup_empty. split; [done|]. intros (g & Hg & _). by rewrite lookup_empty in Hg.
Qed.

(** C39.  However the events of the clients, of Redis, of the database and of the
    operator interleave, as long as a client introduces itself once on a session, a
    session and its generator point at each other, a generator is connected with a
    state machine and a timer or has neither, and its delay is in the bounds; and a
    step fails exactly when a session without a generator is disconnected, a timer
    cannot be cancelled, or the clock has gone back. *)
Theorem connections_consistent db l c : fresh_run l (Collector_ctor db) → run l (Collector_ctor db) = Some c →
  (∀ s id, generator_of c !! s = Some id ↔ ∃ g, gen_map_ c !! id = Some g ∧ viz_session_ g = Some s) ∧
  map_Forall (λ _, generator_ok) (gen_map_ c) ∧
  ∀ e, fresh e c → collector_step e c = None ↔ aborts e c = true.
Proof.
  intros Hf Hr. pose proof (run_wf l _ c (wf_start db) Hf Hr) as Hwf. split; [|split].
  - apply (wf_link _ _ Hwf).
  - apply (wf_ok _ _ Hwf).
  - intros e He. pose proof (step_stepped e c Hwf He) as Hs. destruct (collector_step e c); [|done].
    destruct Hs as [_ ->]. done.
Qed.

(** C40.  The state machine of every connected generator has exactly the water marks
    that the collector has at that time, in their order, whether the client or the
    water marks came first; one that no generator uses has none. *)
Theorem watermarks_kept db l c sm : fresh_run l (Collector_ctor db) → run l (Collector_ctor db) = Some c →
  marks sm (calls c) =
  if decide (sm ∈ machines c) then sm_queue_wm_info_ c else [].
Proof.
  intros Hf Hr. pose proof (run_wf l _ c (wf_start db) Hf Hr) as Hwf. case_decide as Hm.
  - apply elem_of_machines in Hm as (id & g & Hg & U). apply (wf_marked _ _ Hwf id g sm Hg U).
  - apply (wf_unmarked _ _ Hwf). intros id g Hg U. apply Hm, elem_of_machines. eauto.
Qed.
End steps.

(** ** Back pressure *)

(** The database pushes back at the first time of each pair, and the timer that was
    started expires at the second. *)
Fixpoint rounds (l : list (Z * Z)) (g : SandeshGenerator) : option (SandeshGenerator * list call) :=
  match l with
  | [] => Some (g, [])
  | (press, expiry) :: l' =>
      '(g1, k1) ← ProcessRulesCb true press g;
      '(g2, k2) ← StateMachineDeferTimerExpired expiry g1;
      '(g3, k3) ← rounds l' g2;
      Some (g3, k1 ++ k2 ++ k3)
  end.
(** The delays of the rounds, after a delay [d] that ended at [last]. *)
Fixpoint delays (d last : Z) (l : list (Z * Z)) : list Z :=
  match l with
  | [] => []
  | (press, expiry) :: l' =>
      let d' := if (d =? 0) || (last =? 0) then kInitialSmDeferTimeMSec else next_delay d (u64 (press - last)) in
      d' :: delays d' expiry l'
  end.
(** The clock does not go back. *)
Fixpoint in_order (last : Z) (l : list (Z * Z)) : Prop :=
  match l with [] => True | (press, expiry) :: l' => last <= press <= expiry ∧ 0 < expiry ∧ in_order expiry l' end.
(** Every press comes within twice the delay [d] of the round before. *)
Fixpoint soon (d last : Z) (l : list (Z * Z)) : Prop :=
  match l with
  | [] => True
  | (press, expiry) :: l' => last <= press <= last + 2000 * d ∧ soon (Z.min (2 * d) kMaxSmDeferTimeMSec) expiry l'
  end.
Definition deferred (sm : SandeshStateMachine) (d : Z) : list call :=
  [SetDeferDequeue sm true; StartTimer d; SetDeferDequeue sm false].

Definition delay_ok (d : Z) : Prop := d = 0 ∨ kInitialSmDeferTimeMSec <= d <= kMaxSmDeferTimeMSec.

Lemma rounds_spec sm l g : state_machine_ g = Some sm → sm_defer_timer_ g = Some false →
  delay_ok (sm_defer_time_msec_ g) → in_order (sm_defer_timer_expiry_time_usec_ g) l →
  let ds := delays (sm_defer_time_msec_ g) (sm_defer_timer_expiry_time_usec_ g) l in
  ∃ g', rounds l g = Some (g', concat (deferred sm <$> ds)) ∧ sm_defer_timer_ g' = Some false ∧
    sm_defer_time_msec_ g' = default (sm_defer_time_msec_ g) (last ds) ∧
    Forall (λ d, kInitialSmDeferTimeMSec <= d <= kMaxSmDeferTimeMSec) ds.
Proof.
  revert g. induction l as [|[p e] l IH]; intros g Em Et Hd Hl; [by exists g|]. destruct Hl as (Hp & He & Hl).
  simpl. unfold ProcessRulesCb, IsStateMachineDeferTimerRunning. rewrite Em, Et. simpl.
  set (d := sm_defer_time_msec_ g) in *. set (prev := sm_defer_timer_expiry_time_usec_ g) in *.
  set (d' := if (d =? 0) || (prev =? 0) then kInitialSmDeferTimeMSec else next_delay d (u64 (p - prev))).
  assert (GetDeferTimeMSec p prev (u64 (i32 (d * 1000))) = Some d') as ->.
  { destruct Hd as [H0|Hd]; [unfold d'; by rewrite H0|]. rewrite GetDeferTimeMSec_spec by done. unfold d'.
    assert ((d =? 0) = false) as -> by (unfold kInitialSmDeferTimeMSec in Hd; lia). simpl.
    destruct (prev =? 0); [done|]. by rewrite (proj2 (Z.leb_le _ _)) by lia. }
  simpl. assert (kInitialSmDeferTimeMSec <= d' <= kMaxSmDeferTimeMSec) as Hd'.
  { unfold d'. destruct Hd as [->|Hd]; [vm_compute; split; congruence|].
    destruct (_ || _); [vm_compute; split; congruence|by apply next_delay_bounds]. }
  match goal with |- context [rounds l ?g2] => destruct (IH g2 eq_refl eq_refl (or_intror Hd') Hl) as (g' & Hr & Ht & Hlast & Hok) end.
  simpl in Hr, Hlast, Hok. rewrite Hr. exists g'. simpl. split; [done|]. split; [done|]. split; [|by constructor].
  rewrite Hlast, last_cons. by destruct (last (delays d' e l)).
Qed.

Lemma delays_soon l d last : kInitialSmDeferTimeMSec <= d <= kMaxSmDeferTimeMSec → 0 < last →
  in_order last l → soon d last l →
  delays d last l = (λ i, Z.min (2 ^ Z.of_nat (S i) * d) kMaxSmDeferTimeMSec) <$> seq 0 (length l).
Proof.
  unfold kInitialSmDeferTimeMSec. revert d last. induction l as [|[p e] l IH]; intros d last Hd Hlast Hl Hs; [done|].
  destruct Hl as (Hp & He & Hl), Hs as (Hp' & Hs). simpl.
  assert ((d =? 0) || (last =? 0) = false) as -> by lia.
  rewrite (u64_small (p - last)) by (unfold is_u64, kMaxSmDeferTimeMSec in *; lia).
  assert (next_delay d (p - last) = Z.min (2 * d) kMaxSmDeferTimeMSec) as ->.
  { unfold next_delay. by rewrite (proj2 (Z.leb_le _ _)) by lia. }
  f_equal. unfold kMaxSmDeferTimeMSec in *.
  rewrite (IH (Z.min (2 * d) 30000) e) by (done || lia).
  rewrite <- fmap_S_seq, <- list_fmap_compose. apply list_fmap_ext. intros _ i _. simpl.
  rewrite (Nat2Z.inj_succ (S i)), Z.pow_succ_r by lia.
  pose proof (Z.pow_pos_nonneg 2 (Z.of_nat (S i)) ltac:(lia) ltac:(lia)). nia.
Qed.

(** When the database pushes back, the state machine of the generator is held
    for a delay of 300 ms to 30 s and then released; the delay depends on how long
    ago the last one ended as [next_delay] says, and as long as the database pushes
    back soon after each release it doubles from 300 ms until it is 30 s. *)
Theorem defer_backoff sm l g p e : state_machine_ g = Some sm → sm_defer_timer_ g = Some false →
  delay_ok (sm_defer_time_msec_ g) → in_order (sm_defer_timer_expiry_time_usec_ g) ((p, e) :: l) →
  let ds := delays (sm_defer_time_msec_ g) (sm_defer_timer_expiry_time_usec_ g) ((p, e) :: l) in
  (∃ g', rounds ((p, e) :: l) g = Some (g', concat (deferred sm <$> ds)) ∧
     sm_defer_time_msec_ g' = default 0 (last ds) ∧ sm_defer_timer_ g' = Some false) ∧
  Forall (λ d, 300 <= d <= 30000) ds ∧
  (sm_defer_time_msec_ g = 0 → soon 300 e l →
   ds = (λ i, Z.min (2 ^ Z.of_nat i * 300) 30000) <$> seq 0 (S (length l))).
Proof.
  intros Em Et Hd Hl ds. destruct (rounds_spec sm ((p, e) :: l) g Em Et Hd Hl) as (g' & Hr & Ht & Hlast & Hok).
  split; [|split].
  - exists g'. split_and!; [done| |done]. rewrite Hlast. unfold ds. cbn [delays]. cbv zeta. rewrite last_cons. by case_match.
  - exact Hok.
  - intros H0 Hs. subst ds. simpl. rewrite H0. simpl. f_equal. destruct Hl as (_ & He & Hl).
    rewrite (delays_soon l kInitialSmDeferTimeMSec e) by (done || vm_compute; split; congruence).
    rewrite <- fmap_S_seq, <- list_fmap_compose. apply list_fmap_ext. intros _ i _. done.
Qed.

(** ** Requests for generators *)

(** A part of a destination: not empty, and without a colon. *)
Definition plain (s : string) : bool := negb (s =? EmptyString)%string && negb (has_char ":" s).

Lemma tokens_end s : has_char ":" s = false → tokens ":" false s = (s, []).
Proof.
  induction s as [|a s IH]; simpl; [done|]. intros [Ha Hs]%orb_false_iff. by rewrite Ha, (IH Hs).
Qed.
Lemma tokens_part s d t : has_char ":" s = false → plain d = true →
  tokens ":" false (s +:+ ":" +:+ d +:+ t) = (s, let '(p, l) := tokens ":" false (d +:+ t) in p :: l).
Proof.
  intros Hs Hd. induction s as [|a s IH]; simpl in *.
  - unfold plain in Hd. destruct d as [|b d]; [done|]. simpl in *.
    apply negb_true_iff, orb_false_iff in Hd as [-> _]. by destruct (tokens ":" false _).
  - apply orb_false_iff in Hs as [Ha Hs]. rewrite Ha. specialize (IH Hs). simpl in IH. by rewrite IH.
Qed.

Lemma split_destination d0 d1 d2 d3 : Forall (λ d, plain d = true) [d0; d1; d2; d3] →
  split_compressed ":" (d0 +:+ ":" +:+ d1 +:+ ":" +:+ d2 +:+ ":" +:+ d3) = [d0; d1; d2; d3].
Proof.
  rewrite !Forall_cons. intros (H0 & H1 & H2 & H3 & _). unfold split_compressed.
  assert (∀ d, plain d = true → has_char ":" d = false) as Hp by (intros d; unfold plain; intros; by reflect_bools).
  rewrite (tokens_part d0 d1) by auto. rewrite (tokens_part d1 d2) by auto.
  rewrite <- (append_empty_r d3), (tokens_part d2 d3), append_empty_r, tokens_end by auto. done.
Qed.

(** Of a list of bindings, those of one key. *)
Lemma filter_one {A B} (P : A → bool) (l : list (A * B)) k b : NoDup l.*1 → (k, b) ∈ l →
  (∀ a, P a = true ↔ a = k) → List.filter (λ e, P e.1) l = [(k, b)].
Proof.
  intros Hnd Hin HP. induction l as [|[a b'] l IH]; [by apply elem_of_nil in Hin|]. inversion_clear Hnd as [|?? Hni Hnd']. simpl.
  apply elem_of_cons in Hin as [[= <- <-]|Hin].
  - rewrite (proj2 (HP k) eq_refl). f_equal. clear IH Hnd'. simpl in Hni.
    induction l as [|[a b'] l IH]; [done|]. simpl. destruct (P a) eqn:E; [apply HP in E as ->; set_solver|].
    apply IH. set_solver.
  - destruct (P a) eqn:E; [|by apply IH]. apply HP in E as ->. destruct Hni. apply list_elem_of_fmap. by exists (k, b).
Qed.

(** The sessions of the generators that a destination names, in the order of the map. *)
Definition reached (dest : list string) (c : Collector) : list VizSession :=
  omap (λ e, viz_session_ e.2) (List.filter (λ e, destination_matches dest e.1) (generators c)).

Lemma send_all text l c :
  calls (foldl (send_to text) c l) = calls c ++ ((λ s, EnqueueBuffer s text) <$> omap (λ e, viz_session_ e.2) l) ∧
  gen_map_ (foldl (send_to text) c l) = gen_map_ c.
Proof.
  revert c. induction l as [|e l IH]; intros c; simpl; [by rewrite app_nil_r|].
  destruct (IH (send_to text c e)) as (-> & ->). unfold send_to.
  destruct (viz_session_ e.2); simpl; [by rewrite <- (assoc_L (++))|done].
Qed.

(** A request for a destination of four parts is sent, each once, on exactly the
    sessions of the connected generators whose source, node type, module and
    instance, in this order, are the parts, a star standing for any; the name of a
    generator is a destination that reaches its session only. *)
Theorem request_reaches d0 d1 d2 d3 text c : Forall (λ d, plain d = true) [d0; d1; d2; d3] →
  let r := SendRemote (d0 +:+ ":" +:+ d1 +:+ ":" +:+ d2 +:+ ":" +:+ d3) text c in
  r.2 = true ∧ calls r.1 = calls c ++ ((λ s, EnqueueBuffer s text) <$> reached [d0; d1; d2; d3] c) ∧
  (∀ s, s ∈ reached [d0; d1; d2; d3] c ↔ ∃ source module instance node_type g,
     gen_map_ c !! (source, module, instance, node_type) = Some g ∧ viz_session_ g = Some s ∧
     part_matches d0 source && part_matches d1 node_type && part_matches d2 module && part_matches d3 instance = true) ∧
  ∀ g, gen_map_ c !! (d0, d2, d3, d1) = Some g → "*"%string ∉ [d0; d1; d2; d3] →
    reached [d0; d1; d2; d3] c = option_list (viz_session_ g).
Proof.
  intros Hp r. unfold r, SendRemote. rewrite (split_destination _ _ _ _ Hp). simpl.
  destruct (send_all text (List.filter (λ e, destination_matches [d0; d1; d2; d3] e.1) (generators c)) c) as (Hc & _).
  split; [done|]. split; [exact Hc|]. split.
  - intros s. unfold reached. rewrite list_elem_of_omap. split.
    + intros ([[[[source module] instance] node_type] g] & Hin & Es).
      apply list_elem_of_In, filter_In in Hin as [Hin%list_elem_of_In%elem_of_generators Hm]. simpl in Hm.
      by exists source, module, instance, node_type, g.
    + intros (source & module & instance & node_type & g & Hg & Es & Hm).
      exists ((source, module, instance, node_type), g). split; [|done].
      apply list_elem_of_In, filter_In. split; [|done]. by apply list_elem_of_In, elem_of_generators.
  - intros g Hg Hstar. unfold reached.
    rewrite (filter_one (destination_matches [d0; d1; d2; d3]) (generators c) (d0, d2, d3, d1) g).
    + simpl. by destruct (viz_session_ g).
    + unfold generators. rewrite <- insertion_sort_perm. apply NoDup_fst_map_to_list.
    + by apply elem_of_generators.
    + intros [[[source module] instance] node_type]. simpl. unfold part_matches.
      rewrite !not_elem_of_cons in Hstar. destruct Hstar as (? & ? & ? & ? & _).
      rewrite !andb_true_iff, !orb_true_iff, !String.eqb_eq. split; [|intros [= -> -> -> ->]; auto].
      intros [[[[E0|E0] [E1|E1]] [E2|E2]] [E3|E3]]; congruence.
Qed.

(** ** Examples *)

Module GeneratorExamples.
#[local] Existing Instance SelectExamples.types.
#[local] Instance collector_types : CollectorSandeshTypes := {| ST_SYSLOG := 8; ST_FLOW := 2; ST_SESSION := 12 |}.
#[local] Instance levels : SandeshLevels := {| LEVEL_INVALID := 10 |}.

Definition hello (instance : string) : CtrlMsg := {|
  snh_source := "host"; snh_module_name := "agent"; snh_instance_id_name := instance; snh_node_type_name := "Compute" |}.
Definition mark (count : Z) (high : bool) : QueueWaterMarkInfo :=
  {| wm_count := count; wm_level := 3; wm_high := high; wm_defer := true |}.
(** Two agents; the second one loses Redis, and both hear of the water marks. *)
Definition history : list event :=
  [ EvCtrlMsg 11 (Some 1) (Some (hello "0")) true (Some ∅) 100 101 true;
    EvSetMark Sm (mark 500 true);
    EvCtrlMsg 12 (Some 2) (Some (hello "1")) true (Some {["Uve" := 7]}) 110 111 true;
    EvDbResult ("host", "agent", "0", "Compute")%string true 2000000;
    EvResource (Some 2) false None 3000000 true;
    EvTimer ("host", "agent", "0", "Compute")%string 2300000;
    EvSetMark Sm (mark 100 false);
    EvCtrlMsg 13 (Some 3) (Some (hello "1")) true (Some ∅) 4000000 4000001 true ]%string.
Definition start : Collector := Collector_ctor true.
Definition after (l : list event) : Collector := default start (run to_decimal false l start).

Lemma connections_consistent_witness :
  (generator_of (after history) !! 1 = Some ("host", "agent", "0", "Compute")%string ↔
   ∃ g, gen_map_ (after history) !! ("host", "agent", "0", "Compute")%string = Some g ∧ viz_session_ g = Some 1) ∧
  collector_step to_decimal false (EvDisconnect (Some 2) 5 true) (after history) = None.
Proof.
  destruct (connections_consistent to_decimal false true history (after history)) as (H1 & _ & H3).
  - apply (bool_decide_unpack _). vm_compute. exact I.
  - vm_compute. reflexivity.
  - split; [apply H1|]. apply H3; [exact I|]. vm_compute. reflexivity.
Defined.

Lemma watermarks_kept_witness : marks 13 (calls (after history)) = sm_queue_wm_info_ (after history) ∧
  sm_queue_wm_info_ (after history) = kQueueWaterMarkInfo ++ [mark 500 true; mark 100 false] ∧
  marks 12 (calls (after history)) = [].
Proof.
  assert (fresh_run to_decimal false history start) as Hf by (apply (bool_decide_unpack _); vm_compute; exact I).
  assert (run to_decimal false history start = Some (after history)) as Hr by (vm_compute; reflexivity).
  split_and!.
  - exact (watermarks_kept to_decimal false true history (after history) 13 Hf Hr).
  - vm_compute. reflexivity.
  - exact (watermarks_kept to_decimal false true history (after history) 12 Hf Hr).
Defined.

(** The database pushes back again and again, then later, then much later. *)
Definition agent : SandeshGenerator := SandeshGenerator_ctor 1 11 100.
Definition presses : list (Z * Z) :=
  [(1000000, 1300000); (1400000, 2000000); (2000000, 3200000); (7000000, 8200000); (20000000, 20300000)].
Lemma defer_backoff_witness : delays 0 0 presses = [300; 600; 1200; 1200; 300] ∧
  Forall (λ d, 300 <= d <= 30000) (delays 0 0 presses) ∧
  ∃ g', rounds presses agent = Some (g', concat (deferred 11 <$> delays 0 0 presses)).
Proof.
  destruct (defer_backoff 11 (tail presses) agent 1000000 1300000 eq_refl eq_refl) as ((g' & Hr & _) & Hok & _).
  - left. reflexivity.
  - vm_compute. repeat split; discriminate.
  - split; [vm_compute; reflexivity|]. split; [exact Hok|]. exists g'. exact Hr.
Defined.

(** A request for every agent reaches both, one for a name the one. *)
Lemma request_reaches_witness :
  reached ["*"; "Compute"; "agent"; "*"]%string (after history) = [1; 3] ∧
  calls (SendRemote "host:Compute:agent:1" "<request/>" (after history)).1 =
    calls (after history) ++ [EnqueueBuffer 3 "<request/>"].
Proof.
  split; [vm_compute; reflexivity|].
  destruct (request_reaches "host" "Compute" "agent" "1" "<request/>" (after history)) as (_ & Hc & _).
  - repeat constructor.
  - exact Hc.
Defined.
End GeneratorExamples.
