(* ===== verification/RedisUve.v ===== *)
(** * The UVEs in Redis

    [contrail-collector/redis_processor_vizd.cc] and the Lua scripts it sends:
    [uveupdate.lua], [uvedelete.lua], [delrequest.lua], [seqnum.lua] and
    [flushuves.lua].  Redis runs a script as one step.  Its data model (a key
    holds a set, a hash or a sorted set; an empty one is no key) is [db]; its
    commands are a class with their documented effect, for keys that hold what
    the command works on.  Every script selects the database of UVEs first, so
    that one is the whole state. *)
From Stdlib Require Import Ascii.
From stdpp Require Import base tactics list strings pretty sorting gmap.
From Stdlib Require Import ZArith Lia Sorted.
From S2P Require Import Prelude.
From S2P Require Import CppString.
From S2P Require Import SortedLists.
Local Open Scope Z_scope.

(** ** Redis *)

Inductive rvalue := RSet (s : gset string) | RHash (m : gmap string string) | RZset (z : gmap string Z).
Abbreviation db := (gmap string rvalue).

(** What a key holds; [None] for a value of another type. *)
Definition set_at (d : db) (k : string) : option (gset string) :=
  match d !! k with None => Some ∅ | Some (RSet s) => Some s | _ => None end.
Definition hash_at (d : db) (k : string) : option (gmap string string) :=
  match d !! k with None => Some ∅ | Some (RHash m) => Some m | _ => None end.
Definition zset_at (d : db) (k : string) : option (gmap string Z) :=
  match d !! k with None => Some ∅ | Some (RZset z) => Some z | _ => None end.
Definition put_set (k : string) (s : gset string) (d : db) : db :=
  if decide (s = ∅) then delete k d else <[k := RSet s]> d.
Definition put_hash (k : string) (m : gmap string string) (d : db) : db :=
  if decide (m = ∅) then delete k d else <[k := RHash m]> d.
Definition put_zset (k : string) (z : gmap string Z) (d : db) : db :=
  if decide (z = ∅) then delete k d else <[k := RZset z]> d.

(** The commands; [None] is an error, which ends the script. *)
Class Redis := {
  SADD : string → string → db → option db;
  SREM : string → string → db → option (db * bool);
  SMEMBERS : string → db → option (list string);
  SISMEMBER : string → string → db → option bool;
  HSET : string → string → string → db → option db;
  HDEL : string → string → db → option db;
  HGET : string → string → db → option (option string);
  HGETALL : string → db → option (list (string * string));
  ZADD : string → string → string → db → option db;
  ZREM : string → string → db → option db;
  (** [ZRANGE key 0 -1 WITHSCORES]. *)
  ZRANGE : string → db → option (list (string * string));
  DEL : string → db → db;
  EXISTS : string → db → bool;
  EXPIRE : string → Z → db → db;
  FLUSHDB : db → db
}.
(** Scores are integers of 32 bits here, which a double holds. *)
Class RedisLaws `{Redis} := {
  SADD_law k x d s : set_at d k = Some s → SADD k x d = Some (put_set k ({[x]} ∪ s) d);
  SREM_law k x d s : set_at d k = Some s → SREM k x d = Some (put_set k (s ∖ {[x]}) d, bool_decide (x ∈ s));
  SMEMBERS_law k d s : set_at d k = Some s → ∃ l, SMEMBERS k d = Some l ∧ Permutation l (elements s);
  SISMEMBER_law k x d s : set_at d k = Some s → SISMEMBER k x d = Some (bool_decide (x ∈ s));
  HSET_law k f v d m : hash_at d k = Some m → HSET k f v d = Some (put_hash k (<[f := v]> m) d);
  HDEL_law k f d m : hash_at d k = Some m → HDEL k f d = Some (put_hash k (delete f m) d);
  HGET_law k f d m : hash_at d k = Some m → HGET k f d = Some (m !! f);
  HGETALL_law k d m : hash_at d k = Some m → ∃ l, HGETALL k d = Some l ∧ Permutation l (map_to_list m);
  ZADD_law k n x d z : zset_at d k = Some z → - 2 ^ 31 <= n < 2 ^ 31 →
    ZADD k (to_decimal n) x d = Some (put_zset k (<[x := n]> z) d);
  ZREM_law k x d z : zset_at d k = Some z → ZREM k x d = Some (put_zset k (delete x z) d);
  ZRANGE_law k d z : zset_at d k = Some z → ∃ l, ZRANGE k d = Some ((λ e, (e.1, to_decimal e.2)) <$> l) ∧
    Permutation l (map_to_list z) ∧ StronglySorted (λ a b, a.2 <= b.2) l;
  DEL_law k d : DEL k d = delete k d;
  EXISTS_law k d : EXISTS k d = bool_decide (is_Some (d !! k));
  EXPIRE_law k n d : EXPIRE k n d = d;
  FLUSHDB_law d : FLUSHDB d = ∅
}.

(** What a client is answered.  Of Lua's values [false] is nil and [true] is 1; a
    script without a return statement answers nil. *)
Inductive redis_reply :=
  | REDIS_REPLY_NIL | REDIS_REPLY_INTEGER (n : Z) | REDIS_REPLY_STRING (s : string)
  | REDIS_REPLY_STATUS | REDIS_REPLY_ARRAY (l : list string) | REDIS_REPLY_ERROR.

(** [cjson.decode] of an attribute, and the [href] members of its elements. *)
Class CJson := { cjson_hrefs : string → option (list string) }.

Section scripts.
Context `{Redis, CJson}.

Definition NGENERATORS : string := "NGENERATORS".
Definition dots (l : list string) : string := String.concat ":" l.
Definition generator_timeout : Z := 40.

(** *** [uveupdate.lua] *)
Definition uveupdate (KEYS ARGV : list string) (d : db) : option (db * redis_reply) :=
  match KEYS, ARGV with
  | [types; origins; tbl; uves; values],
    [source; node; mod_; inst; typ; attr; key; seq; val; _; part; is_alarm; ngen_inst; ts_string] =>
      let sm := dots [source; node; mod_; inst] in
      let ngen_sm := dots [source; node; mod_; ngen_inst] in
      ism ← SISMEMBER NGENERATORS ngen_sm d;
      if negb ism then Some (d, REDIS_REPLY_NIL)
      else
        let d := EXPIRE NGENERATORS generator_timeout d in
        d ← (if (is_alarm =? "0")%string then
               d ← SADD ("PART2KEY:" +:+ part) (dots [sm; typ; key]) d;
               HSET ("KEY2PART:" +:+ dots [sm; typ]) key part d
             else Some d);
        d ← SADD types typ d;
        d ← SADD origins (dots [sm; typ]) d;
        d ← SADD tbl (dots [key; sm; typ]) d;
        d ← ZADD uves seq key d;
        d ← HSET values attr val d;
        d ← HSET values "__T" ts_string d;
        Some (d, REDIS_REPLY_INTEGER 1)
  | _, _ => None
  end.

(** *** [uvedelete.lua] *)

(** The loop of [sub_del]: an attribute that is not XML lists keys to delete. *)
Fixpoint sub_del_loop (values : string) (lres : list (string * string)) (d : db) : option db :=
  match lres with
  | [] => Some d
  | (attr, val) :: lres' =>
      d ← (if negb (bool_decide (String.get 0 val = Some "<"%char)) then
             hrefs ← cjson_hrefs val;
             HDEL values attr (foldl (λ d h, DEL h d) d hrefs)
           else Some d);
      sub_del_loop values lres' d
  end.
Definition sub_del (values : string) (d : db) : option db :=
  lres ← HGETALL values d; sub_del_loop values lres d.

(** The partition of a UVE is forgotten. *)
Definition drop_part (sm typ key : string) (d : db) : option db :=
  part ← HGET ("KEY2PART:" +:+ dots [sm; typ]) key d;
  match part with
  | None => Some d
  | Some part =>
      d ← HDEL ("KEY2PART:" +:+ dots [sm; typ]) key d;
      '(d, _) ← SREM ("PART2KEY:" +:+ part) (dots [sm; typ; key]) d;
      Some d
  end.

Definition uvedelete (KEYS ARGV : list string) (d : db) : option (db * redis_reply) :=
  match KEYS, ARGV with
  | [values; uves; origins; tbl], [source; node; mod_; inst; typ; key; _; is_alarm; ngen_inst] =>
      let sm := dots [source; node; mod_; inst] in
      let ngen_sm := dots [source; node; mod_; ngen_inst] in
      ism ← SISMEMBER NGENERATORS ngen_sm d;
      if negb ism then Some (d, REDIS_REPLY_NIL)
      else
        let d := EXPIRE NGENERATORS generator_timeout d in
        d ← (if (is_alarm =? "1")%string then Some d else drop_part sm typ key d);
        d ← sub_del values d;
        d ← ZREM uves key d;
        '(d, _) ← SREM origins (dots [sm; typ]) d;
        '(d, _) ← SREM tbl (dots [key; sm; typ]) d;
        Some (if EXISTS values d then DEL values d else d, REDIS_REPLY_INTEGER 1)
  | _, _ => None
  end.

(** *** [delrequest.lua] *)

(** The text before the first colon; [None]: there is none. *)
Fixpoint before_colon (s : string) : option string :=
  match s with
  | EmptyString => None
  | String c s' => if (c =? ":")%char then Some EmptyString else String c <$> before_colon s'
  end.

(** The body of the inner loop. *)
Definition delete_uve (sm deltyp deluve : string) (d : db) : option db :=
  deltbl ← before_colon deluve;
  d ← drop_part sm deltyp deluve d;
  let d := DEL ("VALUES:" +:+ dots [deluve; sm; deltyp]) d in
  '(d, removed) ← SREM ("ORIGINS:" +:+ deluve) (dots [sm; deltyp]) d;
  if (removed : bool) then
    '(d, _) ← SREM ("TABLE:" +:+ deltbl) (dots [deluve; sm; deltyp]) d; Some d
  else
    '(d, _) ← SREM ("ALARM_ORIGINS:" +:+ deluve) (dots [sm; deltyp]) d;
    '(d, _) ← SREM ("ALARM_TABLE:" +:+ deltbl) (dots [deluve; sm; deltyp]) d; Some d.
(** The inner loop over the UVEs of a type; the time to live of [NGENERATORS] is
    renewed after every hundred of them. *)
Fixpoint delete_uves (sm typ : string) (lres : list (string * string)) (citer : Z) (res : list string) (d : db)
    : option (db * list string) :=
  match lres with
  | [] => Some (d, res)
  | (deluve, _) :: lres' =>
      d ← delete_uve sm typ deluve d;
      let res := res ++ [deluve; typ] in
      if 100 <? citer then delete_uves sm typ lres' 1 res (EXPIRE NGENERATORS generator_timeout d)
      else delete_uves sm typ lres' (citer + 2) res d
  end.
(** The loop over the types. *)
Fixpoint delete_types (sm : string) (typ : list string) (res : list string) (d : db) : option (db * list string) :=
  match typ with
  | [] => Some (d, res)
  | v :: typ' =>
      lres ← ZRANGE ("UVES:" +:+ dots [sm; v]) d;
      '(d, res) ← delete_uves sm v lres 1 res (DEL ("UVES:" +:+ dots [sm; v]) d);
      delete_types sm typ' res d
  end.
Definition delrequest (KEYS ARGV : list string) (d : db) : option (db * redis_reply) :=
  match ARGV with
  | [source; node; mod_; inst; _; ngen_inst] =>
      let sm := dots [source; node; mod_; inst] in
      let ngen_sm := dots [source; node; mod_; ngen_inst] in
      typ ← SMEMBERS ("TYPES:" +:+ sm) d;
      '(d, res) ← delete_types sm typ [] (EXPIRE NGENERATORS generator_timeout d);
      '(d, _) ← SREM NGENERATORS ngen_sm (DEL ("TYPES:" +:+ sm) d);
      Some (d, REDIS_REPLY_ARRAY res)
  | _ => None
  end.

(** *** [seqnum.lua] *)

(** The last element of every type, which has the highest score. *)
Fixpoint seq_types (sm : string) (typ : list string) (res : list string) (d : db) : option (list string) :=
  match typ with
  | [] => Some res
  | v :: typ' =>
      lres ← ZRANGE ("UVES:" +:+ dots [sm; v]) d;
      seq_types sm typ' (match last lres with Some (_, score) => res ++ [v; score] | None => res end) d
  end.
Definition seqnum (KEYS ARGV : list string) (d : db) : option (db * redis_reply) :=
  match ARGV with
  | [source; node; mod_; inst; _; ngen_inst] =>
      let sm := dots [source; node; mod_; inst] in
      typ ← SMEMBERS ("TYPES:" +:+ sm) d;
      res ← seq_types sm typ [] d;
      d ← SADD NGENERATORS (dots [source; node; mod_; ngen_inst]) d;
      Some (EXPIRE NGENERATORS generator_timeout d, REDIS_REPLY_ARRAY res)
  | _ => None
  end.

(** *** [flushuves.lua] *)
Definition flushuves (KEYS ARGV : list string) (d : db) : option (db * redis_reply) :=
  Some (FLUSHDB d, REDIS_REPLY_NIL).

(** ** [RedisProcessorExec] *)

Inductive lua_script := uveupdate_lua | uvedelete_lua | delrequest_lua | seqnum_lua | flushuves_lua.
(** An [EVAL] command. *)
Record command := { cmd_script : lua_script; cmd_keys : list string; cmd_args : list string }.
(** Redis runs a script: an error leaves what the script did before it. *)
Definition run_script (s : lua_script) : list string → list string → db → option (db * redis_reply) :=
  match s with
  | uveupdate_lua => uveupdate
  | uvedelete_lua => uvedelete
  | delrequest_lua => delrequest
  | seqnum_lua => seqnum
  | flushuves_lua => flushuves
  end.
Definition EVAL (c : command) (d : db) : option (db * redis_reply) :=
  run_script (cmd_script c) (cmd_keys c) (cmd_args c) d.
End scripts.

(** [integerToString] of a [bool]. *)
Definition bool_text (b : bool) : string := if b then "1" else "0".

(** The name of the generator's module for which the process is taken, the number
    of the database, and the process. *)
Class CollectorProcess := { SERVICE_COLLECTOR : string; REDIS_DB_UVE : Z; getpid : Z }.

(** What a generator is called, and a UVE of it. *)
Record generator := { g_source : string; g_node_type : string; g_module : string; g_instance_id : string }.
#[export] Instance generator_eq_dec : EqDecision generator.
Proof. solve_decision. Defined.
#[export] Program Instance generator_countable : Countable generator :=
  inj_countable' (λ g, (g_source g, g_node_type g, g_module g, g_instance_id g))
    (λ '(s, n, m, i), {| g_source := s; g_node_type := n; g_module := m; g_instance_id := i |}) _.
Next Obligation. by intros []. Qed.
(** [source + ":" + node_type + ":" + module + ":" + instance_id]. *)
Definition generator_text (g : generator) : string :=
  dots [g_source g; g_node_type g; g_module g; g_instance_id g].

Section commands.
Context `{CollectorProcess}.

Definition ngen_inst (g : generator) : string :=
  if (g_module g =? SERVICE_COLLECTOR)%string then to_decimal getpid else g_instance_id g.

(** [key.substr(0, key.find(":"))]. *)
Definition table_of (key : string) : option string := substr key 0 (find key ":" 0).

(** [RedisProcessorExec::UVEUpdate]: the arguments are handed to hiredis as C
    strings. *)
Definition UVEUpdate_command (type attr : string) (g : generator) (key msg : string) (seq ts part : Z)
    (is_alarm : bool) : option command :=
  tbl ← table_of key;
  let sm := generator_text g in
  Some {| cmd_script := uveupdate_lua;
          cmd_keys := c_str <$> [
            "TYPES:" +:+ sm;
            (if is_alarm then "ALARM_ORIGINS:" else "ORIGINS:") +:+ key;
            (if is_alarm then "ALARM_TABLE:" else "TABLE:") +:+ tbl;
            "UVES:" +:+ dots [sm; type];
            "VALUES:" +:+ dots [key; sm; type]];
          cmd_args := c_str <$> [
            g_source g; g_node_type g; g_module g; g_instance_id g; type; attr; key; to_decimal seq; msg;
            to_decimal REDIS_DB_UVE; to_decimal part; bool_text is_alarm; ngen_inst g;
            "<__T type=" +:+ String "034" ("u64" +:+ String "034" (">" +:+ to_decimal ts +:+ "</__T>"))] |}.

(** [RedisProcessorExec::UVEDelete]. *)
Definition UVEDelete_command (type : string) (g : generator) (key : string) (is_alarm : bool) : option command :=
  tbl ← table_of key;
  let sm := generator_text g in
  Some {| cmd_script := uvedelete_lua;
          cmd_keys := c_str <$> [
            "VALUES:" +:+ dots [key; sm; type];
            "UVES:" +:+ dots [sm; type];
            (if is_alarm then "ALARM_ORIGINS:" else "ORIGINS:") +:+ key;
            (if is_alarm then "ALARM_TABLE:" else "TABLE:") +:+ tbl];
          cmd_args := c_str <$> [
            g_source g; g_node_type g; g_module g; g_instance_id g; type; key;
            to_decimal REDIS_DB_UVE; bool_text is_alarm; ngen_inst g] |}.

(** The commands of [SyncGetSeq], [SyncDeleteUVEs] and [FlushUVEs]. *)
Definition generator_command (s : lua_script) (g : generator) : command := {|
  cmd_script := s; cmd_keys := [];
  cmd_args := c_str <$> [
    g_source g; g_node_type g; g_module g; g_instance_id g; to_decimal REDIS_DB_UVE; ngen_inst g] |}.
Definition flush_command : command := {|
  cmd_script := flushuves_lua; cmd_keys := []; cmd_args := [to_decimal REDIS_DB_UVE] |}.
End commands.

(** The pairs of an array. *)
Fixpoint pairs_of (l : list string) : list (string * string) :=
  match l with a :: b :: l' => (a, b) :: pairs_of l' | _ => [] end.

(** How a connection of its own to Redis fares: it may fail, or refuse the
    password.  [None] for the reply: none came. *)
Inductive connection := NoConnection | NotAuthenticated | Connected.

(** [SyncGetSeq]; of two sequence numbers for a type the first one counts. *)
Definition SyncGetSeq (c : connection) (reply : option redis_reply) : option (gmap string Z) :=
  match c, reply with
  | Connected, Some (REDIS_REPLY_ARRAY l) =>
      Some (foldl (λ m e, match m !! e.1 with Some _ => m | None => <[e.1 := atoi e.2]> m end) ∅ (pairs_of l))
  | _, _ => None
  end.
(** [SyncDeleteUVEs]: the process may exit, or fail an assertion. *)
Inductive delete_result := Exit | Assert | DeleteFailed | Deleted (l : list (string * string)).
Definition SyncDeleteUVEs (c : connection) (reply : option redis_reply) : delete_result :=
  match c, reply with
  | NoConnection, _ => Exit
  | NotAuthenticated, _ => DeleteFailed
  | Connected, None => DeleteFailed
  | Connected, Some REDIS_REPLY_ERROR => DeleteFailed
  | Connected, Some (REDIS_REPLY_ARRAY l) => Deleted (pairs_of l)
  | Connected, Some _ => Assert
  end.
(** [FlushUVEs]. *)
Definition FlushUVEs (c : connection) (reply : option redis_reply) : bool :=
  match c, reply with Connected, Some (REDIS_REPLY_INTEGER _) => true | _, _ => false end.

(** ** The keys *)

Definition colonless (s : string) : Prop := has_char ":" s = false.
Record generator_ok (g : generator) : Prop := {
  go_source : colonless (g_source g); go_node : colonless (g_node_type g);
  go_module : colonless (g_module g); go_instance : colonless (g_instance_id g)
}.

Lemma colon_split_left a b x y : colonless a → colonless b → a +:+ ":" +:+ x = b +:+ ":" +:+ y → a = b ∧ x = y.
Proof.
  unfold colonless. revert b. induction a as [|c a IH]; intros [|c' b]; simpl; intros Ha Hb.
  - intros E. split; [done|]. injection E as E. exact E.
  - intros E. by injection E as <- _.
  - intros E. by injection E as -> _.
  - apply orb_false_iff in Ha as [_ Ha]. apply orb_false_iff in Hb as [_ Hb].
    intros E. injection E as -> E. destruct (IH b Ha Hb E) as [-> ->]. done.
Qed.
Lemma colon_split_right a b x y : colonless a → colonless b → x +:+ ":" +:+ a = y +:+ ":" +:+ b → x = y ∧ a = b.
Proof.
  unfold colonless. revert y. induction x as [|c x IH]; intros [|c' y] Ha Hb; simpl.
  - intros E. injection E as E. split; [done|exact E].
  - intros E. injection E as <- E. exfalso. change (a = y +:+ ":" +:+ b) in E. subst a. by rewrite has_char_app, orb_true_r in Ha.
  - intros E. injection E as -> E. exfalso. change (x +:+ ":" +:+ a = b) in E. subst b. by rewrite has_char_app, orb_true_r in Hb.
  - intros E. injection E as -> E. destruct (IH y Ha Hb E) as [-> ->]. done.
Qed.

Lemma dots_cons a b l : dots (a :: b :: l) = a +:+ ":" +:+ dots (b :: l).
Proof. done. Qed.

Lemma generator_text_inj g h : generator_ok g → generator_ok h → generator_text g = generator_text h → g = h.
Proof.
  intros [] []. destruct g, h. unfold generator_text. rewrite !dots_cons. intros E.
  apply colon_split_left in E as [E1 E]; [|done..]. apply colon_split_left in E as [E2 E]; [|done..].
  apply colon_split_left in E as [E3 E4]; [|done..]. unfold dots in *; simpl in *; congruence.
Qed.
(** A generator and a type are the end of a text, or its beginning. *)
Definition sm_type (g : generator) (t : string) : string := dots [generator_text g; t].
Lemma sm_type_inj g h t u : generator_ok g → generator_ok h → colonless t → colonless u →
  sm_type g t = sm_type h u → g = h ∧ t = u.
Proof.
  intros Hg Hh Ht Hu [E ->]%colon_split_right; [|done..]. by rewrite (generator_text_inj g h).
Qed.

(** The keys of the scripts. *)
Inductive rkey :=
  | KTypes (g : generator) | KOrigins (alarm : bool) (key : string) | KTable (alarm : bool) (tbl : string)
  | KUves (g : generator) (t : string) | KValues (key : string) (g : generator) (t : string)
  | KPart (p : string) | KKeyPart (g : generator) (t : string) | KNgen.
#[export] Instance rkey_eq_dec : EqDecision rkey.
Proof. solve_decision. Defined.
Definition key_text (k : rkey) : string :=
  match k with
  | KTypes g => "TYPES:" +:+ generator_text g
  | KOrigins alarm key => (if alarm then "ALARM_ORIGINS:" else "ORIGINS:") +:+ key
  | KTable alarm tbl => (if alarm then "ALARM_TABLE:" else "TABLE:") +:+ tbl
  | KUves g t => "UVES:" +:+ sm_type g t
  | KValues key g t => "VALUES:" +:+ dots [key; generator_text g; t]
  | KPart p => "PART2KEY:" +:+ p
  | KKeyPart g t => "KEY2PART:" +:+ sm_type g t
  | KNgen => NGENERATORS
  end.
Inductive rkind := KindSet | KindHash | KindZset.
Definition kind (k : rkey) : rkind :=
  match k with KValues _ _ _ | KKeyPart _ _ => KindHash | KUves _ _ => KindZset | _ => KindSet end.
Definition key_ok (k : rkey) : Prop :=
  match k with
  | KTypes g => generator_ok g
  | KUves g t | KKeyPart g t | KValues _ g t => generator_ok g ∧ colonless t
  | _ => True
  end.

(** The texts of a UVE in the indices. *)
Definition uve_text (key : string) (g : generator) (t : string) : string := dots [key; generator_text g; t].
Definition part_text (g : generator) (t key : string) : string := dots [generator_text g; t; key].

Lemma uve_text_inj k g t k' g' t' : generator_ok g → generator_ok g' → colonless t → colonless t' →
  uve_text k g t = uve_text k' g' t' → k = k' ∧ g = g' ∧ t = t'.
Proof.
  assert (∀ k g t, uve_text k g t =
    ((((k +:+ ":" +:+ g_source g) +:+ ":" +:+ g_node_type g) +:+ ":" +:+ g_module g) +:+ ":" +:+ g_instance_id g) +:+ ":" +:+ t)
    as Hu by (intros; unfold uve_text; rewrite !dots_cons; unfold generator_text; rewrite !dots_cons; by rewrite !append_assoc_string).
  intros [] [] Ht Ht'. rewrite !Hu. intros E. repeat (apply colon_split_right in E as [E ?]; [|done..]).
  destruct g, g'; simpl in *. by subst.
Qed.
Lemma part_text_inj k g t k' g' t' : generator_ok g → generator_ok g' → colonless t → colonless t' →
  part_text g t k = part_text g' t' k' → k = k' ∧ g = g' ∧ t = t'.
Proof.
  assert (∀ k g t, part_text g t k =
    g_source g +:+ ":" +:+ g_node_type g +:+ ":" +:+ g_module g +:+ ":" +:+ g_instance_id g +:+ ":" +:+ t +:+ ":" +:+ k)
    as Hu by (intros; unfold part_text; rewrite dots_cons; unfold generator_text; rewrite !dots_cons; by rewrite !append_assoc_string).
  intros [] [] Ht Ht'. rewrite !Hu. intros E. repeat (apply colon_split_left in E as [? E]; [|done..]).
  destruct g, g'; simpl in *. by subst.
Qed.

Lemma key_text_inj k k' : key_ok k → key_ok k' → key_text k = key_text k' → k = k'.
Proof.
  destruct k as [g|a key|a tbl|g t|key g t|p|g t|], k' as [g'|a' key'|a' tbl'|g' t'|key' g' t'|p'|g' t'|]; simpl;
    try destruct a; try destruct a'; intros Hk Hk' E; try discriminate E; repeat (injection E as E); try (f_equal; exact E).
  - by rewrite (generator_text_inj g g').
  - by destruct Hk, Hk', (sm_type_inj g g' t t') as [-> ->].
  - by destruct Hk, Hk', (uve_text_inj key g t key' g' t') as (-> & -> & ->).
  - by destruct Hk, Hk', (sm_type_inj g g' t t') as [-> ->].
Qed.

(** ** A database of such keys *)

Record lstore := { ls : rkey → gset string; lh : rkey → gmap string string; lz : rkey → gmap string Z }.
Definition upd {A} (k : rkey) (v : A) (f : rkey → A) (k' : rkey) : A := if decide (k' = k) then v else f k'.
Definition set_ls (k : rkey) (v : gset string) (L : lstore) : lstore := {| ls := upd k v (ls L); lh := lh L; lz := lz L |}.
Definition set_lh (k : rkey) (v : gmap string string) (L : lstore) : lstore := {| ls := ls L; lh := upd k v (lh L); lz := lz L |}.
Definition set_lz (k : rkey) (v : gmap string Z) (L : lstore) : lstore := {| ls := ls L; lh := lh L; lz := upd k v (lz L) |}.
Definition clear (k : rkey) (L : lstore) : lstore := set_ls k ∅ (set_lh k ∅ (set_lz k ∅ L)).

Definition sees (d : db) (L : lstore) : Prop := ∀ k, key_ok k →
  match kind k with
  | KindSet => set_at d (key_text k) = Some (ls L k)
  | KindHash => hash_at d (key_text k) = Some (lh L k)
  | KindZset => zset_at d (key_text k) = Some (lz L k)
  end.

(** A key of the database is changed. *)
Lemma sees_change d L k o L' : sees d L → key_ok k →
  (∀ k', k' ≠ k → ls L' k' = ls L k' ∧ lh L' k' = lh L k' ∧ lz L' k' = lz L k') →
  match kind k with
  | KindSet => set_at (partial_alter (λ _, o) (key_text k) d) (key_text k) = Some (ls L' k)
  | KindHash => hash_at (partial_alter (λ _, o) (key_text k) d) (key_text k) = Some (lh L' k)
  | KindZset => zset_at (partial_alter (λ _, o) (key_text k) d) (key_text k) = Some (lz L' k)
  end → sees (partial_alter (λ _, o) (key_text k) d) L'.
Proof.
  intros Hd Hk Hne Hat k' Hk'. destruct (decide (k' = k)) as [->|E]; [done|].
  destruct (Hne k' E) as (-> & -> & ->). specialize (Hd k' Hk').
  assert (key_text k ≠ key_text k') as Ht by (intros Ht; by apply E, key_text_inj).
  unfold set_at, hash_at, zset_at in *. by rewrite lookup_partial_alter_ne.
Qed.
Lemma upd_eq {A} k (v : A) f : upd k v f k = v.
Proof. unfold upd. by rewrite decide_True. Qed.
Lemma upd_ne {A} k k' (v : A) f : k' ≠ k → upd k v f k' = f k'.
Proof. intros. unfold upd. by rewrite decide_False. Qed.

Lemma sees_put_set d L k s : sees d L → key_ok k → kind k = KindSet → sees (put_set (key_text k) s d) (set_ls k s L).
Proof.
  intros Hd Hk Ek. assert (∃ o, put_set (key_text k) s d = partial_alter (λ _, o) (key_text k) d ∧
    match o with None => Some ∅ | Some (RSet s) => Some s | _ => None end = Some s) as (o & -> & Ho).
  { unfold put_set. case_decide; subst; eexists; split; reflexivity. }
  apply (sees_change d L); [done|done| |].
  - intros k' Hne. simpl. by rewrite upd_ne.
  - rewrite Ek. unfold set_at. simpl. by rewrite lookup_partial_alter_eq, upd_eq.
Qed.
Lemma sees_put_hash d L k m : sees d L → key_ok k → kind k = KindHash → sees (put_hash (key_text k) m d) (set_lh k m L).
Proof.
  intros Hd Hk Ek. assert (∃ o, put_hash (key_text k) m d = partial_alter (λ _, o) (key_text k) d ∧
    match o with None => Some ∅ | Some (RHash m) => Some m | _ => None end = Some m) as (o & -> & Ho).
  { unfold put_hash. case_decide; subst; eexists; split; reflexivity. }
  apply (sees_change d L); [done|done| |].
  - intros k' Hne. simpl. by rewrite upd_ne.
  - rewrite Ek. unfold hash_at. simpl. by rewrite lookup_partial_alter_eq, upd_eq.
Qed.
Lemma sees_put_zset d L k z : sees d L → key_ok k → kind k = KindZset → sees (put_zset (key_text k) z d) (set_lz k z L).
Proof.
  intros Hd Hk Ek. assert (∃ o, put_zset (key_text k) z d = partial_alter (λ _, o) (key_text k) d ∧
    match o with None => Some ∅ | Some (RZset z) => Some z | _ => None end = Some z) as (o & -> & Ho).
  { unfold put_zset. case_decide; subst; eexists; split; reflexivity. }
  apply (sees_change d L); [done|done| |].
  - intros k' Hne. simpl. by rewrite upd_ne.
  - rewrite Ek. unfold zset_at. simpl. by rewrite lookup_partial_alter_eq, upd_eq.
Qed.
Lemma sees_delete d L k : sees d L → key_ok k → sees (delete (key_text k) d) (clear k L).
Proof.
  intros Hd Hk. apply (sees_change d L k None); [done|done| |].
  - intros k' Hne. simpl. by rewrite !upd_ne.
  - unfold set_at, hash_at, zset_at. simpl. rewrite lookup_partial_alter_eq, !upd_eq. by destruct (kind k).
Qed.

(** The commands on it. *)
Definition l_add (k : rkey) (x : string) (L : lstore) : lstore := set_ls k ({[x]} ∪ ls L k) L.
Definition l_rem (k : rkey) (x : string) (L : lstore) : lstore := set_ls k (ls L k ∖ {[x]}) L.
Definition l_hset (k : rkey) (f v : string) (L : lstore) : lstore := set_lh k (<[f := v]> (lh L k)) L.
Definition l_hdel (k : rkey) (f : string) (L : lstore) : lstore := set_lh k (delete f (lh L k)) L.
Definition l_zadd (k : rkey) (n : Z) (x : string) (L : lstore) : lstore := set_lz k (<[x := n]> (lz L k)) L.
Definition l_zrem (k : rkey) (x : string) (L : lstore) : lstore := set_lz k (delete x (lz L k)) L.

Section commands_seen.
Context `{Redis, !RedisLaws}.
Context (d : db) (L : lstore) (Hd : sees d L) (k : rkey) (Hk : key_ok k).

Lemma set_seen : kind k = KindSet → set_at d (key_text k) = Some (ls L k).
Proof. intros E. specialize (Hd k Hk). by rewrite E in Hd. Qed.
Lemma hash_seen : kind k = KindHash → hash_at d (key_text k) = Some (lh L k).
Proof. intros E. specialize (Hd k Hk). by rewrite E in Hd. Qed.
Lemma zset_seen : kind k = KindZset → zset_at d (key_text k) = Some (lz L k).
Proof. intros E. specialize (Hd k Hk). by rewrite E in Hd. Qed.

Lemma sadd_seen x : kind k = KindSet → ∃ d', SADD (key_text k) x d = Some d' ∧ sees d' (l_add k x L).
Proof. intros E. eexists. split; [by apply SADD_law, set_seen|]. by apply sees_put_set. Qed.
Lemma srem_seen x : kind k = KindSet →
  ∃ d', SREM (key_text k) x d = Some (d', bool_decide (x ∈ ls L k)) ∧ sees d' (l_rem k x L).
Proof. intros E. eexists. split; [by apply SREM_law, set_seen|]. by apply sees_put_set. Qed.
Lemma hset_seen f v : kind k = KindHash → ∃ d', HSET (key_text k) f v d = Some d' ∧ sees d' (l_hset k f v L).
Proof. intros E. eexists. split; [by apply HSET_law, hash_seen|]. by apply sees_put_hash. Qed.
Lemma hdel_seen f : kind k = KindHash → ∃ d', HDEL (key_text k) f d = Some d' ∧ sees d' (l_hdel k f L).
Proof. intros E. eexists. split; [by apply HDEL_law, hash_seen|]. by apply sees_put_hash. Qed.
Lemma zadd_seen n x : kind k = KindZset → - 2 ^ 31 <= n < 2 ^ 31 →
  ∃ d', ZADD (key_text k) (to_decimal n) x d = Some d' ∧ sees d' (l_zadd k n x L).
Proof. intros E Hn. eexists. split; [by apply ZADD_law; [apply zset_seen|]|]. by apply sees_put_zset. Qed.
Lemma zrem_seen x : kind k = KindZset → ∃ d', ZREM (key_text k) x d = Some d' ∧ sees d' (l_zrem k x L).
Proof. intros E. eexists. split; [by apply ZREM_law, zset_seen|]. by apply sees_put_zset. Qed.
Lemma del_seen : sees (DEL (key_text k) d) (clear k L).
Proof. rewrite DEL_law. by apply sees_delete. Qed.
Lemma sismember_seen x : kind k = KindSet → SISMEMBER (key_text k) x d = Some (bool_decide (x ∈ ls L k)).
Proof. intros E. by apply SISMEMBER_law, set_seen. Qed.
Lemma hget_seen f : kind k = KindHash → HGET (key_text k) f d = Some (lh L k !! f).
Proof. intros E. by apply HGET_law, hash_seen. Qed.
End commands_seen.

(** The next command of a script: [L'] is what is seen after it. *)
Tactic Notation "run_command" constr(lem) "as" ident(Hd) :=
  let d' := fresh "d" in let E := fresh "E" in
  destruct lem as (d' & E & Hd);
  match type of E with
  | ?lhs = _ =>
      match lhs with
      | SADD _ _ _ => match goal with |- context [SADD ?k ?x ?d] => change (SADD k x d) with lhs end
      | SREM _ _ _ => match goal with |- context [SREM ?k ?x ?d] => change (SREM k x d) with lhs end
      | HSET _ _ _ _ => match goal with |- context [HSET ?k ?f ?x ?d] => change (HSET k f x d) with lhs end
      | HDEL _ _ _ => match goal with |- context [HDEL ?k ?x ?d] => change (HDEL k x d) with lhs end
      | ZADD _ _ _ _ => match goal with |- context [ZADD ?k ?n ?x ?d] => change (ZADD k n x d) with lhs end
      | ZREM _ _ _ => match goal with |- context [ZREM ?k ?x ?d] => change (ZREM k x d) with lhs end
      end
  end;
  rewrite E; clear E; cbn [mbind option_bind].

(** ** The scripts on such a database *)

Section scripts_seen.
Context `{Redis, !RedisLaws, CJson}.

Definition l_update (g : generator) (t key attr val ts part : string) (seq : Z) (alarm : bool) (tbl : string)
    (L : lstore) : lstore :=
  let L := if alarm then L else l_hset (KKeyPart g t) key part (l_add (KPart part) (part_text g t key) L) in
  let L := l_add (KTypes g) t L in
  let L := l_add (KOrigins alarm key) (sm_type g t) L in
  let L := l_add (KTable alarm tbl) (uve_text key g t) L in
  let L := l_zadd (KUves g t) seq key L in
  l_hset (KValues key g t) "__T" ts (l_hset (KValues key g t) attr val L).

Definition ngen_text (g : generator) (inst : string) : string := dots [g_source g; g_node_type g; g_module g; inst].

Lemma uveupdate_seen d L g t key attr val ts part seq alarm tbl inst dbn : sees d L → generator_ok g → colonless t →
  - 2 ^ 31 <= seq < 2 ^ 31 →
  match uveupdate [key_text (KTypes g); key_text (KOrigins alarm key); key_text (KTable alarm tbl);
                   key_text (KUves g t); key_text (KValues key g t)]
          [g_source g; g_node_type g; g_module g; g_instance_id g; t; attr; key; to_decimal seq; val; dbn; part;
           bool_text alarm; inst; ts] d with
  | Some (d', r) =>
      if decide (ngen_text g inst ∈ ls L KNgen) then
        r = REDIS_REPLY_INTEGER 1 ∧ sees d' (l_update g t key attr val ts part seq alarm tbl L)
      else r = REDIS_REPLY_NIL ∧ d' = d
  | None => False
  end.
Proof.
  intros Hd Hg Ht Hn. unfold uveupdate. rewrite (sismember_seen d L Hd KNgen I _ eq_refl : SISMEMBER NGENERATORS _ d = _).
  fold (ngen_text g inst). cbn [mbind option_bind]. case_decide as Hin; [rewrite bool_decide_true by done|by rewrite bool_decide_false by done].
  cbn [negb]. rewrite EXPIRE_law. unfold l_update.
  assert (∃ d1, (if (bool_text alarm =? "0")%string then
      d ← SADD ("PART2KEY:" +:+ part) (dots [dots [g_source g; g_node_type g; g_module g; g_instance_id g]; t; key]) d;
      HSET ("KEY2PART:" +:+ dots [dots [g_source g; g_node_type g; g_module g; g_instance_id g]; t]) key part d
    else Some d) = Some d1 ∧ sees d1 (if alarm then L else
      l_hset (KKeyPart g t) key part (l_add (KPart part) (part_text g t key) L))) as (d1 & E1 & Hd1).
  { destruct alarm; [by exists d|]. cbn [bool_text String.eqb Ascii.eqb Bool.eqb].
    run_command (sadd_seen d L Hd (KPart part) I (part_text g t key) eq_refl) as Ha.
    run_command (hset_seen _ _ Ha (KKeyPart g t) (conj Hg Ht) key part eq_refl) as Hb. eauto. }
  simpl in E1 |- *. rewrite E1. clear E1. cbn [mbind option_bind].
  run_command (sadd_seen _ _ Hd1 (KTypes g) Hg t eq_refl) as Hd2.
  run_command (sadd_seen _ _ Hd2 (KOrigins alarm key) I (sm_type g t) eq_refl) as Hd3.
  run_command (sadd_seen _ _ Hd3 (KTable alarm tbl) I (uve_text key g t) eq_refl) as Hd4.
  run_command (zadd_seen _ _ Hd4 (KUves g t) (conj Hg Ht) seq key eq_refl Hn) as Hd5.
  run_command (hset_seen _ _ Hd5 (KValues key g t) (conj Hg Ht) attr val eq_refl) as Hd6.
  run_command (hset_seen _ _ Hd6 (KValues key g t) (conj Hg Ht) "__T"%string ts eq_refl) as Hd7.
  done.
Qed.

(** An attribute that is XML, as all that the collector stores are. *)
Definition xml_text (s : string) : Prop := String.get 0 s = Some "<"%char.

Lemma sub_del_seen d L k : sees d L → key_ok k → kind k = KindHash → map_Forall (λ _, xml_text) (lh L k) →
  sub_del (key_text k) d = Some d.
Proof.
  intros Hd Hk Ek Hx. unfold sub_del. destruct (HGETALL_law (key_text k) d (lh L k)) as (l & -> & Hp); [by apply hash_seen|].
  simpl. assert (Forall (λ e, xml_text e.2) l) as Hl.
  { rewrite Hp. apply map_Forall_to_list in Hx. eapply Forall_impl; [exact Hx|]. by intros []. }
  clear Hp. induction Hl as [|[a v] l Hv Hl IH]; [done|]. simpl. rewrite bool_decide_true by done. exact IH.
Qed.

Definition l_drop_part (g : generator) (t key : string) (L : lstore) : lstore :=
  match lh L (KKeyPart g t) !! key with
  | None => L
  | Some p => l_rem (KPart p) (part_text g t key) (l_hdel (KKeyPart g t) key L)
  end.
Lemma drop_part_seen d L g t key : sees d L → generator_ok g → colonless t →
  ∃ d', drop_part (generator_text g) t key d = Some d' ∧ sees d' (l_drop_part g t key L).
Proof.
  intros Hd Hg Ht. unfold drop_part, l_drop_part.
  rewrite (hget_seen d L Hd (KKeyPart g t) (conj Hg Ht) key eq_refl
    : HGET ("KEY2PART:" +:+ dots [generator_text g; t]) key d = _). cbn [mbind option_bind].
  destruct (lh L (KKeyPart g t) !! key) as [p|]; [|by exists d].
  run_command (hdel_seen _ _ Hd (KKeyPart g t) (conj Hg Ht) key eq_refl) as Ha.
  run_command (srem_seen _ _ Ha (KPart p) I (part_text g t key) eq_refl) as Hb. eauto.
Qed.

Definition l_delete (g : generator) (t key : string) (alarm : bool) (tbl : string) (L : lstore) : lstore :=
  let L := if alarm then L else l_drop_part g t key L in
  clear (KValues key g t) (l_rem (KTable alarm tbl) (uve_text key g t) (l_rem (KOrigins alarm key) (sm_type g t)
    (l_zrem (KUves g t) key L))).

Lemma uvedelete_seen d L g t key alarm tbl inst dbn : sees d L → generator_ok g → colonless t →
  map_Forall (λ _, xml_text) (lh L (KValues key g t)) →
  match uvedelete [key_text (KValues key g t); key_text (KUves g t); key_text (KOrigins alarm key);
                   key_text (KTable alarm tbl)]
          [g_source g; g_node_type g; g_module g; g_instance_id g; t; key; dbn; bool_text alarm; inst] d with
  | Some (d', r) =>
      if decide (ngen_text g inst ∈ ls L KNgen) then
        r = REDIS_REPLY_INTEGER 1 ∧ sees d' (l_delete g t key alarm tbl L)
      else r = REDIS_REPLY_NIL ∧ d' = d
  | None => False
  end.
Proof.
  intros Hd Hg Ht Hx. unfold uvedelete. rewrite (sismember_seen d L Hd KNgen I _ eq_refl : SISMEMBER NGENERATORS _ d = _).
  fold (ngen_text g inst). cbn [mbind option_bind]. case_decide as Hin; [rewrite bool_decide_true by done|by rewrite bool_decide_false by done].
  cbn [negb]. rewrite EXPIRE_law. unfold l_delete.
  assert (∃ d1, (if (bool_text alarm =? "1")%string then Some d else drop_part (generator_text g) t key d) = Some d1 ∧
    sees d1 (if alarm then L else l_drop_part g t key L)) as (d1 & E1 & Hd1).
  { destruct alarm; [by exists d|]. apply (drop_part_seen d L g t key Hd Hg Ht). }
  fold (generator_text g). rewrite E1. clear E1. cbn [mbind option_bind].
  rewrite (sub_del_seen d1 _ _ Hd1 (conj Hg Ht : key_ok (KValues key g t)) eq_refl).
  2: { destruct alarm; [done|]. unfold l_drop_part. case_match; [|done]. simpl. by rewrite upd_ne. }
  cbn [mbind option_bind].
  run_command (zrem_seen _ _ Hd1 (KUves g t) (conj Hg Ht) key eq_refl) as Ha.
  run_command (srem_seen _ _ Ha (KOrigins alarm key) I (sm_type g t) eq_refl) as Hb.
  run_command (srem_seen _ _ Hb (KTable alarm tbl) I (uve_text key g t) eq_refl) as Hc.
  split; [done|]. rewrite EXISTS_law, DEL_law.
  pose proof (sees_delete _ _ (KValues key g t) Hc (conj Hg Ht)) as Hs.
  case_bool_decide as He; [exact Hs|]. rewrite delete_id in Hs; [exact Hs|]. by apply eq_None_not_Some.
Qed.

Definition l_delete_uve (g : generator) (t : string) (L : lstore) (key : string) : lstore :=
  let tbl := default EmptyString (before_colon key) in
  let L := clear (KValues key g t) (l_drop_part g t key L) in
  let L' := l_rem (KOrigins false key) (sm_type g t) L in
  if decide (sm_type g t ∈ ls L (KOrigins false key)) then l_rem (KTable false tbl) (uve_text key g t) L'
  else l_rem (KTable true tbl) (uve_text key g t) (l_rem (KOrigins true key) (sm_type g t) L').

Lemma delete_uve_seen d L g t key : sees d L → generator_ok g → colonless t → is_Some (before_colon key) →
  ∃ d', delete_uve (generator_text g) t key d = Some d' ∧ sees d' (l_delete_uve g t L key).
Proof.
  intros Hd Hg Ht [tbl Etbl]. unfold delete_uve, l_delete_uve. rewrite Etbl. cbn [mbind option_bind default].
  destruct (drop_part_seen d L g t key Hd Hg Ht) as (d1 & -> & Hd1). cbn [mbind option_bind].
  pose proof (del_seen _ _ Hd1 (KValues key g t) (conj Hg Ht)) as Hd2. simpl key_text in Hd2.
  set (d2 := DEL _ d1) in *. clearbody d2. set (L2 := clear _ _) in *.
  run_command (srem_seen _ _ Hd2 (KOrigins false key) I (sm_type g t) eq_refl) as Ha.
  case_bool_decide as Hin; [rewrite decide_True by done|rewrite decide_False by done].
  - run_command (srem_seen _ _ Ha (KTable false tbl) I (uve_text key g t) eq_refl) as Hb. eauto.
  - run_command (srem_seen _ _ Ha (KOrigins true key) I (sm_type g t) eq_refl) as Hb.
    run_command (srem_seen _ _ Hb (KTable true tbl) I (uve_text key g t) eq_refl) as Hc. eauto.
Qed.

Lemma delete_uves_seen g t : generator_ok g → colonless t → ∀ lres d L citer res, sees d L →
  Forall (λ e, is_Some (before_colon e.1)) lres →
  ∃ d', delete_uves (generator_text g) t lres citer res d = Some (d', res ++ concat ((λ e, [e.1; t]) <$> lres)) ∧
    sees d' (foldl (l_delete_uve g t) L lres.*1).
Proof.
  intros Hg Ht lres. induction lres as [|[key n] lres IH]; intros d L citer res Hd Hl.
  { exists d. simpl. by rewrite app_nil_r. }
  inversion_clear Hl as [|?? Hk Hl']. simpl in Hk. destruct (delete_uve_seen d L g t key Hd Hg Ht Hk) as (d1 & E & Hd1).
  simpl. rewrite E. simpl. rewrite EXPIRE_law.
  destruct (IH d1 _ 1 (res ++ [key; t]) Hd1 Hl') as (d2 & E2 & Hd2).
  destruct (IH d1 _ (citer + 2) (res ++ [key; t]) Hd1 Hl') as (d3 & E3 & Hd3).
  rewrite <- !(assoc_L (++)) in E2, E3. destruct (100 <? citer); eauto.
Qed.
End scripts_seen.

(** ** What the database means *)

(** A UVE: the sequence number of its last update and its attributes. *)
Record uve := { u_seq : Z; u_attrs : gmap string string }.
Abbreviation uves := (gmap (generator * string * string) uve).

Lemma l_update_sees g t key attr val ts part seq al tbl L (L' := l_update g t key attr val ts part seq al tbl L) :
  (∀ g', ls L' (KTypes g') = if decide (g' = g) then {[t]} ∪ ls L (KTypes g') else ls L (KTypes g')) ∧
  (∀ al' key', ls L' (KOrigins al' key') =
     if decide (al' = al ∧ key' = key) then {[sm_type g t]} ∪ ls L (KOrigins al' key') else ls L (KOrigins al' key')) ∧
  (∀ al' tbl', ls L' (KTable al' tbl') =
     if decide (al' = al ∧ tbl' = tbl) then {[uve_text key g t]} ∪ ls L (KTable al' tbl') else ls L (KTable al' tbl')) ∧
  (∀ p, ls L' (KPart p) =
     if decide (al = false ∧ p = part) then {[part_text g t key]} ∪ ls L (KPart p) else ls L (KPart p)) ∧
  ls L' KNgen = ls L KNgen ∧
  (∀ g' t', lh L' (KKeyPart g' t') =
     if decide (al = false ∧ g' = g ∧ t' = t) then <[key := part]> (lh L (KKeyPart g' t')) else lh L (KKeyPart g' t')) ∧
  (∀ key' g' t', lh L' (KValues key' g' t') =
     if decide (key' = key ∧ g' = g ∧ t' = t) then <["__T"%string := ts]> (<[attr := val]> (lh L (KValues key' g' t')))
     else lh L (KValues key' g' t')) ∧
  (∀ g' t', lz L' (KUves g' t') =
     if decide (g' = g ∧ t' = t) then <[key := seq]> (lz L (KUves g' t')) else lz L (KUves g' t')).
Proof.
  subst L'. unfold l_update. destruct al; split_and!; intros; simpl; unfold upd; repeat case_decide; destruct_and?; simplify_eq;
    try done; naive_solver.
Qed.

(** An element is added to a set under a condition. *)
Lemma elem_of_added {P : Prop} `{!Decision P} (x y : string) (s : gset string) (Q R : Prop) :
  (x ∈ s ↔ Q) → (P ∧ x = y ∨ Q ↔ R) → x ∈ (if decide P then {[y]} ∪ s else s) ↔ R.
Proof. intros HQ HR. case_decide; rewrite <- HR, <- HQ; [rewrite elem_of_union, elem_of_singleton|]; tauto. Qed.

Lemma lookup_insert_uve (a : uves) g t key u g' t' key' :
  is_Some (<[(g, t, key) := u]> a !! (g', t', key')) ↔ (g' = g ∧ t' = t ∧ key' = key) ∨ is_Some (a !! (g', t', key')).
Proof. rewrite lookup_insert_is_Some'. naive_solver. Qed.

(** One UVE is taken out of the indices; with [z] out of the sequence numbers too. *)
Record cleared (z : bool) (al : bool) (tbl : string) (g : generator) (t key : string) (L L' : lstore) : Prop := {
  cl_types g' : ls L' (KTypes g') = ls L (KTypes g');
  cl_ngen : ls L' KNgen = ls L KNgen;
  cl_origins al' key' x : x ∈ ls L' (KOrigins al' key') ↔
    x ∈ ls L (KOrigins al' key') ∧ ~ (al' = al ∧ key' = key ∧ x = sm_type g t);
  cl_table al' tbl' x : x ∈ ls L' (KTable al' tbl') ↔
    x ∈ ls L (KTable al' tbl') ∧ ~ (al' = al ∧ tbl' = tbl ∧ x = uve_text key g t);
  cl_part p x : x ∈ ls L' (KPart p) ↔
    x ∈ ls L (KPart p) ∧ ~ (lh L (KKeyPart g t) !! key = Some p ∧ x = part_text g t key);
  cl_keypart g' t' key' : lh L' (KKeyPart g' t') !! key' =
    if decide ((g', t', key') = (g, t, key)) then None else lh L (KKeyPart g' t') !! key';
  cl_values g' t' key' : lh L' (KValues key' g' t') =
    if decide ((g', t', key') = (g, t, key)) then ∅ else lh L (KValues key' g' t');
  cl_seq g' t' key' : lz L' (KUves g' t') !! key' =
    if decide (z = true ∧ (g', t', key') = (g, t, key)) then None else lz L (KUves g' t') !! key'
}.

Lemma elem_of_less (P : Prop) `{!Decision P} (x y : string) (s : gset string) :
  x ∈ (if decide P then s ∖ {[y]} else s) ↔ x ∈ s ∧ ~ (P ∧ x = y).
Proof. destruct (decide P); [rewrite elem_of_difference, elem_of_singleton|]; tauto. Qed.

Lemma l_drop_part_sees g t key L (L' := l_drop_part g t key L) :
  (∀ k, (∀ p, k ≠ KPart p) → ls L' k = ls L k) ∧
  (∀ p, ls L' (KPart p) = if decide (lh L (KKeyPart g t) !! key = Some p)
                          then ls L (KPart p) ∖ {[part_text g t key]} else ls L (KPart p)) ∧
  (∀ g' t' key', lh L' (KKeyPart g' t') !! key' =
     if decide ((g', t', key') = (g, t, key)) then None else lh L (KKeyPart g' t') !! key') ∧
  (∀ key' g' t', lh L' (KValues key' g' t') = lh L (KValues key' g' t')) ∧ lz L' = lz L.
Proof.
  subst L'. unfold l_drop_part. destruct (lh L (KKeyPart g t) !! key) as [q|] eqn:E; split_and!; intros; simpl; unfold upd;
    try done.
  - destruct (decide (k = KPart q)) as [->|]; [by destruct (H q)|done].
  - destruct (decide (KPart p = KPart q)), (decide (Some q = Some p)); simplify_eq; done.
  - destruct (decide (KKeyPart g' t' = KKeyPart g t)), (decide ((g', t', key') = (g, t, key))); simplify_eq; try done.
    + by rewrite lookup_delete_eq.
    + rewrite lookup_delete_ne; [done|]. naive_solver.
  - destruct (decide ((g', t', key') = (g, t, key))); [by simplify_eq|done].
Qed.

Lemma cleared_delete al tbl g t key L : (al = true → lh L (KKeyPart g t) !! key = None) →
  cleared true al tbl g t key L (l_delete g t key al tbl L).
Proof.
  intros Hal. unfold l_delete.
  assert (∃ L1, (if al then L else l_drop_part g t key L) = L1 ∧
    (∀ k, (∀ p, k ≠ KPart p) → ls L1 k = ls L k) ∧
    (∀ p x, x ∈ ls L1 (KPart p) ↔ x ∈ ls L (KPart p) ∧ ~ (lh L (KKeyPart g t) !! key = Some p ∧ x = part_text g t key)) ∧
    (∀ g' t' key', lh L1 (KKeyPart g' t') !! key' =
       if decide ((g', t', key') = (g, t, key)) then None else lh L (KKeyPart g' t') !! key') ∧
    (∀ key' g' t', lh L1 (KValues key' g' t') = lh L (KValues key' g' t')) ∧ lz L1 = lz L) as (L1 & -> & E1 & E2 & E3 & E4 & E5).
  { destruct al.
    - exists L. rewrite Hal by done. split_and!; try done; [naive_solver|]. intros.
      destruct (decide _) as [[= -> -> ->]|]; [by apply Hal|done].
    - destruct (l_drop_part_sees g t key L) as (E1 & E2 & E3 & E4 & E5). eexists. split_and!; [done..| |done|done|done].
      intros p x. rewrite E2. apply elem_of_less. }
  split; intros; simpl.
  - by apply E1.
  - by apply E1.
  - unfold upd. rewrite decide_False by done. rewrite !decide_False by done.
    rewrite <- (E1 (KOrigins al' key')) by done.
    destruct (decide (KOrigins al' key' = KOrigins al key)) as [[= -> ->]|]; [rewrite elem_of_difference, elem_of_singleton|]; naive_solver.
  - unfold upd. rewrite decide_False by done. rewrite <- (E1 (KTable al' tbl')) by done.
    destruct (decide (KTable al' tbl' = KTable al tbl)) as [[= -> ->]|]; [rewrite elem_of_difference, elem_of_singleton|];
      rewrite ?decide_False by done; naive_solver.
  - apply E2.
  - apply E3.
  - unfold upd. rewrite E4. destruct (decide (KValues key' g' t' = _)), (decide ((g', t', key') = _)); simplify_eq; done.
  - unfold upd. rewrite !decide_False by done. rewrite E5. destruct (decide (KUves g' t' = _)) as [[= -> ->]|].
    + destruct (decide _) as [[_ [= ->]]|]; [by rewrite lookup_delete_eq|rewrite lookup_delete_ne; [done|naive_solver]].
    + rewrite decide_False by naive_solver. done.
Qed.

Lemma cleared_delete_uve g t key tbl L : before_colon key = Some tbl →
  cleared false (negb (bool_decide (sm_type g t ∈ ls L (KOrigins false key)))) tbl g t key L (l_delete_uve g t L key).
Proof.
  intros Htbl. unfold l_delete_uve. rewrite Htbl. cbn [default]. cbv zeta.
  destruct (l_drop_part_sees g t key L) as (E1 & E2 & E3 & E4 & E5). set (L1 := l_drop_part g t key L) in *. clearbody L1.
  assert (ls (clear (KValues key g t) L1) (KOrigins false key) = ls L (KOrigins false key)) as -> by (simpl; unfold upd; by rewrite decide_False, E1).
  assert (∀ al' key' x, x ∈ ls L (KOrigins al' key') ↔ x ∈ ls L1 (KOrigins al' key')) as EO by (intros; by rewrite E1).
  assert (∀ al' tbl' x, x ∈ ls L (KTable al' tbl') ↔ x ∈ ls L1 (KTable al' tbl')) as ET by (intros; by rewrite E1).
  case_bool_decide as Hin; [rewrite decide_True by done|rewrite decide_False by done]; simpl; split; intros; simpl; unfold upd;
    repeat (rewrite decide_False by (done || by intros [? ?])); try by apply E1.
  all: try (rewrite E2; apply elem_of_less).
  all: try apply E3.
  all: try (rewrite E5; done).
  all: try (rewrite E4; destruct (decide (KValues key' g' t' = _)), (decide ((g', t', key') = _)); simplify_eq; done).
  - rewrite EO. destruct (decide (KOrigins al' key' = _)) as [[= -> ->]|]; [rewrite elem_of_difference, elem_of_singleton|]; naive_solver.
  - rewrite ET. destruct (decide (KTable al' tbl' = _)) as [[= -> ->]|]; [rewrite elem_of_difference, elem_of_singleton|]; naive_solver.
  - apply EO in Hin || rewrite EO in Hin. rewrite EO.
    destruct (decide (KOrigins al' key' = KOrigins true key)) as [[= -> ->]|].
    + rewrite decide_False by done. rewrite elem_of_difference, elem_of_singleton. naive_solver.
    + destruct (decide (KOrigins al' key' = KOrigins false key)) as [[= -> ->]|]; [rewrite elem_of_difference, elem_of_singleton|]; naive_solver.
  - rewrite ET. destruct (decide (KTable al' tbl' = _)) as [[= -> ->]|]; [rewrite elem_of_difference, elem_of_singleton|]; naive_solver.
Qed.

Lemma lookup_delete_uve (a : uves) g t key g' t' key' :
  delete (g, t, key) a !! (g', t', key') = if decide ((g', t', key') = (g, t, key)) then None else a !! (g', t', key').
Proof. destruct (decide _) as [[= -> -> ->]|]; [by rewrite lookup_delete_eq|by rewrite lookup_delete_ne]. Qed.

Section meaning.
Context (alarm_type : string → bool) (part_of : string → string).

(** The indices agree on the UVEs [a]; [x] is a type whose sequence numbers are
    gone. *)
Record rep_but (x : option (generator * string)) (L : lstore) (a : uves) : Prop := {
  rp_ok g t key u : a !! (g, t, key) = Some u →
    generator_ok g ∧ colonless t ∧ is_Some (before_colon key) ∧ map_Forall (λ _, xml_text) (u_attrs u) ∧
    t ∈ ls L (KTypes g);
  rp_types g t : generator_ok g → t ∈ ls L (KTypes g) → colonless t;
  rp_seq g t key : generator_ok g → colonless t →
    lz L (KUves g t) !! key = if decide (x = Some (g, t)) then None else u_seq <$> a !! (g, t, key);
  rp_attrs g t key : generator_ok g → colonless t →
    lh L (KValues key g t) = from_option u_attrs ∅ (a !! (g, t, key));
  rp_origins g t key al : generator_ok g → colonless t →
    sm_type g t ∈ ls L (KOrigins al key) ↔ al = alarm_type t ∧ is_Some (a !! (g, t, key));
  rp_table g t key al tbl : generator_ok g → colonless t →
    uve_text key g t ∈ ls L (KTable al tbl) ↔ al = alarm_type t ∧ is_Some (a !! (g, t, key)) ∧ before_colon key = Some tbl;
  rp_keypart g t key : generator_ok g → colonless t →
    lh L (KKeyPart g t) !! key = if alarm_type t then None else (λ _, part_of key) <$> a !! (g, t, key);
  rp_part g t key p : generator_ok g → colonless t →
    part_text g t key ∈ ls L (KPart p) ↔ alarm_type t = false ∧ is_Some (a !! (g, t, key)) ∧ p = part_of key
}.
Abbreviation rep := (rep_but None).

(** An update of one attribute. *)
Definition update_attrs (attr val ts : string) (seq : Z) (o : option uve) : uve := {|
  u_seq := seq; u_attrs := <["__T"%string := ts]> (<[attr := val]> (from_option u_attrs ∅ o)) |}.

Lemma rep_update L a g t key attr val ts seq tbl : rep L a → generator_ok g → colonless t →
  before_colon key = Some tbl → xml_text val → xml_text ts →
  rep (l_update g t key attr val ts (part_of key) seq (alarm_type t) tbl L)
    (<[(g, t, key) := update_attrs attr val ts seq (a !! (g, t, key))]> a).
Proof.
  intros [H1 H2 H3 H4 H5 H6 H7 H8] Hg Ht Htbl Hval Hts.
  destruct (l_update_sees g t key attr val ts (part_of key) seq (alarm_type t) tbl L) as (E1 & E2 & E3 & E4 & _ & E6 & E7 & E8).
  cbv zeta in *. split.
  - intros g' t' key' u'. rewrite lookup_insert_Some, E1. intros [[[= <- <- <-] <-]|[Hne E]].
    + rewrite decide_True by done. split; [exact Hg|]. split; [exact Ht|]. split; [by rewrite Htbl|]. split; [|apply elem_of_union; left; by apply elem_of_singleton].
      unfold update_attrs. cbn [u_attrs]. do 2 (apply map_Forall_insert_2; [assumption|]).
      destruct (a !! (g, t, key)) as [u|] eqn:E; [|apply map_Forall_empty]. by destruct (H1 _ _ _ _ E) as (_ & _ & _ & ? & _).
    + destruct (H1 _ _ _ _ E) as (? & ? & ? & ? & ?). do 4 (split; [assumption|]). destruct (decide (g' = g)); [apply elem_of_union; by right|done].
  - intros g' t' Hg'. rewrite E1. destruct (decide (g' = g)) as [->|]; [|by apply H2].
    rewrite elem_of_union, elem_of_singleton. intros [->|]; [done|]. by apply (H2 g).
  - intros g' t' key' Hg' Ht'. rewrite decide_False by done. rewrite E8. specialize (H3 g' t' key' Hg' Ht').
    rewrite decide_False in H3 by done. destruct (decide (g' = g ∧ t' = t)) as [[-> ->]|Eg].
    + destruct (decide (key' = key)) as [->|]; [by rewrite !lookup_insert_eq|].
      by rewrite !lookup_insert_ne by congruence.
    + rewrite lookup_insert_ne, H3; [done|]. naive_solver.
  - intros g' t' key' Hg' Ht'. rewrite E7, (H4 _ _ _ Hg' Ht'). destruct (decide (key' = key ∧ g' = g ∧ t' = t)) as [(-> & -> & ->)|Eg].
    + by rewrite lookup_insert_eq.
    + rewrite lookup_insert_ne; [done|]. naive_solver.
  - intros g' t' key' al Hg' Ht'. rewrite E2. eapply elem_of_added; [by apply H5|]. rewrite lookup_insert_uve.
    split; [intros [[[-> ->] Et]|[-> ?]]|intros [-> [(-> & -> & ->)|?]]].
    + apply sm_type_inj in Et as [-> ->]; [|done..]. split; [done|by left].
    + split; [done|by right].
    + by left.
    + by right.
  - intros g' t' key' al tbl' Hg' Ht'. rewrite E3. eapply elem_of_added; [by apply H6|]. rewrite lookup_insert_uve.
    split; [intros [[[-> ->] Et]|(-> & ? & ?)]|intros (-> & [(-> & -> & ->)|?] & Eb)].
    + apply uve_text_inj in Et as (-> & -> & ->); [|done..]. split_and!; [done|by left|done].
    + split_and!; [done|by right|done].
    + left. rewrite Htbl in Eb. by injection Eb as ->.
    + by right.
  - intros g' t' key' Hg' Ht'. rewrite E6. specialize (H7 g' t' key' Hg' Ht'). destruct (decide (alarm_type t = false ∧ g' = g ∧ t' = t)) as [(Eal & -> & ->)|Eg].
    + rewrite Eal in H7 |- *. destruct (decide (key' = key)) as [->|].
      * by rewrite !lookup_insert_eq.
      * by rewrite !lookup_insert_ne by congruence.
    + rewrite H7. destruct (alarm_type t') eqn:Eal; [done|]. rewrite lookup_insert_ne; [done|].
      intros [= -> -> ->]. by apply Eg.
  - intros g' t' key' p Hg' Ht'. rewrite E4. eapply elem_of_added; [by apply H8|]. rewrite lookup_insert_uve.
    split; [intros [[[? ->] Et]|(? & ? & ->)]|intros (? & [(-> & -> & ->)|?] & ->)].
    + apply part_text_inj in Et as (-> & -> & ->); [|done..]. split_and!; [done|by left|done].
    + split_and!; [done|by right|done].
    + by left.
    + by right.
Qed.

Lemma rep_cleared x z al tbl g t key L L' a : rep_but x L a → generator_ok g → colonless t →
  before_colon key = Some tbl → al = alarm_type t → z = true ∨ x = Some (g, t) → cleared z al tbl g t key L L' →
  rep_but x L' (delete (g, t, key) a).
Proof.
  intros [H1 H2 H3 H4 H5 H6 H7 H8] Hg Ht Htbl -> Hz [E1 _ E2 E3 E4 E5 E6 E7]. split.
  - intros g' t' key' u' [_ E]%lookup_delete_Some. rewrite E1. by apply (H1 _ _ _ _ E).
  - intros g' t'. rewrite E1. apply H2.
  - intros g' t' key' Hg' Ht'. rewrite E7, lookup_delete_uve, (H3 _ _ _ Hg' Ht').
    destruct (decide ((g', t', key') = (g, t, key))) as [[= -> -> ->]|].
    + destruct Hz as [->| ->]; [by rewrite decide_True; destruct (decide (x = _))|].
      destruct (decide (z = true ∧ _)); [|rewrite (decide_True (P := Some (g, t) = Some (g, t))) by done]; by destruct (decide (Some (g, t) = _)).
    + by rewrite (decide_False (P := z = true ∧ _)) by naive_solver.
  - intros g' t' key' Hg' Ht'. rewrite E6, lookup_delete_uve. destruct (decide _); [done|by apply H4].
  - intros g' t' key' al Hg' Ht'. rewrite E2, (H5 _ _ _ _ Hg' Ht'), lookup_delete_uve.
    destruct (decide ((g', t', key') = (g, t, key))) as [[= -> -> ->]|Hne].
    + split; [|by intros [_ []%is_Some_None]]. intros [[-> _] Hn]. by destruct Hn.
    + split; [by intros [? _]|]. intros Hq. split; [done|]. intros (-> & -> & [-> ->]%sm_type_inj); done.
  - intros g' t' key' al tbl' Hg' Ht'. rewrite E3, (H6 _ _ _ _ _ Hg' Ht'), lookup_delete_uve.
    destruct (decide ((g', t', key') = (g, t, key))) as [[= -> -> ->]|Hne].
    + split; [|by intros (_ & []%is_Some_None & _)]. intros [(-> & _ & Eb) Hn]. rewrite Htbl in Eb. injection Eb as ->. by destruct Hn.
    + split; [by intros [? _]|]. intros Hq. split; [done|]. intros (-> & -> & (-> & -> & ->)%uve_text_inj); done.
  - intros g' t' key' Hg' Ht'. rewrite E5, lookup_delete_uve, (H7 _ _ _ Hg' Ht').
    destruct (decide _); [by destruct (alarm_type t')|done].
  - intros g' t' key' p Hg' Ht'. rewrite E4, (H8 _ _ _ _ Hg' Ht'), (H7 _ _ _ Hg Ht), lookup_delete_uve.
    destruct (decide ((g', t', key') = (g, t, key))) as [[= -> -> ->]|Hne].
    + split; [|by intros (_ & []%is_Some_None & _)]. intros [(Eal & [u Eu] & ->) Hn]. rewrite Eal, Eu in Hn. by destruct Hn.
    + split; [by intros [? _]|]. intros Hq. split; [done|]. intros (_ & (-> & -> & ->)%part_text_inj); done.
Qed.

(** *** Deleting what a generator has *)

Definition remove_type (g : generator) (t : string) (a : uves) : uves := filter (λ e, e.1.1 ≠ (g, t)) a.
Definition remove_generator (g : generator) (a : uves) : uves := filter (λ e, e.1.1.1 ≠ g) a.

Lemma lookup_remove_type (g : generator) (t : string) (a : uves) (g' : generator) (t' key : string) :
  remove_type g t a !! (g', t', key) = if decide ((g', t') = (g, t)) then None else a !! (g', t', key).
Proof.
  unfold remove_type. destruct (decide _) as [E|E].
  - apply map_lookup_filter_None. right. intros u _ Hn. by apply Hn.
  - destruct (a !! (g', t', key)) as [u|] eqn:Eu.
    + by apply map_lookup_filter_Some.
    + apply map_lookup_filter_None. by left.
Qed.
Lemma lookup_remove_generator (g : generator) (a : uves) (g' : generator) (t' key : string) :
  remove_generator g a !! (g', t', key) = if decide (g' = g) then None else a !! (g', t', key).
Proof.
  unfold remove_generator. destruct (decide _) as [E|E].
  - apply map_lookup_filter_None. right. intros u _ Hn. by apply Hn.
  - destruct (a !! (g', t', key)) as [u|] eqn:Eu.
    + by apply map_lookup_filter_Some.
    + apply map_lookup_filter_None. by left.
Qed.

Lemma rep_delete_uves g t keys L a : rep_but (Some (g, t)) L a → generator_ok g → colonless t → NoDup keys →
  Forall (λ key, is_Some (a !! (g, t, key))) keys →
  ∃ a', rep_but (Some (g, t)) (foldl (l_delete_uve g t) L keys) a' ∧
    ls (foldl (l_delete_uve g t) L keys) KNgen = ls L KNgen ∧
    (∀ g', ls (foldl (l_delete_uve g t) L keys) (KTypes g') = ls L (KTypes g')) ∧
    ∀ g' t' key', a' !! (g', t', key') = if decide ((g', t') = (g, t) ∧ key' ∈ keys) then None else a !! (g', t', key').
Proof.
  intros Hr Hg Ht Hnd. revert L a Hr. induction Hnd as [|key keys Hni Hnd IH]; intros L a Hr Hk; simpl.
  { exists a. split_and!; try done. intros. by rewrite decide_False by (by intros [_ []%elem_of_nil]). }
  inversion_clear Hk as [|?? [u Eu] Hk']. destruct (rp_ok _ _ _ Hr _ _ _ _ Eu) as (_ & _ & [tbl Htbl] & _).
  pose proof (cleared_delete_uve g t key tbl L Htbl) as Hc.
  assert (negb (bool_decide (sm_type g t ∈ ls L (KOrigins false key))) = alarm_type t) as Eal.
  { pose proof (rp_origins _ _ _ Hr g t key false Hg Ht) as Ho. rewrite Eu in Ho.
    case_bool_decide as Hin; destruct (alarm_type t); try done; [by apply Ho in Hin as [? _]|]. destruct Hin. apply Ho. split; [done|by eexists]. }
  pose proof (rep_cleared _ _ _ _ _ _ _ _ _ _ Hr Hg Ht Htbl Eal (or_intror eq_refl) Hc) as Hr'.
  destruct (IH _ _ Hr') as (a' & Hra & Hn & Hty & Hl).
  { eapply Forall_impl; [apply Forall_and; split; [exact Hk'|]|].
    - apply Forall_forall. intros key' Hin. exact (λ E : key' = key, Hni (eq_ind key' (λ x, x ∈ keys) Hin key E)).
    - simpl. intros key' [[u' Eu'] Hne]. rewrite lookup_delete_uve, decide_False by naive_solver. by eexists. }
  exists a'. split; [done|]. split; [by rewrite Hn, (cl_ngen _ _ _ _ _ _ _ _ Hc)|].
  split; [intros; by rewrite Hty, (cl_types _ _ _ _ _ _ _ _ Hc)|].
  intros g' t' key'. rewrite Hl, lookup_delete_uve.
  destruct (decide ((g', t') = (g, t) ∧ key' ∈ keys)) as [[E Hin]|Hn1].
  - by rewrite decide_True by (split; [done|by right]).
  - destruct (decide ((g', t', key') = (g, t, key))) as [[= -> -> ->]|Hn2].
    + by rewrite decide_True by (split; [done|by left]).
    + rewrite decide_False; [done|]. intros [[= -> ->] [->|]%elem_of_cons]; naive_solver.
Qed.

(** A type of a generator. *)
Lemma rep_delete_type g t keys L a : rep L a → generator_ok g → colonless t → NoDup keys →
  (∀ key, key ∈ keys ↔ is_Some (a !! (g, t, key))) →
  let L' := foldl (l_delete_uve g t) (clear (KUves g t) L) keys in
  rep L' (remove_type g t a) ∧ ls L' KNgen = ls L KNgen ∧ ∀ g', ls L' (KTypes g') = ls L (KTypes g').
Proof.
  intros Hr Hg Ht Hnd Hk L'. subst L'.
  assert (rep_but (Some (g, t)) (clear (KUves g t) L) a) as Hr'.
  { destruct Hr as [H1 H2 H3 H4 H5 H6 H7 H8]. split; intros; simpl; unfold upd; try (rewrite decide_False by done); eauto.
    specialize (H3 g0 t0 key H H0). rewrite decide_False in H3 by done.
    destruct (decide (KUves g0 t0 = KUves g t)) as [[= -> ->]|].
    - by rewrite decide_True, lookup_empty.
    - rewrite (decide_False (P := Some (g, t) = _)) by naive_solver. exact H3. }
  destruct (rep_delete_uves g t keys _ _ Hr' Hg Ht Hnd) as (a' & Hra & Hn & Hty & Hl).
  { apply Forall_forall. intros key Hin. by apply Hk. }
  assert (a' = remove_type g t a) as <-.
  { apply map_eq. intros [[g' t'] key']. rewrite Hl, lookup_remove_type.
    destruct (decide ((g', t') = (g, t))) as [[= -> ->]|]; [|by rewrite decide_False by naive_solver].
    destruct (decide _) as [?|Hne]; [done|]. destruct (a !! (g, t, key')) eqn:E; [|done].
    destruct Hne. split; [done|]. apply Hk. by rewrite E. }
  split; [|split].
  - destruct Hra as [H1 H2 H3 H4 H5 H6 H7 H8]. split; eauto. intros g' t' key' Hg' Ht'. rewrite decide_False by done.
    rewrite (H3 _ _ _ Hg' Ht'). destruct (decide (Some (g, t) = Some (g', t'))) as [[= -> ->]|]; [|done].
    rewrite Hl. destruct (decide _) as [|Hne]; [done|]. destruct (a !! (g', t', key')) eqn:E; [|done].
    destruct Hne. split; [done|]. apply Hk. by rewrite E.
  - rewrite Hn. simpl. unfold upd. by rewrite decide_False.
  - intros g'. rewrite Hty. simpl. unfold upd. by rewrite decide_False.
Qed.
End meaning.

(** ** Texts of the commands *)

Definition nul_free (s : string) : Prop := has_char "000" s = false.
Lemma nul_free_app s t : nul_free s → nul_free t → nul_free (s +:+ t).
Proof. unfold nul_free. rewrite has_char_app. by intros -> ->. Qed.
Lemma nul_free_dots l : Forall nul_free l → nul_free (dots l).
Proof.
  induction 1 as [|s l Hs Hl IH]; [done|]. destruct l; [done|]. rewrite dots_cons. by repeat apply nul_free_app.
Qed.
Lemma all_digits_nul_free s : all_digits s = true → nul_free s.
Proof.
  induction s as [|c s IH]; [done|]. simpl. intros [Hc Hs]%andb_true_iff. unfold nul_free. simpl. rewrite (IH Hs).
  destruct c as [[] [] [] [] [] [] [] []]; try done.
Qed.
Lemma to_decimal_neg n : n < 0 → to_decimal n = "-" +:+ to_decimal (- n).
Proof. by destruct n. Qed.
Lemma nul_free_decimal n : nul_free (to_decimal n).
Proof.
  destruct (Z.neg_nonneg_cases n); [rewrite to_decimal_neg by done; apply nul_free_app; [done|]|];
    apply all_digits_nul_free, all_digits_pretty; lia.
Qed.
Lemma atoi_decimal n : - 2 ^ 31 <= n < 2 ^ 31 → atoi (to_decimal n) = n.
Proof.
  intros Hn. unfold atoi. assert (signed_prefix (to_decimal n) = n) as ->.
  { destruct (Z.neg_nonneg_cases n) as [Hl|Hl].
    - rewrite to_decimal_neg by done. change (signed_prefix ("-" +:+ to_decimal (- n))) with (- digits_val (to_decimal (- n)) 0).
      unfold to_decimal. rewrite digits_val_pretty; lia.
    - unfold to_decimal. rewrite signed_prefix_digits, digits_val_pretty by (try apply all_digits_pretty; lia). done. }
  unfold i32. rewrite Z.max_r, Z.min_r, Z.mod_small by lia. lia.
Qed.
Lemma c_str_all l : Forall nul_free l → c_str <$> l = l.
Proof. induction 1 as [|s l Hs Hl IH]; [done|]. by rewrite fmap_cons, c_str_id, IH. Qed.

Lemma before_colon_split key tbl : before_colon key = Some tbl →
  ∃ s, key = tbl +:+ String ":" s ∧ has_char ":" tbl = false.
Proof.
  revert tbl. induction key as [|c key IH]; intros tbl E; [done|]. simpl in E.
  destruct (c =? ":")%char eqn:Ec.
  - injection E as <-. apply Ascii.eqb_eq in Ec as ->. by exists key.
  - destruct (before_colon key) as [b|]; [|done]. injection E as <-. destruct (IH b eq_refl) as (s & -> & Hb).
    exists s. split; [done|]. simpl. by rewrite Ec, Hb.
Qed.
Lemma table_of_key key tbl : before_colon key = Some tbl → table_of key = Some tbl.
Proof.
  intros (s & -> & Hc)%before_colon_split.
  unfold table_of, find. rewrite (find_at_first ":" tbl s 0 0 Hc) by (pose proof (size_nonneg tbl); lia).
  replace (0 + size tbl) with (size tbl) by lia. apply substr_take.
Qed.
Lemma nul_free_table key tbl : before_colon key = Some tbl → nul_free key → nul_free tbl.
Proof. intros (s & -> & _)%before_colon_split. unfold nul_free. rewrite has_char_app. by intros [? _]%orb_false_iff. Qed.

Ltac solve_nul_free :=
  repeat first [assumption | reflexivity | apply nul_free_decimal | apply nul_free_app | apply nul_free_dots
               | apply Forall_nil | apply Forall_cons; split].

(** ** The store of a collector *)

Section store.
Context `{Redis, !RedisLaws, CJson, CollectorProcess}.
(** The types of alarms, and the partition of a UVE. *)
Context (alarm_type : string → bool) (part : string → Z).
Definition part_of (key : string) : string := to_decimal (part key).
Abbreviation rep := (rep_but alarm_type part_of None).

Lemma zrange_keys d L a g t : sees d L → rep L a → generator_ok g → colonless t →
  ∃ l, ZRANGE (key_text (KUves g t)) d = Some ((λ e, (e.1, to_decimal e.2)) <$> l) ∧
    StronglySorted (λ x y : string * Z, x.2 <= y.2) l ∧ NoDup l.*1 ∧
    ∀ key n, (key, n) ∈ l ↔ ∃ u, a !! (g, t, key) = Some u ∧ u_seq u = n.
Proof.
  intros Hd Hr Hg Ht. destruct (ZRANGE_law (key_text (KUves g t)) d (lz L (KUves g t))) as (l & E & Hp & Hs).
  { exact (zset_seen d L Hd (KUves g t) (conj Hg Ht) eq_refl). }
  exists l. split; [done|]. split; [done|]. split.
  - rewrite Hp. apply NoDup_fst_map_to_list.
  - intros key n. rewrite Hp, elem_of_map_to_list, (rp_seq _ _ _ _ _ Hr g t key Hg Ht), decide_False by done.
    rewrite fmap_Some. naive_solver.
Qed.

Definition flatten (l : list (string * string)) : list string := concat ((λ e, [e.1; e.2]) <$> l).
Lemma pairs_flatten l : pairs_of (flatten l) = l.
Proof. induction l as [|[a b] l IH]; [done|]. change (flatten ((a, b) :: l)) with (a :: b :: flatten l). simpl. by rewrite IH. Qed.
Lemma flatten_app l l' : flatten (l ++ l') = flatten l ++ flatten l'.
Proof. unfold flatten. by rewrite fmap_app, concat_app. Qed.

Lemma delete_types_seen g typ : generator_ok g → NoDup typ → ∀ d L a res, sees d L → rep L a →
  Forall colonless typ →
  ∃ d' L' ps, delete_types (generator_text g) typ res d = Some (d', res ++ flatten ps) ∧ sees d' L' ∧
    rep L' (foldl (λ a t, remove_type g t a) a typ) ∧ ls L' KNgen = ls L KNgen ∧
    (∀ g', ls L' (KTypes g') = ls L (KTypes g')) ∧ NoDup ps ∧
    ∀ key t, (key, t) ∈ ps ↔ t ∈ typ ∧ is_Some (a !! (g, t, key)).
Proof.
  intros Hg Hnd. induction Hnd as [|t typ Hni Hnd IH]; intros d L a res Hd Hr Hty; simpl.
  { exists d, L, []. split_and!; try done; [by rewrite app_nil_r|constructor|]. intros key t.
    split; [by intros []%elem_of_nil|by intros [[]%elem_of_nil _]]. }
  inversion_clear Hty as [|?? Ht Hty'].
  destruct (zrange_keys d L a g t Hd Hr Hg Ht) as (l & E & _ & Hndl & Hl).
  rewrite (E : ZRANGE ("UVES:" +:+ dots [generator_text g; t]) d = _). cbn [mbind option_bind]. clear E.
  pose proof (del_seen d L Hd (KUves g t) (conj Hg Ht)) as Hd1. cbn [key_text] in Hd1. unfold sm_type in Hd1.
  assert (∀ key, key ∈ l.*1 ↔ is_Some (a !! (g, t, key))) as Hk.
  { intros key. rewrite list_elem_of_fmap. split.
    - intros ([k n] & -> & (u & Eu & _)%Hl). simpl; by rewrite Eu.
    - intros [u Eu]. exists (key, u_seq u). split; [done|]. apply Hl. eauto. }
  destruct (delete_uves_seen g t Hg Ht ((λ e, (e.1, to_decimal e.2)) <$> l) _ _ 1 res Hd1) as (d2 & E2 & Hd2).
  { apply Forall_fmap, Forall_forall. intros [key n] (u & Eu & _)%Hl. simpl.
    by destruct (rp_ok _ _ _ _ _ Hr _ _ _ _ Eu) as (_ & _ & ? & _). }
  rewrite E2. cbn [mbind option_bind]. clear E2.
  rewrite <- list_fmap_compose in Hd2. change (fst ∘ (λ e : string * Z, (e.1, to_decimal e.2))) with (@fst string Z) in Hd2.
  destruct (rep_delete_type _ _ g t l.*1 L a Hr Hg Ht Hndl Hk) as (Hr' & Hn & Ht').
  destruct (IH _ _ _ (res ++ concat ((λ e, [e.1; t]) <$> ((λ e, (e.1, to_decimal e.2)) <$> l))) Hd2 Hr' Hty')
    as (d3 & L3 & ps & E3 & Hd3 & Hr3 & Hn3 & Ht3 & Hps & Hin).
  exists d3, L3, (((λ key, (key, t)) <$> l.*1) ++ ps). split_and!; try done.
  - rewrite E3. f_equal. f_equal. rewrite flatten_app, (assoc_L (++)). f_equal. f_equal.
    unfold flatten. by rewrite <- !list_fmap_compose.
  - by rewrite Hn3.
  - intros g'. by rewrite Ht3.
  - apply NoDup_app. split_and!; [|intros [key u] (? & [= <- ->] & _)%list_elem_of_fmap [? _]%Hin; done|done].
    by apply NoDup_fmap_2; [intros ?? [=]|].
  - intros key u. rewrite elem_of_app, list_elem_of_fmap, Hin, elem_of_cons, lookup_remove_type. split.
    + intros [(k & [= -> ->] & Hk1%Hk)|[Hu Ha]]; [by split; [left|]|]. split; [by right|].
      destruct (decide _) as [[= ->]|]; [by apply is_Some_None in Ha|done].
    + intros [[->|Hu] Ha]; [left; exists key; by rewrite Hk|right]. split; [done|].
      rewrite decide_False; [done|]. by intros [= ->].
Qed.

Lemma lookup_remove_types (g : generator) (typ : list string) (a : uves) (g' : generator) (t key : string) :
  foldl (λ a t, remove_type g t a) a typ !! (g', t, key) = if decide (g' = g ∧ t ∈ typ) then None else a !! (g', t, key).
Proof.
  revert a. induction typ as [|u typ IH]; intros a; simpl.
  { by rewrite decide_False by (by intros [_ []%elem_of_nil]). }
  rewrite IH, lookup_remove_type. destruct (decide (g' = g ∧ t ∈ typ)) as [[-> Hin]|Hni].
  - by rewrite decide_True by (split; [done|by right]).
  - destruct (decide ((g', t) = (g, u))) as [[= -> ->]|].
    + by rewrite decide_True by (split; [done|by left]).
    + rewrite decide_False; [done|]. intros [-> [->|]%elem_of_cons]; naive_solver.
Qed.

Lemma types_listed d L g a : sees d L → generator_ok g → rep L a →
  ∃ typ, SMEMBERS (key_text (KTypes g)) d = Some typ ∧ NoDup typ ∧ Forall colonless typ ∧
    ∀ t, t ∈ typ ↔ t ∈ ls L (KTypes g).
Proof.
  intros Hd Hg Hr. destruct (SMEMBERS_law (key_text (KTypes g)) d (ls L (KTypes g))) as (typ & E & Hp).
  { exact (set_seen d L Hd (KTypes g) Hg eq_refl). }
  exists typ. split; [done|]. assert (∀ t, t ∈ typ ↔ t ∈ ls L (KTypes g)) as Hin by (intros; by rewrite Hp, elem_of_elements).
  split_and!; [rewrite Hp; apply NoDup_elements| |done].
  apply Forall_forall. intros t Ht. apply (rp_types _ _ _ _ _ Hr g t Hg), Hin, Ht.
Qed.

(** The types that are listed for a generator. *)
Definition types_at (d : db) (g : generator) : option (gset string) := set_at d (key_text (KTypes g)).
Lemma types_seen d L g : sees d L → generator_ok g → types_at d g = Some (ls L (KTypes g)).
Proof. intros Hd Hg. exact (set_seen d L Hd (KTypes g) Hg eq_refl). Qed.

(** The generators that may write. *)
Definition stored (d : db) (a : uves) (gens : gset string) : Prop :=
  (∃ L, sees d L ∧ rep L a ∧ ls L KNgen = gens) ∧ map_Forall (λ _ u, - 2 ^ 31 <= u_seq u < 2 ^ 31) a.

Lemma delrequest_stored d a gens g dbn inst : stored d a gens → generator_ok g →
  ∃ d' ps, delrequest [] [g_source g; g_node_type g; g_module g; g_instance_id g; dbn; inst] d =
      Some (d', REDIS_REPLY_ARRAY (flatten ps)) ∧
    stored d' (remove_generator g a) (gens ∖ {[ngen_text g inst]}) ∧
    (∀ h, generator_ok h → types_at d' h = if decide (h = g) then Some ∅ else types_at d h) ∧ NoDup ps ∧
    ∀ key t, (key, t) ∈ ps ↔ is_Some (a !! (g, t, key)).
Proof.
  intros [(L & Hd & Hr & <-) Hseq] Hg. unfold delrequest. fold (generator_text g).
  destruct (types_listed d L g a Hd Hg Hr) as (typ & E & Hnd & Hty & Hin).
  rewrite (E : SMEMBERS ("TYPES:" +:+ generator_text g) d = _). cbn [mbind option_bind]. rewrite EXPIRE_law.
  destruct (delete_types_seen g typ Hg Hnd d L a [] Hd Hr Hty) as (d1 & L1 & ps & E1 & Hd1 & Hr1 & Hn1 & Ht1 & Hps & Hpin).
  rewrite E1. cbn [mbind option_bind app]. clear E E1.
  pose proof (del_seen d1 L1 Hd1 (KTypes g) Hg) as Hd2. cbn [key_text] in Hd2. set (d2 := DEL _ d1) in *. clearbody d2.
  run_command (srem_seen _ _ Hd2 KNgen I (ngen_text g inst) eq_refl) as Hd3.
  assert (∀ key t, is_Some (a !! (g, t, key)) → t ∈ typ) as Hall.
  { intros key t [u Eu]. apply Hin. by destruct (rp_ok _ _ _ _ _ Hr _ _ _ _ Eu) as (_ & _ & _ & _ & ?). }
  assert (foldl (λ a t, remove_type g t a) a typ = remove_generator g a) as Ea.
  { apply map_eq. intros [[g' t] key]. rewrite lookup_remove_types, lookup_remove_generator.
    destruct (decide (g' = g)) as [->|]; [|by rewrite decide_False by naive_solver].
    destruct (decide _) as [|Hni]; [done|]. apply eq_None_not_Some. intros Ha. apply Hni. split; [done|]. by eapply Hall. }
  rewrite Ea in Hr1. eexists _, ps. split; [done|]. split; [split|split; [|split; [done|]]].
  - eexists. split; [exact Hd3|]. split.
    + destruct Hr1 as [R1 R2 R3 R4 R5 R6 R7 R8]. split; try (intros; simpl; unfold upd; repeat rewrite decide_False by done; eauto; fail).
      * intros g' t key u Eu. destruct (R1 _ _ _ _ Eu) as (? & ? & ? & ? & ?). do 4 (split; [done|]).
        rewrite lookup_remove_generator in Eu. destruct (decide (g' = g)); [done|].
        simpl. unfold upd. rewrite !decide_False by (done || by intros [=]). done.
      * intros g' t Hg'. simpl. unfold upd. rewrite decide_False by done.
        destruct (decide (KTypes g' = KTypes g)); [by intros []%elem_of_empty|eauto].
    + simpl. unfold upd. rewrite decide_True, decide_False by done. by rewrite Hn1.
  - intros k u [Hu _]%map_lookup_filter_Some. exact (Hseq k u Hu).
  - intros h Hh. rewrite (types_seen _ _ h Hd3 Hh), (types_seen _ _ h Hd Hh). simpl. unfold upd. rewrite decide_False by done.
    destruct (decide (h = g)) as [->|Hne]; [by rewrite decide_True|]. rewrite decide_False by congruence. by rewrite Ht1.
  - intros key t. rewrite Hpin. split; [by intros [_ ?]|]. intros Ha. split; [by eapply Hall|done].
Qed.

(** The highest sequence number of a type. *)
Definition last_seq (g : generator) (t : string) (a : uves) (n : Z) : Prop :=
  (∃ key u, a !! (g, t, key) = Some u ∧ u_seq u = n) ∧ ∀ key u, a !! (g, t, key) = Some u → u_seq u <= n.

Lemma seq_types_seen d L a g typ : sees d L → rep L a → generator_ok g → Forall colonless typ → NoDup typ → ∀ res,
  ∃ ps, seq_types (generator_text g) typ res d = Some (res ++ flatten ((λ e, (e.1, to_decimal e.2)) <$> ps)) ∧ NoDup ps.*1 ∧
    ∀ t n, (t, n) ∈ ps ↔ t ∈ typ ∧ last_seq g t a n.
Proof.
  intros Hd Hr Hg Hty Hnd. induction Hnd as [|t typ Hni Hnd IH]; intros res; simpl.
  { exists []. split; [by rewrite app_nil_r|]. split; [constructor|]. intros t n.
    split; [by intros []%elem_of_nil|by intros [[]%elem_of_nil _]]. }
  inversion_clear Hty as [|?? Ht Hty'].
  destruct (zrange_keys d L a g t Hd Hr Hg Ht) as (l & E & Hs & _ & Hl).
  rewrite (E : ZRANGE ("UVES:" +:+ dots [generator_text g; t]) d = _). cbn [mbind option_bind]. clear E.
  rewrite fmap_last. destruct (last l) as [[key n]|] eqn:El; simpl.
  - destruct (IH Hty' (res ++ [t; to_decimal n])) as (ps & E & Hps & Hin). exists ((t, n) :: ps). rewrite E.
    split; [by rewrite <- (assoc_L (++))|]. apply last_Some in El as [l' ->].
    assert (last_seq g t a n) as Hmax.
    { split; [destruct (Hl key n) as [(u & Eu & En) _]; [apply elem_of_app; right; by left|eauto]|].
      intros key' u Eu. assert ((key', u_seq u) ∈ l' ++ [(key, n)]) as Hin' by (apply Hl; eauto).
      apply StronglySorted_app in Hs as (Hs & _ & _). apply elem_of_app in Hin' as [Hin'|[= _ ->]%list_elem_of_singleton]; [|lia].
      exact (Hs (key', u_seq u) (key, n) Hin' ltac:(by left)). }
    split; [simpl; constructor; [|done]; intros ([u m] & -> & [Hu _]%Hin)%list_elem_of_fmap; done|].
    intros u m. rewrite !elem_of_cons, Hin. split.
    + intros [[= -> ->]|[? ?]]; [by split; [left|]|by split; [right|]].
    + intros [[->|Hu] Hm]; [left|by right]. f_equal. destruct Hm as [(k1 & u1 & E1 & <-) M1], Hmax as [(k2 & u2 & E2 & <-) M2].
      pose proof (M1 _ _ E2). pose proof (M2 _ _ E1). lia.
  - destruct (IH Hty' res) as (ps & E & Hps & Hin). exists ps. split; [done|]. split; [done|].
    intros u m. rewrite Hin, elem_of_cons. apply last_None in El as ->. split; [intros [? ?]; auto|].
    intros [[->|?] Hm]; [|done]. destruct Hm as [(k & v & Ev & <-) _]. assert ((k, u_seq v) ∈ []) as []%elem_of_nil by (apply Hl; eauto).
Qed.

Lemma seqnum_stored d a gens g dbn inst : stored d a gens → generator_ok g →
  ∃ d' ps, seqnum [] [g_source g; g_node_type g; g_module g; g_instance_id g; dbn; inst] d =
      Some (d', REDIS_REPLY_ARRAY (flatten ((λ e, (e.1, to_decimal e.2)) <$> ps))) ∧
    stored d' a ({[ngen_text g inst]} ∪ gens) ∧ (∀ h, generator_ok h → types_at d' h = types_at d h) ∧
    NoDup ps.*1 ∧ ∀ t n, (t, n) ∈ ps ↔ last_seq g t a n.
Proof.
  intros [(L & Hd & Hr & <-) Hseq] Hg. unfold seqnum. fold (generator_text g).
  destruct (types_listed d L g a Hd Hg Hr) as (typ & E & Hnd & Hty & Hin).
  rewrite (E : SMEMBERS ("TYPES:" +:+ generator_text g) d = _). cbn [mbind option_bind]. clear E.
  destruct (seq_types_seen d L a g typ Hd Hr Hg Hty Hnd []) as (ps & E & Hps & Hpin). cbv zeta. rewrite E. cbn [mbind option_bind app].
  clear E. run_command (sadd_seen _ _ Hd KNgen I (ngen_text g inst) eq_refl) as Hd1. rewrite EXPIRE_law.
  eexists _, ps. split; [done|]. split; [split; [|done]|split; [|split; [done|]]].
  - eexists. split; [exact Hd1|]. split.
    + destruct Hr as [R1 R2 R3 R4 R5 R6 R7 R8]. split; intros; simpl; unfold upd; repeat rewrite decide_False by done; eauto.
    + simpl. unfold upd. by rewrite decide_True.
  - intros h Hh. rewrite (types_seen _ _ h Hd1 Hh), (types_seen _ _ h Hd Hh). simpl. unfold upd. by rewrite decide_False.
  - intros t n. rewrite Hpin. split; [by intros [_ ?]|]. intros Hl. split; [|done]. destruct Hl as [(key & u & Eu & _) _].
    apply Hin. by destruct (rp_ok _ _ _ _ _ Hr _ _ _ _ Eu) as (_ & _ & _ & _ & ?).
Qed.

(** What happens to the database. *)
Inductive redis_event :=
  | Update (g : generator) (t attr key msg : string) (seq ts : Z)
  | Delete (g : generator) (t key : string)
  | GetSeq (g : generator)
  | DeleteUVEs (g : generator)
  | Flush
  | Expired.
Definition command_of (e : redis_event) : option command :=
  match e with
  | Update g t attr key msg seq ts =>
      UVEUpdate_command t attr g key msg seq ts (if alarm_type t then 0 else part key) (alarm_type t)
  | Delete g t key => UVEDelete_command t g key (alarm_type t)
  | GetSeq g => Some (generator_command seqnum_lua g)
  | DeleteUVEs g => Some (generator_command delrequest_lua g)
  | Flush => Some flush_command
  | Expired => None
  end.
Definition exec (e : redis_event) (d : db) : option (db * redis_reply) :=
  match e with
  | Expired => Some (delete NGENERATORS d, REDIS_REPLY_NIL)
  | _ => c ← command_of e; EVAL c d
  end.
Fixpoint exec_all (l : list redis_event) (d : db) : option db :=
  match l with [] => Some d | e :: l' => '(d', _) ← exec e d; exec_all l' d' end.

(** The parts of names have no colon, keys have one, and no text has a NUL. *)
Definition generator_plain (g : generator) : Prop :=
  generator_ok g ∧ Forall nul_free [g_source g; g_node_type g; g_module g; g_instance_id g].
Definition event_ok (e : redis_event) : Prop :=
  match e with
  | Update g t attr key msg seq ts =>
      generator_plain g ∧ colonless t ∧ is_Some (before_colon key) ∧ Forall nul_free [t; attr; key; msg] ∧ xml_text msg ∧
      - 2 ^ 31 <= seq < 2 ^ 31
  | Delete g t key => generator_plain g ∧ colonless t ∧ is_Some (before_colon key) ∧ Forall nul_free [t; key]
  | GetSeq g | DeleteUVEs g => generator_plain g
  | Flush | Expired => True
  end.

(** The specification: who may write, and the UVEs. *)
Definition registered (g : generator) : string := ngen_text g (ngen_inst g).
Definition ts_text (ts : Z) : string :=
  "<__T type=" +:+ String "034" ("u64" +:+ String "034" (">" +:+ to_decimal ts +:+ "</__T>")).
Definition spec_step (e : redis_event) (s : uves * gset string) : uves * gset string :=
  let '(a, gens) := s in
  match e with
  | Update g t attr key msg seq ts =>
      (if decide (registered g ∈ gens) then
         <[(g, t, key) := update_attrs attr msg (ts_text ts) seq (a !! (g, t, key))]> a else a, gens)
  | Delete g t key => (if decide (registered g ∈ gens) then delete (g, t, key) a else a, gens)
  | GetSeq g => (a, {[registered g]} ∪ gens)
  | DeleteUVEs g => (remove_generator g a, gens ∖ {[registered g]})
  | Flush => (∅, ∅)
  | Expired => (a, ∅)
  end.
Definition spec_run (l : list redis_event) : uves * gset string := foldl (flip spec_step) (∅, ∅) l.
(** The types listed for every generator: a type stays when its last UVE is
    deleted, and goes with the generator. *)
Abbreviation types := (generator → gset string).
Definition spec_types (e : redis_event) (gens : gset string) (T : types) : types :=
  match e with
  | Update g t _ _ _ _ _ =>
      if decide (registered g ∈ gens) then λ h, if decide (h = g) then {[t]} ∪ T h else T h else T
  | DeleteUVEs g => λ h, if decide (h = g) then ∅ else T h
  | Flush => λ _, ∅
  | Delete _ _ _ | GetSeq _ | Expired => T
  end.
Fixpoint types_run (l : list redis_event) (s : uves * gset string) (T : types) : types :=
  match l with [] => T | e :: l' => types_run l' (spec_step e s) (spec_types e s.2 T) end.
Definition listed (d : db) (T : types) : Prop := ∀ g, generator_ok g → types_at d g = Some (T g).

(** What the collector makes of the reply. *)
Definition answered (e : redis_event) (s : uves * gset string) (r : redis_reply) : Prop :=
  let '(a, gens) := s in
  match e with
  | Update g _ _ _ _ _ _ | Delete g _ _ =>
      r = if decide (registered g ∈ gens) then REDIS_REPLY_INTEGER 1 else REDIS_REPLY_NIL
  | GetSeq g => ∃ m, SyncGetSeq Connected (Some r) = Some m ∧ ∀ t n, m !! t = Some n ↔ last_seq g t a n
  | DeleteUVEs g => ∃ ps, SyncDeleteUVEs Connected (Some r) = Deleted ps ∧ NoDup ps ∧
      ∀ key t, (key, t) ∈ ps ↔ is_Some (a !! (g, t, key))
  | Flush => FlushUVEs Connected (Some r) = false
  | Expired => True
  end.

Lemma nul_free_generator g : generator_plain g → nul_free (generator_text g).
Proof. intros [_ Hg]. by apply nul_free_dots. Qed.
Lemma nul_free_ngen g : generator_plain g → nul_free (ngen_inst g).
Proof.
  intros [_ Hg]. unfold ngen_inst. destruct (_ =? _)%string; [apply nul_free_decimal|].
  rewrite !Forall_cons in Hg. tauto.
Qed.

Lemma update_command g t attr key msg seq ts p tbl al : generator_plain g → Forall nul_free [t; attr; key; msg] →
  before_colon key = Some tbl →
  UVEUpdate_command t attr g key msg seq ts p al = Some {| cmd_script := uveupdate_lua;
    cmd_keys := [key_text (KTypes g); key_text (KOrigins al key); key_text (KTable al tbl);
                 key_text (KUves g t); key_text (KValues key g t)];
    cmd_args := [g_source g; g_node_type g; g_module g; g_instance_id g; t; attr; key; to_decimal seq; msg;
                 to_decimal REDIS_DB_UVE; to_decimal p; bool_text al; ngen_inst g; ts_text ts] |}.
Proof.
  intros Hg Ht E. unfold UVEUpdate_command. rewrite (table_of_key key tbl E). cbn [mbind option_bind]. cbv zeta.
  pose proof (nul_free_generator g Hg) as Hgt. pose proof (nul_free_ngen g Hg) as Hni. destruct Hg as [_ Hg].
  rewrite !Forall_cons in Ht. rewrite !Forall_cons in Hg. destruct Ht as (? & ? & ? & ? & _), Hg as (? & ? & ? & ? & _).
  assert (nul_free tbl) as Htb by by eapply nul_free_table.
  rewrite !c_str_all; [done|destruct al; solve_nul_free|destruct al; solve_nul_free].
Qed.
Lemma delete_command g t key tbl al : generator_plain g → Forall nul_free [t; key] → before_colon key = Some tbl →
  UVEDelete_command t g key al = Some {| cmd_script := uvedelete_lua;
    cmd_keys := [key_text (KValues key g t); key_text (KUves g t); key_text (KOrigins al key); key_text (KTable al tbl)];
    cmd_args := [g_source g; g_node_type g; g_module g; g_instance_id g; t; key;
                 to_decimal REDIS_DB_UVE; bool_text al; ngen_inst g] |}.
Proof.
  intros Hg Ht E. unfold UVEDelete_command. rewrite (table_of_key key tbl E). cbn [mbind option_bind]. cbv zeta.
  pose proof (nul_free_generator g Hg) as Hgt. pose proof (nul_free_ngen g Hg) as Hni. destruct Hg as [_ Hg].
  rewrite !Forall_cons in Ht. rewrite !Forall_cons in Hg. destruct Ht as (? & ? & _), Hg as (? & ? & ? & ? & _).
  assert (nul_free tbl) as Htb by by eapply nul_free_table.
  rewrite !c_str_all; [done|destruct al; solve_nul_free|destruct al; solve_nul_free].
Qed.
Lemma generator_command_args s g : generator_plain g → generator_command s g = {| cmd_script := s; cmd_keys := [];
  cmd_args := [g_source g; g_node_type g; g_module g; g_instance_id g; to_decimal REDIS_DB_UVE; ngen_inst g] |}.
Proof.
  intros Hg. unfold generator_command. pose proof (nul_free_ngen g Hg) as Hni. destruct Hg as [_ Hg].
  rewrite !Forall_cons in Hg. destruct Hg as (? & ? & ? & ? & _). rewrite c_str_all; [done|solve_nul_free].
Qed.

Lemma stored_empty : stored ∅ ∅ ∅.
Proof.
  split; [|apply map_Forall_empty]. exists {| ls := λ _, ∅; lh := λ _, ∅; lz := λ _, ∅ |}. split_and!; [| |done].
  - intros k _. by destruct (kind k).
  - split; intros *; simpl; rewrite ?lookup_empty; try done.
    + intros _ _. split; [by intros []%elem_of_empty|by intros [_ []%is_Some_None]].
    + intros _ _. split; [by intros []%elem_of_empty|by intros (_ & []%is_Some_None & _)].
    + by destruct (alarm_type t).
    + intros _ _. split; [by intros []%elem_of_empty|by intros (_ & []%is_Some_None & _)].
Qed.

(** The database in which the set of those who may write has expired. *)
Lemma stored_expired d a gens : stored d a gens → stored (delete NGENERATORS d) a ∅.
Proof.
  intros [(L & Hd & Hr & _) Hs]. split; [|done]. exists (clear KNgen L).
  split; [exact (sees_delete d L KNgen Hd I)|]. split; [|simpl; unfold upd; by rewrite decide_True].
  destruct Hr as [R1 R2 R3 R4 R5 R6 R7 R8]. split; intros; simpl; unfold upd; repeat rewrite decide_False by done; eauto.
Qed.

Lemma seq_reply (ps : list (string * Z)) (m : gmap string Z) (t : string) (n : Z) : NoDup ps.*1 →
  Forall (λ e, - 2 ^ 31 <= e.2 < 2 ^ 31) ps → (∀ e, e ∈ ps → m !! e.1 = None) →
  foldl (λ m e, match m !! e.1 with Some _ => m | None => <[e.1 := atoi e.2]> m end) m
    ((λ e, (e.1, to_decimal e.2)) <$> ps) !! t = Some n ↔ m !! t = Some n ∨ (t, n) ∈ ps.
Proof.
  revert m. induction ps as [|[u k] ps IH]; intros m Hnd Hk Hm; simpl.
  { split; [by left|by intros [?|[]%elem_of_nil]]. }
  inversion_clear Hnd as [|?? Hni Hnd']. inversion_clear Hk as [|?? Hk1 Hk']. simpl in Hk1.
  pose proof (Hm (u, k) ltac:(by left)) as Hu. simpl in Hu. rewrite Hu, atoi_decimal by done.
  rewrite IH; [|done|done|].
  - rewrite lookup_insert_Some, elem_of_cons. split.
    + intros [[[-> ->]|[_ ?]]|?]; auto.
    + intros [?|[[= -> ->]|?]]; [|by left; left|by right]. left. right. split; [|done]. intros ->. congruence.
  - intros [v k'] Hin. rewrite lookup_insert_ne; [by apply (Hm (v, k')); right|].
    simpl. intros ->. apply Hni, list_elem_of_fmap. by exists (v, k').
Qed.

Lemma exec_step e d a gens : stored d a gens → event_ok e →
  ∃ d' r, exec e d = Some (d', r) ∧ stored d' (spec_step e (a, gens)).1 (spec_step e (a, gens)).2 ∧
    (∀ T, listed d T → listed d' (spec_types e gens T)) ∧ answered e (a, gens) r.
Proof.
  intros Hst He. destruct e as [g t attr key msg seq ts|g t key|g|g| |]; unfold exec; cbn [command_of].
  - destruct He as (Hg & Ht & [tbl Htbl] & Hn & Hx & Hs). pose proof Hst as [(L & Hd & Hr & <-) Hseq].
    rewrite (update_command g t attr key msg seq ts _ tbl (alarm_type t) Hg Hn Htbl). cbn [mbind option_bind EVAL run_script cmd_script cmd_keys cmd_args].
    pose proof (uveupdate_seen d L g t key attr msg (ts_text ts) (to_decimal (if alarm_type t then 0 else part key)) seq
      (alarm_type t) tbl (ngen_inst g) (to_decimal REDIS_DB_UVE) Hd (proj1 Hg) Ht Hs) as Hu.
    destruct (uveupdate _ _ _) as [[d' r]|]; [|done]. exists d', r. split; [done|]. simpl.
    fold (registered g) in Hu. destruct (decide (registered g ∈ ls L KNgen)).
    + destruct Hu as [-> Hd']. split; [|split; [|done]]; [split|].
      * exists (l_update g t key attr msg (ts_text ts) (part_of key) seq (alarm_type t) tbl L). split_and!.
        -- by destruct (alarm_type t).
        -- apply rep_update; first [assumption|exact (proj1 Hg)|reflexivity].
        -- pose proof (l_update_sees g t key attr msg (ts_text ts) (part_of key) seq (alarm_type t) tbl L) as (_ & _ & _ & _ & E5 & _). exact E5.
      * by apply map_Forall_insert_2.
      * intros T HT h Hh. rewrite (types_seen _ _ h Hd' Hh).
        destruct (l_update_sees g t key attr msg (ts_text ts) (to_decimal (if alarm_type t then 0 else part key)) seq
          (alarm_type t) tbl L) as (E1 & _). rewrite E1. specialize (HT h Hh). rewrite (types_seen _ _ h Hd Hh) in HT.
        injection HT as <-. by destruct (decide (h = g)).
    + destruct Hu as [-> ->]. done.
  - destruct He as (Hg & Ht & [tbl Htbl] & Hn). pose proof Hst as [(L & Hd & Hr & <-) Hseq].
    rewrite (delete_command g t key tbl (alarm_type t) Hg Hn Htbl). cbn [mbind option_bind EVAL run_script cmd_script cmd_keys cmd_args].
    assert (map_Forall (λ _, xml_text) (lh L (KValues key g t))) as Hx.
    { rewrite (rp_attrs _ _ _ _ _ Hr g t key (proj1 Hg) Ht). destruct (a !! (g, t, key)) as [u|] eqn:Eu; [|apply map_Forall_empty].
      by destruct (rp_ok _ _ _ _ _ Hr _ _ _ _ Eu) as (_ & _ & _ & ? & _). }
    pose proof (uvedelete_seen d L g t key (alarm_type t) tbl (ngen_inst g) (to_decimal REDIS_DB_UVE) Hd (proj1 Hg) Ht Hx) as Hu.
    destruct (uvedelete _ _ _) as [[d' r]|]; [|done]. exists d', r. split; [done|]. simpl.
    fold (registered g) in Hu. destruct (decide (registered g ∈ ls L KNgen)).
    + destruct Hu as [-> Hd'].
      assert (cleared true (alarm_type t) tbl g t key L (l_delete g t key (alarm_type t) tbl L)) as Hc.
      { apply cleared_delete. intros Ea. rewrite (rp_keypart _ _ _ _ _ Hr g t key (proj1 Hg) Ht). by rewrite Ea. }
      split; [|split; [|done]]; [split|].
      * exists (l_delete g t key (alarm_type t) tbl L). split; [done|]. split; [|apply (cl_ngen _ _ _ _ _ _ _ _ Hc)].
        eapply rep_cleared; [exact Hr|exact (proj1 Hg)|exact Ht|exact Htbl|reflexivity|by left|exact Hc].
      * by apply map_Forall_delete.
      * intros T HT h Hh. rewrite (types_seen _ _ h Hd' Hh), (cl_types _ _ _ _ _ _ _ _ Hc), <- (types_seen _ _ h Hd Hh).
        by apply HT.
    + destruct Hu as [-> ->]. done.
  - rewrite (generator_command_args _ g He). cbn [mbind option_bind EVAL run_script cmd_script cmd_keys cmd_args].
    destruct (seqnum_stored d a gens g (to_decimal REDIS_DB_UVE) (ngen_inst g) Hst (proj1 He)) as (d' & ps & E & Hst' & Htl & Hnd & Hin).
    rewrite E. exists d', (REDIS_REPLY_ARRAY (flatten ((λ e, (e.1, to_decimal e.2)) <$> ps))). split; [done|]. split; [done|].
    split; [intros T HT h Hh; rewrite Htl by done; by apply HT|].
    simpl. rewrite pairs_flatten. eexists. split; [done|]. intros t n. rewrite seq_reply, lookup_empty, <- Hin.
    + split; [by intros [?|]|by right].
    + done.
    + apply Forall_forall. intros [u m] [(key & v & Ev & <-) _]%Hin. exact (proj2 Hst _ _ Ev).
    + intros e _. apply lookup_empty.
  - rewrite (generator_command_args _ g He). cbn [mbind option_bind EVAL run_script cmd_script cmd_keys cmd_args].
    destruct (delrequest_stored d a gens g (to_decimal REDIS_DB_UVE) (ngen_inst g) Hst (proj1 He)) as (d' & ps & E & Hst' & Htl & Hnd & Hin).
    rewrite E. exists d', (REDIS_REPLY_ARRAY (flatten ps)). split; [done|]. split; [done|].
    split; [intros T HT h Hh; rewrite Htl by done; simpl; destruct (decide (h = g)); [done|by apply HT]|].
    simpl. rewrite pairs_flatten. by exists ps.
  - exists ∅, REDIS_REPLY_NIL. split; [|split; [apply stored_empty|split; [|done]]; by intros T _ h Hh]. unfold EVAL, flush_command. cbn [mbind option_bind run_script cmd_script cmd_keys cmd_args]. unfold flushuves. by rewrite FLUSHDB_law.
  - exists (delete NGENERATORS d), REDIS_REPLY_NIL. split; [done|]. split; [by eapply stored_expired|]. split; [|done].
    intros T HT h Hh. etransitivity; [|exact (HT h Hh)]. unfold types_at, set_at. by rewrite lookup_delete_ne.
Qed.

Lemma exec_run l d s T : stored d s.1 s.2 → listed d T → Forall event_ok l →
  ∃ d', exec_all l d = Some d' ∧ stored d' (foldl (flip spec_step) s l).1 (foldl (flip spec_step) s l).2 ∧
    listed d' (types_run l s T).
Proof.
  intros Hst HT Hl. revert d s T Hst HT. induction Hl as [|e l He Hl IH]; intros d [a gens] T Hst HT; [by exists d|].
  destruct (exec_step e d a gens Hst He) as (d1 & r & E & Hst' & HT' & _). cbn [exec_all foldl]. rewrite E. cbn [mbind option_bind].
  exact (IH d1 (spec_step e (a, gens)) (spec_types e gens T) Hst' (HT' T HT)).
Qed.
Definition no_types : types := λ _, ∅.
Lemma listed_empty : listed ∅ no_types.
Proof. done. Qed.

(** C33.  Whatever updates, deletions, disconnections, flushes and expiries come in
    whatever order, no script of the collector fails, and the database is what the
    events mean: of every UVE of a generator the last value of every attribute and
    the last sequence number, found under all its indices, and nothing of a UVE or
    a generator that was deleted; of every generator the types it has written since
    its UVEs were deleted last.  A generator that is not registered writes
    nothing and is answered nil; registering answers the highest sequence number of
    every type; a disconnection lists every UVE it deletes, once. *)
Theorem uve_store_refines l : Forall event_ok l → let s := spec_run l in
  ∃ d, exec_all l ∅ = Some d ∧ stored d s.1 s.2 ∧ listed d (types_run l (∅, ∅) no_types) ∧
    ∀ e, event_ok e → ∃ d' r, exec e d = Some (d', r) ∧ answered e s r.
Proof.
  intros Hl s. destruct (exec_run l ∅ (∅, ∅) no_types stored_empty listed_empty Hl) as (d & E & Hst & HT). exists d.
  split; [done|]. split; [done|]. split; [done|].
  intros e He. subst s. destruct (exec_step e d _ _ Hst He) as (d' & r & Er & _ & _ & Ha). exists d', r. split; [done|].
  unfold spec_run. by destruct (foldl _ _ l).
Qed.

(** A generator that is not registered and has no UVEs. *)
Definition gone (g : generator) (s : uves * gset string) : Prop :=
  (registered g ∉ s.2) ∧ ∀ t key, s.1 !! (g, t, key) = None.
Definition registers (g : generator) (e : redis_event) : Prop :=
  match e with GetSeq h => registered h = registered g | _ => False end.

Lemma gone_step g e s : gone g s → ~ registers g e → gone g (spec_step e s).
Proof.
  destruct s as [a gens]. intros [Hn Ha] He. simpl in Hn, Ha. destruct e as [h t attr key msg seq ts|h t key|h|h| |]; simpl in *.
  - split; [done|]. intros u k. simpl. destruct (decide _) as [Hin|]; [|done].
    rewrite lookup_insert_ne; [done|]. intros [= -> _ _]. done.
  - split; [done|]. intros u k. simpl. destruct (decide _) as [Hin|]; [|done].
    rewrite lookup_delete_uve. by destruct (decide _).
  - split; [|done]. simpl. rewrite elem_of_union, elem_of_singleton. by intros [?|?]; [apply He|].
  - split; simpl; [by intros [? _]%elem_of_difference|]. intros u k. simpl. rewrite lookup_remove_generator. by destruct (decide _).
  - split; [by intros []%elem_of_empty|]. intros u k. apply lookup_empty.
  - split; [by intros []%elem_of_empty|done].
Qed.
Lemma gone_deleted g s : gone g (spec_step (DeleteUVEs g) s).
Proof.
  destruct s as [a gens]. split; simpl.
  - rewrite elem_of_difference, elem_of_singleton. by intros [_ []].
  - intros t key. by rewrite lookup_remove_generator, decide_True.
Qed.
Lemma gone_run g l s : gone g s → Forall (λ e, ~ registers g e) l → gone g (foldl (flip spec_step) s l).
Proof. intros Hs Hl. revert s Hs. induction Hl as [|e l He Hl IH]; intros s Hs; [done|]. by apply IH, gone_step. Qed.

(** Nothing is listed for it either. *)
Lemma no_types_run g l s T : (registered g ∉ s.2) → T g = ∅ → Forall (λ e, ~ registers g e) l → types_run l s T g = ∅.
Proof.
  intros Hn HT Hl. revert s T Hn HT. induction Hl as [|e l He Hl IH]; intros [a gens] T Hn HT; simpl; [done|].
  apply IH; destruct e as [h t attr key msg seq ts|h t key|h|h| |]; simpl in *; try done; try set_solver.
  - case_decide as Hin; [|done]. by rewrite decide_False by (by intros ->).
  - by case_decide.
Qed.
Lemma types_run_app l l' s T : types_run (l ++ l') s T = types_run l' (foldl (flip spec_step) s l) (types_run l s T).
Proof. revert s T. induction l as [|e l IH]; intros s T; [done|]. apply IH. Qed.

(** C34.  After the UVEs of a generator were deleted, nothing of it is in the
    database until it registers again, whatever comes in between: it is not among
    the registered generators, no type is listed for it, and no key, index or
    partition holds a UVE of it; its updates that were still on their way are
    refused. *)
Theorem deleted_generator_leaves_nothing l g l' : Forall event_ok l → generator_plain g → Forall event_ok l' →
  Forall (λ e, ~ registers g e) l' →
  ∃ d, exec_all (l ++ DeleteUVEs g :: l') ∅ = Some d ∧
    (∃ s, set_at d NGENERATORS = Some s ∧ registered g ∉ s) ∧
    set_at d (key_text (KTypes g)) = Some ∅ ∧
    ∀ t key, colonless t →
      hash_at d (key_text (KValues key g t)) = Some ∅ ∧ zset_at d (key_text (KUves g t)) = Some ∅ ∧
      hash_at d (key_text (KKeyPart g t)) = Some ∅ ∧
      (∀ al, ∃ s, set_at d (key_text (KOrigins al key)) = Some s ∧ sm_type g t ∉ s) ∧
      (∀ al tbl, ∃ s, set_at d (key_text (KTable al tbl)) = Some s ∧ uve_text key g t ∉ s) ∧
      ∀ p, ∃ s, set_at d (key_text (KPart p)) = Some s ∧ part_text g t key ∉ s.
Proof.
  intros Hl Hg Hl' Hn.
  destruct (exec_run (l ++ DeleteUVEs g :: l') ∅ (∅, ∅) no_types stored_empty listed_empty)
    as (d & E & [(L & Hd & Hr & Hgens) _] & HT).
  { apply Forall_app. split; [done|]. constructor; [exact Hg|exact Hl']. }
  exists d. split; [done|]. rewrite types_run_app in HT. rewrite foldl_app in Hr, Hgens. simpl in Hr, Hgens, HT.
  set (s0 := foldl (flip spec_step) (∅, ∅) l) in *. change (flip spec_step s0 (DeleteUVEs g)) with (spec_step (DeleteUVEs g) s0) in *.
  pose proof (gone_run g l' _ (gone_deleted g s0) Hn) as [Hreg Ha].
  pose proof (no_types_run g l' (spec_step (DeleteUVEs g) s0) (spec_types (DeleteUVEs g) s0.2 (types_run l (∅, ∅) no_types))
    (proj1 (gone_deleted g s0)) (decide_True _ _ eq_refl) Hn) as Hno.
  destruct Hg as [Hg _]. rewrite <- Hgens in Hreg. set (a := (foldl _ _ l').1) in *. clearbody a.
  split; [|split].
  - exists (ls L KNgen). split; [exact (set_seen d L Hd KNgen I eq_refl)|done].
  - etransitivity; [apply (HT g Hg)|]. f_equal. exact Hno.
  - intros t key Ht. split_and!.
    + rewrite (hash_seen d L Hd (KValues key g t) (conj Hg Ht) eq_refl). by rewrite (rp_attrs _ _ _ _ _ Hr), Ha.
    + rewrite (zset_seen d L Hd (KUves g t) (conj Hg Ht) eq_refl). f_equal. apply map_empty. intros k.
      rewrite (rp_seq _ _ _ _ _ Hr), Ha by done. by destruct (decide _).
    + rewrite (hash_seen d L Hd (KKeyPart g t) (conj Hg Ht) eq_refl). f_equal. apply map_empty. intros k.
      rewrite (rp_keypart _ _ _ _ _ Hr), Ha by done. by destruct (alarm_type t).
    + intros al. eexists. split; [exact (set_seen d L Hd (KOrigins al key) I eq_refl)|].
      rewrite (rp_origins _ _ _ _ _ Hr), Ha by done. by intros [_ []%is_Some_None].
    + intros al tbl. eexists. split; [exact (set_seen d L Hd (KTable al tbl) I eq_refl)|].
      rewrite (rp_table _ _ _ _ _ Hr), Ha by done. by intros (_ & []%is_Some_None & _).
    + intros p. eexists. split; [exact (set_seen d L Hd (KPart p) I eq_refl)|].
      rewrite (rp_part _ _ _ _ _ Hr), Ha by done. by intros (_ & []%is_Some_None & _).
Qed.
End store.

(** A Redis that runs in this file. *)
Module ConcreteRedis.
#[export] Instance instance : Redis := {|
  SADD k x d := s ← set_at d k; Some (put_set k ({[x]} ∪ s) d);
  SREM k x d := s ← set_at d k; Some (put_set k (s ∖ {[x]}) d, bool_decide (x ∈ s));
  SMEMBERS k d := elements <$> set_at d k;
  SISMEMBER k x d := (λ s, bool_decide (x ∈ s)) <$> set_at d k;
  HSET k f v d := m ← hash_at d k; Some (put_hash k (<[f := v]> m) d);
  HDEL k f d := m ← hash_at d k; Some (put_hash k (delete f m) d);
  HGET k f d := (λ m : gmap string string, m !! f) <$> hash_at d k;
  HGETALL k d := (λ m : gmap string string, map_to_list m) <$> hash_at d k;
  ZADD k n x d := z ← zset_at d k; Some (put_zset k (<[x := atoi n]> z) d);
  ZREM k x d := z ← zset_at d k; Some (put_zset k (delete x z) d);
  ZRANGE k d := z ← zset_at d k;
    Some ((λ e, (e.1, to_decimal e.2)) <$> insertion_sort (λ a b, a.2 <? b.2) (map_to_list z));
  DEL k d := delete k d;
  EXISTS k d := bool_decide (is_Some (d !! k));
  EXPIRE _ _ d := d;
  FLUSHDB _ := ∅
|}.
#[export] Instance laws : RedisLaws.
Proof.
  split; try done; intros *; simpl; try (intros ->; done).
  - intros ->. by eexists.
  - intros ->. by eexists.
  - intros -> Hn. simpl. by rewrite atoi_decimal.
  - intros ->. simpl. eexists. split; [done|]. split; [by rewrite <- insertion_sort_perm|].
    assert (cpp_sorted (λ a b : string * Z, a.2 <? b.2) (insertion_sort (λ a b, a.2 <? b.2) (map_to_list z))) as Hs.
    { apply (insertion_sort_sorted (λ _, True)); [|by apply Forall_true].
      by apply (strict_weak_key (λ _, True) (λ _, True) (@snd string Z) Z.ltb Zltb_weak). }
    induction Hs as [|x l Hs IH Hx]; constructor; [done|]. eapply Forall_impl; [exact Hx|]. simpl. intros y Hy. lia.
Qed.
End ConcreteRedis.

(** ** Examples *)

Module RedisExamples.
#[local] Existing Instance ConcreteRedis.instance.
#[local] Existing Instance ConcreteRedis.laws.
#[local] Instance cjson : CJson := {| cjson_hrefs _ := Some [] |}.
#[local] Instance process : CollectorProcess := {| SERVICE_COLLECTOR := "contrail-collector"; REDIS_DB_UVE := 1; getpid := 4711 |}.

Definition alarm_type (t : string) : bool := (t =? "UVEAlarms")%string.
Definition part (key : string) : Z := size key `mod` 30.
Definition agent : generator := {| g_source := "host"; g_node_type := "Compute"; g_module := "agent"; g_instance_id := "0" |}.
Definition collector : generator :=
  {| g_source := "host"; g_node_type := "Analytics"; g_module := "contrail-collector"; g_instance_id := "0" |}.
Definition vr : string := "ObjectVRouter:host".
(** Two generators write; the agent goes away, comes back and is refused in between. *)
Definition history : list redis_event :=
  [ GetSeq agent; GetSeq collector;
    Update agent "VrouterAgent" "cpu" vr "<cpu>1</cpu>" 5 100;
    Update agent "VrouterAgent" "mem" vr "<mem>2</mem>" 6 101;
    Update agent "UVEAlarms" "alarms" vr "<alarms/>" 7 102;
    Update collector "ModuleCpu" "cpu" "ObjectCollectorInfo:host" "<cpu>3</cpu>" 1 103;
    Delete agent "UVEAlarms" vr ]%string.
Definition late : list redis_event := [ Update agent "VrouterAgent" "cpu" vr "<cpu>9</cpu>" 8 104 ]%string.

Lemma plain_ok g : has_char ":" (g_source g) || has_char ":" (g_node_type g) || has_char ":" (g_module g) ||
  has_char ":" (g_instance_id g) || has_char "000" (g_source g) || has_char "000" (g_node_type g) ||
  has_char "000" (g_module g) || has_char "000" (g_instance_id g) = false → generator_plain g.
Proof. rewrite !orb_false_iff. intros [[[[[[[? ?] ?] ?] ?] ?] ?] ?]. split; [by split|]. by repeat (apply Forall_cons; split). Qed.
Ltac solve_events :=
  repeat match goal with
  | |- _ ∧ _ => split
  | |- generator_plain _ => apply plain_ok; reflexivity
  | |- Forall _ [] => apply Forall_nil; exact I
  | |- Forall _ _ => apply Forall_cons
  | |- is_Some _ => eexists; reflexivity
  | |- event_ok _ => unfold event_ok
  | |- _ => first [reflexivity | lia]
  end.
Lemma history_ok : Forall event_ok history.
Proof. unfold history. solve_events. Qed.
Lemma uve_store_refines_witness : Forall event_ok history ∧
  (spec_run history).1 !! (agent, "VrouterAgent", vr)%string =
    Some {| u_seq := 6; u_attrs := {["cpu" := "<cpu>1</cpu>"; "mem" := "<mem>2</mem>"; "__T" := ts_text 101]} |} ∧
  ∃ d, exec_all alarm_type part history ∅ = Some d ∧ stored alarm_type part d (spec_run history).1 (spec_run history).2.
Proof.
  split; [exact history_ok|]. split; [vm_compute; reflexivity|].
  destruct (uve_store_refines alarm_type part history history_ok) as (d & E & Hst & _ & _). exists d. split; [exact E|exact Hst].
Defined.

Lemma deleted_generator_leaves_nothing_witness :
  ∃ d, exec_all alarm_type part (history ++ DeleteUVEs agent :: late) ∅ = Some d ∧
    set_at d (key_text (KTypes agent)) = Some ∅ ∧ hash_at d (key_text (KValues vr agent "VrouterAgent")) = Some ∅.
Proof.
  destruct (deleted_generator_leaves_nothing alarm_type part history agent late) as (d & E & _ & Ht & Hv).
  - exact history_ok.
  - apply plain_ok. reflexivity.
  - unfold late. solve_events.
  - repeat constructor. intros [].
  - exists d. split; [exact E|]. split; [exact Ht|]. by destruct (Hv "VrouterAgent"%string vr eq_refl) as [? _].
Defined.
End RedisExamples.
