(* ===== verification/RedisConnection.v ===== *)
(** * The connections to Redis

    [contrail-collector/redis_connection.cc] and, of [OpServerProxy.cc], the
    handlers of its two connections: the one that carries the UVEs ([to_ops_conn_])
    and the one that is subscribed to messages for generators ([from_ops_conn_]).

    hiredis calls back: when a context is connected or could not be, with the reply
    of a command, and when it is disconnected, having answered the commands still
    under way with NULL.  What it knows of a context is [live].  Every handler is
    one step; the handlers posted to the event manager run in any order. *)
From stdpp Require Import base tactics list strings gmap.
From Stdlib Require Import ZArith Lia.
From S2P Require Import Prelude.
From S2P Require Import CppString.
From S2P Require Import Json.
Local Open Scope Z_scope.

(** ** Data *)

(** The two connections of [OpServerImpl]. *)
Inductive RacConnType := RAC_CONN_TYPE_TO_OPS | RAC_CONN_TYPE_FROM_OPS.
#[export] Instance RacConnType_eq_dec : EqDecision RacConnType.
Proof. solve_decision. Defined.

Inductive RedisState :=
  | REDIS_ASYNC_CONNECTION_INIT | REDIS_ASYNC_CONNECTION_PENDING
  | REDIS_ASYNC_CONNECTION_CONNECTED | REDIS_ASYNC_CONNECTION_DISCONNECTED.
#[export] Instance RedisState_eq_dec : EqDecision RedisState.
Proof. solve_decision. Defined.

(** A [redisAsyncContext *]. *)
Abbreviation context := nat (only parsing).

(** The members of a connection.  Arming [reconnect_timer_] again cancels the wait
    before it, whose handler returns at once: it is pending or not. *)
Record RedisAsyncConnection := {
  redis_ssl_enable_ : bool;
  callDisconnected_ : Z; callFailed_ : Z; callSucceeded_ : Z;
  callbackNull_ : Z; callbackFailed_ : Z; callbackSucceeded_ : Z;
  context_ : option context;
  client_ : option context;
  state_ : RedisState;
  reconnect_timer_ : bool
}.
Definition RedisAsyncConnection_ctor (ssl : bool) : RedisAsyncConnection := {|
  redis_ssl_enable_ := ssl;
  callDisconnected_ := 0; callFailed_ := 0; callSucceeded_ := 0;
  callbackNull_ := 0; callbackFailed_ := 0; callbackSucceeded_ := 0;
  context_ := None; client_ := None; state_ := REDIS_ASYNC_CONNECTION_INIT; reconnect_timer_ := false |}.
Definition set_call_counts (d f s : Z) (r : RedisAsyncConnection) : RedisAsyncConnection := {|
  redis_ssl_enable_ := redis_ssl_enable_ r; callDisconnected_ := d; callFailed_ := f; callSucceeded_ := s;
  callbackNull_ := callbackNull_ r; callbackFailed_ := callbackFailed_ r; callbackSucceeded_ := callbackSucceeded_ r;
  context_ := context_ r; client_ := client_ r; state_ := state_ r; reconnect_timer_ := reconnect_timer_ r |}.
Definition set_callback_counts (n f s : Z) (r : RedisAsyncConnection) : RedisAsyncConnection := {|
  redis_ssl_enable_ := redis_ssl_enable_ r;
  callDisconnected_ := callDisconnected_ r; callFailed_ := callFailed_ r; callSucceeded_ := callSucceeded_ r;
  callbackNull_ := n; callbackFailed_ := f; callbackSucceeded_ := s;
  context_ := context_ r; client_ := client_ r; state_ := state_ r; reconnect_timer_ := reconnect_timer_ r |}.
Definition set_context (c cl : option context) (st : RedisState) (timer : bool) (r : RedisAsyncConnection)
    : RedisAsyncConnection := {|
  redis_ssl_enable_ := redis_ssl_enable_ r;
  callDisconnected_ := callDisconnected_ r; callFailed_ := callFailed_ r; callSucceeded_ := callSucceeded_ r;
  callbackNull_ := callbackNull_ r; callbackFailed_ := callbackFailed_ r; callbackSucceeded_ := callbackSucceeded_ r;
  context_ := c; client_ := cl; state_ := st; reconnect_timer_ := timer |}.
Definition IsConnUp (r : RedisAsyncConnection) : bool := bool_decide (state_ r = REDIS_ASYNC_CONNECTION_CONNECTED).

(** The functions a client sets for the replies ([ClientAsyncCmdCbFn]). *)
Inductive ClientAsyncCmdCbFn :=
  | toConnectCallbackProcess | fromConnectCallbackProcess | processorCallbackProcess | analyticsCallbackProcess.
(** The callbacks of a context; the first three are bound to a connection. *)
Record RAC_CbFns := {
  stat_cbfn_ : option RacConnType;
  connect_cbfn_ : option RacConnType;
  disconnect_cbfn_ : option RacConnType;
  client_async_cmd_cbfn_ : option ClientAsyncCmdCbFn
}.
Definition set_connect_cbfn (o : option RacConnType) (f : RAC_CbFns) : RAC_CbFns := {|
  stat_cbfn_ := stat_cbfn_ f; connect_cbfn_ := o; disconnect_cbfn_ := disconnect_cbfn_ f;
  client_async_cmd_cbfn_ := client_async_cmd_cbfn_ f |}.
Definition set_disconnect_cbfn (o : option RacConnType) (f : RAC_CbFns) : RAC_CbFns := {|
  stat_cbfn_ := stat_cbfn_ f; connect_cbfn_ := connect_cbfn_ f; disconnect_cbfn_ := o;
  client_async_cmd_cbfn_ := client_async_cmd_cbfn_ f |}.
Definition set_client_cbfn (cb : ClientAsyncCmdCbFn) (f : RAC_CbFns) : RAC_CbFns := {|
  stat_cbfn_ := stat_cbfn_ f; connect_cbfn_ := connect_cbfn_ f; disconnect_cbfn_ := disconnect_cbfn_ f;
  client_async_cmd_cbfn_ := Some cb |}.

(** A [redisReply]; an array holds strings and other elements. *)
Inductive redisReply :=
  | ReplyNil | ReplyInteger | ReplyStatus | ReplyString (s : string) | ReplyError | ReplyArray (l : list (option string)).

(** [OpserverUVEUpdateContext], with the address it was allocated at. *)
Record OpserverUVEUpdateContext := {
  rpi : nat; source_ : string; module_ : string; instance_id_ : string; node_type_ : string
}.
#[export] Instance OpserverUVEUpdateContext_eq_dec : EqDecision OpserverUVEUpdateContext.
Proof. solve_decision. Defined.
Abbreviation privdata := (option OpserverUVEUpdateContext).

(** What is sent to Redis, and what the handlers call outside of this file. *)
Inductive redis_text := AUTH (password : string) | PING | SUBSCRIBE_analytics | ArgCmd (args : list string).
Inductive ConnectionStatus := CONN_INIT | CONN_UP | CONN_DOWN.
Inductive effect :=
  | Sent (c : context) (text : redis_text)
  | FlushUVEs_called
  | RedisUpdate_called (up : bool)
  | SetRedisState_called (up : bool)
  | ConnectionUpdate (t : RacConnType) (status : ConnectionStatus)
  | CloseGeneratorSession_called (source module instance node : string)
  | SendRemote_called (destination dec_sandesh : string).

(** The handlers posted to the event manager. *)
Inductive posted_handler :=
  | ToOpsAuthenticated | FromOpsAuthenticated
  | ToOpsConnUpPostProcess | FromOpsConnUpPostProcess
  | RAC_ConnectProcess (t : RacConnType).
#[export] Instance handler_eq_dec : EqDecision posted_handler.
Proof. solve_decision. Defined.

Inductive RacStatus := RAC_UP | RAC_DOWN.

(** What hiredis knows of a context: whether it is connected, and the commands that
    have no reply. *)
Record hiredis_context := { established : bool; under_way : list privdata }.
#[export] Instance hiredis_context_eq_dec : EqDecision hiredis_context.
Proof. solve_decision. Defined.

Record OpServerImpl := {
  redis_password_ : string;
  has_kafka : bool;
  to_ops_conn_ : RedisAsyncConnection;
  from_ops_conn_ : RedisAsyncConnection;
  rac_cb_fns_map_ : gmap context RAC_CbFns;
  redis_status : RacStatus;
  started_ : bool;
  allocated : gset nat;
  posted : list posted_handler;
  live : gmap context hiredis_context;
  effects : list effect
}.

Definition conn (t : RacConnType) (s : OpServerImpl) : RedisAsyncConnection :=
  match t with RAC_CONN_TYPE_TO_OPS => to_ops_conn_ s | RAC_CONN_TYPE_FROM_OPS => from_ops_conn_ s end.
Definition set_conn (t : RacConnType) (r : RedisAsyncConnection) (s : OpServerImpl) : OpServerImpl := {|
  redis_password_ := redis_password_ s; has_kafka := has_kafka s;
  to_ops_conn_ := match t with RAC_CONN_TYPE_TO_OPS => r | _ => to_ops_conn_ s end;
  from_ops_conn_ := match t with RAC_CONN_TYPE_FROM_OPS => r | _ => from_ops_conn_ s end;
  rac_cb_fns_map_ := rac_cb_fns_map_ s; redis_status := redis_status s; started_ := started_ s;
  allocated := allocated s; posted := posted s; live := live s; effects := effects s |}.
Definition set_fns_map (m : gmap context RAC_CbFns) (s : OpServerImpl) : OpServerImpl := {|
  redis_password_ := redis_password_ s; has_kafka := has_kafka s; to_ops_conn_ := to_ops_conn_ s;
  from_ops_conn_ := from_ops_conn_ s; rac_cb_fns_map_ := m; redis_status := redis_status s; started_ := started_ s;
  allocated := allocated s; posted := posted s; live := live s; effects := effects s |}.
Definition set_status (st : RacStatus) (up : bool) (s : OpServerImpl) : OpServerImpl := {|
  redis_password_ := redis_password_ s; has_kafka := has_kafka s; to_ops_conn_ := to_ops_conn_ s;
  from_ops_conn_ := from_ops_conn_ s; rac_cb_fns_map_ := rac_cb_fns_map_ s; redis_status := st; started_ := up;
  allocated := allocated s; posted := posted s; live := live s; effects := effects s |}.
Definition set_allocated (a : gset nat) (s : OpServerImpl) : OpServerImpl := {|
  redis_password_ := redis_password_ s; has_kafka := has_kafka s; to_ops_conn_ := to_ops_conn_ s;
  from_ops_conn_ := from_ops_conn_ s; rac_cb_fns_map_ := rac_cb_fns_map_ s; redis_status := redis_status s;
  started_ := started_ s; allocated := a; posted := posted s; live := live s; effects := effects s |}.
Definition set_posted (l : list posted_handler) (s : OpServerImpl) : OpServerImpl := {|
  redis_password_ := redis_password_ s; has_kafka := has_kafka s; to_ops_conn_ := to_ops_conn_ s;
  from_ops_conn_ := from_ops_conn_ s; rac_cb_fns_map_ := rac_cb_fns_map_ s; redis_status := redis_status s;
  started_ := started_ s; allocated := allocated s; posted := l; live := live s; effects := effects s |}.
Definition set_live (m : gmap context hiredis_context) (s : OpServerImpl) : OpServerImpl := {|
  redis_password_ := redis_password_ s; has_kafka := has_kafka s; to_ops_conn_ := to_ops_conn_ s;
  from_ops_conn_ := from_ops_conn_ s; rac_cb_fns_map_ := rac_cb_fns_map_ s; redis_status := redis_status s;
  started_ := started_ s; allocated := allocated s; posted := posted s; live := m; effects := effects s |}.
Definition emit (l : list effect) (s : OpServerImpl) : OpServerImpl := {|
  redis_password_ := redis_password_ s; has_kafka := has_kafka s; to_ops_conn_ := to_ops_conn_ s;
  from_ops_conn_ := from_ops_conn_ s; rac_cb_fns_map_ := rac_cb_fns_map_ s; redis_status := redis_status s;
  started_ := started_ s; allocated := allocated s; posted := posted s; live := live s; effects := effects s ++ l |}.
Definition post (h : posted_handler) (s : OpServerImpl) : OpServerImpl := set_posted (posted s ++ [h]) s.

(** ** [RedisAsyncConnection]

    A failed assertion is [None]. *)

(** What [redisAsyncConnect] and [redisSecureConnection] return. *)
Inductive connect_outcome := ConnectError | Connecting (c : context) (secured : bool).

Definition RAC_Connect (t : RacConnType) (o : connect_outcome) (s : OpServerImpl) : option OpServerImpl :=
  let r := conn t s in
  match context_ r with
  | Some _ => None
  | None =>
      match o with
      | ConnectError => Some (set_conn t (set_context None (client_ r) (state_ r) true r) s)
      | Connecting c secured =>
          if redis_ssl_enable_ r && negb secured then
            Some (set_conn t (set_context None (client_ r) (state_ r) true r) s)
          else
            match rac_cb_fns_map_ s !! c with
            | Some _ => None
            | None =>
                let fns := {| stat_cbfn_ := Some t; connect_cbfn_ := Some t; disconnect_cbfn_ := Some t;
                              client_async_cmd_cbfn_ := None |} in
                Some (set_conn t (set_context (Some c) (Some c) REDIS_ASYNC_CONNECTION_PENDING (reconnect_timer_ r) r)
                        (set_fns_map (<[c := fns]> (rac_cb_fns_map_ s))
                           (set_live (<[c := {| established := false; under_way := [] |}]> (live s)) s)))
            end
      end
  end.

(** [error]: none, that of a cancelled wait, or another one. *)
Inductive timer_error := NoError | operation_canceled | OtherError.
Definition RAC_Reconnect (t : RacConnType) (error : timer_error) (o : connect_outcome) (s : OpServerImpl)
    : option OpServerImpl :=
  match error with operation_canceled => Some s | _ => RAC_Connect t o s end.

(** [client_connect_cb_] and [client_disconnect_cb_] as [OpServerImpl] sets them. *)
Definition ToOpsConnUp (s : OpServerImpl) : OpServerImpl := post ToOpsAuthenticated s.
Definition FromOpsConnUp (s : OpServerImpl) : OpServerImpl := post FromOpsAuthenticated s.
Definition client_connect_cb_ (t : RacConnType) : OpServerImpl → OpServerImpl :=
  match t with RAC_CONN_TYPE_TO_OPS => ToOpsConnUp | RAC_CONN_TYPE_FROM_OPS => FromOpsConnUp end.
Definition ToOpsConnDown (s : OpServerImpl) : OpServerImpl :=
  let s := set_status RAC_DOWN false s in
  let s := emit [RedisUpdate_called false] s in
  let s := if has_kafka s then emit [SetRedisState_called false] s else s in
  post (RAC_ConnectProcess RAC_CONN_TYPE_TO_OPS) (emit [ConnectionUpdate RAC_CONN_TYPE_TO_OPS CONN_DOWN] s).
Definition FromOpsConnDown (s : OpServerImpl) : OpServerImpl :=
  post (RAC_ConnectProcess RAC_CONN_TYPE_FROM_OPS) (emit [ConnectionUpdate RAC_CONN_TYPE_FROM_OPS CONN_DOWN] s).
Definition client_disconnect_cb_ (t : RacConnType) : OpServerImpl → OpServerImpl :=
  match t with RAC_CONN_TYPE_TO_OPS => ToOpsConnDown | RAC_CONN_TYPE_FROM_OPS => FromOpsConnDown end.

(** [fns_map.find(context_)] erased. *)
Definition erase_fns (o : option context) (m : gmap context RAC_CbFns) : gmap context RAC_CbFns :=
  match o with Some c => delete c m | None => m end.

Definition RAC_ConnectCallbackProcess (t : RacConnType) (ok : bool) (s : OpServerImpl) : OpServerImpl :=
  let r := conn t s in
  if negb ok then
    let s := match context_ r with
             | Some c => set_fns_map (delete c (rac_cb_fns_map_ s)) (set_conn t (set_context None None (state_ r) (reconnect_timer_ r) r) s)
             | None => s
             end in
    let r := conn t s in
    set_conn t (set_context (context_ r) (client_ r) (state_ r) true r) s
  else
    client_connect_cb_ t
      (set_conn t (set_context (context_ r) (client_ r) REDIS_ASYNC_CONNECTION_CONNECTED (reconnect_timer_ r) r) s).
Definition RAC_ConnectCallback (c : context) (ok : bool) (s : OpServerImpl) : option OpServerImpl :=
  fns ← rac_cb_fns_map_ s !! c;
  fn ← connect_cbfn_ fns;
  Some (RAC_ConnectCallbackProcess fn ok (set_fns_map (<[c := set_connect_cbfn None fns]> (rac_cb_fns_map_ s)) s)).

Definition RAC_DisconnectCallbackProcess (t : RacConnType) (s : OpServerImpl) : OpServerImpl :=
  let r := conn t s in
  client_disconnect_cb_ t
    (set_conn t (set_context None None REDIS_ASYNC_CONNECTION_DISCONNECTED (reconnect_timer_ r) r)
       (set_fns_map (erase_fns (context_ r) (rac_cb_fns_map_ s)) s)).
Definition RAC_DisconnectCallback (c : context) (s : OpServerImpl) : option OpServerImpl :=
  match rac_cb_fns_map_ s !! c with
  | None => Some s
  | Some fns =>
      fn ← disconnect_cbfn_ fns;
      Some (RAC_DisconnectCallbackProcess fn (set_fns_map (<[c := set_disconnect_cbfn None fns]> (rac_cb_fns_map_ s)) s))
  end.

(** [RAC_StatUpdate]; [None]: a NULL reply. *)
Definition RAC_StatUpdate (reply : option redisReply) (r : RedisAsyncConnection) : RedisAsyncConnection :=
  match reply with
  | None => set_callback_counts (u64 (callbackNull_ r + 1)) (callbackFailed_ r) (callbackSucceeded_ r) r
  | Some ReplyError => set_callback_counts (callbackNull_ r) (u64 (callbackFailed_ r + 1)) (callbackSucceeded_ r) r
  | Some _ => set_callback_counts (callbackNull_ r) (callbackFailed_ r) (u64 (callbackSucceeded_ r + 1)) r
  end.

Definition SetClientAsyncCmdCb (t : RacConnType) (cb_fn : ClientAsyncCmdCbFn) (s : OpServerImpl) : option OpServerImpl :=
  c ← context_ (conn t s);
  fns ← rac_cb_fns_map_ s !! c;
  Some (set_fns_map (<[c := set_client_cbfn cb_fn fns]> (rac_cb_fns_map_ s)) s).

(** [RedisAsyncCommand] and [RedisAsyncArgCmd]; [ret]: hiredis takes the command. *)
Definition RedisAsyncCommand (t : RacConnType) (p : privdata) (text : redis_text) (ret : bool) (s : OpServerImpl)
    : option (OpServerImpl * bool) :=
  let r := conn t s in
  if negb (IsConnUp r) then
    Some (set_conn t (set_call_counts (u64 (callDisconnected_ r + 1)) (callFailed_ r) (callSucceeded_ r) r) s, false)
  else
    c ← context_ r;
    if ret then
      h ← live s !! c;
      Some (set_conn t (set_call_counts (callDisconnected_ r) (callFailed_ r) (u64 (callSucceeded_ r + 1)) r)
              (set_live (<[c := {| established := established h; under_way := under_way h ++ [p] |}]> (live s))
                 (emit [Sent c text] s)), true)
    else
      Some (set_conn t (set_call_counts (callDisconnected_ r) (u64 (callFailed_ r + 1)) (callSucceeded_ r) r) s, false).

(** ** The handlers of [OpServerImpl] *)

Class Base64 := { base64_decode : string → string }.

(** [OpserverUVEUpdateContext::ProcessCallback], and its deletion. *)
Definition ProcessCallback (reply : redisReply) (u : OpserverUVEUpdateContext) (s : OpServerImpl) : OpServerImpl :=
  match reply with
  | ReplyNil => emit [CloseGeneratorSession_called (source_ u) (module_ u) (instance_id_ u) (node_type_ u)] s
  | _ => s
  end.
Definition delete_rpi (u : OpserverUVEUpdateContext) (s : OpServerImpl) : option OpServerImpl :=
  if decide (rpi u ∈ allocated s) then Some (set_allocated (allocated s ∖ {[rpi u]}) s) else None.

Definition toConnectCallback (r : option redisReply) (s : OpServerImpl) : option OpServerImpl :=
  match r with
  | None => Some s
  | Some ReplyError => None
  | Some _ => Some (post ToOpsConnUpPostProcess
                (emit [ConnectionUpdate RAC_CONN_TYPE_TO_OPS CONN_UP] (set_status RAC_UP (started_ s) s)))
  end.
Definition fromConnectCallback (r : option redisReply) (s : OpServerImpl) : option OpServerImpl :=
  match r with
  | None => Some s
  | Some ReplyError => None
  | Some _ => Some (post FromOpsConnUpPostProcess (emit [ConnectionUpdate RAC_CONN_TYPE_FROM_OPS CONN_UP] s))
  end.
Definition processorCallback (r : option redisReply) (p : privdata) (s : OpServerImpl) : option OpServerImpl :=
  match r with
  | None => Some s
  | Some ReplyError => None
  | Some reply => match p with Some u => delete_rpi u (ProcessCallback reply u s) | None => Some s end
  end.

Section handlers.
Context `{Base64, JsonParser}.

(** The text of a string member of a document; anything else fails an assertion. *)
Definition document_string (document : json) (name : string) : option string :=
  match HasMember document name with
  | Done true => match member document name with Done (JString v) => Some (c_str v) | _ => None end
  | _ => None
  end.
(** A message for generators: its destination and text. *)
Definition remote_message (text : string) : option (string * string) :=
  document ← Document_Parse (c_str text);
  _ ← document_string document "type";
  destination ← document_string document "destination";
  enc_sandesh ← document_string document "message";
  Some (destination, base64_decode enc_sandesh).
(** [strncmp(s, p, strlen(p)) == 0]; [None]: a null pointer. *)
Definition starts (p : string) (e : option string) : option bool := String.prefix p <$> e.
Definition analyticsCallback (r : option redisReply) (s : OpServerImpl) : option OpServerImpl :=
  match r with
  | Some (ReplyArray elements) =>
      match elements with
      | [e0; e1; e2] =>
          subscribe ← starts "subscribe" e0;
          if (subscribe : bool) then Some s
          else
            message ← starts "message" e0;
            if negb message then None
            else
              analytics ← starts "analytics" e1;
              if negb analytics then None
              else
                text ← e2;
                '(destination, dec_sandesh) ← remote_message text;
                Some (emit [SendRemote_called destination dec_sandesh] s)
      | _ => None
      end
  | _ => Some s
  end.
Definition client_async_cmd (cb : ClientAsyncCmdCbFn) (r : option redisReply) (p : privdata) (s : OpServerImpl)
    : option OpServerImpl :=
  match cb with
  | toConnectCallbackProcess => toConnectCallback r s
  | fromConnectCallbackProcess => fromConnectCallback r s
  | processorCallbackProcess => processorCallback r p s
  | analyticsCallbackProcess => analyticsCallback r s
  end.

Definition RAC_AsyncCmdCallback (c : context) (r : option redisReply) (p : privdata) (s : OpServerImpl)
    : option OpServerImpl :=
  match rac_cb_fns_map_ s !! c with
  | None => Some s
  | Some fns =>
      match client_async_cmd_cbfn_ fns with
      | Some cbfn => client_async_cmd cbfn r p s
      | None => t ← stat_cbfn_ fns; Some (set_conn t (RAC_StatUpdate r (conn t s)) s)
      end
  end.

(** The posted handlers; [ret]: hiredis takes the command. *)
Definition auth_command (s : OpServerImpl) : redis_text :=
  if (redis_password_ s =? "")%string then PING else AUTH (c_str (redis_password_ s)).
Definition OpsAuthenticated (t : RacConnType) (cb : ClientAsyncCmdCbFn) (ret : bool) (s : OpServerImpl)
    : option OpServerImpl :=
  s ← SetClientAsyncCmdCb t cb s;
  fst <$> RedisAsyncCommand t None (auth_command s) ret s.
Definition ToOpsConnUpPostProcess_run (s : OpServerImpl) : option OpServerImpl :=
  s ← SetClientAsyncCmdCb RAC_CONN_TYPE_TO_OPS processorCallbackProcess s;
  let s := if started_ s then s else set_status (redis_status s) true (emit [FlushUVEs_called] s) in
  let s := emit [RedisUpdate_called true] s in
  Some (if has_kafka s then emit [SetRedisState_called true] s else s).
Definition FromOpsConnUpPostProcess_run (ret : bool) (s : OpServerImpl) : option OpServerImpl :=
  s ← SetClientAsyncCmdCb RAC_CONN_TYPE_FROM_OPS analyticsCallbackProcess s;
  fst <$> RedisAsyncCommand RAC_CONN_TYPE_FROM_OPS None SUBSCRIBE_analytics ret s.
Definition run_handler (h : posted_handler) (o : connect_outcome) (ret : bool) (s : OpServerImpl) : option OpServerImpl :=
  match h with
  | ToOpsAuthenticated => OpsAuthenticated RAC_CONN_TYPE_TO_OPS toConnectCallbackProcess ret s
  | FromOpsAuthenticated => OpsAuthenticated RAC_CONN_TYPE_FROM_OPS fromConnectCallbackProcess ret s
  | ToOpsConnUpPostProcess => ToOpsConnUpPostProcess_run s
  | FromOpsConnUpPostProcess => FromOpsConnUpPostProcess_run ret s
  | RAC_ConnectProcess t => RAC_Connect t o s
  end.

Definition OpServerImpl_ctor (password : string) (kafka : bool) (o o' : connect_outcome) : option OpServerImpl :=
  s ← RAC_Connect RAC_CONN_TYPE_TO_OPS o {|
    redis_password_ := password; has_kafka := kafka;
    to_ops_conn_ := RedisAsyncConnection_ctor false; from_ops_conn_ := RedisAsyncConnection_ctor false;
    rac_cb_fns_map_ := ∅; redis_status := RAC_DOWN; started_ := false; allocated := ∅; posted := []; live := ∅;
    effects := [ConnectionUpdate RAC_CONN_TYPE_TO_OPS CONN_INIT] |};
  RAC_Connect RAC_CONN_TYPE_FROM_OPS o' (emit [ConnectionUpdate RAC_CONN_TYPE_FROM_OPS CONN_INIT] s).

(** ** The steps *)

Inductive event :=
  | EvTimer (t : RacConnType) (error : timer_error) (o : connect_outcome)
  | EvPosted (i : nat) (o : connect_outcome) (ret : bool)
  | EvConnected (c : context) (ok : bool)
  | EvReply (c : context) (r : redisReply)
  | EvPublished (c : context) (r : redisReply)
  | EvDisconnected (c : context)
  | EvCommand (p : privdata) (args : list string) (ret : bool).

(** A command of the proxy on the connection for UVEs; an update allocates the
    object that is called back. *)
Definition send_command (p : privdata) (args : list string) (ret : bool) (s : OpServerImpl)
    : option (OpServerImpl * bool) :=
  RedisAsyncCommand RAC_CONN_TYPE_TO_OPS p (ArgCmd args) ret
    (match p with Some u => set_allocated ({[rpi u]} ∪ allocated s) s | None => s end).

Definition conn_step (e : event) (s : OpServerImpl) : option OpServerImpl :=
  match e with
  | EvTimer t error o =>
      match error with
      | operation_canceled => RAC_Reconnect t error o s
      | _ => let r := conn t s in
             RAC_Reconnect t error o (set_conn t (set_context (context_ r) (client_ r) (state_ r) false r) s)
      end
  | EvPosted i o ret => h ← posted s !! i; run_handler h o ret (set_posted (delete i (posted s)) s)
  | EvConnected c ok =>
      if ok then RAC_ConnectCallback c true (set_live (<[c := {| established := true; under_way := [] |}]> (live s)) s)
      else s ← RAC_ConnectCallback c false s; Some (set_live (delete c (live s)) s)
  | EvReply c r =>
      h ← live s !! c;
      match under_way h with
      | p :: ps =>
          RAC_AsyncCmdCallback c (Some r) p
            (set_live (<[c := {| established := established h; under_way := ps |}]> (live s)) s)
      | [] => None
      end
  | EvPublished c r => RAC_AsyncCmdCallback c (Some r) None s
  | EvDisconnected c =>
      h ← live s !! c;
      s ← foldl (λ o p, o ≫= RAC_AsyncCmdCallback c None p) (Some s) (under_way h);
      s ← RAC_DisconnectCallback c s;
      Some (set_live (delete c (live s)) s)
  | EvCommand p args ret => fst <$> send_command p args ret s
  end.

(** What hiredis, the event manager and the allocator may do. *)
Definition fresh_context (o : connect_outcome) (s : OpServerImpl) : Prop :=
  match o with ConnectError => True | Connecting c _ => live s !! c = None end.
Definition possible (e : event) (s : OpServerImpl) : Prop :=
  match e with
  | EvTimer t error o => reconnect_timer_ (conn t s) = true ∧ fresh_context o s
  | EvPosted i o _ => is_Some (posted s !! i) ∧ fresh_context o s
  | EvConnected c _ => live s !! c = Some {| established := false; under_way := [] |}
  | EvReply c _ => ∃ p ps, live s !! c = Some {| established := true; under_way := p :: ps |}
  | EvPublished c _ => ∃ ps, live s !! c = Some {| established := true; under_way := ps |}
  | EvDisconnected c => ∃ ps, live s !! c = Some {| established := true; under_way := ps |}
  | EvCommand p _ _ => match p with Some u => rpi u ∉ allocated s | None => True end
  end.
Fixpoint run (l : list event) (s : OpServerImpl) : option OpServerImpl :=
  match l with [] => Some s | e :: l' => conn_step e s ≫= run l' end.
Fixpoint possible_run (l : list event) (s : OpServerImpl) : Prop :=
  match l with
  | [] => True
  | e :: l' => possible e s ∧ match conn_step e s with Some s' => possible_run l' s' | None => True end
  end.

#[export] Instance possible_dec e s : Decision (possible e s).
Proof.
  assert (∀ c (P : option (list privdata) → bool),
    {∃ ps, live s !! c = Some {| established := true; under_way := ps |} ∧ P (Some ps) = true} +
    {~ ∃ ps, live s !! c = Some {| established := true; under_way := ps |} ∧ P (Some ps) = true}) as Hdec.
  { intros c P. destruct (live s !! c) as [[[] ps]|]; [|by right; intros (? & ? & _)|by right; intros (? & ? & _)].
    destruct (P (Some ps)) eqn:E; [by left; exists ps|]. right. intros (? & [= <-] & ?). congruence. }
  unfold Decision. destruct e as [t error o|i o ret|c ok|c r|c r|c|p args ret]; simpl.
  - assert (Decision (fresh_context o s)) by (destruct o; simpl; apply _). apply (and_dec _ _).
  - assert (Decision (fresh_context o s)) by (destruct o; simpl; apply _). apply (and_dec _ _).
  - apply (option_eq_dec _ _).
  - destruct (Hdec c (λ o, match o with Some (_ :: _) => true | _ => false end)) as [Hs|Hn].
    + left. destruct Hs as ([|p ps] & ? & ?); [done|]. by exists p, ps.
    + right. intros (p & ps & ?). apply Hn. by exists (p :: ps).
  - destruct (Hdec c (λ _, true)) as [Hs|Hn]; [left|right; intros (ps & ?); apply Hn; by exists ps]. destruct Hs as (ps & ? & _). by exists ps.
  - destruct (Hdec c (λ _, true)) as [Hs|Hn]; [left|right; intros (ps & ?); apply Hn; by exists ps]. destruct Hs as (ps & ? & _). by exists ps.
  - destruct p as [u|]; [apply (not_dec _)|apply True_dec].
Defined.
#[export] Instance possible_run_dec l s : Decision (possible_run l s).
Proof.
  revert s. induction l as [|e l IH]; intros s; simpl; [apply _|].
  assert (Decision (match conn_step e s with Some s' => possible_run l s' | None => True end)) by (destruct (conn_step e s); apply _).
  apply _.
Defined.
End handlers.

(** ** The connections stay consistent *)

(** The posted attempts to connect again. *)
Definition reconnects (t : RacConnType) (s : OpServerImpl) : nat :=
  length (filter (λ h, h = RAC_ConnectProcess t) (posted s)).
Definition rpis (h : hiredis_context) : list nat := omap (fmap rpi) (under_way h).

(** A connection with a context, or one that waits for its next attempt. *)
Record has_context (t : RacConnType) (c : context) (s : OpServerImpl) : Prop := {
  hc_timer : reconnect_timer_ (conn t s) = false;
  hc_posted : reconnects t s = 0%nat;
  hc_fns : ∃ fns, rac_cb_fns_map_ s !! c = Some fns ∧ stat_cbfn_ fns = Some t ∧ disconnect_cbfn_ fns = Some t ∧
    (state_ (conn t s) ≠ REDIS_ASYNC_CONNECTION_CONNECTED → connect_cbfn_ fns = Some t);
  hc_live : ∃ h, live s !! c = Some h ∧ (state_ (conn t s) = REDIS_ASYNC_CONNECTION_CONNECTED ↔ established h = true) ∧
    (t = RAC_CONN_TYPE_FROM_OPS → rpis h = []) ∧ NoDup (rpis h) ∧ (∀ x, x ∈ rpis h → x ∈ allocated s)
}.
Definition no_context (t : RacConnType) (attempts : nat) (s : OpServerImpl) : Prop :=
  state_ (conn t s) ≠ REDIS_ASYNC_CONNECTION_CONNECTED ∧
  (Nat.b2n (reconnect_timer_ (conn t s)) + reconnects t s)%nat = attempts.
(** [x t]: the connection is about to be made. *)
Record wf_but (x : RacConnType → bool) (s : OpServerImpl) : Prop := {
  wf_conn t : match context_ (conn t s) with
              | Some c => x t = false ∧ has_context t c s
              | None => no_context t (if x t then 0 else 1) s
              end;
  wf_map c : is_Some (rac_cb_fns_map_ s !! c) → ∃ t, context_ (conn t s) = Some c;
  wf_live c : is_Some (live s !! c) → ∃ t, context_ (conn t s) = Some c;
  wf_distinct t t' c : context_ (conn t s) = Some c → context_ (conn t' s) = Some c → t = t'
}.
Abbreviation wf := (wf_but (λ _, false)).

Lemma conn_set_conn t t' r s : conn t' (set_conn t r s) = if decide (t' = t) then r else conn t' s.
Proof. by destruct t, t'. Qed.
Lemma reconnects_post t h s : reconnects t (post h s) = (reconnects t s + if decide (h = RAC_ConnectProcess t) then 1 else 0)%nat.
Proof.
  unfold reconnects. simpl. rewrite filter_app, List.length_app, filter_cons, filter_nil.
  by destruct (decide _).
Qed.

(** What the invariant looks at is unchanged. *)
Record same (s s' : OpServerImpl) : Prop := {
  same_conn t : context_ (conn t s') = context_ (conn t s) ∧ state_ (conn t s') = state_ (conn t s) ∧
    reconnect_timer_ (conn t s') = reconnect_timer_ (conn t s) ∧ reconnects t s' = reconnects t s;
  same_map : rac_cb_fns_map_ s' = rac_cb_fns_map_ s;
  same_live : live s' = live s
}.
#[export] Instance same_preorder : PreOrder same.
Proof.
  split.
  - intros s. by split.
  - intros s1 s2 s3 [A B C] [A' B' C']. split; [|congruence..]. intros t.
    destruct (A t) as (? & ? & ? & ?), (A' t) as (? & ? & ? & ?). split_and!; congruence.
Qed.
Lemma same_set_conn t r s : context_ r = context_ (conn t s) → state_ r = state_ (conn t s) →
  reconnect_timer_ r = reconnect_timer_ (conn t s) → same s (set_conn t r s).
Proof.
  intros E1 E2 E3. split; [|done..]. intros u. rewrite conn_set_conn. by destruct (decide (u = t)) as [->|].
Qed.
Lemma same_emit l s : same s (emit l s).
Proof. by split. Qed.
Lemma same_status st up s : same s (set_status st up s).
Proof. by split. Qed.
Lemma same_allocated a s : same s (set_allocated a s).
Proof. by split. Qed.
Lemma same_post h s : (∀ t, h ≠ RAC_ConnectProcess t) → same s (post h s).
Proof.
  intros Hh. split; [|done..]. intros t. split_and!; [done..|]. rewrite reconnects_post, decide_False by done. lia.
Qed.
Lemma wf_same x s s' : wf_but x s → same s s' → (∀ c h, live s !! c = Some h → ∀ y, y ∈ rpis h → y ∈ allocated s → y ∈ allocated s') →
  wf_but x s'.
Proof.
  intros [W1 W2 W3 W4] [S1 S2 S3] Ha. split.
  - intros t. pose proof (W1 t) as W. destruct (S1 t) as (E1 & E2 & E3 & E4). rewrite E1.
    destruct (context_ (conn t s)) as [c|].
    + destruct W as [Hx [A B C (h & Hl & Hs & Hf & Hn & Hi)]]. split; [done|]. split; [congruence|congruence|by rewrite S2, E2|].
      exists h. rewrite S3, E2. split_and!; [done..|]. intros y Hy. by eapply Ha, Hi.
    + destruct W as [A B]. by split; [rewrite E2|rewrite E3, E4].
  - intros c. rewrite S2. intros Hc. destruct (W2 c Hc) as [t Ht]. exists t. by rewrite (proj1 (S1 t)).
  - intros c. rewrite S3. intros Hc. destruct (W3 c Hc) as [t Ht]. exists t. by rewrite (proj1 (S1 t)).
  - intros t t' c. rewrite (proj1 (S1 t)), (proj1 (S1 t')). apply W4.
Qed.

(** A new attempt to connect. *)
Lemma RAC_Connect_wf x t o s : wf_but x s → x t = true → fresh_context o s →
  ∃ s', RAC_Connect t o s = Some s' ∧ wf_but (λ u, if decide (u = t) then false else x u) s'.
Proof.
  intros [W1 W2 W3 W4] Hx Hf. pose proof (W1 t) as Ht. rewrite Hx in Ht.
  destruct (context_ (conn t s)) as [?|] eqn:E; [by destruct Ht|]. destruct Ht as [Hst Hat].
  assert (reconnect_timer_ (conn t s) = false ∧ reconnects t s = 0%nat) as [Etm Ern] by (destruct (reconnect_timer_ _); simpl in Hat; split; [done|lia|done|lia]).
  unfold RAC_Connect. rewrite E.
  assert (∀ s0, s0 = set_conn t (set_context None (client_ (conn t s)) (state_ (conn t s)) true (conn t s)) s →
    wf_but (λ u, if decide (u = t) then false else x u) s0) as Hwait.
  { intros ? ->. split; [|intros c Hc|intros c Hc|].
    - intros u. rewrite conn_set_conn. pose proof (W1 u) as Hu. destruct (decide (u = t)) as [->|Hne]; simpl.
      + split; rewrite conn_set_conn, decide_True by done; [done|]. simpl. change (reconnects t (set_conn _ _ s)) with (reconnects t s). lia.
      + destruct (context_ (conn u s)).
        * destruct Hu as [? [A B C D]]. split; [done|]. split; rewrite ?conn_set_conn, ?decide_False by done; done.
        * destruct Hu as [A B]. split; rewrite ?conn_set_conn, ?decide_False by done; done.
    - destruct (W2 c Hc) as [u Hu]. exists u. rewrite conn_set_conn. destruct (decide (u = t)) as [->|]; [congruence|done].
    - destruct (W3 c Hc) as [u Hu]. exists u. rewrite conn_set_conn. destruct (decide (u = t)) as [->|]; [congruence|done].
    - intros u u' c. rewrite !conn_set_conn. destruct (decide (u = t)), (decide (u' = t)); try done. apply W4. }
  destruct o as [|c secured]; [eauto|]. destruct (_ && _); [eauto|]. simpl in Hf.
  assert (∀ u, context_ (conn u s) ≠ Some c) as Hnc.
  { intros u Hu. pose proof (W1 u) as Wu. rewrite Hu in Wu. destruct Wu as [_ [_ _ _ (h & Hl & _)]]. congruence. }
  destruct (rac_cb_fns_map_ s !! c) eqn:Ec.
  { exfalso. destruct (W2 c) as [u Hu]; [by eexists|]. by apply (Hnc u). }
  eexists. split; [done|]. split.
  - intros u. rewrite conn_set_conn. pose proof (W1 u) as Hu. destruct (decide (u = t)) as [->|Hne]; simpl.
    + split; [done|]. split; rewrite ?conn_set_conn, ?decide_True by done; simpl.
      * done.
      * exact Ern.
      * eexists. rewrite lookup_insert_eq. split_and!; done.
      * eexists. rewrite lookup_insert_eq. split_and!; [done|done|done|constructor|]. by intros y ?%elem_of_nil.
    + change (conn u (set_fns_map _ _)) with (conn u s). destruct (context_ (conn u s)) as [c'|] eqn:Eu.
      * destruct Hu as [? [A B C D]]. split; [done|]. assert (c ≠ c') by (intros ->; by apply (Hnc u)).
        split; rewrite ?conn_set_conn, ?decide_False by done; simpl; rewrite ?lookup_insert_ne by done; done.
      * destruct Hu as [A B]. split; rewrite ?conn_set_conn, ?decide_False by done; done.
  - intros c' Hc'. simpl in Hc'. destruct (decide (c' = c)) as [->|].
    + exists t. by rewrite conn_set_conn, decide_True.
    + rewrite lookup_insert_ne in Hc' by done. destruct (W2 c' Hc') as [u Hu]. exists u.
      rewrite conn_set_conn. destruct (decide (u = t)) as [->|]; [congruence|done].
  - intros c' Hc'. simpl in Hc'. destruct (decide (c' = c)) as [->|].
    + exists t. by rewrite conn_set_conn, decide_True.
    + rewrite lookup_insert_ne in Hc' by done. destruct (W3 c' Hc') as [u Hu]. exists u.
      rewrite conn_set_conn. destruct (decide (u = t)) as [->|]; [congruence|done].
  - intros u u' c'. rewrite !conn_set_conn.
    destruct (decide (u = t)), (decide (u' = t)); simpl; try congruence; intros E1 E2.
    + injection E1 as <-. by apply Hnc in E2.
    + injection E2 as <-. by apply Hnc in E1.
    + by eapply W4.
Qed.

Lemma fns_owner x s c fns : wf_but x s → rac_cb_fns_map_ s !! c = Some fns →
  ∃ t, context_ (conn t s) = Some c ∧ has_context t c s ∧ stat_cbfn_ fns = Some t ∧ disconnect_cbfn_ fns = Some t ∧
    (state_ (conn t s) ≠ REDIS_ASYNC_CONNECTION_CONNECTED → connect_cbfn_ fns = Some t).
Proof.
  intros W E. destruct (wf_map _ _ W c) as [t Ht]; [by eexists|]. pose proof (wf_conn _ _ W t) as Wt. rewrite Ht in Wt.
  destruct Wt as [_ Hc]. exists t. split; [done|]. split; [done|]. destruct (hc_fns _ _ _ Hc) as (f & Ef & ?). congruence.
Qed.
Lemma live_owner x s c h : wf_but x s → live s !! c = Some h →
  ∃ t fns, context_ (conn t s) = Some c ∧ has_context t c s ∧ rac_cb_fns_map_ s !! c = Some fns ∧
    stat_cbfn_ fns = Some t ∧ disconnect_cbfn_ fns = Some t ∧
    (state_ (conn t s) ≠ REDIS_ASYNC_CONNECTION_CONNECTED → connect_cbfn_ fns = Some t) ∧
    (state_ (conn t s) = REDIS_ASYNC_CONNECTION_CONNECTED ↔ established h = true) ∧
    (t = RAC_CONN_TYPE_FROM_OPS → rpis h = []) ∧ NoDup (rpis h) ∧ (∀ y, y ∈ rpis h → y ∈ allocated s).
Proof.
  intros W E. destruct (wf_live _ _ W c) as [t Ht]; [by eexists|]. pose proof (wf_conn _ _ W t) as Wt. rewrite Ht in Wt.
  destruct Wt as [_ Hc]. destruct (hc_fns _ _ _ Hc) as (f & Ef & ? & ? & ?). destruct (hc_live _ _ _ Hc) as (h' & Eh & ?).
  assert (h' = h) as -> by congruence. exists t, f. tauto.
Qed.

(** ** Replies *)

Section replies.
Context `{Base64, JsonParser}.

(** What [analyticsCallbackProcess] asserts of an array. *)
Definition proper_message (l : list (option string)) : Prop :=
  ∃ e0 e1 e2, l = [Some e0; e1; e2] ∧
    (String.prefix "subscribe" e0 = true ∨
     String.prefix "message" e0 = true ∧ starts "analytics" e1 = Some true ∧ is_Some (e2 ≫= remote_message)).
(** Replies that fail an assertion of their callback. *)
Definition bad_reply (cb : ClientAsyncCmdCbFn) (r : redisReply) : Prop :=
  match cb with
  | analyticsCallbackProcess => ∃ l, r = ReplyArray l ∧ ~ proper_message l
  | _ => r = ReplyError
  end.
Definition refuses (c : context) (r : redisReply) (s : OpServerImpl) : Prop :=
  ∃ fns cb, rac_cb_fns_map_ s !! c = Some fns ∧ client_async_cmd_cbfn_ fns = Some cb ∧ bad_reply cb r.

Lemma analytics_callback l s : match analyticsCallback (Some (ReplyArray l)) s with
  | Some s' => same s s' ∧ allocated s' = allocated s ∧ proper_message l
  | None => ~ proper_message l
  end.
Proof.
  simpl. destruct l as [|e0 [|e1 [|e2 [|]]]];
    try (by intros (? & ? & ? & [=] & _)); try (by intros (? & ? & ? & ?%(f_equal length) & _)).
  destruct e0 as [e0|]; simpl; [|by intros (? & ? & ? & [=] & _)].
  destruct (String.prefix "subscribe" e0) eqn:E1.
  { split; [reflexivity|]. split; [done|]. exists e0, e1, e2. auto. }
  destruct (String.prefix "message" e0) eqn:E2; simpl; [|intros (? & ? & ? & [= <- <- <-] & [?|(? & _)]); congruence].
  destruct e1 as [e1|]; simpl; [|by intros (? & ? & ? & [= <- <- <-] & [?|(_ & [=] & _)]); congruence].
  destruct (String.prefix "analytics" e1) eqn:E3; simpl; [|intros (? & ? & ? & [= <- <- <-] & [?|(_ & [=] & _)]); congruence].
  destruct e2 as [e2|]; simpl; [|intros (? & ? & ? & [= <- <- <-] & [?|(_ & _ & []%is_Some_None)]); congruence].
  destruct (remote_message e2) as [[d m]|] eqn:E4; simpl.
  - split; [apply same_emit|]. split; [done|]. exists e0, (Some e1), (Some e2). split; [done|]. right. simpl. rewrite E3, E4. eauto.
  - intros (? & ? & ? & [= <- <- <-] & [?|(_ & _ & Hs)]); [congruence|]. simpl in Hs. rewrite E4 in Hs. by apply is_Some_None in Hs.
Qed.

(** A reply changes nothing of the connections, or fails an assertion. *)
Lemma cmd_callback c r p s fns t : rac_cb_fns_map_ s !! c = Some fns → stat_cbfn_ fns = Some t →
  (∀ u, p = Some u → rpi u ∈ allocated s) →
  match RAC_AsyncCmdCallback c (Some r) p s with
  | Some s' => same s s' ∧ ~ refuses c r s ∧
      (allocated s' = allocated s ∨ ∃ u, p = Some u ∧ allocated s' = allocated s ∖ {[rpi u]})
  | None => refuses c r s
  end.
Proof.
  intros E Est Hp. unfold RAC_AsyncCmdCallback. rewrite E.
  assert (∀ cb, client_async_cmd_cbfn_ fns = Some cb → refuses c r s ↔ bad_reply cb r) as Href.
  { intros cb Ecb. split; [intros (f & cb' & ? & ? & ?); congruence|]. intros. by exists fns, cb. }
  destruct (client_async_cmd_cbfn_ fns) as [cb|] eqn:Ecb.
  - specialize (Href cb eq_refl). destruct cb; cbn [client_async_cmd].
    + destruct r; cbn [toConnectCallback]; first [by apply Href|split; [|split; [by rewrite Href|by left]]];
        (etransitivity; [apply (same_status RAC_UP (started_ s))|]; etransitivity; [apply same_emit|by apply same_post]).
    + destruct r; cbn [fromConnectCallback]; first [by apply Href|split; [|split; [by rewrite Href|by left]]];
        (etransitivity; [apply same_emit|by apply same_post]).
    + destruct r; cbn [processorCallback]; try (by apply Href);
        (destruct p as [u|]; [|split; [reflexivity|split; [by rewrite Href|by left]]];
         unfold delete_rpi; simpl; rewrite decide_True by (by apply Hp);
         split; [|split; [by rewrite Href|right; by exists u]];
         first [apply same_allocated|etransitivity; [apply same_emit|apply same_allocated]]).
    + destruct r as [| | | | |l]; try (cbn [analyticsCallback]; split; [reflexivity|split; [|by left]]; rewrite Href; by intros (? & [=] & _)).
      pose proof (analytics_callback l s) as Ha. destruct (analyticsCallback _ _) as [s'|].
      * destruct Ha as (? & ? & Hm). split; [done|]. split; [|by left]. rewrite Href. by intros (? & [= <-] & []).
      * apply Href. by exists l.
  - rewrite Est. cbn [mbind option_bind]. split; [|split; [|left; by destruct t]].
    + apply same_set_conn; by destruct r.
    + intros (f & cb & ? & ? & _). congruence.
Qed.
Lemma null_callback c p s fns t : rac_cb_fns_map_ s !! c = Some fns → stat_cbfn_ fns = Some t →
  ∃ s', RAC_AsyncCmdCallback c None p s = Some s' ∧ same s s' ∧ allocated s' = allocated s.
Proof.
  intros E Est. unfold RAC_AsyncCmdCallback. rewrite E. destruct (client_async_cmd_cbfn_ fns) as [cb|].
  - exists s. destruct cb; (split; [done|split; [reflexivity|done]]).
  - rewrite Est. cbn [mbind option_bind]. eexists. split; [done|]. split; [by apply same_set_conn|by destruct t].
Qed.
Lemma null_callbacks c ps s fns t : rac_cb_fns_map_ s !! c = Some fns → stat_cbfn_ fns = Some t →
  ∃ s', foldl (λ o p, o ≫= RAC_AsyncCmdCallback c None p) (Some s) ps = Some s' ∧ same s s' ∧ allocated s' = allocated s.
Proof.
  revert s. induction ps as [|p ps IH]; intros s E Est; cbn [foldl].
  { exists s. split; [done|]. split; [reflexivity|done]. }
  destruct (null_callback c p s fns t E Est) as (s1 & E1 & S1 & A1). cbn [mbind option_bind]. rewrite E1.
  destruct (IH s1) as (s2 & E2 & S2 & A2); [by rewrite (same_map _ _ S1)|done|]. exists s2. split; [done|].
  split; [by etransitivity|congruence].
Qed.
End replies.

(** ** Every step *)

(** A step that concerns one connection with a context. *)
Lemma wf_change s s' t c : wf s → context_ (conn t s) = Some c →
  (∀ u, u ≠ t → context_ (conn u s') = context_ (conn u s) ∧ state_ (conn u s') = state_ (conn u s) ∧
    reconnect_timer_ (conn u s') = reconnect_timer_ (conn u s) ∧ reconnects u s' = reconnects u s) →
  (∀ c', c' ≠ c → rac_cb_fns_map_ s' !! c' = rac_cb_fns_map_ s !! c' ∧ live s' !! c' = live s !! c') →
  allocated s ⊆ allocated s' →
  context_ (conn t s') = Some c ∧ has_context t c s' ∨
  context_ (conn t s') = None ∧ no_context t 1 s' ∧ rac_cb_fns_map_ s' !! c = None ∧ live s' !! c = None →
  wf s'.
Proof.
  intros [W1 W2 W3 W4] Ec Hu Hc Ha Ht.
  assert (∀ u c', u ≠ t → context_ (conn u s) = Some c' → c' ≠ c) as Hne by (intros u c' Hut Eu ->; by apply Hut, (W4 u t c)).
  assert (∀ c', c' ≠ c → ∀ u, context_ (conn u s) = Some c' → context_ (conn u s') = Some c') as Hkeep.
  { intros c' Hcc u Eu. destruct (decide (u = t)) as [->|Hut]; [congruence|]. by rewrite (proj1 (Hu u Hut)). }
  split.
  - intros u. destruct (decide (u = t)) as [->|Hut].
    + destruct Ht as [[-> Ht]|(-> & Ht & _)]; done.
    + pose proof (W1 u) as Wu. destruct (Hu u Hut) as (E1 & E2 & E3 & E4). rewrite E1.
      destruct (context_ (conn u s)) as [c'|] eqn:Eu.
      * destruct (Hc c') as [F1 F2]; [by eapply Hne|]. destruct Wu as [_ [A B C (h & Hl & Hs & Hf & Hn & Hi)]].
        split; [done|]. split; [congruence|congruence|by rewrite F1, E2|]. exists h. rewrite F2, E2. split_and!; auto.
      * destruct Wu as [A B]. split; [by rewrite E2|by rewrite E3, E4].
  - intros c' Hs. destruct (decide (c' = c)) as [->|Hcc].
    + destruct Ht as [[E _]|(_ & _ & E & _)]; [by exists t|]. rewrite E in Hs. by apply is_Some_None in Hs.
    + rewrite (proj1 (Hc c' Hcc)) in Hs. destruct (W2 c' Hs) as [u Eu]. exists u. by apply Hkeep.
  - intros c' Hs. destruct (decide (c' = c)) as [->|Hcc].
    + destruct Ht as [[E _]|(_ & _ & _ & E)]; [by exists t|]. rewrite E in Hs. by apply is_Some_None in Hs.
    + rewrite (proj2 (Hc c' Hcc)) in Hs. destruct (W3 c' Hs) as [u Eu]. exists u. by apply Hkeep.
  - assert (∀ u c', context_ (conn u s') = Some c' → context_ (conn u s) = Some c') as Hback.
    { intros u c' Eu. destruct (decide (u = t)) as [->|Hut]; [|by rewrite <- (proj1 (Hu u Hut))].
      destruct Ht as [[E _]|(E & _)]; congruence. }
    intros u u' c' E1%Hback E2%Hback. by eapply W4.
Qed.

Section steps.
Context `{Base64, JsonParser}.

Lemma SetClientAsyncCmdCb_wf t cb s : wf s →
  match SetClientAsyncCmdCb t cb s with
  | Some s' => wf s' ∧ is_Some (context_ (conn t s))
  | None => context_ (conn t s) = None
  end.
Proof.
  intros W. unfold SetClientAsyncCmdCb. pose proof (wf_conn _ _ W t) as Wt.
  destruct (context_ (conn t s)) as [c|] eqn:E; cbn [mbind option_bind]; [|done].
  destruct Wt as [_ [A B (fns & Ef & F1 & F2 & F3) D]]. rewrite Ef. cbn [mbind option_bind]. split; [|by eexists].
  eapply (wf_change s _ t c W E).
  - intros u Hu. done.
  - intros c' Hc. simpl. by rewrite lookup_insert_ne.
  - done.
  - left. split; [done|]. split; [done|done| |done]. eexists. simpl. rewrite lookup_insert_eq. done.
Qed.

Lemma RedisAsyncCommand_wf t p text ret s : wf s →
  (∀ u, p = Some u → t = RAC_CONN_TYPE_TO_OPS ∧ rpi u ∈ allocated s ∧
     ∀ c h, live s !! c = Some h → rpi u ∉ rpis h) →
  ∃ s' b, RedisAsyncCommand t p text ret s = Some (s', b) ∧ wf s'.
Proof.
  intros W Hp. unfold RedisAsyncCommand, IsConnUp. pose proof (wf_conn _ _ W t) as Wt.
  destruct (bool_decide _) eqn:Eup; cbn [negb].
  2:{ eexists _, _. split; [done|]. eapply (wf_same _ s); [done|by apply same_set_conn|by destruct t]. }
  apply bool_decide_eq_true in Eup. destruct (context_ (conn t s)) as [c|] eqn:E; [|by destruct Wt].
  cbn [mbind option_bind]. destruct ret.
  2:{ eexists _, _. split; [done|]. eapply (wf_same _ s); [done|by apply same_set_conn|by destruct t]. }
  destruct Wt as [_ [A B C (h & Hl & Hs & Hf & Hn & Hi)]]. rewrite Hl. cbn [mbind option_bind]. eexists _, _. split; [done|].
  assert (rpis {| established := established h; under_way := under_way h ++ [p] |} = rpis h ++ from_option (λ u, [rpi u]) [] p) as Er.
  { unfold rpis. simpl. rewrite omap_app. f_equal. by destruct p. }
  eapply (wf_change s _ t c W E).
  - intros u Hu. rewrite conn_set_conn, decide_False by done. done.
  - intros c' Hc. destruct t; simpl; by rewrite lookup_insert_ne.
  - by destruct t.
  - left. rewrite conn_set_conn, decide_True by done. simpl. split; [done|].
    split; rewrite ?conn_set_conn, ?decide_True by done; [done|by destruct t|by destruct t|].
    exists {| established := established h; under_way := under_way h ++ [p] |}.
    split; [by destruct t; simpl; rewrite lookup_insert_eq|]. split; [done|]. rewrite Er. split_and!.
    + intros ->. rewrite Hf by done. destruct p as [u|]; [|done]. by destruct (Hp u eq_refl).
    + apply NoDup_app. split; [done|]. destruct p as [u|]; simpl; [|split; [intros ?? []%elem_of_nil|constructor]].
      split; [|apply NoDup_singleton]. intros y Hy ->%list_elem_of_singleton. destruct (Hp u eq_refl) as (_ & _ & Hq). by eapply Hq.
    + intros y [Hy|Hy]%elem_of_app; [by destruct t; apply Hi|]. destruct p as [u|]; [|by apply elem_of_nil in Hy].
      apply list_elem_of_singleton in Hy as ->. destruct (Hp u eq_refl) as (_ & Hin & _). by destruct t.
Qed.

(** The cases in which a step fails an assertion. *)
Definition callback_setter (h : posted_handler) : option RacConnType :=
  match h with
  | ToOpsAuthenticated | ToOpsConnUpPostProcess => Some RAC_CONN_TYPE_TO_OPS
  | FromOpsAuthenticated | FromOpsConnUpPostProcess => Some RAC_CONN_TYPE_FROM_OPS
  | RAC_ConnectProcess _ => None
  end.
Definition refused (e : event) (s : OpServerImpl) : Prop :=
  match e with
  | EvPosted i _ _ => ∃ h t, posted s !! i = Some h ∧ callback_setter h = Some t ∧ context_ (conn t s) = None
  | EvReply c r | EvPublished c r => refuses c r s
  | _ => False
  end.
Definition step_spec (e : event) (s : OpServerImpl) : Prop :=
  match conn_step e s with Some s' => wf s' ∧ ~ refused e s | None => refused e s end.

Lemma wf_ext x y s : (∀ t, x t = y t) → wf_but x s → wf_but y s.
Proof. intros E [W1 W2 W3 W4]. split; [|done..]. intros t. rewrite <- E. apply W1. Qed.
Definition only (t : RacConnType) : RacConnType → bool := λ u, bool_decide (u = t).

Lemma connect_only t o s : wf_but (only t) s → fresh_context o s → ∃ s', RAC_Connect t o s = Some s' ∧ wf s'.
Proof.
  intros W Hf. destruct (RAC_Connect_wf _ t o s W) as (s' & E & W'); [by apply bool_decide_eq_true|done|].
  exists s'. split; [done|]. eapply wf_ext; [|exact W']. intros u. unfold only. simpl.
  destruct (decide (u = t)); [done|by apply bool_decide_eq_false].
Qed.

Lemma timer_step t error o s : wf s → possible (EvTimer t error o) s → step_spec (EvTimer t error o) s.
Proof.
  intros W [Ht Hf]. assert (∃ s', RAC_Connect t o (set_conn t (set_context (context_ (conn t s)) (client_ (conn t s))
    (state_ (conn t s)) false (conn t s)) s) = Some s' ∧ wf s') as (s' & E & W').
  { apply connect_only; [|by destruct o, t]. pose proof (wf_conn _ _ W t) as Wt. destruct W as [W1 W2 W3 W4].
    destruct (context_ (conn t s)) as [?|] eqn:Ec; [destruct Wt as [_ []]; congruence|].
    assert (∀ u c, context_ (conn u s) = Some c → u ≠ t) as Hne by congruence.
    destruct Wt as [A B]. rewrite Ht in B. simpl in B. split; unfold only.
    - intros u. rewrite conn_set_conn. pose proof (W1 u) as Wu. destruct (decide (u = t)) as [->|Hut]; simpl.
      + rewrite bool_decide_eq_true_2 by done. split; rewrite ?conn_set_conn, ?decide_True by done; simpl; [done|].
        change (reconnects t (set_conn _ _ s)) with (reconnects t s). lia.
      + rewrite bool_decide_eq_false_2 by done. destruct (context_ (conn u s)).
        * destruct Wu as [_ [C1 C2 C3 C4]]. split; [done|]. split; rewrite ?conn_set_conn, ?decide_False by done; by destruct t.
        * destruct Wu as [C1 C2]. split; rewrite ?conn_set_conn, ?decide_False by done; done.
    - intros c Hc. destruct (W2 c) as [u Hu]; [by destruct t|]. exists u. rewrite conn_set_conn, decide_False by exact (Hne _ _ Hu). done.
    - intros c Hc. destruct (W3 c) as [u Hu]; [by destruct t|]. exists u. rewrite conn_set_conn, decide_False by exact (Hne _ _ Hu). done.
    - intros u u' c. rewrite !conn_set_conn. destruct (decide (u = t)), (decide (u' = t)); simpl; try done. apply W4. }
  unfold step_spec, conn_step, RAC_Reconnect. destruct error; try rewrite E; (split; [done|by intros []]).
Qed.

Lemma reconnects_delete i h t s : posted s !! i = Some h →
  reconnects t s = (reconnects t (set_posted (delete i (posted s)) s) + if decide (h = RAC_ConnectProcess t) then 1 else 0)%nat.
Proof.
  intros E. unfold reconnects. simpl. rewrite delete_take_drop, <- (take_drop_middle (posted s) i h E) at 1.
  rewrite !filter_app, !List.length_app, filter_cons. destruct (decide _); simpl; lia.
Qed.

(** A handler taken from the queue. *)
Lemma posted_step i o ret s : wf s → possible (EvPosted i o ret) s → step_spec (EvPosted i o ret) s.
Proof.
  intros W [[h Eh] Hf]. unfold step_spec, conn_step. rewrite Eh. cbn [mbind option_bind].
  set (s1 := set_posted (delete i (posted s)) s). pose proof (reconnects_delete i h) as Hr.
  destruct (callback_setter h) as [t|] eqn:Et.
  - assert (wf s1) as W1.
    { eapply wf_same; [exact W| |done]. split; [|done..]. intros u. split_and!; [done..|].
      rewrite (Hr u s Eh), decide_False; [fold s1; lia|]. by intros ->. }
    assert (∀ cb, SetClientAsyncCmdCb t cb s1 = None → refused (EvPosted i o ret) s) as Hnone.
    { intros cb E. pose proof (SetClientAsyncCmdCb_wf t cb s1 W1) as Hs. rewrite E in Hs. exists h, t. done. }
    assert (∀ cb s2, SetClientAsyncCmdCb t cb s1 = Some s2 → wf s2 ∧ ~ refused (EvPosted i o ret) s) as Hsome.
    { intros cb s2 E. pose proof (SetClientAsyncCmdCb_wf t cb s1 W1) as Hs. rewrite E in Hs. destruct Hs as [W2 Hc].
      split; [done|]. intros (h' & t' & E1 & E2 & E3). assert (h' = h) as -> by congruence. assert (t' = t) as -> by congruence.
      destruct Hc as [c Hc]. change (context_ (conn t s) = Some c) in Hc. congruence. }
    assert (∀ cb text, match (s2 ← SetClientAsyncCmdCb t cb s1; fst <$> RedisAsyncCommand t None (text s2) ret s2) with
      | Some s' => wf s' ∧ ~ refused (EvPosted i o ret) s | None => refused (EvPosted i o ret) s end) as Hauth.
    { intros cb text. specialize (Hnone cb). specialize (Hsome cb). destruct (SetClientAsyncCmdCb t cb s1) as [s2|]; cbn [mbind option_bind]; [|auto].
      destruct (Hsome s2 eq_refl) as [W2 Hn]. destruct (RedisAsyncCommand_wf t None (text s2) ret s2 W2) as (s3 & b & -> & W3); [done|]. done. }
    destruct h; simplify_eq/=; [apply (Hauth _ auth_command)|apply (Hauth _ auth_command)| |apply (Hauth _ (λ _, SUBSCRIBE_analytics))].
    unfold ToOpsConnUpPostProcess_run. specialize (Hnone processorCallbackProcess). specialize (Hsome processorCallbackProcess).
    destruct (SetClientAsyncCmdCb _ _ s1) as [s2|]; cbn [mbind option_bind]; [|auto].
    destruct (Hsome s2 eq_refl) as [W2 Hn]. split; [|done].
    assert (∀ s3, wf s3 → wf (emit [RedisUpdate_called true] s3)) as He by (intros s3 W3; by eapply wf_same; [exact W3|apply same_emit|]).
    assert (∀ s3, wf s3 → wf (emit [FlushUVEs_called] s3)) as He1 by (intros s3 W3; by eapply wf_same; [exact W3|apply same_emit|]).
    assert (∀ s3, wf s3 → wf (emit [SetRedisState_called true] s3)) as He2 by (intros s3 W3; by eapply wf_same; [exact W3|apply same_emit|]).
    assert (∀ st b s3, wf s3 → wf (set_status st b s3)) as Hst by (intros st b s3 W3; by eapply wf_same; [exact W3|apply same_status|]).
    cbv zeta. destruct (has_kafka _), (started_ s2); auto.
  - destruct h as [| | | |t]; try done. cbn [run_handler].
    destruct (connect_only t o s1) as (s' & E & W'); [|by destruct o|].
    + pose proof (wf_conn _ _ W t) as Wt. pose proof (Hr t s Eh) as Hrt. rewrite decide_True in Hrt by done. fold s1 in Hrt.
      assert (context_ (conn t s) = None) as Ec by (destruct (context_ (conn t s)); [destruct Wt as [_ [_ A _ _]]; lia|done]).
      rewrite Ec in Wt. destruct Wt as [A B]. split; unfold only.
      * intros u. change (conn u s1) with (conn u s). pose proof (wf_conn _ _ W u) as Wu. destruct (decide (u = t)) as [->|Hut].
        -- rewrite Ec, bool_decide_eq_true_2 by done. split; [done|]. change (conn t s1) with (conn t s). lia.
        -- rewrite bool_decide_eq_false_2 by done. assert (reconnects u s1 = reconnects u s) as Eu.
           { rewrite (Hr u s Eh), decide_False by congruence. fold s1. lia. }
           destruct (context_ (conn u s)).
           ++ destruct Wu as [_ [C1 C2 C3 C4]]. split; [done|]. split; [done|congruence|done|done].
           ++ destruct Wu as [C1 C2]. split; [done|]. by rewrite Eu.
      * apply (wf_map _ _ W).
      * apply (wf_live _ _ W).
      * apply (wf_distinct _ _ W).
    + rewrite E. split; [done|]. intros (h & t' & E1 & E2 & _). by simplify_eq.
Qed.

Lemma reconnects_connect_cb t u s : reconnects u (client_connect_cb_ t s) = reconnects u s.
Proof. destruct t; simpl; unfold ToOpsConnUp, FromOpsConnUp; rewrite reconnects_post, decide_False by done; lia. Qed.

Lemma connected_step c ok s : wf s → possible (EvConnected c ok) s → step_spec (EvConnected c ok) s.
Proof.
  intros W Hl. simpl in Hl. destruct (live_owner _ _ _ _ W Hl) as (t & fns & Ec & [A B _ _] & Ef & F1 & F2 & F3 & Hs & _).
  assert (state_ (conn t s) ≠ REDIS_ASYNC_CONNECTION_CONNECTED) as Hst by (intros E; by apply Hs in E). specialize (F3 Hst).
  assert (∀ u, u ≠ t → u = RAC_CONN_TYPE_TO_OPS ∧ t = RAC_CONN_TYPE_FROM_OPS ∨ u = RAC_CONN_TYPE_FROM_OPS ∧ t = RAC_CONN_TYPE_TO_OPS) as Hut
    by (intros [] ?; destruct t; auto; done).
  unfold step_spec, conn_step, RAC_ConnectCallback. destruct ok.
  - simpl. rewrite Ef. cbn [mbind option_bind]. rewrite F3. cbn [mbind option_bind]. split; [|by intros []].
    unfold RAC_ConnectCallbackProcess. cbn [negb]. eapply (wf_change s _ t c W Ec).
    + intros u Hu. rewrite reconnects_connect_cb. by destruct (Hut u Hu) as [[-> ->]|[-> ->]].
    + intros c' Hc. by destruct t; simpl; rewrite !lookup_insert_ne.
    + by destruct t.
    + left. split; [by destruct t|]. split.
      * by destruct t.
      * rewrite reconnects_connect_cb. by destruct t.
      * eexists. split; [destruct t; simpl; by rewrite lookup_insert_eq|]. split_and!; [done|done|]. destruct t; simpl; done.
      * eexists. split; [destruct t; simpl; by rewrite lookup_insert_eq|]. split_and!; [by destruct t|done|constructor|by intros y ?%elem_of_nil].
  - simpl. rewrite Ef. cbn [mbind option_bind]. rewrite F3. cbn [mbind option_bind]. split; [|by intros []].
    unfold RAC_ConnectCallbackProcess. cbn [negb]. change (conn t (set_fns_map _ s)) with (conn t s). rewrite Ec.
    eapply (wf_change s _ t c W Ec).
    + intros u Hu. by destruct (Hut u Hu) as [[-> ->]|[-> ->]].
    + intros c' Hc. destruct t; simpl; by rewrite lookup_delete_ne, lookup_insert_ne, lookup_delete_ne.
    + by destruct t.
    + right. split; [by destruct t|]. split; [|by destruct t; simpl; rewrite !lookup_delete_eq].
      split; [by destruct t|]. destruct t; exact (f_equal S B).
Qed.

Lemma other_live s t c c' h : wf s → context_ (conn t s) = Some c → c' ≠ c → live s !! c' = Some h →
  t = RAC_CONN_TYPE_TO_OPS → rpis h = [].
Proof.
  intros W Ec Hne Hl ->. destruct (live_owner _ _ _ _ W Hl) as (u & f & Eu & _ & _ & _ & _ & _ & _ & Hf & _).
  apply Hf. destruct u; [|done]. congruence.
Qed.

(** The reply of a command: its callback runs after hiredis forgot it. *)
Lemma reply_step c r s : wf s → possible (EvReply c r) s → step_spec (EvReply c r) s.
Proof.
  intros W (p & ps & Hl). unfold step_spec, conn_step. rewrite Hl. cbn [mbind option_bind under_way established].
  destruct (live_owner _ _ _ _ W Hl) as (t & fns & Ec & [A B C _] & Ef & F1 & F2 & F3 & Hs & Hf & Hn & Hi).
  set (s1 := set_live _ s).
  assert (rpis {| established := true; under_way := p :: ps |} = from_option (λ u, [rpi u]) [] p ++ rpis {| established := true; under_way := ps |}) as Er
    by (by destruct p). rewrite Er in Hf, Hn, Hi. apply NoDup_app in Hn as (_ & Hd & Hn).
  assert (wf s1) as W1.
  { eapply (wf_change s s1 t c W Ec); [done| |done|].
    - intros c' Hc. simpl. by rewrite lookup_insert_ne.
    - left. split; [done|]. split; [done..|]. eexists. simpl. rewrite lookup_insert_eq. split; [done|]. split; [done|].
      split_and!; [|done|]; [intros Ht; by apply app_eq_nil in Hf as [_ ?]|]. intros y Hy. apply Hi, elem_of_app. by right. }
  pose proof (cmd_callback c r p s1 fns t Ef F1) as Hc. destruct (RAC_AsyncCmdCallback c (Some r) p s1) as [s'|].
  - destruct Hc as (Hsame & Hnr & Ha); [intros u ->; apply Hi; by left|]. split; [|done].
    eapply wf_same; [exact W1|exact Hsame|]. intros c' h Hl' y Hy Hya. destruct Ha as [->|(u & -> & ->)]; [done|].
    apply elem_of_difference. split; [done|]. intros ->%elem_of_singleton. simpl in Hl'. destruct (decide (c' = c)) as [->|Hne].
    + rewrite lookup_insert_eq in Hl'. injection Hl' as <-. apply (Hd (rpi u)); [by left|done].
    + rewrite lookup_insert_ne in Hl' by done. destruct t.
      * by rewrite (other_live s _ c c' h W Ec Hne Hl' eq_refl) in Hy; apply elem_of_nil in Hy.
      * by specialize (Hf eq_refl).
  - apply Hc. intros u ->. apply Hi. by left.
Qed.
Lemma published_step c r s : wf s → possible (EvPublished c r) s → step_spec (EvPublished c r) s.
Proof.
  intros W (ps & Hl). destruct (live_owner _ _ _ _ W Hl) as (t & fns & Ec & _ & Ef & F1 & _).
  unfold step_spec, conn_step. pose proof (cmd_callback c r None s fns t Ef F1) as Hc.
  destruct (RAC_AsyncCmdCallback c (Some r) None s) as [s'|]; [|by apply Hc].
  destruct Hc as (Hs & Hn & Ha); [done|]. split; [|done]. eapply wf_same; [done..|]. intros. by destruct Ha as [->|(u & [=] & _)].
Qed.

Lemma reconnects_disconnect_cb t u s : reconnects u (client_disconnect_cb_ t s) =
  (reconnects u s + if decide (u = t) then 1 else 0)%nat.
Proof.
  destruct t; simpl; unfold ToOpsConnDown, FromOpsConnDown; rewrite reconnects_post; simpl; [destruct (has_kafka s)|];
    (destruct (decide (u = _)) as [->|]; [by rewrite decide_True|rewrite decide_False by congruence; done]).
Qed.
Lemma conn_disconnect_cb t u s : conn u (client_disconnect_cb_ t s) = conn u s ∧
  rac_cb_fns_map_ (client_disconnect_cb_ t s) = rac_cb_fns_map_ s ∧ live (client_disconnect_cb_ t s) = live s ∧
  allocated (client_disconnect_cb_ t s) = allocated s.
Proof. destruct t; simpl; unfold ToOpsConnDown; simpl; by destruct (has_kafka s). Qed.

Lemma disconnected_step c s : wf s → possible (EvDisconnected c) s → step_spec (EvDisconnected c) s.
Proof.
  intros W (ps & Hl). unfold step_spec, conn_step. rewrite Hl. cbn [mbind option_bind under_way].
  destruct (live_owner _ _ _ _ W Hl) as (t & fns & Ec & _ & Ef & F1 & _).
  destruct (null_callbacks c ps s fns t Ef F1) as (s1 & E1 & S1 & A1). rewrite E1. cbn [mbind option_bind].
  assert (wf s1) as W1 by (eapply wf_same; [done|done|by intros; rewrite A1]).
  rewrite <- (same_live _ _ S1) in Hl. destruct (live_owner _ _ _ _ W1 Hl) as (t' & fns' & Ec' & [A B _ _] & Ef' & G1 & G2 & _).
  assert (t' = t) as ->. { rewrite (proj1 (same_conn _ _ S1 t')) in Ec'. by eapply (wf_distinct _ _ W). }
  unfold RAC_DisconnectCallback. rewrite Ef'. cbn [mbind option_bind]. rewrite G2. cbn [mbind option_bind].
  split; [|by intros []]. unfold RAC_DisconnectCallbackProcess. change (conn t (set_fns_map _ s1)) with (conn t s1). rewrite Ec'.
  set (s2 := set_conn t _ _). pose proof (conn_disconnect_cb t) as Hcd.
  assert (∀ u, reconnects u s2 = reconnects u s1) as Hr2 by (intros u; unfold s2; by destruct t).
  eapply (wf_change s1 _ t c W1 Ec').
  - intros u Hu. change (conn u (set_live _ ?x)) with (conn u x). rewrite (proj1 (Hcd u s2)).
    change (reconnects u (set_live _ ?x)) with (reconnects u x). rewrite reconnects_disconnect_cb, decide_False, Hr2 by done.
    unfold s2. rewrite conn_set_conn, decide_False by done. split_and!; [done..|lia].
  - intros c' Hc. simpl. destruct (Hcd t s2) as (_ & -> & -> & _). unfold s2. simpl.
    destruct t; simpl; by rewrite !lookup_delete_ne, ?lookup_insert_ne.
  - simpl. destruct (Hcd t s2) as (_ & _ & _ & ->). unfold s2. by destruct t.
  - right. change (conn t (set_live _ ?x)) with (conn t x). rewrite (proj1 (Hcd t s2)).
    assert (conn t s2 = set_context None None REDIS_ASYNC_CONNECTION_DISCONNECTED (reconnect_timer_ (conn t s1)) (conn t s1)) as E2
      by (unfold s2; by rewrite conn_set_conn, decide_True).
    rewrite E2. split; [done|]. split.
    + split.
      * change (conn t (set_live _ ?x)) with (conn t x). by rewrite (proj1 (Hcd t s2)), E2.
      * change (conn t (set_live _ ?x)) with (conn t x). rewrite (proj1 (Hcd t s2)), E2.
        change (reconnects t (set_live _ ?x)) with (reconnects t x). rewrite reconnects_disconnect_cb, decide_True, Hr2 by done.
        simpl. rewrite A, B. done.
    + simpl. destruct (Hcd t s2) as (_ & -> & -> & _). unfold s2. destruct t; simpl; by rewrite !lookup_delete_eq.
Qed.

Lemma command_step p args ret s : wf s → possible (EvCommand p args ret) s → step_spec (EvCommand p args ret) s.
Proof.
  intros W Hp. simpl in Hp. unfold step_spec, conn_step, send_command. set (s1 := match p with Some _ => _ | None => s end).
  assert (wf s1) as W1.
  { destruct p as [u|]; [|done]. eapply wf_same; [done|apply same_allocated|]. intros c h _ y _ Hy. simpl. apply elem_of_union. by right. }
  destruct (RedisAsyncCommand_wf RAC_CONN_TYPE_TO_OPS p (ArgCmd args) ret s1 W1) as (s' & b & -> & W'); [|simpl; split; [done|by intros []]].
  intros u ->. split; [done|]. split; [apply elem_of_union; left; by apply elem_of_singleton|].
  intros c h Hl Hin. apply Hp. change (live s !! c = Some h) in Hl.
  destruct (live_owner _ _ _ _ W Hl) as (_ & _ & _ & _ & _ & _ & _ & _ & _ & _ & _ & Hi). by apply Hi.
Qed.

Lemma conn_step_wf e s : wf s → possible e s → step_spec e s.
Proof.
  intros W. destruct e; [by apply timer_step|by apply posted_step|by apply connected_step|by apply reply_step|
    by apply published_step|by apply disconnected_step|by apply command_step].
Qed.
Lemma run_connections_wf l s s' : wf s → possible_run l s → run l s = Some s' → wf s'.
Proof.
  revert s. induction l as [|e l IH]; intros s W Hp E; simpl in *; [by injection E as <-|].
  destruct Hp as [Hp Hl]. pose proof (conn_step_wf e s W Hp) as Hs. unfold step_spec in Hs.
  destruct (conn_step e s) as [s1|]; [|done]. by eapply IH; [apply Hs|..].
Qed.

(** A connection has a context, and is up when hiredis says so, or waits for one
    attempt to connect again. *)
Definition link_ok (t : RacConnType) (s : OpServerImpl) : Prop :=
  match context_ (conn t s) with
  | Some c => reconnect_timer_ (conn t s) = false ∧ reconnects t s = 0%nat ∧
      ∃ h, live s !! c = Some h ∧ IsConnUp (conn t s) = established h
  | None => IsConnUp (conn t s) = false ∧
      (reconnect_timer_ (conn t s) = true ∧ reconnects t s = 0%nat ∨ reconnect_timer_ (conn t s) = false ∧ reconnects t s = 1%nat)
  end.
Lemma wf_link t s : wf s → link_ok t s.
Proof.
  intros W. pose proof (wf_conn _ _ W t) as Wt. unfold link_ok, IsConnUp. destruct (context_ (conn t s)) as [c|].
  - destruct Wt as [_ [A B _ (h & Hl & Hs & _)]]. split; [done|]. split; [done|]. exists h. split; [done|].
    apply eq_bool_prop_intro. rewrite !Is_true_true, bool_decide_eq_true. exact Hs.
  - destruct Wt as [A B]. split; [by apply bool_decide_eq_false|]. destruct (reconnect_timer_ _); simpl in B; [left|right]; (split; [done|lia]).
Qed.

Definition distinct_outcomes (o o' : connect_outcome) : Prop :=
  match o, o' with Connecting c _, Connecting c' _ => c ≠ c' | _, _ => True end.
Lemma ctor_wf password kafka o o' : distinct_outcomes o o' →
  ∃ s, OpServerImpl_ctor password kafka o o' = Some s ∧ wf s.
Proof.
  intros Hd. unfold OpServerImpl_ctor. set (s0 := Build_OpServerImpl _ _ _ _ _ _ _ _ _ _ _).
  assert (wf_but (λ _, true) s0) as W0.
  { split; [intros []; simpl; by split|intros c []%is_Some_None|intros c []%is_Some_None|intros [] ? c; simpl; done]. }
  destruct (RAC_Connect_wf (λ _, true) RAC_CONN_TYPE_TO_OPS o s0 W0 eq_refl) as (s1 & E1 & W1); [by destruct o|].
  rewrite E1. cbn [mbind option_bind]. set (s2 := emit _ s1).
  destruct (RAC_Connect_wf _ RAC_CONN_TYPE_FROM_OPS o' s2 (wf_same _ _ _ W1 (same_emit _ _) ltac:(done)) eq_refl) as (s3 & E3 & W3).
  { destruct o' as [|c']; [done|]. simpl. unfold RAC_Connect in E1. simpl in E1. destruct o as [|c]; injection E1 as <-; [done|].
    simpl in Hd. change (<[c := {| established := false; under_way := [] |}]> (∅ : gmap context hiredis_context) !! c' = None).
    by rewrite lookup_insert_ne. }
  exists s3. split; [done|]. eapply wf_ext; [|exact W3]. by intros [].
Qed.

(** C36.  Whatever hiredis, the timers and the queue of handlers do, in whatever
    order, a connection to Redis is never given up and never made twice: it has a
    context, connected or being connected, or exactly one attempt is due.  Commands
    are sent only on a connected context.  A step fails an assertion in two cases:
    a handler that was posted for a connection runs after the connection was lost
    and before the next attempt, or a reply that a callback refuses comes. *)
Theorem connections_recover password kafka o o' l : distinct_outcomes o o' →
  ∃ s0, OpServerImpl_ctor password kafka o o' = Some s0 ∧
    ∀ s, possible_run l s0 → run l s0 = Some s →
      (∀ t, link_ok t s) ∧ ∀ e, possible e s → conn_step e s = None ↔ refused e s.
Proof.
  intros Hd. destruct (ctor_wf password kafka o o' Hd) as (s0 & E0 & W0). exists s0. split; [done|].
  intros s Hp E. pose proof (run_connections_wf l s0 s W0 Hp E) as W. split; [intros t; by apply wf_link|].
  intros e He. pose proof (conn_step_wf e s W He) as Hs. unfold step_spec in Hs.
  destruct (conn_step e s); split; [done|by intros; destruct Hs|done|done].
Qed.
End steps.

(** ** Examples *)

Module ConnectionExamples.
#[local] Instance base64 : Base64 := {| base64_decode s := s |}.
#[local] Instance parser : JsonParser := {| Document_Parse s := Some (JObject [("type", JString "SandeshXML"); ("destination", JString "host:*:*:*"); ("message", JString s)]%string) |}.

Definition TO := RAC_CONN_TYPE_TO_OPS.
Definition FROM := RAC_CONN_TYPE_FROM_OPS.
Definition update (n : nat) : privdata :=
  Some {| rpi := n; source_ := "host"; module_ := "agent"; instance_id_ := "0"; node_type_ := "Compute" |}.
Definition started (o o' : connect_outcome) (l : list event) : option OpServerImpl :=
  OpServerImpl_ctor "secret" true o o' ≫= run l.

(** The connection for UVEs comes up, an update is refused and its session closed,
    the connection is lost with another one under way and comes up again; the other
    connection is subscribed and passes a message on. *)
Definition session : list event :=
  [ EvConnected 1 true; EvPosted 0 ConnectError true; EvReply 1 ReplyStatus; EvPosted 0 ConnectError true;
    EvCommand (update 1) ["EVAL"] true; EvReply 1 ReplyNil; EvCommand (update 2) ["EVAL"] true;
    EvTimer FROM NoError (Connecting 2 true); EvConnected 2 true; EvPosted 0 ConnectError true; EvReply 2 ReplyStatus;
    EvDisconnected 1; EvPosted 0 ConnectError true;
    EvPublished 2 (ReplyArray [Some "message"; Some "analytics"; Some "text"]);
    EvPosted 0 (Connecting 3 true) true; EvConnected 3 false; EvTimer TO NoError (Connecting 4 true); EvConnected 4 true ]%string.
Example session_effects : effects <$> started (Connecting 1 true) ConnectError session = Some
  [ ConnectionUpdate TO CONN_INIT; ConnectionUpdate FROM CONN_INIT; Sent 1 (AUTH "secret"); ConnectionUpdate TO CONN_UP;
    FlushUVEs_called; RedisUpdate_called true; SetRedisState_called true;
    Sent 1 (ArgCmd ["EVAL"]); CloseGeneratorSession_called "host" "agent" "0" "Compute"; Sent 1 (ArgCmd ["EVAL"]);
    Sent 2 (AUTH "secret"); ConnectionUpdate FROM CONN_UP;
    RedisUpdate_called false; SetRedisState_called false; ConnectionUpdate TO CONN_DOWN;
    Sent 2 SUBSCRIBE_analytics; SendRemote_called "host:*:*:*" "text" ]%string.
Proof. vm_compute. reflexivity. Qed.

(** A connection lost before its posted handler runs: the handler fails. *)
Example lost_before_authentication :
  started (Connecting 1 true) ConnectError [ EvConnected 1 true; EvDisconnected 1; EvPosted 0 ConnectError true ] = None ∧
  is_Some (started (Connecting 1 true) ConnectError [ EvConnected 1 true; EvDisconnected 1 ]).
Proof. vm_compute. split; [reflexivity|by eexists]. Qed.

(** A handler of the old connection runs when the new one is being made: the
    collector is told that Redis is up although no connection is. *)
Example reported_up_while_down :
  (λ s, (last (effects s), IsConnUp (to_ops_conn_ s))) <$> started (Connecting 1 true) ConnectError
    [ EvConnected 1 true; EvPosted 0 ConnectError true; EvReply 1 ReplyStatus; EvDisconnected 1;
      EvPosted 1 (Connecting 2 true) true; EvPosted 0 ConnectError true ] = Some (Some (SetRedisState_called true), false).
Proof. vm_compute. reflexivity. Qed.

(** An update sent before the password: its refusal is taken for that of the
    password, and fails the assertion. *)
Example update_before_password :
  started (Connecting 1 true) ConnectError
    [ EvConnected 1 true; EvCommand (update 1) ["EVAL"]%string true; EvPosted 0 ConnectError true; EvReply 1 ReplyError ] = None.
Proof. vm_compute. reflexivity. Qed.

Lemma connections_recover_witness : distinct_outcomes (Connecting 1 true) ConnectError ∧
  ∃ s0, OpServerImpl_ctor "secret" true (Connecting 1 true) ConnectError = Some s0 ∧
    ∀ s, possible_run session s0 → run session s0 = Some s →
      (∀ t, link_ok t s) ∧ ∀ e, possible e s → conn_step e s = None ↔ refused e s.
Proof.
  split; [exact I|]. exact (connections_recover "secret" true (Connecting 1 true) ConnectError session I).
Defined.
Example session_possible : from_option (possible_run session) False
  (OpServerImpl_ctor "secret" true (Connecting 1 true) ConnectError).
Proof. apply (bool_decide_unpack _). vm_compute. exact I. Qed.
End ConnectionExamples.
