(* ===== verification/OpServer.v ===== *)
(** * The proxy for UVEs

    [contrail-collector/OpServerProxy.cc]: updates and deletions of UVEs go to Redis
    ([RedisUve], [RedisConnection]) and are announced to Kafka, on the partition of
    their key ([VizCollector::PartitionRange] of [viz_collector.h]); and
    [kafka_processor.cc], which writes the announcements and watches the brokers. *)
From Stdlib Require Import Ascii.
From stdpp Require Import base tactics list strings pretty gmap.
From Stdlib Require Import ZArith Lia.
From S2P Require Import Prelude.
From S2P Require Import CppString.
From S2P Require Import Json.
From S2P Require Import RedisUve.
From S2P Require Import RedisConnection.
Local Open Scope Z_scope.

(** ** Partitions *)

Inductive PartType :=
  | PART_TYPE_INVALID | PART_TYPE_CNODES | PART_TYPE_PNODES | PART_TYPE_VMS | PART_TYPE_IFS | PART_TYPE_OTHER.
#[export] Instance PartType_eq_dec : EqDecision PartType.
Proof. solve_decision. Defined.

(** [g_viz_constants.PART_TYPES]. *)
Definition PART_TYPES : gmap string PartType := list_to_map [
  ("ObjectCollectorInfo", PART_TYPE_CNODES); ("ObjectAnalyticsAlarmInfo", PART_TYPE_CNODES);
  ("ObjectAnalyticsSNMPInfo", PART_TYPE_CNODES); ("ObjectDatabaseInfo", PART_TYPE_CNODES);
  ("ObjectConfigDatabaseInfo", PART_TYPE_CNODES); ("ObjectBgpRouter", PART_TYPE_CNODES);
  ("ObjectConfigNode", PART_TYPE_CNODES); ("ObjectDns", PART_TYPE_CNODES);
  ("ObjectKubernetesManagerNode", PART_TYPE_CNODES);
  ("ObjectServerTable", PART_TYPE_PNODES); ("ObjectPRouter", PART_TYPE_PNODES); ("ObjectVRouter", PART_TYPE_PNODES);
  ("ObjectVMTable", PART_TYPE_VMS);
  ("ObjectVMITable", PART_TYPE_IFS); ("ObjectPhysicalInterfaceTable", PART_TYPE_IFS);
  ("ObjectLogicalInterfaceTable", PART_TYPE_IFS) ]%string.

Definition kPartCountCnodes : Z := 1.
Definition kPartMinTotalCount : Z := 15.
(** The first partition of a type, and how many it has. *)
Definition PartitionRange (ptype : PartType) (partitions : Z) : Z * Z :=
  if partitions <? kPartMinTotalCount then (0, partitions)
  else
    let pnodeparts := partitions / 15 + 1 in
    let varparts := u32 (partitions - kPartCountCnodes - pnodeparts) / 3 in
    match ptype with
    | PART_TYPE_CNODES => (0, kPartCountCnodes)
    | PART_TYPE_PNODES => (kPartCountCnodes, pnodeparts)
    | PART_TYPE_VMS => (u32 (kPartCountCnodes + pnodeparts), varparts)
    | PART_TYPE_IFS => (u32 (kPartCountCnodes + pnodeparts + varparts), varparts)
    | _ => let bpart := u32 (kPartCountCnodes + pnodeparts + 2 * varparts) in (bpart, u32 (partitions - bpart))
    end.

(** [djb_hash] over the (signed) characters. *)
Definition signed_char (c : ascii) : Z :=
  let n := Z.of_nat (nat_of_ascii c) in if n <? 128 then n else n - 256.
Fixpoint djb_hash_loop (hash : Z) (s : string) : Z :=
  match s with
  | EmptyString => hash
  | String c s' => djb_hash_loop (u32 (u32 (u32 (Z.shiftl hash 5) + hash) + signed_char c)) s'
  end.
Definition djb_hash (s : string) : Z := djb_hash_loop 5381 s.

Definition part_type (table : string) : PartType := default PART_TYPE_OTHER (PART_TYPES !! table).
(** The partition of a UVE; [None]: division by zero. *)
Definition uve_partition (partitions : Z) (table key : string) : option Z :=
  let '(first, count) := PartitionRange (part_type table) partitions in
  if count =? 0 then None else Some (u32 (first + djb_hash key `mod` count)).

(** ** Kafka *)

Record kafka_message := { km_topic : string; km_value : string; km_key : string; km_gen : string }.
(** [k_event_cb] and [k_dr_cb] are its members [disableKafka] and [dr_count]; the
    producer is a sequence of messages. *)
Record KafkaProcessor := {
  topicpre_ : string;
  producer_ : bool;
  topic_ : list string;
  disableKafka : bool;
  dr_count : Z;
  redis_up_ : bool;
  kafka_elapsed_ms_ : Z; kafka_start_ms_ : Z; kafka_tick_ms_ : Z;
  produced : list kafka_message
}.
Definition set_topics (b : bool) (l : list string) (k : KafkaProcessor) : KafkaProcessor := {|
  topicpre_ := topicpre_ k; producer_ := b; topic_ := l; disableKafka := disableKafka k; dr_count := dr_count k;
  redis_up_ := redis_up_ k; kafka_elapsed_ms_ := kafka_elapsed_ms_ k; kafka_start_ms_ := kafka_start_ms_ k;
  kafka_tick_ms_ := kafka_tick_ms_ k; produced := produced k |}.
Definition set_watch (disabled : bool) (count : Z) (up : bool) (k : KafkaProcessor) : KafkaProcessor := {|
  topicpre_ := topicpre_ k; producer_ := producer_ k; topic_ := topic_ k; disableKafka := disabled; dr_count := count;
  redis_up_ := up; kafka_elapsed_ms_ := kafka_elapsed_ms_ k; kafka_start_ms_ := kafka_start_ms_ k;
  kafka_tick_ms_ := kafka_tick_ms_ k; produced := produced k |}.
Definition set_clock (elapsed tick : Z) (k : KafkaProcessor) : KafkaProcessor := {|
  topicpre_ := topicpre_ k; producer_ := producer_ k; topic_ := topic_ k; disableKafka := disableKafka k;
  dr_count := dr_count k; redis_up_ := redis_up_ k; kafka_elapsed_ms_ := elapsed; kafka_start_ms_ := kafka_start_ms_ k;
  kafka_tick_ms_ := tick; produced := produced k |}.
Definition produce (m : kafka_message) (k : KafkaProcessor) : KafkaProcessor := {|
  topicpre_ := topicpre_ k; producer_ := producer_ k; topic_ := topic_ k; disableKafka := disableKafka k;
  dr_count := dr_count k; redis_up_ := redis_up_ k; kafka_elapsed_ms_ := kafka_elapsed_ms_ k;
  kafka_start_ms_ := kafka_start_ms_ k; kafka_tick_ms_ := kafka_tick_ms_ k; produced := produced k ++ [m] |}.

(** [KafkaPub]; [None]: a topic outside of the vector. *)
Definition KafkaPub (pt : Z) (skey gen value : string) (k : KafkaProcessor) : option KafkaProcessor :=
  if disableKafka k then Some k
  else if producer_ k then
    t ← topic_ k !! Z.to_nat pt;
    Some (produce {| km_topic := t; km_value := value; km_key := skey; km_gen := c_str gen |} k)
  else Some k.

(** [StartKafka]: the producer and the topic of every partition are created, until
    one cannot be (its null pointer is not kept: the constructor fails then). *)
Fixpoint start_topics (topic_created : nat → bool) (partitions : nat) (i : nat) (k : KafkaProcessor) : KafkaProcessor * bool :=
  match partitions with
  | O => (k, true)
  | S n =>
      if topic_created i then
        start_topics topic_created n (S i) (set_topics true (topic_ k ++ [topicpre_ k +:+ to_decimal (Z.of_nat i)]) k)
      else (k, false)
  end.
Definition StartKafka (producer_created : bool) (topic_created : nat → bool) (partitions : Z) (k : KafkaProcessor)
    : KafkaProcessor * bool :=
  if producer_created then start_topics topic_created (Z.to_nat partitions) 0 (set_topics true (topic_ k) k)
  else (set_topics false (topic_ k) k, false).
Definition StopKafka (k : KafkaProcessor) : KafkaProcessor :=
  if producer_ k then set_topics false [] k else k.
(** The constructor; [None]: Kafka does not start. *)
Definition KafkaProcessor_ctor (topic : string) (brokers : bool) (utc_usec : Z) (producer_created : bool)
    (topic_created : nat → bool) (partitions : Z) : option KafkaProcessor :=
  let k := {| topicpre_ := topic; producer_ := false; topic_ := []; disableKafka := false; dr_count := 0;
              redis_up_ := false; kafka_elapsed_ms_ := 0; kafka_start_ms_ := utc_usec / 1000; kafka_tick_ms_ := 0;
              produced := [] |} in
  if negb brokers then Some k
  else let '(k, ok) := StartKafka producer_created topic_created partitions k in if (ok : bool) then Some k else None.

Definition SetRedisState (up : bool) (k : KafkaProcessor) : KafkaProcessor := set_watch (disableKafka k) (dr_count k) up k.
(** The callbacks of the library: a delivery report, and an event. *)
Definition dr_cb (error : bool) (k : KafkaProcessor) : KafkaProcessor :=
  if error then k else set_watch (disableKafka k) (u32 (dr_count k + 1)) (redis_up_ k) k.
Inductive kafka_event := ERR__ALL_BROKERS_DOWN | OtherEvent.
Definition event_cb (e : kafka_event) (k : KafkaProcessor) : KafkaProcessor :=
  match e with ERR__ALL_BROKERS_DOWN => set_watch true (dr_count k) (redis_up_ k) k | OtherEvent => k end.

Definition kActivityCheckPeriod_ms_ : Z := 30000.
Inductive kafka_call := KafkaConnection (up : bool) | RedisUpdate_by_kafka.
Definition activity_due (k : KafkaProcessor) : bool :=
  (u64 (kafka_tick_ms_ k - kafka_start_ms_ k) <? kActivityCheckPeriod_ms_) &&
  (kActivityCheckPeriod_ms_ / 3 <=? kafka_elapsed_ms_ k) ||
  disableKafka k && (kActivityCheckPeriod_ms_ / 3 <=? kafka_elapsed_ms_ k) ||
  (kActivityCheckPeriod_ms_ <? kafka_elapsed_ms_ k).
(** [KafkaTimer]; [metadata]: the brokers answer.  [None]: no producer to ask. *)
Definition KafkaTimer (monotonic_usec : Z) (metadata : bool) (k : KafkaProcessor)
    : option (KafkaProcessor * list kafka_call) :=
  let new_tick_time := monotonic_usec / 1000 in
  let k := set_clock (u64 (kafka_elapsed_ms_ k + (new_tick_time - kafka_tick_ms_ k))) new_tick_time k in
  if activity_due k then
    let k := set_clock 0 (kafka_tick_ms_ k) k in
    let calls := [KafkaConnection (negb (dr_count k =? 0))] in
    let k := set_watch (disableKafka k) 0 (redis_up_ k) k in
    if disableKafka k then
      if negb (producer_ k) then None
      else if metadata && redis_up_ k then
        Some (set_watch false (dr_count k) (redis_up_ k) k, calls ++ [RedisUpdate_by_kafka])
      else Some (k, calls)
    else Some (k, calls)
  else Some (k, []).

(** ** [OpServerProxy] *)

(** The text of the scripts, the address of the collector and the port of Redis. *)
Class ProxySite := { script_text : lua_script → string; GetSelfIp : string; redis_port : Z }.

Record OpServerProxy := {
  impl_ : OpServerImpl;
  partitions_ : Z;
  kafka_proc_ : option KafkaProcessor;
  update_no_conn : Z; update_failed : Z; update_succeeded : Z;
  delete_no_conn : Z; delete_failed : Z; delete_succeeded : Z
}.
Definition set_impl (i : OpServerImpl) (p : OpServerProxy) : OpServerProxy := {|
  impl_ := i; partitions_ := partitions_ p; kafka_proc_ := kafka_proc_ p;
  update_no_conn := update_no_conn p; update_failed := update_failed p; update_succeeded := update_succeeded p;
  delete_no_conn := delete_no_conn p; delete_failed := delete_failed p; delete_succeeded := delete_succeeded p |}.
Definition set_kafka (k : option KafkaProcessor) (p : OpServerProxy) : OpServerProxy := {|
  impl_ := impl_ p; partitions_ := partitions_ p; kafka_proc_ := k;
  update_no_conn := update_no_conn p; update_failed := update_failed p; update_succeeded := update_succeeded p;
  delete_no_conn := delete_no_conn p; delete_failed := delete_failed p; delete_succeeded := delete_succeeded p |}.
(** [RedisUveUpdate], [RedisUveUpdateFail], [RedisUveDelete] and [RedisUveDeleteFail]. *)
Definition count_update (ok : bool) (p : OpServerProxy) : OpServerProxy := {|
  impl_ := impl_ p; partitions_ := partitions_ p; kafka_proc_ := kafka_proc_ p; update_no_conn := update_no_conn p;
  update_failed := if ok then update_failed p else u64 (update_failed p + 1);
  update_succeeded := if ok then u64 (update_succeeded p + 1) else update_succeeded p;
  delete_no_conn := delete_no_conn p; delete_failed := delete_failed p; delete_succeeded := delete_succeeded p |}.
Definition count_delete (ok : bool) (p : OpServerProxy) : OpServerProxy := {|
  impl_ := impl_ p; partitions_ := partitions_ p; kafka_proc_ := kafka_proc_ p;
  update_no_conn := update_no_conn p; update_failed := update_failed p; update_succeeded := update_succeeded p;
  delete_no_conn := delete_no_conn p;
  delete_failed := if ok then delete_failed p else u64 (delete_failed p + 1);
  delete_succeeded := if ok then u64 (delete_succeeded p + 1) else delete_succeeded p |}.

(** [OpServerImpl::KafkaPub]. *)
Definition OpServer_KafkaPub (pt : Z) (skey gen value : string) (p : OpServerProxy) : option OpServerProxy :=
  match kafka_proc_ p with
  | Some k => k ← KafkaPub pt skey gen value k; Some (set_kafka (Some k) p)
  | None => Some p
  end.

Section proxy.
Context `{CollectorProcess, ProxySite, JsonWriter}.

(** The key of an announcement. *)
Definition kafka_key (type : string) (g : generator) (key : string) : string :=
  key +:+ "|" +:+ type +:+ "|" +:+ generator_text g +:+ "|" +:+ GetSelfIp +:+ ":" +:+ to_decimal redis_port.
(** The document of an update: the attributes of an alarm, and the time. *)
Definition notification (type : string) (value : list (string * string)) (now : Z) : json :=
  JObject ((if (type =? "UVEAlarms")%string then (λ e, (c_str e.1, JString (c_str e.2))) <$> value else []) ++
           [("__T"%string, JInt now)]).
(** [UVENotif]; [now]: [UTCTimestampUsec]. *)
Definition UVENotif (type : string) (g : generator) (table barekey : string) (value : list (string * string))
    (deleted : bool) (now : Z) (p : OpServerProxy) : option (OpServerProxy * bool) :=
  let key := table +:+ ":" +:+ barekey in
  pt ← uve_partition (partitions_ p) table key;
  p ← OpServer_KafkaPub pt (c_str (kafka_key type g key)) (generator_text g)
        (if deleted then "" else c_str (write (notification type value now))) p;
  Some (p, true).

(** The arguments of an [EVAL]. *)
Definition eval_args (c : command) : list string :=
  ["EVAL"%string; c_str (script_text (cmd_script c)); to_decimal (Z.of_nat (length (cmd_keys c)))] ++ cmd_keys c ++ cmd_args c.

(** [UVEUpdate]; the object for the reply is allocated at [address]. *)
Definition UVEUpdate (type attr : string) (g : generator) (table barekey message : string) (seq ts : Z)
    (is_alarm : bool) (address : nat) (ret : bool) (p : OpServerProxy) : option (OpServerProxy * bool) :=
  let key := table +:+ ":" +:+ barekey in
  pt ← (if is_alarm then Some 0 else uve_partition (partitions_ p) table key);
  let u := {| rpi := address; source_ := g_source g; module_ := g_module g; instance_id_ := g_instance_id g;
              node_type_ := g_node_type g |} in
  c ← UVEUpdate_command type attr g key message seq ts pt is_alarm;
  '(i, ok) ← send_command (Some u) (eval_args c) ret (impl_ p);
  Some (count_update ok (set_impl i p), ok).
(** [UVEDelete]: nothing is called back. *)
Definition UVEDelete (type : string) (g : generator) (key : string) (is_alarm ret : bool) (p : OpServerProxy)
    : option (OpServerProxy * bool) :=
  c ← UVEDelete_command type g key is_alarm;
  '(i, ok) ← send_command None (eval_args c) ret (impl_ p);
  Some (count_delete ok (set_impl i p), ok).
(** [GetSeq]: on a connection of its own, when the other one is up. *)
Definition GetSeq (c : connection) (reply : option redis_reply) (p : OpServerProxy) : option (gmap string Z) :=
  if IsConnUp (to_ops_conn_ (impl_ p)) then SyncGetSeq c reply else None.

(** [boost::split] at a character. *)
Fixpoint split_at (d : ascii) (s : string) : list string :=
  match s with
  | EmptyString => [EmptyString]
  | String a s' =>
      if (a =? d)%char then EmptyString :: split_at d s'
      else match split_at d s' with v :: l => String a v :: l | [] => [String a EmptyString] end
  end.
(** One deleted UVE is announced: its key is cut at the colons and joined again. *)
Definition announce_deletion (g : generator) (p : OpServerProxy) (e : string * string) : option OpServerProxy :=
  let v := split_at ":" e.1 in
  table ← v !! 0%nat;
  barekey ← v !! 1%nat;
  fst <$> UVENotif e.2 g table (foldl (λ b x, b +:+ ":" +:+ x) barekey (drop 2 v)) [] true 0 p.
(** [DeleteUVEs]; [None]: an assertion fails, or the process exits. *)
Definition DeleteUVEs (c : connection) (reply : option redis_reply) (g : generator) (p : OpServerProxy)
    : option (OpServerProxy * bool) :=
  if negb (IsConnUp (to_ops_conn_ (impl_ p))) then Some (p, false)
  else
    match SyncDeleteUVEs c reply with
    | Deleted delReply =>
        p ← foldl (λ o e, p ← o; announce_deletion g p e) (Some p) delReply;
        Some (p, true)
    | _ => None
    end.
End proxy.

(** ** The partitions *)

Definition in_range (partitions : Z) (t : PartType) (pt : Z) : Prop :=
  (PartitionRange t partitions).1 <= pt < (PartitionRange t partitions).1 + (PartitionRange t partitions).2.

(** The ranges without wrap-around. *)
Lemma PartitionRange_big t n : 15 <= n < 2 ^ 32 →
  let p := n / 15 + 1 in let v := (n - 1 - p) / 3 in
  0 < p ∧ 0 < v ∧ 1 + p + 2 * v < n ∧
  PartitionRange t n = match t with
    | PART_TYPE_CNODES => (0, 1) | PART_TYPE_PNODES => (1, p) | PART_TYPE_VMS => (1 + p, v)
    | PART_TYPE_IFS => (1 + p + v, v) | _ => (1 + p + 2 * v, n - (1 + p + 2 * v)) end.
Proof.
  intros Hn p v. assert (n = 15 * (n / 15) + n `mod` 15 ∧ 0 <= n `mod` 15 < 15) as [? ?]
    by (split; [apply Z.div_mod; lia|apply Z.mod_pos_bound; lia]).
  assert (n - 1 - p = 3 * v + (n - 1 - p) `mod` 3 ∧ 0 <= (n - 1 - p) `mod` 3 < 3) as [? ?]
    by (split; [apply Z.div_mod; lia|apply Z.mod_pos_bound; lia]).
  assert (1 <= n / 15) by (apply Z.div_le_lower_bound; lia).
  assert (0 < p ∧ 0 < v ∧ 1 + p + 2 * v < n) as (? & ? & ?) by lia. split_and!; [done..|].
  unfold PartitionRange, kPartMinTotalCount, kPartCountCnodes. rewrite (proj2 (Z.ltb_ge n 15)) by lia. cbv zeta. fold p.
  unfold u32. rewrite (Z.mod_small (n - 1 - p)) by lia. fold v.
  destruct t; rewrite ?Z.mod_small by lia; try done; do 2 f_equal; lia.
Qed.

Lemma djb_hash_nonneg s : 0 <= djb_hash s.
Proof.
  unfold djb_hash. assert (∀ h, 0 <= h → 0 <= djb_hash_loop h s) as Hl; [|by apply Hl].
  induction s as [|c s IH]; intros h Hh; [done|]. simpl. apply IH. unfold u32. apply Z.mod_pos_bound. lia.
Qed.

(** C38.  From fifteen partitions on, the node types share them out: every type has
    at least one partition, and every partition belongs to exactly one type; below
    fifteen all types use all of them.  The partition of a UVE is one of its table's
    type; only with no partitions at all is there none. *)
Theorem partitions_shared_out partitions : 0 <= partitions < 2 ^ 32 →
  (15 <= partitions → ∀ pt, 0 <= pt < partitions → ∃ t, t ≠ PART_TYPE_INVALID ∧
     ∀ t', t' ≠ PART_TYPE_INVALID → in_range partitions t' pt ↔ t' = t) ∧
  (∀ t pt, in_range partitions t pt → 0 <= pt < partitions) ∧
  (partitions = 0 ↔ ∃ t, ∀ pt, ~ in_range partitions t pt) ∧
  ∀ table key, match uve_partition partitions table key with
    | Some pt => in_range partitions (part_type table) pt
    | None => partitions = 0
    end.
Proof.
  intros Hn.
  assert (∀ t, 0 <= (PartitionRange t partitions).1 ∧ (0 < partitions → 0 < (PartitionRange t partitions).2) ∧
    0 <= (PartitionRange t partitions).2 ∧ (PartitionRange t partitions).1 + (PartitionRange t partitions).2 <= partitions) as Hr.
  { intros t. destruct (decide (15 <= partitions)) as [Hb|Hb].
    - destruct (PartitionRange_big t partitions) as (? & ? & ? & ->); [lia|]. destruct t; simpl; lia.
    - unfold PartitionRange. rewrite (proj2 (Z.ltb_lt _ _)) by (unfold kPartMinTotalCount; lia). simpl. lia. }
  split_and!.
  - intros Hb pt Hpt. unfold in_range.
    pose proof (λ t, proj2 (proj2 (proj2 (PartitionRange_big t partitions (conj Hb (proj2 Hn)))))) as Hval.
    destruct (PartitionRange_big PART_TYPE_OTHER partitions) as (Hp & Hv & Hlt & _); [lia|]. cbv zeta in Hval.
    set (p := partitions / 15 + 1) in *. set (v := (partitions - 1 - p) / 3) in *. clearbody p v.
    assert (pt < 1 ∨ 1 <= pt < 1 + p ∨ 1 + p <= pt < 1 + p + v ∨ 1 + p + v <= pt < 1 + p + 2 * v ∨ 1 + p + 2 * v <= pt) as Hc by lia.
    destruct Hc as [?|[?|[?|[?|?]]]];
      [exists PART_TYPE_CNODES|exists PART_TYPE_PNODES|exists PART_TYPE_VMS|exists PART_TYPE_IFS|exists PART_TYPE_OTHER];
      (split; [done|]); intros t' Ht'; rewrite Hval; destruct t'; simpl; (split; [|try done]); first [done|lia].
  - intros t pt Ht. unfold in_range in Ht. specialize (Hr t). lia.
  - split.
    + intros ->. exists PART_TYPE_OTHER. intros pt Ht. unfold in_range in Ht. specialize (Hr PART_TYPE_OTHER). lia.
    + intros [t Ht]. destruct (decide (partitions = 0)); [done|]. specialize (Hr t).
      destruct (Ht (PartitionRange t partitions).1). unfold in_range. lia.
  - intros table key. unfold uve_partition. specialize (Hr (part_type table)). unfold in_range.
    destruct (PartitionRange (part_type table) partitions) as [b n]. simpl in Hr. destruct (n =? 0) eqn:E; [lia|].
    apply Z.eqb_neq in E. pose proof (djb_hash_nonneg key). pose proof (Z.mod_pos_bound (djb_hash key) n). simpl.
    unfold u32. rewrite Z.mod_small; lia.
Qed.

(** ** Deletions are announced *)

Lemma split_at_join s d : match split_at d s with
  | v :: l => foldl (λ b x, b +:+ String d EmptyString +:+ x) v l = s
  | [] => False
  end.
Proof.
  assert (∀ l b c, foldl (λ b x, b +:+ String d EmptyString +:+ x) (String c b) l =
    String c (foldl (λ b x, b +:+ String d EmptyString +:+ x) b l)) as Hc.
  { induction l as [|x l IH]; intros b c; [done|]. simpl. by rewrite <- IH. }
  induction s as [|a s IH]; [done|]. simpl. destruct (a =? d)%char eqn:E.
  - apply Ascii.eqb_eq in E as ->. destruct (split_at d s) as [|v l]; [done|]. simpl.
    change (EmptyString +:+ String d EmptyString +:+ v) with (String d v). rewrite Hc. by rewrite IH.
  - destruct (split_at d s) as [|v l]; [done|]. rewrite Hc. by rewrite IH.
Qed.
Lemma split_key key tbl : before_colon key = Some tbl →
  ∃ w l, split_at ":" key = tbl :: w :: l ∧ tbl +:+ ":" +:+ foldl (λ b x, b +:+ ":" +:+ x) w l = key.
Proof.
  revert tbl. induction key as [|a key IH]; intros tbl; simpl; [done|]. destruct (a =? ":")%char eqn:E.
  - intros [= <-]. apply Ascii.eqb_eq in E as ->. pose proof (split_at_join key ":") as Hj.
    destruct (split_at ":" key) as [|w l]; [done|]. exists w, l. split; [done|]. by rewrite Hj.
  - destruct (before_colon key) as [t|]; [|done]. intros [= <-]. destruct (IH t eq_refl) as (w & l & -> & Hj).
    exists w, l. split; [done|]. exact (f_equal (String a) Hj).
Qed.

(** The partition of a UVE by its key alone. *)
Definition key_partition (partitions : Z) (key : string) : Z :=
  default 0 (table ← before_colon key; uve_partition partitions table key).

Lemma set_kafka_same p : set_kafka (kafka_proc_ p) p = p.
Proof. by destruct p. Qed.

Section announcements.
Context `{CollectorProcess, ProxySite, JsonWriter}.

(** There are partitions, and a processor that produces has a topic for each of
    them ([started_topics]). *)
Record kafka_sound (p : OpServerProxy) : Prop := {
  ks_partitions : 0 < partitions_ p < 2 ^ 32;
  ks_topics k : kafka_proc_ p = Some k → producer_ k = true → length (topic_ k) = Z.to_nat (partitions_ p)
}.
(** Announcements are written: there is a processor, with a producer, and the
    brokers were not lost. *)
Definition publishes (p : OpServerProxy) : bool :=
  match kafka_proc_ p with Some k => negb (disableKafka k) && producer_ k | None => false end.
(** What was announced. *)
Definition announced (p : OpServerProxy) : list kafka_message := from_option produced [] (kafka_proc_ p).
(** What announces the deletion of a UVE. *)
Definition deletion_message (p : OpServerProxy) (g : generator) (e : string * string) : kafka_message := {|
  km_topic := default "" (topics ← topic_ <$> kafka_proc_ p; topics !! Z.to_nat (key_partition (partitions_ p) e.1));
  km_value := ""; km_key := c_str (kafka_key e.2 g e.1); km_gen := c_str (generator_text g) |}.
(** The proxy after some announcements. *)
Definition announce (msgs : list kafka_message) (p : OpServerProxy) : OpServerProxy :=
  if publishes p then set_kafka ((λ k, foldl (flip produce) k msgs) <$> kafka_proc_ p) p else p.

Lemma announce_nil p : announce [] p = p.
Proof. unfold announce, publishes. destruct p as [? ? [k|]]; simpl; [|done]. by destruct (_ && _). Qed.
Lemma announce_cons m msgs p : announce (m :: msgs) p = announce msgs (announce [m] p).
Proof. unfold announce, publishes. destruct p as [? ? [k|]]; simpl; [|done]. by destruct k as [? [] ? []]. Qed.
Lemma announce_keeps m g e p : deletion_message (announce m p) g e = deletion_message p g e.
Proof.
  unfold announce, publishes, deletion_message. destruct p as [? ? [k|]]; simpl; [|done].
  destruct (_ && _); [|done]. simpl. do 2 f_equal. revert k. induction m as [|x m IH]; intros k; [done|]. simpl. by rewrite IH.
Qed.
Lemma announce_sound m p : kafka_sound p → kafka_sound (announce [m] p).
Proof.
  intros [K1 K2]. unfold announce, publishes. destruct p as [i n [k|]]; simpl in *; [|done].
  destruct (_ && _) eqn:E; [|done]. split; [done|]. simpl. intros k' [= <-]. simpl. by apply K2.
Qed.
Lemma announced_by msgs p : announced (announce msgs p) = announced p ++ if publishes p then msgs else [].
Proof.
  unfold announce, announced, publishes. destruct p as [i n [k|]]; simpl; [|done].
  destruct (_ && _); simpl; [|by rewrite app_nil_r]. revert k. induction msgs as [|m msgs IH]; intros k; simpl; [by rewrite app_nil_r|].
  rewrite IH. simpl. by rewrite <- app_assoc.
Qed.

Lemma announce_one p g e : kafka_sound p → is_Some (before_colon e.1) →
  announce_deletion g p e = Some (announce [deletion_message p g e] p).
Proof.
  intros [K5 K4] [tbl Ht]. destruct e as [key t]. simpl in Ht.
  destruct (split_key key tbl Ht) as (w & l & Es & Ej). unfold announce_deletion. cbn [fst snd]. rewrite Es.
  cbn [mbind option_bind lookup list_lookup drop]. unfold UVENotif. rewrite drop_0, Ej.
  destruct (partitions_shared_out (partitions_ p)) as (_ & Hin & _ & Hp); [lia|]. specialize (Hp tbl key).
  assert (key_partition (partitions_ p) key = default 0 (uve_partition (partitions_ p) tbl key)) as Ek
    by (unfold key_partition; by rewrite Ht).
  destruct (uve_partition (partitions_ p) tbl key) as [pt|]; [|lia]. apply Hin in Hp. cbn [mbind option_bind].
  unfold OpServer_KafkaPub, announce, publishes, deletion_message. destruct (kafka_proc_ p) as [k|] eqn:Ep; [|done].
  assert (set_kafka (Some k) p = p) as Eid by (rewrite <- Ep; apply set_kafka_same).
  unfold KafkaPub. destruct (disableKafka k); cbn [negb andb mbind option_bind fmap option_fmap option_map fst]; [by rewrite Eid|].
  destruct (producer_ k) eqn:Epr; cbn [mbind option_bind fmap option_fmap option_map fst]; [|by rewrite Eid].
  specialize (K4 k eq_refl Epr). destruct (lookup_lt_is_Some_2 (topic_ k) (Z.to_nat pt)) as [topic Et]; [lia|].
  rewrite Et. cbn [fst snd mbind option_bind fmap option_fmap option_map]. rewrite Ek. simpl. by rewrite Et.
Qed.
Lemma announce_all g ps : ∀ p, kafka_sound p → Forall (λ e, is_Some (before_colon e.1)) ps →
  foldl (λ o e, p ← o; announce_deletion g p e) (Some p) ps = Some (announce (deletion_message p g <$> ps) p).
Proof.
  induction ps as [|e ps IH]; intros p Hk Hps; [by rewrite announce_nil|].
  apply Forall_cons in Hps as [He Hps]. cbn [foldl mbind option_bind]. rewrite (announce_one p g e Hk He).
  rewrite (IH _ (announce_sound _ _ Hk) Hps), fmap_cons, (announce_cons _ (deletion_message p g <$> ps)). do 2 f_equal.
  apply list_fmap_ext. intros _ x _. apply announce_keeps.
Qed.

Context `{Redis, !RedisLaws, CJson} (alarm_type : string → bool).

(** The UVEs of a generator: keys and types. *)
Definition uves_of (g : generator) (a : gmap (generator * string * string) uve) : list (string * string) :=
  (λ e, (e.1.2, e.1.1.2)) <$> filter (λ e, e.1.1.1 = g) (map_to_list a).
Lemma elem_of_uves_of g a key t : (key, t) ∈ uves_of g a ↔ is_Some (a !! (g, t, key)).
Proof.
  unfold uves_of. rewrite list_elem_of_fmap. split.
  - intros ([[[g' t'] key'] u] & [= -> ->] & [Hg Hin%elem_of_map_to_list]%list_elem_of_filter). simpl in Hg. subst g'. by exists u.
  - intros [u Hu]. exists ((g, t, key), u). split; [done|]. apply list_elem_of_filter. split; [done|]. by apply elem_of_map_to_list.
Qed.
Lemma NoDup_uves_of g a : NoDup (uves_of g a).
Proof.
  unfold uves_of. apply NoDup_fmap_2_strong; [|apply NoDup_filter, NoDup_map_to_list].
  intros [[[g1 t1] k1] u1] [[[g2 t2] k2] u2] [E1 E3%elem_of_map_to_list]%list_elem_of_filter [E2 E4%elem_of_map_to_list]%list_elem_of_filter [= -> ->].
  simpl in E1, E2. subst. congruence.
Qed.

(** C35.  When a generator has gone, and the collector's connection to Redis is up
    and Redis answers, every UVE it had in Redis is announced to Kafka as deleted,
    once, under its key and on the partition that its updates were given; nothing
    else is announced, and no assertion fails.  Without a producer, or after all
    brokers were lost, the UVEs are deleted and nothing is announced.  With the
    connection down nothing is asked of Redis and nothing is announced; and when
    Redis cannot be reached or refuses, the process ends.  [l] is whatever came
    before. *)
Theorem deleted_uves_announced l g p : let part := key_partition (partitions_ p) in
  Forall event_ok l → generator_plain g → kafka_sound p →
  ∃ d d' r, exec_all alarm_type part l ∅ = Some d ∧ exec alarm_type part (RedisUve.DeleteUVEs g) d = Some (d', r) ∧
    if IsConnUp (to_ops_conn_ (impl_ p)) then
      (∃ p' msgs, DeleteUVEs Connected (Some r) g p = Some (p', true) ∧ p' = set_kafka (kafka_proc_ p') p ∧
         announced p' = announced p ++ msgs ∧
         Permutation msgs (if publishes p then deletion_message p g <$> uves_of g (spec_run l).1 else [])) ∧
      ∀ c reply, c ≠ Connected ∨ reply = None ∨ reply = Some REDIS_REPLY_ERROR → DeleteUVEs c reply g p = None
    else ∀ c reply, DeleteUVEs c reply g p = Some (p, false).
Proof.
  intros part Hl Hg Hk.
  destruct (exec_run alarm_type part l ∅ (∅, ∅) no_types (stored_empty alarm_type part) listed_empty Hl) as (d & E & Hst & _).
  fold (spec_run l) in Hst. destruct (spec_run l) as [a gens] eqn:Es. simpl in Hst.
  destruct (exec_step alarm_type part (RedisUve.DeleteUVEs g) d a gens Hst Hg) as (d' & r & Er & _ & _ & ps & Eps & Hnd & Hps).
  assert (Forall (λ e, is_Some (before_colon e.1)) ps) as Hb.
  { apply Forall_forall. intros [key t] [u Hu]%Hps. destruct Hst as [(L & _ & Hr & _) _].
    by destruct (rp_ok _ _ _ _ _ Hr _ _ _ _ Hu) as (_ & _ & ? & _). }
  exists d, d', r. split; [done|]. split; [done|].
  unfold DeleteUVEs. destruct (IsConnUp _); cbn [negb]; [|done]. split.
  - rewrite Eps, (announce_all g ps p Hk Hb). eexists _, _. split; [done|].
    split; [|split; [apply announced_by|]].
    + unfold announce. destruct (publishes p); [done|by rewrite set_kafka_same].
    + destruct (publishes p); [|done]. apply fmap_Permutation. simpl. apply NoDup_Permutation; [done|apply NoDup_uves_of|].
      intros [key t]. by rewrite Hps, elem_of_uves_of.
  - intros c reply Hc. destruct c; [done|done|]. destruct reply as [[]|]; try done; naive_solver.
Qed.

(** ** Updates *)

Lemma before_colon_join table barekey : colonless table → before_colon (table +:+ ":" +:+ barekey) = Some table.
Proof.
  unfold colonless. intros Ht. induction table as [|a table IH]; [done|]. simpl in *. destruct (a =? ":")%char; [done|].
  simpl in Ht. by rewrite IH.
Qed.
Lemma key_partition_join partitions table barekey : colonless table →
  key_partition partitions (table +:+ ":" +:+ barekey) = default 0 (uve_partition partitions table (table +:+ ":" +:+ barekey)).
Proof.
  intros Ht. unfold key_partition. by rewrite before_colon_join.
Qed.
Lemma command_of_join partitions table barekey type attr g msg seq ts : colonless table → 0 < partitions < 2 ^ 32 →
  (pt ← (if alarm_type type then Some 0 else uve_partition partitions table (table +:+ ":" +:+ barekey));
   UVEUpdate_command type attr g (table +:+ ":" +:+ barekey) msg seq ts pt (alarm_type type)) =
  command_of alarm_type (key_partition partitions) (Update g type attr (table +:+ ":" +:+ barekey) msg seq ts).
Proof.
  intros Ht Hp. unfold command_of. destruct (alarm_type type); [done|]. rewrite key_partition_join by done.
  destruct (partitions_shared_out partitions) as (_ & _ & _ & Hu); [lia|]. specialize (Hu table (table +:+ ":" +:+ barekey)).
  destruct (uve_partition _ _ _); [done|lia].
Qed.

(** C37.  An update of a UVE is sent as the command that the store gives its meaning
    to, on the partition of its key, if the connection is up, and not at all
    otherwise; whatever the answer the object for it is deleted, and the answer nil
    closes the session of the generator, which then registers anew. *)
Theorem update_sent p g type attr table barekey msg seq ts address ret c h :
  colonless table → 0 < partitions_ p < 2 ^ 32 → context_ (to_ops_conn_ (impl_ p)) = Some c →
  live (impl_ p) !! c = Some h →
  let u := {| rpi := address; source_ := g_source g; module_ := g_module g; instance_id_ := g_instance_id g;
              node_type_ := g_node_type g |} in
  let ok := IsConnUp (to_ops_conn_ (impl_ p)) && ret in
  ∃ p' cmd, UVEUpdate type attr g table barekey msg seq ts (alarm_type type) address ret p = Some (p', ok) ∧
    command_of alarm_type (key_partition (partitions_ p)) (Update g type attr (table +:+ ":" +:+ barekey) msg seq ts) = Some cmd ∧
    effects (impl_ p') = effects (impl_ p) ++ (if ok then [Sent c (ArgCmd (eval_args cmd))] else []) ∧
    (under_way <$> live (impl_ p') !! c) = Some (under_way h ++ if ok then [Some u] else []) ∧
    (update_succeeded p', update_failed p') =
      (if ok then (u64 (update_succeeded p + 1), update_failed p) else (update_succeeded p, u64 (update_failed p + 1))) ∧
    ∀ r, ok = true → r ≠ ReplyError → ∃ s, processorCallback (Some r) (Some u) (impl_ p') = Some s ∧ (address ∉ allocated s) ∧
      effects s = effects (impl_ p') ++
        (match r with
        | ReplyNil => [CloseGeneratorSession_called (g_source g) (g_module g) (g_instance_id g) (g_node_type g)]
        | _ => []
        end).
Proof.
  intros Ht Hp Ec Eh u ok. pose proof (command_of_join (partitions_ p) table barekey type attr g msg seq ts Ht Hp) as Ecmd.
  destruct (command_of _ _ _) as [cmd|] eqn:Ecom.
  2:{ exfalso. simpl in Ecom. unfold UVEUpdate_command in Ecom. rewrite (table_of_key _ table) in Ecom; [done|].
      by apply before_colon_join. }
  apply bind_Some in Ecmd as (pt & Ept & Ecmd). unfold UVEUpdate. rewrite Ept. cbn [mbind option_bind]. rewrite Ecmd.
  cbn [mbind option_bind]. fold u. unfold send_command, RedisAsyncCommand. cbn [conn set_allocated to_ops_conn_].
  subst ok. destruct (IsConnUp (to_ops_conn_ (impl_ p))); cbn [negb andb].
  2:{ cbn [mbind option_bind]. eexists _, cmd. split; [done|]. split; [done|]. split_and!; simpl; rewrite ?app_nil_r; try done. by rewrite Eh. }
  rewrite Ec. cbn [mbind option_bind]. destruct ret.
  2:{ cbn [mbind option_bind]. eexists _, cmd. split; [done|]. split; [done|]. split_and!; simpl; rewrite ?app_nil_r; try done. by rewrite Eh. }
  cbn [live set_allocated]. rewrite Eh. cbn [mbind option_bind]. eexists _, cmd. split; [done|]. split; [done|].
  split_and!; simpl; [done|by rewrite lookup_insert_eq|done|].
  intros r _ Hr. unfold delete_rpi. destruct r; try done; simpl; rewrite decide_True by (apply elem_of_union; left; by apply elem_of_singleton);
    (eexists; split; [done|]; split; [simpl; intros [_ []]%elem_of_difference; by apply elem_of_singleton|simpl; rewrite ?app_nil_r; done]).
Qed.
End announcements.

(** ** The watch over Kafka *)

Lemma start_topics_length f n : ∀ i k k', start_topics f n i k = (k', true) →
  length (topic_ k') = (length (topic_ k) + n)%nat ∧ disableKafka k' = disableKafka k ∧ (producer_ k = true → producer_ k' = true).
Proof.
  induction n as [|n IH]; intros i k k'; simpl; [intros [= <-]; split_and!; [lia|done|done]|].
  destruct (f i); [|done]. intros E. destruct (IH _ _ _ E) as (-> & -> & Hp). simpl. rewrite List.length_app. simpl.
  split_and!; [lia|done|auto].
Qed.
(** A processor that started has a topic for every partition. *)
Lemma started_topics topic utc created f partitions k : 0 <= partitions →
  KafkaProcessor_ctor topic true utc created f partitions = Some k →
  length (topic_ k) = Z.to_nat partitions ∧ producer_ k = true ∧ disableKafka k = false.
Proof.
  intros Hp. unfold KafkaProcessor_ctor, StartKafka. simpl. destruct created; [|done].
  destruct (start_topics _ _ _ _) as [k' []] eqn:E; [|done]. intros [= ->].
  destruct (start_topics_length _ _ _ _ _ E) as (-> & -> & Hpr). simpl in *. auto.
Qed.

(** The check that is meant to come more often after the start never does: the time
    of the start is that of the calendar, the ticks count from the boot. *)
Lemma startup_check_never k : kafka_tick_ms_ k < kafka_start_ms_ k → kafka_start_ms_ k - kafka_tick_ms_ k <= 2 ^ 64 - 30000 →
  activity_due k = disableKafka k && (10000 <=? kafka_elapsed_ms_ k) || (30000 <? kafka_elapsed_ms_ k).
Proof.
  intros H1 H2. unfold activity_due, kActivityCheckPeriod_ms_.
  assert (u64 (kafka_tick_ms_ k - kafka_start_ms_ k) = kafka_tick_ms_ k - kafka_start_ms_ k + 2 ^ 64) as ->.
  { unfold u64. rewrite <- (Z.mod_add _ 1) by lia. rewrite Z.mod_small; lia. }
  rewrite (proj2 (Z.ltb_ge _ 30000)) by lia. done.
Qed.
(** Announcements are dropped after all brokers were lost, until a check finds them
    and Redis up; the generators then send their UVEs again. *)
Lemma kafka_recovers now metadata k (k1 := event_cb ERR__ALL_BROKERS_DOWN k)
    (elapsed := u64 (kafka_elapsed_ms_ k + (now / 1000 - kafka_tick_ms_ k))) : producer_ k = true → 10000 <= elapsed →
  (∀ pt key gen v, KafkaPub pt key gen v k1 = Some k1) ∧
  ∃ k2, KafkaTimer now metadata k1 = Some (k2, KafkaConnection (negb (dr_count k =? 0)) ::
      (if metadata && redis_up_ k then [RedisUpdate_by_kafka] else [])) ∧
    disableKafka k2 = negb (metadata && redis_up_ k) ∧ dr_count k2 = 0 ∧ kafka_elapsed_ms_ k2 = 0.
Proof.
  intros Hp He. split; [done|].
  assert (activity_due (set_clock (u64 (kafka_elapsed_ms_ k1 + (now / 1000 - kafka_tick_ms_ k1))) (now / 1000) k1) = true) as Hd.
  { unfold activity_due. apply orb_true_iff. left. apply orb_true_iff. right. apply andb_true_iff. split; [done|]. by apply Z.leb_le. }
  unfold KafkaTimer. cbv zeta. rewrite Hd. subst k1. simpl. rewrite Hp. simpl.
  destruct (metadata && redis_up_ k); by eexists.
Qed.

(** ** Examples *)

Module ProxyExamples.
#[local] Existing Instance ConcreteRedis.instance.
#[local] Existing Instance ConcreteRedis.laws.
#[local] Existing Instance RedisExamples.cjson.
#[local] Existing Instance RedisExamples.process.
#[local] Existing Instance ConnectionExamples.base64.
#[local] Existing Instance ConnectionExamples.parser.
#[local] Instance site : ProxySite := {| script_text _ := "script"; GetSelfIp := "10.0.0.1"; redis_port := 6379 |}.
#[local] Instance writer : JsonWriter := {| write _ := "{}" |}.
Import RedisExamples ConnectionExamples.

Lemma partitions_shared_out_witness : 0 <= 30 < 2 ^ 32 ∧ uve_partition 30 "ObjectVRouter" vr = Some 3 ∧
  in_range 30 PART_TYPE_PNODES 3.
Proof.
  split; [lia|]. split; [vm_compute; reflexivity|].
  destruct (partitions_shared_out 30) as (_ & _ & _ & Hu); [lia|]. exact (Hu "ObjectVRouter"%string vr).
Defined.

Definition up : OpServerImpl := default (Build_OpServerImpl "" true (RedisAsyncConnection_ctor false) (RedisAsyncConnection_ctor false)
  ∅ RAC_DOWN false ∅ [] ∅ []) (started (Connecting 1 true) ConnectError
  [ EvConnected 1 true; EvPosted 0 ConnectError true; EvReply 1 ReplyStatus; EvPosted 0 ConnectError true ]).
Definition kafka : KafkaProcessor := default
  {| topicpre_ := ""; producer_ := false; topic_ := []; disableKafka := true; dr_count := 0; redis_up_ := false;
     kafka_elapsed_ms_ := 0; kafka_start_ms_ := 0; kafka_tick_ms_ := 0; produced := [] |}
  (KafkaProcessor_ctor "-uve-topic-" true 1600000000000000 true (λ _, true) 30).
Definition proxy : OpServerProxy := {|
  impl_ := up; partitions_ := 30; kafka_proc_ := Some kafka; update_no_conn := 0; update_failed := 0; update_succeeded := 0;
  delete_no_conn := 0; delete_failed := 0; delete_succeeded := 0 |}.

Lemma deleted_uves_announced_witness : Forall event_ok history ∧ publishes proxy = true ∧
  deletion_message proxy agent (vr, "VrouterAgent"%string) = {| km_topic := "-uve-topic-3"; km_value := "";
    km_key := "ObjectVRouter:host|VrouterAgent|host:Compute:agent:0|10.0.0.1:6379"; km_gen := "host:Compute:agent:0" |} ∧
  ∃ d d' r p', exec_all RedisExamples.alarm_type (key_partition (partitions_ proxy)) history ∅ = Some d ∧
    exec RedisExamples.alarm_type (key_partition (partitions_ proxy)) (RedisUve.DeleteUVEs agent) d = Some (d', r) ∧
    DeleteUVEs Connected (Some r) agent proxy = Some (p', true).
Proof.
  split; [exact history_ok|]. split; [vm_compute; reflexivity|]. split; [vm_compute; reflexivity|].
  destruct (deleted_uves_announced RedisExamples.alarm_type history agent proxy) as (d & d' & r & E1 & E2 & E3).
  - exact history_ok.
  - apply plain_ok. reflexivity.
  - split; [cbn [partitions_ proxy]; lia|]. intros k Ek _.
    apply (inj Some kafka k) in Ek as <-. vm_compute. reflexivity.
  - assert (IsConnUp (to_ops_conn_ (impl_ proxy)) = true) as Eu by (vm_compute; reflexivity). rewrite Eu in E3.
    destruct E3 as [(p' & msgs & E3 & _) _]. exists d, d', r, p'. split; [exact E1|]. split; [exact E2|exact E3].
Defined.

Lemma update_sent_witness : ∃ p' cmd,
  UVEUpdate "VrouterAgent" "cpu" agent "ObjectVRouter" "host" "<cpu>1</cpu>" 5 100 false 7 true proxy = Some (p', true) ∧
  effects (impl_ p') = effects (impl_ proxy) ++ [Sent 1 (ArgCmd (eval_args cmd))] ∧ nth 10 (cmd_args cmd) ""%string = "3"%string.
Proof.
  destruct (update_sent RedisExamples.alarm_type proxy agent "VrouterAgent" "cpu" "ObjectVRouter" "host" "<cpu>1</cpu>" 5 100 7 true
    1 {| established := true; under_way := [] |}) as (p' & cmd & E1 & E2 & E3 & _).
  - reflexivity.
  - cbn [partitions_ proxy]. lia.
  - vm_compute. reflexivity.
  - vm_compute. reflexivity.
  - assert (IsConnUp (to_ops_conn_ (impl_ proxy)) = true) as Eu by (vm_compute; reflexivity). rewrite Eu in E1, E3.
    exists p', cmd. split; [exact E1|]. split; [exact E3|]. vm_compute in E2. injection E2 as <-. reflexivity.
Defined.
End ProxyExamples.
